(* ===== verification/_CoqProject ===== *)
-Q . S2P
Prelude.v
GoBase.v
Sha256.v
Base64.v
Json.v
Identifier.v
Roles.v
Schema.v
Tx.v
TxLogic.v
Wp.v
Sample.v
AuditLog.v
Paging.v
Jobs.v
Membership.v
Grants.v
Recent.v
Sessions.v
Challenges.v
Invitations.v
Login.v
Workspace.v
Enqueue.v
Connection.v
Provider.v
Reads.v
Intent.v
Prog.v
AesGcm.v
Envelope.v
Custody.v
Vault.v
Scan.v
Publish.v
Inventory.v
Generations.v
Budget.v
Endpoint.v
Outbound.v
Reviews.v
History.v
Browse.v
Listings.v
Dispatch.v
Control.v
Machine.v
Steps.v
Refine.v
Stranded.v
Frames.v
JsonInj.v
Facts.v
Paths.v
Http.v
Content.v
Routes.v
Gateway.v
Runner.v
Config.v
Oidc.v
Migrations.v
System.v
Execution.v
Leases.v
Safety.v
Findings.v
Contracts.v
Adapter.v
Hetzner.v
DigitalOcean.v
Vultr.v
Contabo.v
Ports.v
Answers.v
ReadOnly.v
Guard.v
