(* ===== verification/Prelude.v ===== *)
(** * Sama: a verification development of the Go backend

    Sama is a self-hosted control plane for servers at several hosting
    providers.  Members of a workspace store provider credentials, read one
    inventory across providers, and ask for power and snapshot actions.  The
    backend is a Go process over PostgreSQL; every decision is taken inside a
    database transaction, and a provider is called between transactions.  This
    library models [src/backend] and proves what makes it correct.  Paths
    below are relative to [src/backend/internal] unless they say otherwise.

    ** How the parts interact

    A request passes the bounds of [httpapi], resolves a session ([identity]),
    reads membership and grants ([workspace]) and the connection
    ([connection]), and then writes.  An
    action is reviewed and confirmed ([operation]); the confirmation reserves
    its target and queues a job ([job]).  A worker claims the job under a
    lease, records that it is about to dispatch, calls the provider adapter
    ([provider]) through the outbound limits ([platform/outbound]) with the
    decrypted credential ([platform/credentials]), records the receipt, and
    polls until the provider's state settles the operation.  Inventory
    refreshes ([inventory]) are jobs too: they scan pages into staging tables
    and publish them in one transaction.  Every write appends to the audit
    history ([audit]).  The environment configures the process and a migration
    run prepares its database ([platform]).

    ** Foundations

    - [Prelude]: results, lists, options, arithmetic, the tactics and hint
      databases everything shares.
    - [GoBase]: sentinel errors, instants, durations, byte strings and the
      library functions on them.  [Sha256], [Base64], [AesGcm]: the parts of
      the Go library the security properties rest on, written out and tested
      on published vectors.  [Json] writes JSON strings, [JsonInj] shows that
      an object's text determines its members.  [Identifier]: [identifier/uuid.go] over an
      interface to the uuid package, with an instance.
    - [Schema]: the tables of [src/backend/migrations]: one record per row, one
      finite map per table; keys, unique indexes, foreign keys and CHECKs are
      part of each modelled statement.
    - [Tx]: the monad [txm] of Go code that talks to PostgreSQL.  A round trip
      may fail before it takes effect or after it with the acknowledgement
      lost, as a schedule of the environment decides, so that every theorem
      about a handler is about all fault schedules.  [TxLogic] and [Wp] are its
      program logic: invariants over the committed and the open view, and
      weakest preconditions with one rule per operation ([TxSpec] and
      [contract]).
    - [Prog]: what one goroutine does: transactions and calls to the outside
      in order.  Anything may be committed between two of them.
    - [Sample]: a small installation on which hypotheses are shown to hold.

    ** Components, and where to find them

    - [audit/append.go]: [AuditLog].
    - Reads: [Paging] is the keyset reader of the listings, [Reads] the
      projections of workspaces, members, grants, connections and the
      overview, [History] the audit and operation histories, [Browse] the
      inventory; [Listings] proves what pages and projections promise.
    - [workspace]: [Roles] (ranks and ceilings), [Membership]
      ([membership.go], [change_member.go], [transfer.go], [settings.go],
      [create.go], [bootstrap.go]), [Grants], [Invitations], and [Workspace],
      the step relation over every writer of authority.
    - [identity]: [Recent], [Sessions], [Challenges]; [Login] is the
      transaction of [httpapi/callback.go]; [Oidc] is [oidc.go] over what
      discovery answers.
    - [httpapi]: [Paths] (paths as segments), [Http] (requests, their bounds,
      origin and CSRF policy, client addresses), [Routes] (the table of
      [readers.go] and every handler up to the service call it admits),
      [Gateway] (sessions, [Protect], readiness, files, [NewAppHandler], and
      the whole of a request in [serve]).  [Answers], [ReadOnly] and [Guard]
      prove what a request may be answered and may do.
    - [job]: [Jobs]; [Leases] proves what leases promise; [Runner] is the loop
      of one worker of [runner.go] with the handlers [src/backend/cmd/sama/main.go]
      registers.
    - [platform]: [Config] is [config.go], [Migrations] is [migrations.go]
      over an abstract schema.
    - [inventory]: [Enqueue] (admission), [Scan], [Publish]; [Inventory] and
      [Generations] prove their contracts and the invariant of publication.
    - [connection]: [Connection] (guards, disabling, typed credentials,
      preview limiter) and [Custody] (preview, saving, rotation, rewrapping).
    - [platform/credentials]: [Envelope], over the class [AEAD] of ciphers,
      of which [AesGcm] gives the program's.
    - [platform/outbound]: [Budget] ([budget.go] as a heap, a step per stretch
      under the mutex), [Endpoint] ([endpoint.go], [dial.go]) and [Outbound]
      ([response.go], [retry_after.go], the transports, and the helpers of
      [provider/http.go], [power.go], [snapshot_http.go]).
    - [provider]: [Provider], the values that cross the adapter ports;
      [Facts] ([http.go], [power.go], [snapshot_review.go]: strict queries,
      native numbers, and the reviewed facts as JSON with their fingerprint);
      [Adapter], the monad [net] of an adapter's calls, with the classes
      [Port_ok] (what the worker may assume of a port) and [Descends] (what a
      walk may assume of a page reader); [Hetzner], [DigitalOcean], [Vultr]
      and [Contabo], a file per adapter with its instances of both; [Ports]
      states what they promise the worker and the scan.
    - [operation]: [Intent] (pure decisions), [Reviews] (prepare and confirm),
      [Dispatch] (the worker), [Control] (cancel, recheck, release, expiry,
      recovery gate, pruning).

    ** The specification of the operation component

    [Machine] is an abstract machine: what may happen to operations, their
    events and their reservations, as a step relation with its invariants,
    with no SQL, jobs or faults.  [Steps] and [Refine] show that every
    transaction of the component, however it fails, commits a sequence of
    machine steps.  [Frames] shows that the other components leave that state
    alone.  [System] composes everything: any number of threads, each a
    program of [Prog] (an entry point, a whole HTTP request of [Gateway.serve]
    or a whole worker of [Runner]), interleaved step by step with crashes, under any
    answers; [Safety] reads off what holds of every reachable state.
    [Execution] runs programs of the system on the sample.  [Contracts] gives
    the functional contracts of the entry points; [Stranded] and [Findings]
    prove that disabling a connection can strand a submitted operation.

    ** What the theorems show

    - Of every execution of the system ([Safety]): a mutation is submitted at
      most once per operation and never without recorded authority; states
      follow the allowed transitions and their events form a complete,
      gap-free history; a target has at most one unfinished operation and its
      reservation lasts exactly as long; what an operation was accepted for
      never changes.
    - Of a request to a provider ([Outbound], [Budget], [Endpoint]): a
      mutating request leaves the process at most once whatever the network
      does, reads are retried within bounds and end in a classified result,
      the budget never exceeds its concurrency and never wakes a request
      early, only URLs of the provider's profile pass, and only globally
      routable addresses are dialled.
    - Of the adapters ([Facts], [Ports]): whatever a provider answers, every
      port mutates at most once, at the end of a submission whose fresh
      inspection matched the reviewed facts and under its own binding, and
      its receipt tells the truth about what left; success is reported only
      when the target was seen in the wanted state; pages can be staged and
      walks over them end; equal fingerprints are equal facts, or a collision
      of SHA-256.
    - Of credentials ([Envelope], [Custody]): envelopes round-trip and are
      bound to their identity; in every reachable database every stored
      credential opens to a valid typed value; rewrapping changes the
      envelope and nothing else.
    - Of reads ([Reads], [Browse], [Listings]): nothing is shown outside a
      membership and its grants, pages neither skip nor repeat a row that
      stays, and what is offered is what the guards admit.
    - Of workspaces and sessions: an owner always remains, version fences
      identify what they fence, grants never escalate; a token works until
      logout and never after; invitations are redeemed once.
    - Of leases: [Claim] hands out due jobs only, and an outdated lease cannot
      write.
    - Of requests ([Routes], [Answers], [ReadOnly], [Guard], [Http]): the
      handlers are chosen as the API's table says; every request is answered,
      with one of a fixed list of statuses; a GET, HEAD or OPTIONS request
      changes nothing but when its session was last seen; a command runs only for a live session with an
      active membership, under the origin and CSRF policy; a client address is
      vouched for by every trusted proxy behind it; readiness means every
      stored key is at hand.
    - Of the process: a configuration that loads is within its bounds, with
      switches and proxies the rest may rely on ([Config]); the client of the
      issuer talks only to confined URLs ([Oidc]); over any history of runs
      each migration is carried out once and an altered one never
      ([Migrations]).
    - Of inventory: scans terminate within 100 pages and only stage,
      publication refines its specification, and identities and generations
      are stable under every interleaving.

    ** Termination and bounds

    Loops of the code are structural where they can be.  The scan counts down
    its 100 pages, the retry loop its five attempts and its Retry-After
    allowance, the duplicate-property check of the keyring has fuel of two
    steps per token and one more, which [uniqueJSONProperties_unique] shows to
    suffice.  Walks over pages have a rank that falls with each cursor
    ([Descends]), at most 100.  Durations and counters are [Z]; Go's wrap-around is written
    where a value can reach it ([retryAfter], the budget's arithmetic).
    Theorems are about total functions: none assumes that a call returns.

    ** Modelling decisions

    - Each transaction of a writer is one atomic step.  The code takes the
      workspace or row lock first, which serialises the writers it models.
    - The database clock is read per statement from the environment; the
      process clock is the database clock with a skew.  Rounding of instants
      to microseconds is ignored.
    - [ORDER BY] leaves ties open: the choice is an argument, checked against
      the set of admissible orders.
    - Identifiers and random bytes come from the environment.  Where a theorem
      needs fresh ones it says so.
    - Roles, actions and kinds are the strings the code compares; only the
      columns PostgreSQL fixes ([operations.state], [jobs.state]) are
      inductive types.
    - JSON texts are written out where the code depends on them: the
      authenticated data of the envelope, the credential it seals, cursors
      and the reviewed facts.  What [encoding/json] decodes an answer into is
      a parameter of each adapter (class [Decoders]), and so are the texts of
      instants and floats ([ValueText]).  A stored
      intent is determined by its action.
    - The budget is a heap with a ghost clock floor; a wait may end at any
      time; closing the shared channel is a new generation number.
    - Parsers of the Go library (URLs, host and port, HTTP dates, JSON) are
      parameters with their documented laws where one is needed; those of
      the adapters are the classes [Web] and [Clock].
    - An adapter's call sees a stream of turns: the answers of an exchange,
      the clock, random values.  Calls of one Contabo client run one at a
      time, as its gate enforces while a token is fetched.  Correlation
      headers are left out of requests; nil clients are represented where the
      code tests for them.
    - The two statements of [ListMembers] read one committed database.
    - A request is its decoded parts; reading and decoding of bodies, parsing
      of addresses and dates are the classes [HttpLib] and [Bodies], parsing
      in [Config] the class [ConfigLib].  A successful answer is its status
      and what it carries; JSON of successful bodies, attributes of cookies,
      security headers and time limits are left out.  The 200 of a file is
      before the range and conditional handling of [net/http].
    - A worker lives for as many turns as a list of schedules says, so that
      every prefix of its unbounded life is covered; each turn's list of jobs
      locked by others is arbitrary.
    - A migration's SQL acts on an abstract schema and holds no transaction
      control; a statement may fail and an answer to COMMIT may be lost.

    ** Not modelled, and why

    The Netcup adapter (a DNS reader no capability uses) and the
    qualification probes (operator tooling), the supervision of workers in
    [job/runner.go] (advisory lock, heartbeat and drain: [System.sstep] allows
    any number of workers at any time), the ticker and watchdog of
    [Scheduler.Run], the flags and wiring of the commands, the retention
    triggers and the audit metadata CHECK of the schema, and clearing of key
    material in memory.  The React client holds no authority.  *)
From stdpp Require Export base tactics option list gmap sets strings numbers sorting.
From Stdlib Require Export ZArith Lia Ascii.
From Stdlib Require String.

(** ** Results of fallible code *)

Inductive result (E A : Type) : Type :=
| Ok (a : A)
| Err (e : E).
Arguments Ok {E A} a.
Arguments Err {E A} e.

#[export] Instance result_ret E : MRet (result E) := λ A a, Ok a.
#[export] Instance result_bind E : MBind (result E) := λ A B k r,
  match r with Ok a => k a | Err e => Err e end.

#[export] Instance result_eq_dec E A `{EqDecision E} `{EqDecision A} : EqDecision (result E A).
Proof. solve_decision. Defined.

#[export] Instance Ok_inj E A : Inj (=) (=) (@Ok E A).
Proof. by intros a b [= ->]. Qed.

Definition is_ok {E A} (r : result E A) : bool := match r with Ok _ => true | Err _ => false end.

Definition fail_if {E} (b : bool) (e : E) : result E unit := if b then Err e else Ok tt.

Lemma fail_if_Ok {E} b (e : E) u : fail_if b e = Ok u → b = false.
Proof. unfold fail_if. by destruct b. Qed.

Lemma fail_if_bind {E A} b (e : E) (k : unit → result E A) a : fail_if b e ≫= k = Ok a → b = false ∧ k tt = Ok a.
Proof. unfold fail_if, mbind, result_bind. by destruct b. Qed.

(** ** Functional record update

    [r <| f ::= g |>] is [r] with field [f] replaced by [g (f r)].  A record
    type declares its eta expansion once and each updatable field an instance
    of [Setter], built by [solve_setter]. *)

Class Eta (R : Type) := eta : R → R.
Class Setter {R T : Type} (proj : R → T) := set : (T → T) → R → R.
Arguments set {R T} proj {_} f r.

Ltac solve_setter :=
  match goal with
  | |- @Setter ?R ?T ?proj =>
      let inst := constr:(ltac:(typeclasses eauto) : Eta R) in
      let h := eval hnf in inst in
      let f := fresh "f" in
      let r := fresh "r" in
      intros f r;
      let b := eval cbv beta in (h r) in
      match eval pattern (proj r) in b with
      | ?g _ => let x := eval cbv beta in (g (f (proj r))) in exact x
      end
  end.

Declare Scope record_scope.
Open Scope record_scope.
Notation "r <| proj ::= f |>" := (set proj f r)
  (at level 1, left associativity, proj at level 9, f at level 99) : record_scope.
Notation "r <| proj := v |>" := (set proj (λ _, v) r)
  (at level 1, left associativity, proj at level 9, v at level 99) : record_scope.

(** ** Guards: boolean hypotheses read as propositions *)
Ltac guards :=
  repeat match goal with
  | H : orb _ _ = false |- _ => apply orb_false_iff in H as [? ?]
  | H : andb _ _ = true |- _ => apply andb_true_iff in H as [? ?]
  | H : andb _ _ = false |- _ => apply andb_false_iff in H
  | H : orb _ _ = true |- _ => apply orb_true_iff in H
  | H : negb _ = false |- _ => apply negb_false_iff in H
  | H : negb _ = true |- _ => apply negb_true_iff in H
  | H : bool_decide _ = true |- _ => apply bool_decide_eq_true in H
  | H : bool_decide _ = false |- _ => apply bool_decide_eq_false in H
  | H : (_ =? _)%Z = true |- _ => apply Z.eqb_eq in H
  | H : (_ =? _)%Z = false |- _ => apply Z.eqb_neq in H
  | H : (_ <? _)%Z = true |- _ => apply Z.ltb_lt in H
  | H : (_ <? _)%Z = false |- _ => apply Z.ltb_ge in H
  | H : (_ <=? _)%Z = true |- _ => apply Z.leb_le in H
  | H : (_ <=? _)%Z = false |- _ => apply Z.leb_gt in H
  | H : _ ∧ _ |- _ => destruct H
  | H : (_ ∨ _) |- _ =>
      lazymatch type of H with
      | (_ = true ∨ _) => idtac | (_ ∨ _ = true) => idtac
      | (_ = false ∨ _) => idtac | (_ ∨ _ = false) => idtac
      end; destruct H
  end.

(** ** Maps *)

(** Updating a key that is present. *)
Lemma alter_lookup `{Countable K} {V} (f : V → V) (m : gmap K V) k v :
  m !! k = Some v → alter f k m = <[k := f v]> m.
Proof.
  intros Hk. apply map_eq. intros i. destruct (decide (i = k)) as [->|Hne].
  - by rewrite lookup_alter_eq, lookup_insert_eq, Hk.
  - by rewrite lookup_alter_ne, lookup_insert_ne.
Qed.

(** ** Tables of pointers

    A Go map whose values are pointers: [m] gives locations, [h] is the heap.
    [view m h] is the map the program means. *)
Section pointers.
Context `{Countable K, Countable L} {V : Type}.
Implicit Types (m : gmap K L) (h : gmap L V).

Definition view m h : gmap K V := omap (λ l, h !! l) m.

(** No two keys share a location, and every location is allocated. *)
Record table_ok m h : Prop := {
  to_inj : ∀ k k' l, m !! k = Some l → m !! k' = Some l → k = k';
  to_alloc : ∀ k l, m !! k = Some l → is_Some (h !! l);
}.

Lemma lookup_view m h k : view m h !! k = m !! k ≫= λ l, h !! l.
Proof. apply lookup_omap. Qed.

Lemma view_Some m h k l : m !! k = Some l → view m h !! k = h !! l.
Proof. intros Hk. by rewrite lookup_view, Hk. Qed.

Lemma view_None m h k : table_ok m h → view m h !! k = None ↔ m !! k = None.
Proof.
  intros [_ Ha]. rewrite lookup_view. destruct (m !! k) as [l|] eqn:Hk; [|done].
  destruct (Ha _ _ Hk) as [v Hv]. simpl. by rewrite Hv.
Qed.

Lemma view_alter f m h k l : table_ok m h → m !! k = Some l →
  view m (alter f l h) = alter f k (view m h) ∧ table_ok m (alter f l h).
Proof.
  intros [Hi Ha] Hk. split.
  - apply map_eq. intros j. rewrite lookup_view. destruct (decide (j = k)) as [->|Hj].
    + by rewrite lookup_alter_eq, lookup_view, Hk; simpl; rewrite lookup_alter_eq.
    + rewrite lookup_alter_ne, lookup_view by done. destruct (m !! j) as [l'|] eqn:Hl'; [|done]. simpl.
      rewrite lookup_alter_ne; [done|]. intros <-. apply Hj. by eapply Hi.
  - split; [done|]. intros j l' Hl'%Ha. destruct (decide (l' = l)) as [->|]; [|by rewrite lookup_alter_ne].
    rewrite lookup_alter_eq. by apply fmap_is_Some.
Qed.

Lemma view_delete m h k : table_ok m h → view (delete k m) h = delete k (view m h) ∧ table_ok (delete k m) h.
Proof.
  intros [Hi Ha]. split; [apply omap_delete|]. split.
  - intros j j' l [_ ?]%lookup_delete_Some [_ ?]%lookup_delete_Some. eauto.
  - intros j l [_ ?]%lookup_delete_Some. eauto.
Qed.

Lemma view_insert m h k l v : table_ok m h → m !! k = None → h !! l = None →
  view (<[k := l]> m) (<[l := v]> h) = <[k := v]> (view m h) ∧ table_ok (<[k := l]> m) (<[l := v]> h).
Proof.
  intros [Hi Ha] Hk Hl. assert (∀ j l', m !! j = Some l' → l' ≠ l) as Hne
    by (intros j l' [x Hx]%Ha ->; congruence).
  split.
  - apply map_eq. intros j. rewrite lookup_view. destruct (decide (j = k)) as [->|Hj].
    + rewrite !lookup_insert_eq. simpl. by rewrite lookup_insert_eq.
    + rewrite !lookup_insert_ne, lookup_view by done. destruct (m !! j) as [l'|] eqn:Hl'; [|done]. simpl.
      rewrite lookup_insert_ne; [done|]. intros <-. by eapply Hne.
  - split.
    + intros j j' l' [[<- <-]|[? Hj]]%lookup_insert_Some [[<- ?]|[? Hj']]%lookup_insert_Some; try done.
      * by destruct (Hne _ _ Hj').
      * subst. by destruct (Hne _ _ Hj).
      * eauto.
    + intros j l' [[<- <-]|[? Hj]]%lookup_insert_Some; [by rewrite lookup_insert_eq|].
      rewrite lookup_insert_ne; [eauto|]. intros <-. by eapply Hne.
Qed.

Lemma table_subset m m' h : table_ok m h → m' ⊆ m → table_ok m' h.
Proof.
  intros [Hi Ha] Hs. split.
  - intros k k' l Hk Hk'. eapply Hi; by eapply lookup_weaken.
  - intros k l Hk. eapply Ha. by eapply lookup_weaken.
Qed.

Lemma size_view m h : table_ok m h → size (view m h) = size m.
Proof.
  intros Ht. rewrite <-!size_dom. f_equal. apply set_eq. intros k. rewrite !elem_of_dom, <-!not_eq_None_Some.
  by rewrite (view_None _ _ _ Ht).
Qed.
End pointers.

(** ** Counting the values of a map *)

Section tally.
Context `{Countable K} {V : Type}.
Implicit Types (p : V → bool) (m : gmap K V).

Definition tally p m : Z := Z.of_nat (size (filter (λ '(_, v), p v = true) m)).

Lemma tally_insert p m k v : m !! k = None → tally p (<[k := v]> m) = (tally p m + Z.b2z (p v))%Z.
Proof.
  intros Hk. unfold tally. destruct (p v) eqn:Hp.
  - rewrite map_filter_insert_True, map_size_insert_None; [simpl; lia|by apply map_lookup_filter_None; left|done].
  - rewrite map_filter_insert_not'; [simpl; lia|congruence|intros x; congruence].
Qed.

Lemma tally_update p m k v v' : m !! k = Some v → (tally p (<[k := v']> m) + Z.b2z (p v) = tally p m + Z.b2z (p v'))%Z.
Proof.
  intros Hk. rewrite <-(insert_delete_id m k v Hk) at 2. rewrite <-insert_delete_eq.
  rewrite !tally_insert by apply lookup_delete_eq. lia.
Qed.

Lemma tally_pos p m k v : m !! k = Some v → p v = true → (1 <= tally p m)%Z.
Proof.
  intros Hk Hp. rewrite <-(insert_delete_id m k v Hk), tally_insert, Hp by apply lookup_delete_eq.
  unfold tally. simpl. lia.
Qed.

Lemma tally_none p m : (∀ k v, m !! k = Some v → p v = false) → tally p m = 0%Z.
Proof.
  intros Hn. unfold tally. replace (filter _ m) with (∅ : gmap K V); [by rewrite map_size_empty|].
  symmetry. apply map_empty. intros k. apply map_lookup_filter_None. right. intros v Hv. rewrite (Hn _ _ Hv). done.
Qed.

Lemma tally_nonneg p m : (0 <= tally p m)%Z.
Proof. unfold tally. lia. Qed.

Lemma tally_mono p q m : (∀ v, p v = true → q v = true) → (tally p m <= tally q m)%Z.
Proof.
  intros Hpq. unfold tally. apply inj_le, map_subseteq_size, map_subseteq_spec. intros k v.
  rewrite !map_lookup_filter_Some. naive_solver.
Qed.
End tally.
