(* ===== verification/GoBase.v ===== *)
(** Go-level data the packages share: the sentinel errors, instants and
    durations, byte strings with the parts of [utf8], [unicode], [strings],
    [hex] and [strconv] the code calls. *)
From stdpp Require Import pretty.
From S2P Require Import Prelude.
Local Open Scope Z_scope.

(** ** Sentinel errors

    One constructor per [errors.New] variable, prefixed with its package:
    Go compares these values with [errors.Is] and [==]. *)

Inductive error : Type :=
| WsErrStore | WsErrBootstrapExists | WsErrInvalid | WsErrNotFound | WsErrDenied
| WsErrConflict | WsErrLimit | WsErrPolicyConflict
| OpErrState | OpErrInvalid | OpErrStore | OpErrConflict | OpErrStale | OpErrDenied
| OpErrQuota | OpErrBusy | OpErrUnsupported | OpErrProvider | OpErrRecovery
| JobErrJob | JobErrLease | JobErrNoJob | JobErrActive | JobErrDrain
| IdErrUnauthenticated | IdErrStore | IdErrRecentRequired | IdErrRateLimited
| IdErrRandom | IdErrPolicy | IdErrCleanup | IdErrReauthUnsupported
| InvErrQuota | InvErrScan | InvErrObservation
| ScanFailureCode (code : string)
| ConnErrNotFound | ConnErrStore | ConnErrDisabled | ConnErrVersion | ConnErrCredential
| ConnErrUnsupported | ConnErrValidation | ConnErrValidationLimit | ConnErrRewrap
| CredErrEnvelope | CredErrKeyring
| ProvErrBinding
| NetErrNetwork | NetErrEndpoint | NetErrBudget
| OutboundFailure (code : string)
| ProvErrActionUnsupported | ProvErrIdentityUnverified
| AuditErrEvent | AuditErrMetadata | AuditErrAppend | AuditErrReadInvalid | AuditErrReadStore
| IdentErrInvalid | IdentErrGeneration
| ContextErr.

#[export] Instance error_eq_dec : EqDecision error.
Proof. solve_decision. Defined.

Abbreviation go A := (result error A).

(** ** Instants and durations: nanoseconds, instants since the Unix epoch *)

Abbreviation time := Z.
Abbreviation duration := Z.

Definition Second : duration := 1000000000.
Definition Minute : duration := 60 * Second.
Definition Hour : duration := 60 * Minute.
Definition Day : duration := 24 * Hour.

(** [time.Time{}], the instant [IsZero] recognises: January 1, year 1, UTC. *)
Definition zero_time : time := -62135596800 * Second.

Definition After (t u : time) : bool := u <? t.

(** ** Bytes *)

Abbreviation byte := N.
Abbreviation bytes := (list N).

Definition string_bytes (s : string) : bytes := N_of_ascii <$> String.list_ascii_of_string s.
Definition bytes_string (b : bytes) : string :=
  String.string_of_list_ascii (ascii_of_N <$> b).

Definition len (s : string) : Z := Z.of_nat (String.length s).

Lemma length_app_string (a b : string) :
  String.length (a ++ b)%string = (String.length a + String.length b)%nat.
Proof. induction a as [|x a IH]; simpl; [done|by rewrite IH]. Qed.

Lemma bytes_string_bytes s : bytes_string (string_bytes s) = s.
Proof.
  unfold bytes_string, string_bytes. rewrite <-list_fmap_compose.
  assert (Hid : (ascii_of_N ∘ N_of_ascii) <$> String.list_ascii_of_string s
                = String.list_ascii_of_string s).
  { induction (String.list_ascii_of_string s) as [|a l IH]; [done|].
    simpl. f_equal; [apply ascii_N_embedding|done]. }
  rewrite Hid. apply String.string_of_list_ascii_of_string.
Qed.

(** [hex.EncodeToString] and the digits [uuid.UUID.String] prints. *)
Definition hex_digit (n : N) : ascii :=
  ascii_of_N (if (n <? 10)%N then 48 + n else 87 + n)%N.

Definition hex_byte (b : byte) : string :=
  String (hex_digit (b / 16)) (String (hex_digit (b mod 16)) EmptyString).

Fixpoint hex (b : bytes) : string :=
  match b with [] => EmptyString | x :: r => (hex_byte x ++ hex r)%string end.

(** [strconv.FormatInt(n, 10)] *)
Definition FormatInt (n : Z) : string := pretty n.

(** ** ASCII classes of the package's regular expressions *)

Definition in_range (lo hi : ascii) (c : ascii) : bool :=
  (N_of_ascii lo <=? N_of_ascii c)%N && (N_of_ascii c <=? N_of_ascii hi)%N.

Definition is_alnum (c : ascii) : bool :=
  in_range "A" "Z" c || in_range "a" "z" c || in_range "0" "9" c.

Definition is_one_of (set : string) (c : ascii) : bool :=
  bool_decide (c ∈ String.list_ascii_of_string set).

Definition string_forallb (p : ascii → bool) (s : string) : bool :=
  forallb p (String.list_ascii_of_string s).

(** [^[A-Za-z0-9][class]{0,n}$]: an alphanumeric byte, then at most [n] bytes
    that are alphanumeric or in [extra]. *)
Definition match_code (extra : string) (n : nat) (s : string) : bool :=
  match s with
  | EmptyString => false
  | String c r => is_alnum c && string_forallb (λ d, is_alnum d || is_one_of extra d) r
                  && (String.length r <=? n)%nat
  end.

(** [strings.Contains(s, sub)] *)
Fixpoint Contains (s sub : string) : bool :=
  String.prefix sub s ||
  match s with EmptyString => false | String _ r => Contains r sub end.

(** [strings.ContainsAny(s, chars)] for ASCII [chars] *)
Definition ContainsAny (s chars : string) : bool :=
  existsb (is_one_of chars) (String.list_ascii_of_string s).

(** ** UTF-8 *)

Definition cont (lo hi b : byte) : bool := (lo <=? b)%N && (b <=? hi)%N.

(** [for _, r := range s]: the runes of a byte string with their encodings;
    a byte that starts no valid encoding yields [utf8.RuneError] and width 1.
    The flag says whether the encoding was valid. *)
Fixpoint runes (l : bytes) : list (N * bool * bytes) :=
  match l with
  | [] => []
  | b0 :: t0 =>
      let bad := (65533%N, false, [b0]) in
      if (b0 <? 128)%N then (b0, true, [b0]) :: runes t0
      else if cont 194 223 b0 then
        match t0 with
        | b1 :: t1 =>
            if cont 128 191 b1
            then (((b0 - 192) * 64 + (b1 - 128))%N, true, [b0; b1]) :: runes t1
            else bad :: runes t0
        | [] => bad :: runes t0
        end
      else if cont 224 239 b0 then
        let lo := if (b0 =? 224)%N then 160%N else 128%N in
        let hi := if (b0 =? 237)%N then 159%N else 191%N in
        match t0 with
        | b1 :: ((b2 :: t2) as t1) =>
            if cont lo hi b1 && cont 128 191 b2
            then (((b0 - 224) * 4096 + (b1 - 128) * 64 + (b2 - 128))%N, true, [b0; b1; b2]) :: runes t2
            else bad :: runes t0
        | _ => bad :: runes t0
        end
      else if cont 240 244 b0 then
        let lo := if (b0 =? 240)%N then 144%N else 128%N in
        let hi := if (b0 =? 244)%N then 143%N else 191%N in
        match t0 with
        | b1 :: ((b2 :: ((b3 :: t3) as t2)) as t1) =>
            if cont lo hi b1 && cont 128 191 b2 && cont 128 191 b3
            then (((b0 - 240) * 262144 + (b1 - 128) * 4096 + (b2 - 128) * 64 + (b3 - 128))%N,
                  true, [b0; b1; b2; b3]) :: runes t3
            else bad :: runes t0
        | _ => bad :: runes t0
        end
      else bad :: runes t0
  end.

Definition string_runes (s : string) : list (N * bool * bytes) := runes (string_bytes s).

Definition ValidString (s : string) : bool := forallb (λ '(_, ok, _), ok) (string_runes s).
Definition RuneCountInString (s : string) : Z := Z.of_nat (length (string_runes s)).

(** [unicode.IsControl] and [unicode.IsSpace] *)
Definition IsControl (r : N) : bool := (r <? 32)%N || ((127 <=? r)%N && (r <? 160)%N).
Definition IsSpace (r : N) : bool :=
  ((9 <=? r) && (r <=? 13) || (r =? 32) || (r =? 133) || (r =? 160) || (r =? 5760)
   || ((8192 <=? r) && (r <=? 8202)) || (r =? 8232) || (r =? 8233) || (r =? 8239)
   || (r =? 8287) || (r =? 12288))%N.

Fixpoint drop_spaces (l : list (N * bool * bytes)) : list (N * bool * bytes) :=
  match l with
  | (r, ok, b) :: t => if IsSpace r then drop_spaces t else l
  | [] => []
  end.

(** [strings.TrimSpace] *)
Definition TrimSpace (s : string) : string :=
  bytes_string (concat (snd <$> reverse (drop_spaces (reverse (drop_spaces (string_runes s)))))).

Definition has_control (s : string) : bool := existsb (λ '(r, _, _), IsControl r) (string_runes s).
