(* ===== verification/Sha256.v ===== *)
(** [crypto/sha256.Sum256] (FIPS 180-4), as the digests of the backend use it:
    32-bit words are [N] reduced modulo [2^32], a digest is 32 bytes. *)
From S2P Require Import Prelude GoBase.
Local Open Scope N_scope.

Definition w32 (x : N) : N := N.land x 4294967295.
Definition add32 (x y : N) : N := w32 (x + y).
Definition rotr (n x : N) : N := N.lor (N.shiftr x n) (w32 (N.shiftl x (32 - n))).
Definition not32 (x : N) : N := N.lxor x 4294967295.

Definition Ch (x y z : N) : N := N.lxor (N.land x y) (N.land (not32 x) z).
Definition Maj (x y z : N) : N := N.lxor (N.lxor (N.land x y) (N.land x z)) (N.land y z).
Definition bsig0 (x : N) : N := N.lxor (N.lxor (rotr 2 x) (rotr 13 x)) (rotr 22 x).
Definition bsig1 (x : N) : N := N.lxor (N.lxor (rotr 6 x) (rotr 11 x)) (rotr 25 x).
Definition ssig0 (x : N) : N := N.lxor (N.lxor (rotr 7 x) (rotr 18 x)) (N.shiftr x 3).
Definition ssig1 (x : N) : N := N.lxor (N.lxor (rotr 17 x) (rotr 19 x)) (N.shiftr x 10).

Definition round_constants : list N :=
  [1116352408; 1899447441; 3049323471; 3921009573; 961987163; 1508970993; 2453635748; 2870763221;
   3624381080; 310598401; 607225278; 1426881987; 1925078388; 2162078206; 2614888103; 3248222580;
   3835390401; 4022224774; 264347078; 604807628; 770255983; 1249150122; 1555081692; 1996064986;
   2554220882; 2821834349; 2952996808; 3210313671; 3336571891; 3584528711; 113926993; 338241895;
   666307205; 773529912; 1294757372; 1396182291; 1695183700; 1986661051; 2177026350; 2456956037;
   2730485921; 2820302411; 3259730800; 3345764771; 3516065817; 3600352804; 4094571909; 275423344;
   430227734; 506948616; 659060556; 883997877; 958139571; 1322822218; 1537002063; 1747873779;
   1955562222; 2024104815; 2227730452; 2361852424; 2428436474; 2756734187; 3204031479; 3329325298].

Definition initial_hash : list N :=
  [1779033703; 3144134277; 1013904242; 2773480762; 1359893119; 2600822924; 528734635; 1541459225].

(** The message schedule, most recent word first. *)
Fixpoint extend (n : nat) (w : list N) : list N :=
  match n with
  | O => w
  | S n =>
      let at_ k := nth k w 0 in
      extend n (add32 (add32 (ssig1 (at_ 1%nat)) (at_ 6%nat)) (add32 (ssig0 (at_ 14%nat)) (at_ 15%nat)) :: w)
  end.

Definition schedule (block : list N) : list N := reverse (extend 48 (reverse block)).

Definition round (s : list N) (kw : N * N) : list N :=
  match s with
  | [a; b; c; d; e; f; g; h] =>
      let t1 := add32 (add32 (add32 h (bsig1 e)) (add32 (Ch e f g) (fst kw))) (snd kw) in
      let t2 := add32 (bsig0 a) (Maj a b c) in
      [add32 t1 t2; a; b; c; add32 d t1; e; f; g]
  | _ => s
  end.

Definition compress (h : list N) (block : list N) : list N :=
  zip_with add32 h (foldl round h (zip round_constants (schedule block))).

Fixpoint words (b : bytes) : list N :=
  match b with
  | a :: b :: c :: d :: r => (((a * 256 + b) * 256 + c) * 256 + d) :: words r
  | _ => []
  end.

Definition word_bytes (w : N) : bytes :=
  [w / 16777216; (w / 65536) mod 256; (w / 256) mod 256; w mod 256].

Definition be64 (n : N) : bytes := word_bytes (n / 4294967296) ++ word_bytes (n mod 4294967296).

Definition pad (m : bytes) : bytes :=
  let l := N.of_nat (length m) in
  m ++ [128] ++ replicate (N.to_nat ((119 - l mod 64) mod 64)) 0 ++ be64 (8 * l).

Fixpoint blocks (fuel : nat) (w : list N) : list (list N) :=
  match fuel with
  | O => []
  | S n => match w with [] => [] | _ => take 16 w :: blocks n (drop 16 w) end
  end.

Definition Sum256 (m : bytes) : bytes :=
  let w := words (pad m) in
  concat (word_bytes <$> foldl compress initial_hash (blocks (length w) w)).

(** FIPS 180-4 test vectors: the empty message, "abc" and a two-block message. *)
Example Sum256_empty :
  hex (Sum256 []) = "e3b0c44298fc1c149afbf4c8996fb92427ae41e4649b934ca495991b7852b855".
Proof. vm_compute. reflexivity. Qed.
Example Sum256_abc :
  hex (Sum256 (string_bytes "abc")) = "ba7816bf8f01cfea414140de5dae2223b00361a396177a9cb410ff61f20015ad".
Proof. vm_compute. reflexivity. Qed.
Example Sum256_two_blocks :
  hex (Sum256 (string_bytes "abcdbcdecdefdefgefghfghighijhijkijkljklmklmnlmnomnopnopq"))
  = "248d6a61d20638b8e5c026930c3e6039a33ce45964ff2167f6ecedd419db06c1".
Proof. vm_compute. reflexivity. Qed.

(** A digest is always 32 bytes. *)
Lemma compress_length h b : length h = 8%nat → length (compress h b) = 8%nat.
Proof.
  intros Hh. assert (Hr : ∀ l s, length s = 8%nat → length (foldl round s l) = 8%nat).
  { induction l as [|kw l IH]; intros s Hs; simpl; [done|]. apply IH.
    do 8 (destruct s as [|? s]; [done|]). by destruct s. }
  unfold compress. rewrite length_zip_with, Hh, Hr by done. done.
Qed.

Lemma Sum256_length m : length (Sum256 m) = 32%nat.
Proof.
  unfold Sum256. assert (Hl : ∀ l h, length h = 8%nat → length (foldl compress h l) = 8%nat).
  { induction l as [|b l IH]; intros h Hh; simpl; [done|]. by apply IH, compress_length. }
  specialize (Hl (blocks (length (words (pad m))) (words (pad m))) initial_hash eq_refl).
  destruct (foldl _ _ _) as [|? [|? [|? [|? [|? [|? [|? [|? []]]]]]]]]; by simpl in *.
Qed.

#[global] Opaque Sum256.
