(* ===== verification/Base64.v ===== *)
(** [base64.RawURLEncoding] of the Go library, as [internal/identity] and
    [internal/workspace] use it for bearer tokens: RFC 4648 section 5 without
    padding.  The decoder is the library's lenient one: it skips line breaks and
    ignores the spare bits of the last character. *)
From S2P Require Import Prelude GoBase.
Local Open Scope N_scope.

Definition alphabet : string := "ABCDEFGHIJKLMNOPQRSTUVWXYZabcdefghijklmnopqrstuvwxyz0123456789-_".

Definition sextet_char (n : N) : ascii :=
  default Ascii.zero (String.list_ascii_of_string alphabet !! N.to_nat n).

(** The value of a character of the alphabet. *)
Definition char_sextet (c : ascii) : option N :=
  let n := N_of_ascii c in
  if in_range "A" "Z" c then Some (n - 65)
  else if in_range "a" "z" c then Some (n - 71)
  else if in_range "0" "9" c then Some (n + 4)
  else if bool_decide (c = "-"%char) then Some 62
  else if bool_decide (c = "_"%char) then Some 63
  else None.

Fixpoint sextets (b : bytes) : list N :=
  match b with
  | x :: y :: z :: r => [x / 4; (x mod 4) * 16 + y / 16; (y mod 16) * 4 + z / 64; z mod 64] ++ sextets r
  | [x; y] => [x / 4; (x mod 4) * 16 + y / 16; (y mod 16) * 4]
  | [x] => [x / 4; (x mod 4) * 16]
  | [] => []
  end.

Fixpoint octets (l : list N) : option bytes :=
  match l with
  | a :: b :: c :: d :: r =>
      t ← octets r; Some ([a * 4 + b / 16; (b mod 16) * 16 + c / 4; (c mod 4) * 64 + d] ++ t)
  | [a; b; c] => Some [a * 4 + b / 16; (b mod 16) * 16 + c / 4]
  | [a; b] => Some [a * 4 + b / 16]
  | [_] => None
  | [] => Some []
  end.

Definition EncodeToString (b : bytes) : string :=
  String.string_of_list_ascii (sextet_char <$> sextets b).

Definition line_break (c : ascii) : bool := bool_decide (c = "010"%char) || bool_decide (c = "013"%char).

Definition DecodeString (s : string) : option bytes :=
  l ← mapM char_sextet (filter (λ c, line_break c = false) (String.list_ascii_of_string s)); octets l.

(** [k] bytes, most significant first. *)
Fixpoint be_bytes (k : nat) (n : N) : bytes :=
  match k with O => [] | S k => be_bytes k (n / 256) ++ [n mod 256] end.

(** ** Decoding what was encoded *)

#[local] Ltac Zify.zify_post_hook ::= Z.to_euclidean_division_equations.

Abbreviation small := (Forall (λ x : N, x < 256)).

(** Induction three bytes at a time. *)
Lemma triples (P : bytes → Prop) :
  P [] → (∀ x, P [x]) → (∀ x y, P [x; y]) → (∀ x y z r, P r → P (x :: y :: z :: r)) → ∀ b, P b.
Proof.
  intros H0 H1 H2 H3 b. assert (P b ∧ (∀ x, P (x :: b)) ∧ ∀ x y, P (x :: y :: b)) as [? _]; [|done].
  induction b as [|z b (? & ? & ?)]; split_and!; auto.
Qed.

Lemma sextets_small b : small b → Forall (λ x : N, x < 64) (sextets b).
Proof.
  induction b using triples; intros H; simpl; rewrite ?Forall_cons in *; [constructor|..]; destruct_and?.
  - split_and!; [lia|lia|constructor].
  - split_and!; [lia..|constructor].
  - split_and!; [lia..|by apply IHb].
Qed.

Lemma octets_sextets b : small b → octets (sextets b) = Some b.
Proof.
  induction b using triples; intros H; simpl; rewrite ?Forall_cons in *; destruct_and?; [done|..].
  - do 2 f_equal. lia.
  - do 2 f_equal; [lia|]. f_equal. lia.
  - rewrite IHb by done. simpl. do 2 f_equal; [lia|]. f_equal; [lia|]. f_equal. lia.
Qed.

Lemma char_sextet_char n : n < 64 → char_sextet (sextet_char n) = Some n ∧ line_break (sextet_char n) = false.
Proof.
  intros Hn.
  assert (H : forallb (λ k, bool_decide (char_sextet (sextet_char (N.of_nat k)) = Some (N.of_nat k))
                            && negb (line_break (sextet_char (N.of_nat k)))) (seq 0 64) = true) by (vm_compute; reflexivity).
  rewrite forallb_forall in H. specialize (H (N.to_nat n)). rewrite N2Nat.id in H.
  apply andb_true_iff in H as [H1 H2]; [by apply bool_decide_eq_true in H1; apply negb_true_iff in H2|].
  apply in_seq. lia.
Qed.

Lemma decode_sextets l : Forall (λ x : N, x < 64) l →
  mapM char_sextet (filter (λ c, line_break c = false) (sextet_char <$> l)) = Some l.
Proof.
  induction 1 as [|n l Hn _ IH]; [done|]. destruct (char_sextet_char n Hn) as [Hc Hb].
  rewrite fmap_cons, filter_cons_True by done. simpl. by rewrite Hc; simpl; rewrite IH.
Qed.

Lemma DecodeString_bytes b : small b → DecodeString (EncodeToString b) = Some b.
Proof.
  intros Hb. unfold DecodeString, EncodeToString. rewrite String.list_ascii_of_string_of_list_ascii.
  rewrite decode_sextets by (by apply sextets_small). by apply octets_sextets.
Qed.

(** What the decoder yields is bytes. *)
Lemma octets_small l b : Forall (λ x : N, x < 64) l → octets l = Some b → small b.
Proof.
  revert b. assert (∀ n l, (length l < n)%nat → ∀ b, Forall (λ x : N, x < 64) l → octets l = Some b → small b) as H.
  { induction n as [|n IH]; [lia|]. clear l. intros l Hn b Hl.
    destruct l as [|a1 [|a2 [|a3 [|a4 r]]]]; simpl; rewrite ?Forall_cons in *; destruct_and?; intros; simplify_eq.
    - constructor.
    - repeat constructor; lia.
    - repeat constructor; lia.
    - destruct (octets r) as [t|] eqn:Ht; simplify_eq/=.
      repeat (apply Forall_cons; split; [lia|]). eapply (IH r); [simpl in *; lia|done|done]. }
  intros b. by eapply (H (S (length l))); lia.
Qed.

Lemma char_sextet_small c n : char_sextet c = Some n → n < 64.
Proof.
  unfold char_sextet, in_range. change (N_of_ascii "A") with 65. change (N_of_ascii "Z") with 90.
  change (N_of_ascii "a") with 97. change (N_of_ascii "z") with 122.
  change (N_of_ascii "0") with 48. change (N_of_ascii "9") with 57.
  repeat match goal with |- context [(?a <=? ?b)] => destruct (N.leb_spec a b) end; simpl; intros;
    repeat case_match; simplify_eq; lia.
Qed.

Lemma DecodeString_small s b : DecodeString s = Some b → small b.
Proof.
  unfold DecodeString. intros (l & Hl & Hb)%bind_Some. eapply octets_small; [|done].
  apply mapM_Some in Hl. clear Hb. induction Hl as [|c n cs ns Hc _ IH]; constructor; [|done].
  by eapply char_sextet_small.
Qed.

Lemma be_bytes_length k n : length (be_bytes k n) = k.
Proof. revert n. induction k as [|k IH]; intros n; simpl; [done|]. rewrite length_app, IH. simpl. lia. Qed.
Lemma be_bytes_small k n : small (be_bytes k n).
Proof. revert n. induction k as [|k IH]; intros n; simpl; [constructor|]. apply Forall_app. split; [done|]. repeat constructor. lia. Qed.
#[global] Arguments be_bytes : simpl never.
