(* ===== verification/Json.v ===== *)
(** The text [encoding/json] writes for strings and structs, and positions of a
    list as the backend hands them to a client: the base64 of such a text. *)
From S2P Require Import Prelude GoBase Base64.
Local Open Scope Z_scope.

(** A string in the text of [encoding/json]: control characters, quotes,
    backslashes and the characters unsafe in HTML are escaped, a byte outside
    valid UTF-8 becomes the replacement character. *)
Definition quote : string := String (ascii_of_N 34) "".
Definition escape : string := String (ascii_of_N 92) "".
Definition json_rune (r : N * bool * bytes) : string :=
  let '(c, valid, encoding) := r in
  if negb valid then escape +:+ "ufffd"
  else if ((c =? 34) || (c =? 92))%N then escape +:+ bytes_string encoding
  else if (c =? 8)%N then escape +:+ "b"
  else if (c =? 12)%N then escape +:+ "f"
  else if (c =? 10)%N then escape +:+ "n"
  else if (c =? 13)%N then escape +:+ "r"
  else if (c =? 9)%N then escape +:+ "t"
  else if ((c <? 32) || (c =? 60) || (c =? 62) || (c =? 38))%N then escape +:+ "u00" +:+ hex_byte c
  else if ((c =? 8232) || (c =? 8233))%N then escape +:+ "u" +:+ hex_byte (c / 256) +:+ hex_byte (c mod 256)
  else bytes_string encoding.
Definition json_string (s : string) : string :=
  quote +:+ foldr (λ r t, json_rune r +:+ t) "" (string_runes s) +:+ quote.

Example json_examples :
  json_string ("a<b" +:+ quote) = quote +:+ "a" +:+ escape +:+ "u003cb" +:+ escape +:+ quote +:+ quote ∧
  json_string "hetzner" = quote +:+ "hetzner" +:+ quote.
Proof. vm_compute. split; reflexivity. Qed.

Definition field (name text : string) : string := json_string name +:+ ":" +:+ text.
Definition object (fields : list string) : string :=
  "{" +:+ foldr (λ f t, if decide (t = "") then f else f +:+ "," +:+ t) "" fields +:+ "}".

(** ** Positions *)

Lemma string_bytes_small s : small (string_bytes s).
Proof. unfold string_bytes. apply Forall_fmap, Forall_true. intros c. simpl. apply N_ascii_bounded. Qed.

Lemma length_list_ascii s : length (String.list_ascii_of_string s) = String.length s.
Proof. induction s as [|a s IH]; simpl; [done|by rewrite IH]. Qed.

(** [json.NewDecoder(...)] with [DisallowUnknownFields], decoding one value
    into a struct that already has a value and finding nothing after it.  The
    decoder is a parameter; what the backend relies on is that it reads back
    the structs whose text [text] is, those [carried] at least. *)
Class CursorJSON {C : Type} (text : C → string) := {
  Unmarshal : C → bytes → option C;
  carried : C → Prop;
  Unmarshal_text : ∀ init c, carried c → Unmarshal init (string_bytes (text c)) = Some c;
  carried_short : ∀ c, carried c → (String.length (text c) <= 700)%nat;
}.

Section position.
Context {C : Type} (text : C → string) `{!CursorJSON text}.

Definition encode_position (c : C) : string := EncodeToString (string_bytes (text c)).

Definition decode_position (init : C) (position : string) : option C :=
  if 1024 <? len position then None else
  b ← DecodeString position; Unmarshal init b.

Lemma length_EncodeToString b : (3 * String.length (EncodeToString b) <= 4 * length b + 2)%nat.
Proof.
  unfold EncodeToString.
  assert (∀ l, String.length (String.string_of_list_ascii l) = length l) as ->
    by (intros l; induction l as [|c l IH]; simpl; [done|by rewrite IH]).
  rewrite length_fmap. induction b using triples; simpl in *; lia.
Qed.

Lemma decode_encode init c : carried c → decode_position init (encode_position c) = Some c.
Proof.
  intros Hc. unfold decode_position, encode_position.
  pose proof (length_EncodeToString (string_bytes (text c))) as Hl. pose proof (carried_short c Hc) as Hs.
  assert (length (string_bytes (text c)) = String.length (text c)) as Hb.
  { unfold string_bytes. rewrite length_fmap. apply length_list_ascii. }
  replace (1024 <? len _) with false by (symmetry; apply Z.ltb_ge; unfold len; lia).
  rewrite DecodeString_bytes by apply string_bytes_small. simpl. by apply Unmarshal_text.
Qed.

Lemma encode_position_nonempty c : text c ≠ "" → encode_position c ≠ "".
Proof.
  unfold encode_position, EncodeToString, string_bytes. destruct (text c) as [|a s]; [done|]. intros _. simpl.
  by case_match; [|case_match].
Qed.
End position.
