(* ===== verification/Identifier.v ===== *)
(** [internal/identifier/uuid.go] over the [github.com/google/uuid] package.

    A [uuid.UUID] is 16 bytes, here the number they spell big-endian.  The
    package is not part of the repository: what the backend calls of it is the
    interface [UuidApi], whose laws are its documented behaviour, and
    [rfc9562] is a concrete instance on which witnesses compute. *)
From S2P Require Import Prelude GoBase.
Local Open Scope N_scope.

Abbreviation uuid := N.
Definition Nil : uuid := 0.
Definition uuid_limit : N := 340282366920938463463374607431768211456. (* 2^128 *)

Class UuidApi := {
  uuid_String : uuid → string;           (* [uuid.UUID.String] *)
  uuid_Parse : string → option uuid;     (* [uuid.Parse] *)
  uuid_Version : uuid → N;               (* [uuid.UUID.Version] *)
  uuid_RFC4122 : uuid → bool;            (* [Variant() == uuid.RFC4122] *)
  uuid_Parse_String u : u < uuid_limit → uuid_Parse (uuid_String u) = Some u;
  uuid_Parse_bound s u : uuid_Parse s = Some u → u < uuid_limit;
  uuid_String_length u : String.length (uuid_String u) = 36%nat;   (* documented form *)
  uuid_String_ascii u : Forall (λ c, N_of_ascii c < 128) (String.list_ascii_of_string (uuid_String u));
  uuid_Version_Nil : uuid_Version Nil = 0;                         (* [uuid.Nil] has only zero bits *)
}.

Section identifier.
Context `{U : UuidApi}.

Definition is_v7 (u : uuid) : bool := uuid_Version u =? 7.

Lemma is_v7_not_Nil u : is_v7 u = true → u ≠ Nil.
Proof. unfold is_v7. intros H ->. by rewrite uuid_Version_Nil in H. Qed.

(** [identifier.Parse] *)
Definition Parse (value : string) : go uuid :=
  match uuid_Parse value with
  | None => Err IdentErrInvalid
  | Some parsed =>
      if negb (String.eqb (uuid_String parsed) value) || negb (uuid_Version parsed =? 7)
         || negb (uuid_RFC4122 parsed)
      then Err IdentErrInvalid else Ok parsed
  end.

(** What [identifier.New] returns when it succeeds: [uuid.NewV7] documents a
    version 7 identifier of the RFC 4122 variant. *)
Definition entity_id (u : uuid) : Prop :=
  u < uuid_limit ∧ uuid_Version u = 7 ∧ uuid_RFC4122 u = true.

Lemma entity_id_v7 u : entity_id u → is_v7 u = true.
Proof. intros (_ & Hv & _). unfold is_v7. by rewrite Hv. Qed.

Lemma Parse_String u : entity_id u → Parse (uuid_String u) = Ok u.
Proof.
  intros (Hlt & Hv & Hr). unfold Parse. rewrite uuid_Parse_String by done.
  by rewrite String.eqb_refl, Hv, Hr.
Qed.

Lemma Parse_Ok v u : Parse v = Ok u → v = uuid_String u ∧ entity_id u.
Proof.
  unfold Parse, entity_id. destruct (uuid_Parse v) as [p|] eqn:Hp; [|done].
  destruct (String.eqb_spec (uuid_String p) v) as [Hs|]; [|done]; simpl.
  destruct (N.eqb_spec (uuid_Version p) 7) as [Hv|]; [|done]; simpl.
  destruct (uuid_RFC4122 p) eqn:Hr; [|done]; simpl. intros [= <-].
  split_and!; eauto using uuid_Parse_bound.
Qed.

Lemma uuid_String_inj u v :
  u < uuid_limit → v < uuid_limit → uuid_String u = uuid_String v → u = v.
Proof.
  intros Hu Hv Hs. apply (inj Some).
  by rewrite <-!uuid_Parse_String, Hs by done.
Qed.
End identifier.

(** ** A concrete instance: the canonical hyphenated form of RFC 9562 *)

Fixpoint nibbles (n : nat) (u : N) : list N :=
  match n with O => [] | S n => nibbles n (u / 16) ++ [u mod 16] end.

Definition from_nibbles (l : list N) : N := foldl (λ acc d, acc * 16 + d) 0 l.

Definition hex_value (c : ascii) : option N :=
  let n := N_of_ascii c in
  if (48 <=? n) && (n <=? 57) then Some (n - 48)
  else if (97 <=? n) && (n <=? 102) then Some (n - 87)
  else None.

(** Where a canonical string has its hyphens, counted from the left. *)
Definition hyphen_at (i : nat) : bool := existsb (Nat.eqb i) [8; 13; 18; 23]%nat.

Fixpoint hyphenate (groups : list nat) (ds : list N) : string :=
  match groups with
  | [] => EmptyString
  | [g] => String.string_of_list_ascii (hex_digit <$> take g ds)
  | g :: gs =>
      (String.string_of_list_ascii (hex_digit <$> take g ds)
       ++ String "-" (hyphenate gs (drop g ds)))%string
  end.

Definition canonical (u : N) : string := hyphenate [8; 4; 4; 4; 12]%nat (nibbles 32 u).

Definition unhyphenate (s : string) : option (list ascii) :=
  let l := String.list_ascii_of_string s in
  let at_ i := nth i l "0"%char in
  if (length l =? 36)%nat
     && forallb (λ i, bool_decide (at_ i = "-"%char)) [8; 13; 18; 23]%nat
  then Some (take 8 l ++ take 4 (drop 9 l) ++ take 4 (drop 14 l) ++ take 4 (drop 19 l) ++ drop 24 l)
  else None.

Definition parse_canonical (s : string) : option N :=
  l ← unhyphenate s; ds ← mapM hex_value l;
  let u := from_nibbles ds in if u <? uuid_limit then Some u else None.

Lemma length_nibbles n u : length (nibbles n u) = n.
Proof. revert u; induction n as [|n IH]; intros u; simpl; [done|]. rewrite length_app, IH. simpl. lia. Qed.

Lemma nibbles_small n u : Forall (λ d, d < 16) (nibbles n u).
Proof.
  revert u; induction n as [|n IH]; intros u; simpl; [constructor|].
  apply Forall_app; split; [apply IH|]. constructor; [by apply N.mod_lt|constructor].
Qed.

Lemma from_nibbles_nibbles n u : from_nibbles (nibbles n u) = u mod 16 ^ N.of_nat n.
Proof.
  revert u; induction n as [|n IH]; intros u.
  - unfold from_nibbles. simpl. by rewrite N.mod_1_r.
  - unfold from_nibbles in *. simpl nibbles. rewrite foldl_app. simpl. rewrite IH.
    rewrite Nat2N.inj_succ, N.pow_succ_r', N.Div0.mod_mul_r. lia.
Qed.

Lemma hex_value_digit d : d < 16 → hex_value (hex_digit d) = Some d.
Proof.
  intros H. assert (Hb : forallb (λ d, bool_decide (hex_value (hex_digit d) = Some d))
                          (N.of_nat <$> seq 0 16) = true) by (vm_compute; reflexivity).
  rewrite forallb_forall in Hb. eapply bool_decide_eq_true, Hb, list_elem_of_In, list_elem_of_fmap.
  exists (N.to_nat d). split; [lia|]. apply elem_of_seq. lia.
Qed.

Lemma mapM_hex_value ds : Forall (λ d, d < 16) ds → mapM hex_value (hex_digit <$> ds) = Some ds.
Proof.
  intros H. apply mapM_Some, Forall2_fmap_l.
  induction H; constructor; auto using hex_value_digit.
Qed.

Lemma unhyphenate_canonical u : unhyphenate (canonical u) = Some (hex_digit <$> nibbles 32 u).
Proof.
  unfold canonical. pose proof (length_nibbles 32 u) as Hl.
  destruct (nibbles 32 u) as [|d0 ds]; [done|].
  do 31 (destruct ds as [|? ds]; [done|]). destruct ds; [|done].
  unfold unhyphenate. simpl String.list_ascii_of_string.
  cbn [hyphenate take drop fmap list_fmap String.string_of_list_ascii String.append
       String.list_ascii_of_string].
  reflexivity.
Qed.

Lemma parse_canonical_canonical u : u < uuid_limit → parse_canonical (canonical u) = Some u.
Proof.
  intros Hu. unfold parse_canonical. rewrite unhyphenate_canonical.
  cbn [mbind option_bind]. rewrite mapM_hex_value by apply nibbles_small.
  cbn [mbind option_bind]. rewrite from_nibbles_nibbles, N.mod_small by (apply Hu).
  by apply N.ltb_lt in Hu as ->.
Qed.

Lemma parse_canonical_bound s u : parse_canonical s = Some u → u < uuid_limit.
Proof.
  unfold parse_canonical. intros (l & _ & (ds & _ & H)%bind_Some)%bind_Some.
  case_match eqn:Hlt; simplify_eq. by apply N.ltb_lt.
Qed.

Lemma canonical_length u : String.length (canonical u) = 36%nat.
Proof.
  unfold canonical. pose proof (length_nibbles 32 u) as Hl.
  destruct (nibbles 32 u) as [|d0 ds]; [done|].
  do 31 (destruct ds as [|? ds]; [done|]). by destruct ds.
Qed.

Lemma hex_digit_ascii d : d < 16 → N_of_ascii (hex_digit d) < 128.
Proof. intros Hd. unfold hex_digit. destruct (d <? 10); rewrite N_ascii_embedding; lia. Qed.

Lemma hyphenate_ascii gs ds : Forall (λ d, d < 16) ds →
  Forall (λ c, N_of_ascii c < 128) (String.list_ascii_of_string (hyphenate gs ds)).
Proof.
  assert (Happ : ∀ a b, String.list_ascii_of_string (a ++ b)%string =
    String.list_ascii_of_string a ++ String.list_ascii_of_string b).
  { intros a b. induction a as [|c a IH]; [done|]. simpl. by f_equal. }
  assert (Hdig : ∀ l, Forall (λ d, d < 16) l →
    Forall (λ c, N_of_ascii c < 128) (String.list_ascii_of_string (String.string_of_list_ascii (hex_digit <$> l)))).
  { intros l Hl. rewrite String.list_ascii_of_string_of_list_ascii. apply Forall_fmap.
    eapply Forall_impl; [exact Hl|]. apply hex_digit_ascii. }
  revert ds. induction gs as [|g [|g' gs] IH]; intros ds Hds; [constructor|by apply Hdig, Forall_take|].
  change (hyphenate _ _) with (String.string_of_list_ascii (hex_digit <$> take g ds)
    ++ String "-" (hyphenate (g' :: gs) (drop g ds)))%string.
  rewrite Happ. apply Forall_app. split; [by apply Hdig, Forall_take|].
  constructor; [done|]. by apply IH, Forall_drop.
Qed.

(** Version nibble: bits 76 to 79.  Variant: the two bits 62 and 63 are 1 0. *)
Definition rfc9562 : UuidApi := {|
  uuid_String := canonical;
  uuid_Parse := parse_canonical;
  uuid_Version u := N.land (N.shiftr u 76) 15;
  uuid_RFC4122 u := N.land (N.shiftr u 62) 3 =? 2;
  uuid_Parse_String := parse_canonical_canonical;
  uuid_Parse_bound := parse_canonical_bound;
  uuid_String_length := canonical_length;
  uuid_String_ascii u := hyphenate_ascii _ _ (nibbles_small 32 u);
  uuid_Version_Nil := eq_refl;
|}.

(** A version 7 identifier of the RFC 4122 variant for each small number. *)
Definition sample_id (n : N) : uuid := N.lor (N.shiftl 7 76) (N.lor (N.shiftl 2 62) n).

Example sample_id_string : canonical (sample_id 1) = "00000000-0000-7000-8000-000000000001".
Proof. vm_compute. reflexivity. Qed.
