(* ===== verification/Roles.v ===== *)
(** The role policy of [internal/workspace]: ranks, grant ceilings and
    assignment ([membership.go], [grants.go], [change_member.go]).  Roles and
    grant classes are the strings the code compares; an unknown role has rank
    0, as the map lookup gives it. *)
From S2P Require Import Prelude GoBase.
Local Open Scope Z_scope.

Definition ranks (role : string) : Z :=
  if decide (role = "viewer") then 1
  else if decide (role = "operator") then 2
  else if decide (role = "admin") then 3
  else if decide (role = "owner") then 4
  else 0.

Definition Allows (role minimum : string) : bool :=
  (0 <? ranks minimum) && (ranks minimum <=? ranks role).

Definition WithinCeiling (role action : string) : bool :=
  if decide (action = "read") then Allows role "viewer"
  else if decide (action = "refresh" ∨ action = "operate" ∨ action = "high_impact")
  then Allows role "operator"
  else false.

Definition CanAssign (actor role : string) : bool :=
  Allows role "viewer"
  && (bool_decide (actor = "owner")
      || bool_decide (actor = "admin")
         && (bool_decide (role = "viewer") || bool_decide (role = "operator"))).

Definition known_role (role : string) : Prop :=
  role = "viewer" ∨ role = "operator" ∨ role = "admin" ∨ role = "owner".
#[export] Instance known_role_dec r : Decision (known_role r).
Proof. unfold known_role. apply _. Defined.

Definition grant_classes : list string := ["read"; "refresh"; "operate"; "high_impact"].

(** ** Facts about the order of roles *)

Lemma ranks_range r : 0 <= ranks r <= 4.
Proof. unfold ranks. repeat case_decide; lia. Qed.

Lemma ranks_known r : 0 < ranks r ↔ known_role r.
Proof. unfold ranks, known_role. repeat case_decide; naive_solver lia. Qed.

Lemma ranks_inj r r' : known_role r → ranks r = ranks r' → r = r'.
Proof. unfold known_role, ranks. intros [-> | [-> | [-> | ->]]]; simpl; repeat case_decide; naive_solver. Qed.

Lemma Allows_spec r m : Allows r m = true ↔ 0 < ranks m ∧ ranks m <= ranks r.
Proof. unfold Allows. rewrite andb_true_iff, Z.ltb_lt, Z.leb_le. done. Qed.

Lemma Allows_viewer r : Allows r "viewer" = true ↔ known_role r.
Proof. rewrite Allows_spec, <-ranks_known. change (ranks "viewer") with 1. lia. Qed.

Lemma Allows_refl r : known_role r → Allows r r = true.
Proof. rewrite Allows_spec, <-ranks_known. lia. Qed.

Lemma Allows_trans a b c : Allows a b = true → Allows b c = true → Allows a c = true.
Proof. rewrite !Allows_spec. lia. Qed.

Lemma Allows_antisym a b : Allows a b = true → Allows b a = true → a = b.
Proof. rewrite !Allows_spec. intros [? ?] [? ?]. apply ranks_inj; [apply ranks_known|]; lia. Qed.

(** A role at least as high has at least the grant classes. *)
Lemma WithinCeiling_mono r r' a :
  Allows r' r = true → WithinCeiling r a = true → WithinCeiling r' a = true.
Proof.
  unfold WithinCeiling. rewrite !Allows_spec. repeat case_decide; rewrite ?Allows_spec; lia || done.
Qed.

Lemma WithinCeiling_class r a : WithinCeiling r a = true → a ∈ grant_classes.
Proof.
  unfold WithinCeiling, grant_classes. repeat case_decide; [set_solver|set_solver|done].
Qed.

Lemma CanAssign_spec a r :
  CanAssign a r = true ↔
  known_role r ∧ (a = "owner" ∨ a = "admin" ∧ (r = "viewer" ∨ r = "operator")).
Proof.
  unfold CanAssign.
  rewrite andb_true_iff, orb_true_iff, andb_true_iff, orb_true_iff, Allows_viewer, !bool_decide_eq_true.
  done.
Qed.

(** Nobody assigns a role above the one they hold. *)
Lemma CanAssign_Allows a r : CanAssign a r = true → Allows a r = true.
Proof.
  rewrite CanAssign_spec. intros [Hk [-> | [-> [-> | ->]]]]; [|done..].
  apply Allows_spec. pose proof (ranks_range r). apply ranks_known in Hk.
  change (ranks "owner") with 4. lia.
Qed.
