(* ===== verification/Schema.v ===== *)
(** The PostgreSQL schema of [backend/migrations] as the backend's SQL reads
    and writes it: one record per row, one finite map per table keyed by the
    table's primary key.  Columns PostgreSQL constrains to a fixed vocabulary
    and the code switches on ([operations.state], [jobs.state]) are inductive
    types; nullable columns are options; a Go [float64] is the value IEEE 754
    specifies ([spec_float]).  The three lease columns of [jobs] are
    null together or not at all (CHECK in [000016_jobs.sql]), so they are one
    optional record. *)
From Stdlib Require Import Floats.SpecFloat.
From S2P Require Import Prelude GoBase Identifier.
Local Open Scope Z_scope.

(** ** Enumerations *)

Inductive op_state :=
| Queued | Dispatching | WaitingProvider | Reconciling | Unknown | Succeeded | Failed | Cancelled.

Inductive job_state := JQueued | JRunning | JSucceeded | JFailed | JCancelled.

#[export] Instance op_state_eq_dec : EqDecision op_state.
Proof. solve_decision. Defined.
#[export] Instance job_state_eq_dec : EqDecision job_state.
Proof. solve_decision. Defined.

(** The text of the column. *)
Definition op_state_text (s : op_state) : string :=
  match s with
  | Queued => "queued" | Dispatching => "dispatching" | WaitingProvider => "waiting_provider"
  | Reconciling => "reconciling" | Unknown => "unknown" | Succeeded => "succeeded"
  | Failed => "failed" | Cancelled => "cancelled"
  end.

Definition job_state_text (s : job_state) : string :=
  match s with
  | JQueued => "queued" | JRunning => "running" | JSucceeded => "succeeded"
  | JFailed => "failed" | JCancelled => "cancelled"
  end.

(** ** Rows *)

Record user := User {
  us_issuer : string; us_subject : string; us_display_name : string; us_disabled_at : option time }.

Record workspace := Workspace {
  ws_name : string; ws_policy_version : Z; ws_closed_at : option time;
  ws_queue_limit : Z; ws_audit_retention_days : Z }.

Record membership := Membership { mb_role : string; mb_version : Z }.

Record session := Session {
  se_user : uuid; se_csrf : bytes; se_authenticated_at : time; se_created_at : time;
  se_last_seen_at : time; se_idle_expires_at : time; se_absolute_expires_at : time;
  se_audit_workspace : uuid; se_reauthenticated : bool }.

Record invitation := Invitation {
  iv_workspace : uuid; iv_inviter : uuid; iv_inviter_version : Z;
  iv_issuer : string; iv_subject : string; iv_role : string; iv_expires_at : time }.

Record connection := Connection {
  cn_workspace : uuid; cn_provider : string; cn_api_family : string; cn_account_identity : string;
  cn_region_policy : list string; cn_label : string; cn_status : string;
  cn_active_version : option Z; cn_permissions_verified_at : option time;
  cn_verified_capabilities : list string }.

Record credential_version := CredentialVersion {
  cv_ciphertext : bytes; cv_nonce : bytes; cv_wrapped_key : bytes; cv_wrapping_nonce : bytes;
  cv_format : Z; cv_master_key_id : string; cv_revoked_at : option time }.

Record held_lease := HeldLease { hl_owner : uuid; hl_token : uuid; hl_expires_at : time }.

Record job := Job {
  jb_workspace : uuid; jb_connection : uuid; jb_type : string; jb_payload_version : Z;
  jb_sync : option uuid; jb_operation : option uuid; jb_state : job_state;
  jb_next_run_at : time; jb_lease : option held_lease; jb_attempts : Z; jb_deadline : time;
  jb_created_at : time; jb_completed_at : option time }.

Record snapshot_details := SnapshotDetails {
  sd_source_native_id : string; sd_source_type : string; sd_status_reason : string;
  sd_created_at : option time; sd_native_created_at : string; sd_creation_time_reason : string;
  sd_size_bytes : option Z; sd_size_gb : option spec_float; sd_minimum_disk_gb : option spec_float;
  sd_regions : list string }.

Record details := Details {
  dt_region : string; dt_machine_type : string; dt_snapshot : option snapshot_details }.

Record sync_run := SyncRun {
  sy_workspace : uuid; sy_connection : uuid; sy_resource_type : string; sy_scope : string;
  sy_generation : uuid; sy_status : string; sy_page_count : Z; sy_started_at : option time;
  sy_completed_at : option time; sy_actor : option uuid; sy_scan_complete : bool;
  sy_credential_version : option Z; sy_failure_code : option string; sy_generation_number : Z }.

Record resource := Resource {
  rs_workspace : uuid; rs_connection : uuid; rs_api_family : string; rs_resource_type : string;
  rs_scope : string; rs_native_id : string; rs_native_status : string; rs_status : string;
  rs_name : string; rs_details : details; rs_observed_at : time; rs_generation : uuid;
  rs_tombstoned_at : option time; rs_version : Z }.

Record action_review := ActionReview {
  ar_workspace : uuid; ar_actor : uuid; ar_connection : uuid; ar_resource : uuid;
  ar_action : string; ar_intent_hash : bytes; ar_precondition_hash : bytes;
  ar_credential_version : Z; ar_policy_version : Z; ar_high_impact : bool;
  ar_target_name : string; ar_expires_at : time; ar_created_at : time;
  ar_consumed_by : option uuid }.

Record operation := Operation {
  op_workspace : uuid; op_actor : uuid; op_connection : uuid; op_resource : uuid;
  op_action : string; op_intent_hash : bytes; op_idempotency_key : string; op_review : uuid;
  op_credential_version : Z; op_policy_version : Z; op_st : op_state; op_version : Z;
  op_event_sequence : Z; op_deadline : time; op_created_at : time; op_updated_at : time;
  op_provider_reference : option string }.

Record operation_event := OperationEvent {
  oe_workspace : uuid; oe_operation : uuid; oe_sequence : Z;
  oe_from : string; oe_to : string; oe_created_at : time }.

(** Primary key of [resource_locks]: workspace, connection, target kind,
    resource type, scope and native id. *)
Abbreviation lock_key := (uuid * uuid * string * string * string * string)%type.
Record resource_lock := ResourceLock { rl_operation : uuid; rl_fencing_version : Z }.

Record operation_resolution := OperationResolution {
  or_workspace : uuid; or_operation : uuid; or_actor : uuid; or_audit : uuid }.

Record audit_event := AuditEvent {
  ae_workspace : uuid; ae_actor_kind : string; ae_actor_id : option uuid; ae_event_type : string;
  ae_request_id : string; ae_metadata : gmap string string; ae_created_at : time }.

Record staged := Staged {
  sg_id : uuid; sg_api_family : string; sg_resource_type : string; sg_scope : string;
  sg_native_status : string; sg_status : string; sg_name : string; sg_details : details;
  sg_observed_at : time }.

Record login_challenge := LoginChallenge {
  lc_browser : bytes; lc_nonce : string; lc_verifier : string; lc_created_at : time;
  lc_expires_at : time; lc_invitation : option bytes; lc_session : option bytes }.

(** The one row of [login_initiation_budget]. *)
Record login_budget := LoginBudget { lb_window_started_at : time; lb_issued : Z }.

Record recovery_gate := RecoveryGate { rg_open : bool; rg_version : Z; rg_changed_at : time }.

(** ** The database *)

Record db := DB {
  users : gmap uuid user;
  workspaces : gmap uuid workspace;
  memberships : gmap (uuid * uuid) membership;
  sessions : gmap bytes session;
  invitations : gmap bytes invitation;
  installation_bootstrap : option (uuid * uuid);
  connections : gmap uuid connection;
  credential_versions : gmap (uuid * uuid * Z) credential_version;
  connection_grants : gmap (uuid * uuid * uuid) (list string);
  jobs : gmap uuid job;
  sync_runs : gmap uuid sync_run;
  resources : gmap uuid resource;
  inventory_staging : gmap (uuid * uuid * uuid * string) staged;
  action_reviews : gmap uuid action_review;
  operations : gmap uuid operation;
  operation_events : gmap uuid operation_event;
  resource_locks : gmap lock_key resource_lock;
  operation_resolutions : gmap uuid operation_resolution;
  audit_events : gmap uuid audit_event;
  dispatch_recovery_gate : option recovery_gate;
  fencing_sequence : Z;
  generation_sequence : Z;
  login_challenges : gmap bytes login_challenge;
  login_initiation_budget : option login_budget;
}.

Definition empty_db : db :=
  DB ∅ ∅ ∅ ∅ ∅ None ∅ ∅ ∅ ∅ ∅ ∅ ∅ ∅ ∅ ∅ ∅ ∅ ∅ (Some (RecoveryGate false 1 0)) 0 0 ∅ None.

(** ** Field updates *)

#[export] Instance eta_workspace : Eta workspace := λ r,
    Workspace (ws_name r) (ws_policy_version r) (ws_closed_at r) (ws_queue_limit r)
    (ws_audit_retention_days r).
#[export] Instance set_ws_name : Setter ws_name. Proof. solve_setter. Defined.
#[export] Instance set_ws_policy_version : Setter ws_policy_version. Proof. solve_setter. Defined.
#[export] Instance set_ws_queue_limit : Setter ws_queue_limit. Proof. solve_setter. Defined.
#[export] Instance set_ws_audit_retention_days : Setter ws_audit_retention_days. Proof. solve_setter. Defined.

#[export] Instance eta_membership : Eta membership := λ r,
  Membership (mb_role r) (mb_version r).
#[export] Instance set_mb_role : Setter mb_role. Proof. solve_setter. Defined.
#[export] Instance set_mb_version : Setter mb_version. Proof. solve_setter. Defined.

#[export] Instance eta_session : Eta session := λ r,
    Session (se_user r) (se_csrf r) (se_authenticated_at r) (se_created_at r) (se_last_seen_at
    r) (se_idle_expires_at r) (se_absolute_expires_at r) (se_audit_workspace r)
    (se_reauthenticated r).
#[export] Instance set_se_last_seen_at : Setter se_last_seen_at. Proof. solve_setter. Defined.
#[export] Instance set_se_idle_expires_at : Setter se_idle_expires_at. Proof. solve_setter. Defined.
#[export] Instance set_se_reauthenticated : Setter se_reauthenticated. Proof. solve_setter. Defined.

#[export] Instance eta_connection : Eta connection := λ r,
    Connection (cn_workspace r) (cn_provider r) (cn_api_family r) (cn_account_identity r)
    (cn_region_policy r) (cn_label r) (cn_status r) (cn_active_version r)
    (cn_permissions_verified_at r) (cn_verified_capabilities r).
#[export] Instance set_cn_status : Setter cn_status. Proof. solve_setter. Defined.
#[export] Instance set_cn_active_version : Setter cn_active_version. Proof. solve_setter. Defined.
#[export] Instance set_cn_permissions_verified_at : Setter cn_permissions_verified_at. Proof. solve_setter. Defined.
#[export] Instance set_cn_verified_capabilities : Setter cn_verified_capabilities. Proof. solve_setter. Defined.

#[export] Instance eta_credential_version : Eta credential_version := λ r,
    CredentialVersion (cv_ciphertext r) (cv_nonce r) (cv_wrapped_key r) (cv_wrapping_nonce r)
    (cv_format r) (cv_master_key_id r) (cv_revoked_at r).
#[export] Instance set_cv_wrapped_key : Setter cv_wrapped_key. Proof. solve_setter. Defined.
#[export] Instance set_cv_wrapping_nonce : Setter cv_wrapping_nonce. Proof. solve_setter. Defined.
#[export] Instance set_cv_master_key_id : Setter cv_master_key_id. Proof. solve_setter. Defined.

#[export] Instance eta_held_lease : Eta held_lease := λ r,
  HeldLease (hl_owner r) (hl_token r) (hl_expires_at r).
#[export] Instance set_hl_expires_at : Setter hl_expires_at. Proof. solve_setter. Defined.

#[export] Instance eta_job : Eta job := λ r,
    Job (jb_workspace r) (jb_connection r) (jb_type r) (jb_payload_version r) (jb_sync r)
    (jb_operation r) (jb_state r) (jb_next_run_at r) (jb_lease r) (jb_attempts r) (jb_deadline
    r) (jb_created_at r) (jb_completed_at r).
#[export] Instance set_jb_state : Setter jb_state. Proof. solve_setter. Defined.
#[export] Instance set_jb_next_run_at : Setter jb_next_run_at. Proof. solve_setter. Defined.
#[export] Instance set_jb_lease : Setter jb_lease. Proof. solve_setter. Defined.
#[export] Instance set_jb_attempts : Setter jb_attempts. Proof. solve_setter. Defined.
#[export] Instance set_jb_deadline : Setter jb_deadline. Proof. solve_setter. Defined.
#[export] Instance set_jb_completed_at : Setter jb_completed_at. Proof. solve_setter. Defined.

#[export] Instance eta_sync_run : Eta sync_run := λ r,
    SyncRun (sy_workspace r) (sy_connection r) (sy_resource_type r) (sy_scope r) (sy_generation
    r) (sy_status r) (sy_page_count r) (sy_started_at r) (sy_completed_at r) (sy_actor r)
    (sy_scan_complete r) (sy_credential_version r) (sy_failure_code r) (sy_generation_number r).
#[export] Instance set_sy_generation : Setter sy_generation. Proof. solve_setter. Defined.
#[export] Instance set_sy_status : Setter sy_status. Proof. solve_setter. Defined.
#[export] Instance set_sy_page_count : Setter sy_page_count. Proof. solve_setter. Defined.
#[export] Instance set_sy_started_at : Setter sy_started_at. Proof. solve_setter. Defined.
#[export] Instance set_sy_completed_at : Setter sy_completed_at. Proof. solve_setter. Defined.
#[export] Instance set_sy_scan_complete : Setter sy_scan_complete. Proof. solve_setter. Defined.
#[export] Instance set_sy_credential_version : Setter sy_credential_version. Proof. solve_setter. Defined.
#[export] Instance set_sy_failure_code : Setter sy_failure_code. Proof. solve_setter. Defined.

#[export] Instance eta_resource : Eta resource := λ r,
    Resource (rs_workspace r) (rs_connection r) (rs_api_family r) (rs_resource_type r) (rs_scope
    r) (rs_native_id r) (rs_native_status r) (rs_status r) (rs_name r) (rs_details r)
    (rs_observed_at r) (rs_generation r) (rs_tombstoned_at r) (rs_version r).
#[export] Instance set_rs_native_status : Setter rs_native_status. Proof. solve_setter. Defined.
#[export] Instance set_rs_status : Setter rs_status. Proof. solve_setter. Defined.
#[export] Instance set_rs_name : Setter rs_name. Proof. solve_setter. Defined.
#[export] Instance set_rs_details : Setter rs_details. Proof. solve_setter. Defined.
#[export] Instance set_rs_observed_at : Setter rs_observed_at. Proof. solve_setter. Defined.
#[export] Instance set_rs_generation : Setter rs_generation. Proof. solve_setter. Defined.
#[export] Instance set_rs_tombstoned_at : Setter rs_tombstoned_at. Proof. solve_setter. Defined.
#[export] Instance set_rs_version : Setter rs_version. Proof. solve_setter. Defined.

#[export] Instance eta_action_review : Eta action_review := λ r,
    ActionReview (ar_workspace r) (ar_actor r) (ar_connection r) (ar_resource r) (ar_action r)
    (ar_intent_hash r) (ar_precondition_hash r) (ar_credential_version r) (ar_policy_version r)
    (ar_high_impact r) (ar_target_name r) (ar_expires_at r) (ar_created_at r) (ar_consumed_by
    r).
#[export] Instance set_ar_consumed_by : Setter ar_consumed_by. Proof. solve_setter. Defined.

#[export] Instance eta_operation : Eta operation := λ r,
    Operation (op_workspace r) (op_actor r) (op_connection r) (op_resource r) (op_action r)
    (op_intent_hash r) (op_idempotency_key r) (op_review r) (op_credential_version r)
    (op_policy_version r) (op_st r) (op_version r) (op_event_sequence r) (op_deadline r)
    (op_created_at r) (op_updated_at r) (op_provider_reference r).
#[export] Instance set_op_st : Setter op_st. Proof. solve_setter. Defined.
#[export] Instance set_op_version : Setter op_version. Proof. solve_setter. Defined.
#[export] Instance set_op_event_sequence : Setter op_event_sequence. Proof. solve_setter. Defined.
#[export] Instance set_op_updated_at : Setter op_updated_at. Proof. solve_setter. Defined.
#[export] Instance set_op_provider_reference : Setter op_provider_reference. Proof. solve_setter. Defined.

#[export] Instance eta_recovery_gate : Eta recovery_gate := λ r,
  RecoveryGate (rg_open r) (rg_version r) (rg_changed_at r).
#[export] Instance set_rg_open : Setter rg_open. Proof. solve_setter. Defined.
#[export] Instance set_rg_version : Setter rg_version. Proof. solve_setter. Defined.
#[export] Instance set_rg_changed_at : Setter rg_changed_at. Proof. solve_setter. Defined.

#[export] Instance eta_db : Eta db := λ r,
    DB (users r) (workspaces r) (memberships r) (sessions r) (invitations r)
    (installation_bootstrap r) (connections r) (credential_versions r) (connection_grants r)
    (jobs r) (sync_runs r) (resources r) (inventory_staging r) (action_reviews r) (operations r)
    (operation_events r) (resource_locks r) (operation_resolutions r) (audit_events r)
    (dispatch_recovery_gate r) (fencing_sequence r) (generation_sequence r)
    (login_challenges r) (login_initiation_budget r).
#[export] Instance set_users : Setter users. Proof. solve_setter. Defined.
#[export] Instance set_workspaces : Setter workspaces. Proof. solve_setter. Defined.
#[export] Instance set_memberships : Setter memberships. Proof. solve_setter. Defined.
#[export] Instance set_sessions : Setter sessions. Proof. solve_setter. Defined.
#[export] Instance set_invitations : Setter invitations. Proof. solve_setter. Defined.
#[export] Instance set_installation_bootstrap : Setter installation_bootstrap. Proof. solve_setter. Defined.
#[export] Instance set_connections : Setter connections. Proof. solve_setter. Defined.
#[export] Instance set_credential_versions : Setter credential_versions. Proof. solve_setter. Defined.
#[export] Instance set_connection_grants : Setter connection_grants. Proof. solve_setter. Defined.
#[export] Instance set_jobs : Setter jobs. Proof. solve_setter. Defined.
#[export] Instance set_sync_runs : Setter sync_runs. Proof. solve_setter. Defined.
#[export] Instance set_resources : Setter resources. Proof. solve_setter. Defined.
#[export] Instance set_inventory_staging : Setter inventory_staging. Proof. solve_setter. Defined.
#[export] Instance set_action_reviews : Setter action_reviews. Proof. solve_setter. Defined.
#[export] Instance set_operations : Setter operations. Proof. solve_setter. Defined.
#[export] Instance set_operation_events : Setter operation_events. Proof. solve_setter. Defined.
#[export] Instance set_resource_locks : Setter resource_locks. Proof. solve_setter. Defined.
#[export] Instance set_operation_resolutions : Setter operation_resolutions. Proof. solve_setter. Defined.
#[export] Instance set_audit_events : Setter audit_events. Proof. solve_setter. Defined.
#[export] Instance set_dispatch_recovery_gate : Setter dispatch_recovery_gate. Proof. solve_setter. Defined.
#[export] Instance set_fencing_sequence : Setter fencing_sequence. Proof. solve_setter. Defined.
#[export] Instance set_generation_sequence : Setter generation_sequence. Proof. solve_setter. Defined.
#[export] Instance set_login_challenges : Setter login_challenges. Proof. solve_setter. Defined.
#[export] Instance set_login_initiation_budget : Setter login_initiation_budget. Proof. solve_setter. Defined.
