(* ===== verification/Tx.v ===== *)
(** Transactions against the database, as the backend drives them with pgx.

    A [txm A] is one stretch of Go code between external calls.  It threads
    the committed database, the open transaction's view of it, and an
    environment: the database clock, the skew of the process clock, the
    outcome of each round trip to PostgreSQL, the identifiers the [uuid]
    package generates and the bytes [crypto/rand] yields.  A round trip can fail before it takes effect
    ([Lost]), or after it with its acknowledgement lost ([Unacked]): only the
    latter distinguishes a failed COMMIT from one that was applied. *)
From S2P Require Import Prelude GoBase Identifier Schema.
Local Open Scope Z_scope.

Inductive fault := NoFault | Lost | Unacked.
Record outcome := Outcome { oc_fault : fault; oc_elapsed : N }.

Record env := Env {
  en_clock : time;                (* [clock_timestamp()] at the last statement *)
  en_skew : duration;             (* the process clock minus the database clock *)
  en_outcomes : list outcome;     (* of the round trips to come; then no fault *)
  en_ids : list (option uuid);    (* what [uuid.NewV7] returns; then it fails *)
  en_random : list (option N) }.  (* what [rand.Read] fills 32 bytes with; then it fails *)

Record txs := Txs { tx_db : db; tx_work : db; tx_env : env }.

Definition txm (A : Type) : Type := txs → go A * txs.

#[export] Instance txm_ret : MRet txm := λ A a s, (Ok a, s).
#[export] Instance txm_bind : MBind txm := λ A B k m s,
  match m s with (Ok a, s') => k a s' | (Err e, s') => (Err e, s') end.

Definition throw {A} (e : error) : txm A := λ s, (Err e, s).

(** [if b { return e }] *)
Definition reject_if (b : bool) (e : error) : txm unit := if b then throw e else mret tt.

(** A pure Go function that can fail, called for its result or its error. *)
Definition lift {A} (r : go A) : txm A := λ s, (r, s).

(** [x, err := m] where the caller inspects [err] itself. *)
Definition attempt {A} (m : txm A) : txm (go A) := λ s, let '(r, s') := m s in (Ok r, s').

(** [if m != nil { return e }]: any error of [m] becomes [e]. *)
Definition or_fail {A} (e : error) (m : txm A) : txm A := λ s,
  match m s with (Err _, s') => (Err e, s') | r => r end.

Fixpoint for_each {A} (l : list A) (body : A → txm unit) : txm unit :=
  match l with [] => mret tt | x :: r => body x ;; for_each r body end.

(** ** Round trips *)

Definition next_outcome (e : env) : fault * env :=
  match en_outcomes e with
  | [] => (NoFault, e)
  | Outcome f t :: r => (f, Env (en_clock e + Z.of_N t) (en_skew e) r (en_ids e) (en_random e))
  end.

(** The meaning of one SQL statement at an instant: [None] when a constraint
    rejects it, otherwise its result and the database it leaves. *)
Definition sql (A : Type) : Type := time → db → option (A * db).

Definition rd {A} (f : time → db → A) : sql A := λ now d, Some (f now d, d).

(** A statement of the open transaction; [None] is a driver error. *)
Definition stmt {A} (q : sql A) : txm (option A) := λ s,
  let '(f, e) := next_outcome (tx_env s) in
  match f with
  | NoFault =>
      match q (en_clock e) (tx_work s) with
      | Some (a, d) => (Ok (Some a), Txs (tx_db s) d e)
      | None => (Ok None, Txs (tx_db s) (tx_work s) e)
      end
  | _ => (Ok None, Txs (tx_db s) (tx_work s) e)
  end.

(** A statement outside a transaction, committed on its own. *)
Definition pool_stmt {A} (q : sql A) : txm (option A) := λ s,
  let '(f, e) := next_outcome (tx_env s) in
  match q (en_clock e) (tx_db s) with
  | Some (a, d) =>
      match f with
      | NoFault => (Ok (Some a), Txs d d e)
      | Lost => (Ok None, Txs (tx_db s) (tx_db s) e)
      | Unacked => (Ok None, Txs d d e)
      end
  | None => (Ok None, Txs (tx_db s) (tx_db s) e)
  end.

(** [platform.BeginTx]; every caller defers [tx.Rollback], so the view of a
    transaction that is not committed is discarded. *)
Definition begin_tx (err : error) : txm unit := λ s,
  let '(f, e) := next_outcome (tx_env s) in
  match f with
  | NoFault => (Ok tt, Txs (tx_db s) (tx_db s) e)
  | _ => (Err err, Txs (tx_db s) (tx_work s) e)
  end.

Definition commit (err : error) : txm unit := λ s,
  let '(f, e) := next_outcome (tx_env s) in
  match f with
  | NoFault => (Ok tt, Txs (tx_work s) (tx_work s) e)
  | Lost => (Err err, Txs (tx_db s) (tx_work s) e)
  | Unacked => (Err err, Txs (tx_work s) (tx_work s) e)
  end.

(** [QueryRow(...).Scan(...)] where [pgx.ErrNoRows] maps to [none] and any
    other error to [fail]. *)
Definition scan {A} (m : txm (option (option A))) (none fail : error) : txm A :=
  r ← m;
  match r with
  | Some (Some a) => mret a
  | Some None => throw none
  | None => throw fail
  end.

Definition query_row {A} (none fail : error) (q : sql (option A)) : txm A := scan (stmt q) none fail.
Definition pool_row {A} (none fail : error) (q : sql (option A)) : txm A :=
  scan (pool_stmt q) none fail.

(** [Exec], and [QueryRow] of a statement that always returns a row. *)
Definition exec {A} (fail : error) (q : sql A) : txm A :=
  r ← stmt q; match r with Some a => mret a | None => throw fail end.
Definition pool_exec {A} (fail : error) (q : sql A) : txm A :=
  r ← pool_stmt q; match r with Some a => mret a | None => throw fail end.

(** [uuid.NewV7()] (and [uuid.NewRandom()]) *)
Definition with_ids (ids : list (option uuid)) (s : txs) : txs :=
  let e := tx_env s in
  Txs (tx_db s) (tx_work s) (Env (en_clock e) (en_skew e) (en_outcomes e) ids (en_random e)).

Definition new_id (err : error) : txm uuid := λ s,
  match en_ids (tx_env s) with
  | Some u :: r => (Ok u, with_ids r s)
  | None :: r => (Err err, with_ids r s)
  | [] => (Err err, s)
  end.

(** [rand.Read] of 32 bytes, as the number they spell. *)
Definition with_random (random : list (option N)) (s : txs) : txs :=
  let e := tx_env s in
  Txs (tx_db s) (tx_work s) (Env (en_clock e) (en_skew e) (en_outcomes e) (en_ids e) random).

Definition rand_read (err : error) : txm N := λ s,
  match en_random (tx_env s) with
  | Some n :: r => (Ok n, with_random r s)
  | None :: r => (Err err, with_random r s)
  | [] => (Err err, s)
  end.

(** [time.Now()] *)
Definition go_now : txm time := λ s, (Ok (en_clock (tx_env s) + en_skew (tx_env s)), s).

(** ** Statements on tables *)

(** A condition of a [WHERE] or [JOIN] clause: no row unless it holds. *)
Definition require (b : bool) : option unit := if b then Some tt else None.

(** Columns of type [bigint]: arithmetic out of range is an error. *)
Definition bigint_max : Z := 9223372036854775807.
Definition bigint (z : Z) : option Z := if z <=? bigint_max then Some z else None.

Definition insert_new `{Countable K} {V} (k : K) (v : V) (m : gmap K V) : option (gmap K V) :=
  match m !! k with Some _ => None | None => Some (<[k := v]> m) end.

(** [UPDATE t SET ... WHERE p]: the updated table and the rows affected. *)
Definition update_where `{Countable K} {V} (p : K → V → bool) (f : V → V) (m : gmap K V)
  : nat * gmap K V :=
  (size (filter (λ '(k, v), p k v = true) m), map_imap (λ k v, Some (if p k v then f v else v)) m).

(** [DELETE FROM t WHERE p] *)
Definition delete_where `{Countable K} {V} (p : K → V → bool) (m : gmap K V) : nat * gmap K V :=
  (size (filter (λ '(k, v), p k v = true) m), filter (λ '(k, v), p k v = false) m).

(** [SELECT count( * ) FROM t WHERE p] and [SELECT EXISTS(...)] *)
Definition count_where `{Countable K} {V} (p : K → V → bool) (m : gmap K V) : Z :=
  Z.of_nat (size (filter (λ '(k, v), p k v = true) m)).
Definition exists_where `{Countable K} {V} (p : K → V → bool) (m : gmap K V) : bool :=
  existsb (λ '(k, v), p k v) (map_to_list m).

Lemma lookup_update_where `{Countable K} {V} (p : K → V → bool) f (m : gmap K V) k :
  (update_where p f m).2 !! k = (λ v, if p k v then f v else v) <$> m !! k.
Proof. unfold update_where; simpl. rewrite map_lookup_imap. by destruct (m !! k). Qed.

Lemma lookup_delete_where `{Countable K} {V} (p : K → V → bool) (m : gmap K V) k :
  (delete_where p m).2 !! k = v ← m !! k; if p k v then None else Some v.
Proof.
  unfold delete_where; simpl. destruct (m !! k) as [v|] eqn:Hk; simpl.
  - destruct (p k v) eqn:Hp.
    + apply map_lookup_filter_None. right. intros x Hx. simplify_eq. by rewrite Hp.
    + apply map_lookup_filter_Some. done.
  - apply map_lookup_filter_None. by left.
Qed.

Lemma exists_where_true `{Countable K} {V} (p : K → V → bool) (m : gmap K V) :
  exists_where p m = true ↔ ∃ k v, m !! k = Some v ∧ p k v = true.
Proof.
  unfold exists_where. rewrite existsb_exists. split.
  - intros ([k v] & Hin & Hp). apply list_elem_of_In, elem_of_map_to_list in Hin. eauto.
  - intros (k & v & Hk & Hp). exists (k, v). split; [|done].
    by apply list_elem_of_In, elem_of_map_to_list.
Qed.

Lemma require_Some b u : require b = Some u ↔ b = true.
Proof. destruct b, u; naive_solver. Qed.

Lemma bigint_Some z z' : bigint z = Some z' ↔ z' = z ∧ z <= bigint_max.
Proof. unfold bigint. destruct (Z.leb_spec z bigint_max); naive_solver lia. Qed.

Lemma insert_new_Some `{Countable K} {V} (k : K) (v : V) m m' :
  insert_new k v m = Some m' ↔ m !! k = None ∧ m' = <[k := v]> m.
Proof. unfold insert_new. destruct (m !! k); naive_solver. Qed.

Lemma head_filter_Some `{Countable K} {V} (P : K * V → Prop) `{!∀ x, Decision (P x)} (m : gmap K V) k v :
  head (filter P (map_to_list m)) = Some (k, v) → m !! k = Some v ∧ P (k, v).
Proof.
  intros Hh. destruct (filter P (map_to_list m)) as [|kv l] eqn:Hf; simplify_eq/=.
  assert (Hin : (k, v) ∈ filter P (map_to_list m)) by (rewrite Hf; constructor).
  apply list_elem_of_filter in Hin as [? ?%elem_of_map_to_list]. done.
Qed.

(** [... ORDER BY ... LIMIT n]: what is selected is a row that qualifies. *)
Lemma selected_Some `{Countable K} {V} (R : relation (K * V)) `{!RelDecision R} n (P : K * V → Prop)
    `{!∀ x, Decision (P x)} (m : gmap K V) k v :
  (k, v) ∈ take n (merge_sort R (filter P (map_to_list m))) → m !! k = Some v ∧ P (k, v).
Proof.
  intros (i & Hi & _)%elem_of_take. apply list_elem_of_lookup_2 in Hi.
  rewrite (merge_sort_Permutation R) in Hi. apply list_elem_of_filter in Hi as [? ?%elem_of_map_to_list]. done.
Qed.
