(* ===== verification/TxLogic.v ===== *)
(** Reasoning about [txm]: inversion of successful runs, invariants that hold
    of the committed database and the open view alike, and the all-or-nothing
    shape of a transaction whose only commit is its last fallible step. *)
From S2P Require Import Prelude GoBase Identifier Schema Tx.
Local Open Scope Z_scope.

(** ** Inversion of successful runs *)

(** Time passes and identifiers are consumed. *)
Definition env_le (e e' : env) : Prop :=
  en_clock e <= en_clock e' ∧ en_skew e' = en_skew e ∧ en_ids e' `suffix_of` en_ids e.

#[export] Instance env_le_preorder : PreOrder env_le.
Proof.
  split; unfold env_le; [done|intros e1 e2 e3 (? & ? & ?) (? & ? & ?)].
  split_and!; [lia|congruence|by etrans].
Qed.

Lemma env_le_id e e' u : env_le e e' → Some u ∈ en_ids e' → Some u ∈ en_ids e.
Proof. intros (_ & _ & [l ->]) Hu. apply elem_of_app. by right. Qed.

Lemma next_outcome_le e f e' : next_outcome e = (f, e') → env_le e e'.
Proof.
  unfold next_outcome, env_le. destruct (en_outcomes e) as [|[f' t] r]; intros [= <- <-]; simpl;
    split_and!; [lia|done|done|lia|done|done].
Qed.

Section ok_inversion.
Context {A B : Type}.
Implicit Types (d w : db) (e : env) (s : txs).

Lemma txm_bind_Ok (m : txm A) (k : A → txm B) s b s' :
  (m ≫= k) s = (Ok b, s') → ∃ a s1, m s = (Ok a, s1) ∧ k a s1 = (Ok b, s').
Proof. unfold mbind, txm_bind. destruct (m s) as [[a|err] s1]; naive_solver. Qed.

Lemma txm_ret_Ok (a a' : A) s s' : (mret a : txm A) s = (Ok a', s') → a' = a ∧ s' = s.
Proof. by intros [= -> ->]. Qed.

Lemma reject_if_Ok b err s u s' : reject_if b err s = (Ok u, s') → b = false ∧ s' = s.
Proof. unfold reject_if. destruct b; [done|]. by intros [= <- <-]. Qed.

Lemma lift_Ok (r : go A) a s s' : lift r s = (Ok a, s') → r = Ok a ∧ s' = s.
Proof. by intros [= -> ->]. Qed.

Lemma or_fail_Ok err (m : txm A) s a s' : or_fail err m s = (Ok a, s') → m s = (Ok a, s').
Proof. unfold or_fail. by destruct (m s) as [[]]. Qed.

Lemma stmt_Some {C} (q : sql C) d w e c s' :
  stmt q (Txs d w e) = (Ok (Some c), s') →
  ∃ w' e', env_le e e' ∧ q (en_clock e') w = Some (c, w') ∧ s' = Txs d w' e'.
Proof.
  unfold stmt; simpl. destruct (next_outcome e) as [f e'] eqn:He.
  apply next_outcome_le in He. destruct f; [|done..].
  destruct (q (en_clock e') w) as [[a' w']|] eqn:Hq; [|done]. intros [= -> <-]. eauto 10.
Qed.

Lemma exec_Ok fail (q : sql A) d w e a s' :
  exec fail q (Txs d w e) = (Ok a, s') →
  ∃ w' e', env_le e e' ∧ q (en_clock e') w = Some (a, w') ∧ s' = Txs d w' e'.
Proof.
  unfold exec, mbind, txm_bind. destruct (stmt q (Txs d w e)) as [[[a'|]|] s1] eqn:Hs; try done.
  intros [= -> ->]. by apply stmt_Some.
Qed.

Lemma query_row_Ok none fail (q : sql (option A)) d w e a s' :
  query_row none fail q (Txs d w e) = (Ok a, s') →
  ∃ w' e', env_le e e' ∧ q (en_clock e') w = Some (Some a, w') ∧ s' = Txs d w' e'.
Proof.
  unfold query_row, scan, mbind, txm_bind.
  destruct (stmt q (Txs d w e)) as [[[[a'|]|]|] s1] eqn:Hs; try done.
  intros [= -> ->]. by apply stmt_Some in Hs.
Qed.

Lemma query_row_rd_Ok none fail (q : time → db → option A) d w e a s' :
  query_row none fail (rd q) (Txs d w e) = (Ok a, s') →
  ∃ e', env_le e e' ∧ q (en_clock e') w = Some a ∧ s' = Txs d w e'.
Proof. intros (w' & e' & ? & [= ? <-] & ?)%query_row_Ok. eauto. Qed.

Lemma exec_rd_Ok fail (q : time → db → A) d w e a s' :
  exec fail (rd q) (Txs d w e) = (Ok a, s') →
  ∃ e', env_le e e' ∧ q (en_clock e') w = a ∧ s' = Txs d w e'.
Proof. intros (w' & e' & ? & [= ? <-] & ?)%exec_Ok. eauto. Qed.

Lemma begin_tx_Ok err d w e u s' :
  begin_tx err (Txs d w e) = (Ok u, s') → ∃ e', env_le e e' ∧ s' = Txs d d e'.
Proof.
  unfold begin_tx; simpl. destruct (next_outcome e) as [[] e'] eqn:He; [|done..].
  intros [= <- <-]. eauto using next_outcome_le.
Qed.

Lemma commit_Ok err d w e u s' :
  commit err (Txs d w e) = (Ok u, s') → ∃ e', env_le e e' ∧ s' = Txs w w e'.
Proof.
  unfold commit; simpl. destruct (next_outcome e) as [[] e'] eqn:He; [|done..].
  intros [= <- <-]. eauto using next_outcome_le.
Qed.

Lemma new_id_Ok err d w e u s' :
  new_id err (Txs d w e) = (Ok u, s') →
  ∃ e', env_le e e' ∧ en_clock e' = en_clock e ∧ en_ids e = Some u :: en_ids e' ∧ s' = Txs d w e'.
Proof.
  unfold new_id; simpl. destruct (en_ids e) as [|[u'|] r] eqn:Hi; [done| |done]. intros [= -> <-].
  eexists; split_and!; [..|done]; [|done..]. split_and!; [done..|]. rewrite Hi. by apply suffix_cons_r.
Qed.

Lemma go_now_Ok d w e t s' :
  go_now (Txs d w e) = (Ok t, s') → t = en_clock e + en_skew e ∧ s' = Txs d w e.
Proof. by intros [= <- <-]. Qed.
End ok_inversion.

(** [tx_inv H] splits a successful run [H : m s = (Ok a, s')] into what each
    statement read and wrote, leaving user-defined calls for their lemmas. *)
Ltac tx_inv_one H :=
  lazymatch type of H with
  | mret _ _ = (Ok _, _) => apply txm_ret_Ok in H as [? ?]; simplify_eq/=
  | throw _ _ = (Ok _, _) => discriminate H
  | reject_if _ _ _ = (Ok _, _) => apply reject_if_Ok in H as [H ?]; simplify_eq/=
  | lift _ _ = (Ok _, _) => apply lift_Ok in H as [H ?]; simplify_eq/=
  | query_row _ _ (rd _) _ = (Ok _, _) =>
      let e := fresh "e" in let Hle := fresh "Hle" in
      apply query_row_rd_Ok in H as (e & Hle & H & ?); simplify_eq/=
  | exec _ (rd _) _ = (Ok _, _) =>
      let e := fresh "e" in let Hle := fresh "Hle" in
      apply exec_rd_Ok in H as (e & Hle & H & ?); simplify_eq/=
  | query_row _ _ _ _ = (Ok _, _) =>
      let w := fresh "w" in let e := fresh "e" in let Hle := fresh "Hle" in
      apply query_row_Ok in H as (w & e & Hle & H & ?); simplify_eq/=
  | exec _ _ _ = (Ok _, _) =>
      let w := fresh "w" in let e := fresh "e" in let Hle := fresh "Hle" in
      apply exec_Ok in H as (w & e & Hle & H & ?); simplify_eq/=
  | begin_tx _ _ = (Ok _, _) =>
      let e := fresh "e" in let Hle := fresh "Hle" in
      apply begin_tx_Ok in H as (e & Hle & ?); simplify_eq/=
  | commit _ _ = (Ok _, _) =>
      let e := fresh "e" in let Hle := fresh "Hle" in
      apply commit_Ok in H as (e & Hle & ?); simplify_eq/=
  | new_id _ _ = (Ok _, _) =>
      let e := fresh "e" in let Hle := fresh "Hle" in let Hc := fresh "Hc" in
      apply new_id_Ok in H as (e & Hle & Hc & H & ?); simplify_eq/=
  | go_now _ = (Ok _, _) => apply go_now_Ok in H as [? ?]; simplify_eq/=
  end.

Ltac tx_inv H :=
  lazymatch type of H with
  | mbind _ _ _ = (Ok _, _) =>
      let a := fresh "x" in let s := fresh "s" in let H1 := fresh "Hx" in
      apply txm_bind_Ok in H as (a & s & H1 & H);
      tx_inv H1; cbv beta in H; tx_inv H
  | (match ?x with (_, _) => _ end) _ = (Ok _, _) => destruct x; cbv beta iota in H; tx_inv H
  | or_fail _ _ _ = (Ok _, _) => apply or_fail_Ok in H; tx_inv H
  | _ => first [ tx_inv_one H | idtac ]
  end.

(** ** Invariants of the committed database and of the open view *)

Definition stable {A} (I : txs → Prop) (m : txm A) : Prop := ∀ s, I s → I (m s).2.

(** Statements and transactions move the database along a preorder [R]. *)
Definition along (R : db → db → Prop) (d0 : db) (s : txs) : Prop :=
  R d0 (tx_db s) ∧ R d0 (tx_work s).

Definition keeps (R : db → db → Prop) {A} (m : txm A) : Prop := ∀ d0, stable (along R d0) m.

Definition respects (R : db → db → Prop) {A} (q : sql A) : Prop :=
  ∀ now d a d', q now d = Some (a, d') → R d d'.

(** No commit inside: the committed database is untouched. *)
Definition nocommit {A} (m : txm A) : Prop := ∀ s, tx_db (m s).2 = tx_db s.

(** The committed database is the old one, or the transaction's whole view. *)
Definition all_or_nothing {A} (m : txm A) : Prop :=
  ∀ s, tx_db (m s).2 = tx_db s ∨ tx_db (m s).2 = tx_work (m s).2.

(** An error other than [e0] (the one a failed COMMIT maps to) changes nothing. *)
Definition clean (e0 : error) {A} (m : txm A) : Prop :=
  ∀ s e s', m s = (Err e, s') → e ≠ e0 → tx_db s' = tx_db s.

Section keeps.
Context (R : db → db → Prop) `{!PreOrder R}.

Lemma keeps_bind {A B} (m : txm A) (k : A → txm B) :
  keeps R m → (∀ a, keeps R (k a)) → keeps R (m ≫= k).
Proof.
  intros Hm Hk d0 s Hs. unfold mbind, txm_bind. specialize (Hm d0 s Hs).
  destruct (m s) as [[a|e] s1]; simpl in *; [by apply Hk|done].
Qed.
Lemma keeps_ret {A} (a : A) : keeps R (mret a : txm A).
Proof. by intros d0 s Hs. Qed.
Lemma keeps_throw {A} e : keeps R (throw e : txm A).
Proof. by intros d0 s Hs. Qed.
Lemma keeps_lift {A} (r : go A) : keeps R (lift r).
Proof. by intros d0 s Hs. Qed.
Lemma keeps_reject_if b e : keeps R (reject_if b e).
Proof. unfold reject_if. by destruct b; intros d0 s Hs. Qed.
Lemma keeps_attempt {A} (m : txm A) : keeps R m → keeps R (attempt m).
Proof. intros Hm d0 s Hs. unfold attempt. specialize (Hm d0 s Hs). by destruct (m s). Qed.
Lemma keeps_or_fail {A} e (m : txm A) : keeps R m → keeps R (or_fail e m).
Proof. intros Hm d0 s Hs. unfold or_fail. specialize (Hm d0 s Hs). by destruct (m s) as [[]]. Qed.
Lemma keeps_for_each {A} (l : list A) body : (∀ x, keeps R (body x)) → keeps R (for_each l body).
Proof. intros Hb. induction l; simpl; [apply keeps_ret|by apply keeps_bind]. Qed.
Lemma keeps_new_id e : keeps R (new_id e).
Proof. intros d0 s Hs. unfold new_id. by destruct (en_ids _) as [|[]]. Qed.
Lemma keeps_rand_read e : keeps R (rand_read e).
Proof. intros d0 s Hs. unfold rand_read. by destruct (en_random _) as [|[]]. Qed.
Lemma keeps_go_now : keeps R go_now.
Proof. by intros d0 s Hs. Qed.
Lemma keeps_begin_tx e : keeps R (begin_tx e).
Proof. intros d0 s [H1 H2]. unfold begin_tx. by destruct (next_outcome _) as [[] ?]. Qed.
Lemma keeps_commit e : keeps R (commit e).
Proof. intros d0 s [H1 H2]. unfold commit. by destruct (next_outcome _) as [[] ?]. Qed.

Lemma respects_rd {A} (f : time → db → A) : respects R (rd f).
Proof. intros now d a d'. unfold rd. intros [= _ <-]. reflexivity. Qed.

Lemma keeps_stmt {A} (q : sql A) : respects R q → keeps R (stmt q).
Proof.
  intros Hq d0 s [H1 H2]. unfold stmt. destruct (next_outcome _) as [[] e]; [|done..].
  destruct (q _ _) as [[a d']|] eqn:E; [|done]. split; [done|]. etrans; [done|eauto].
Qed.
Lemma keeps_pool_stmt {A} (q : sql A) : respects R q → keeps R (pool_stmt q).
Proof.
  intros Hq d0 s [H1 H2]. unfold pool_stmt. destruct (next_outcome _) as [f e].
  destruct (q _ _) as [[a d']|] eqn:E; [|done]. apply Hq in E.
  assert (R d0 d') by (by transitivity (tx_db s)). by destruct f.
Qed.
Lemma keeps_scan {A} (m : txm (option (option A))) none fail : keeps R m → keeps R (scan m none fail).
Proof. intros Hm. apply keeps_bind; [done|]. intros [[]|]; auto using keeps_ret, keeps_throw. Qed.
Lemma keeps_query_row {A} none fail (q : sql (option A)) :
  respects R q → keeps R (query_row none fail q).
Proof. intros. by apply keeps_scan, keeps_stmt. Qed.
Lemma keeps_pool_row {A} none fail (q : sql (option A)) :
  respects R q → keeps R (pool_row none fail q).
Proof. intros. by apply keeps_scan, keeps_pool_stmt. Qed.
Lemma keeps_exec {A} fail (q : sql A) : respects R q → keeps R (exec fail q).
Proof. intros. apply keeps_bind; [by apply keeps_stmt|]. intros []; auto using keeps_ret, keeps_throw. Qed.
Lemma keeps_pool_exec {A} fail (q : sql A) : respects R q → keeps R (pool_exec fail q).
Proof.
  intros. apply keeps_bind; [by apply keeps_pool_stmt|]. intros []; auto using keeps_ret, keeps_throw.
Qed.

(** What a step along [R] means for the committed database. *)
Lemma keeps_db {A} (m : txm A) s : keeps R m → R (tx_db s) (tx_work s) → R (tx_db s) (tx_db (m s).2).
Proof. intros Hm Hw. by apply (Hm (tx_db s) s). Qed.
End keeps.

Section atomicity.
Lemma nocommit_bind {A B} (m : txm A) (k : A → txm B) :
  nocommit m → (∀ a, nocommit (k a)) → nocommit (m ≫= k).
Proof.
  intros Hm Hk s. unfold mbind, txm_bind. specialize (Hm s).
  destruct (m s) as [[a|e] s1]; simpl in *; [by rewrite Hk|done].
Qed.
Lemma nocommit_ret {A} (a : A) : nocommit (mret a : txm A).
Proof. done. Qed.
Lemma nocommit_throw {A} e : nocommit (throw e : txm A).
Proof. done. Qed.
Lemma nocommit_lift {A} (r : go A) : nocommit (lift r).
Proof. done. Qed.
Lemma nocommit_reject_if b e : nocommit (reject_if b e).
Proof. by destruct b. Qed.
Lemma nocommit_attempt {A} (m : txm A) : nocommit m → nocommit (attempt m).
Proof. intros Hm s. unfold attempt. specialize (Hm s). by destruct (m s). Qed.
Lemma nocommit_or_fail {A} e (m : txm A) : nocommit m → nocommit (or_fail e m).
Proof. intros Hm s. unfold or_fail. specialize (Hm s). by destruct (m s) as [[]]. Qed.
Lemma nocommit_new_id e : nocommit (new_id e).
Proof. intros s. unfold new_id. by destruct (en_ids _) as [|[]]. Qed.
Lemma nocommit_rand_read e : nocommit (rand_read e).
Proof. intros s. unfold rand_read. by destruct (en_random _) as [|[]]. Qed.
Lemma nocommit_go_now : nocommit go_now.
Proof. done. Qed.
Lemma nocommit_begin_tx e : nocommit (begin_tx e).
Proof. intros s. unfold begin_tx. by destruct (next_outcome _) as [[] ?]. Qed.
Lemma nocommit_stmt {A} (q : sql A) : nocommit (stmt q).
Proof.
  intros s. unfold stmt. destruct (next_outcome _) as [[] e]; [|done..].
  by destruct (q _ _) as [[a d']|].
Qed.
Lemma nocommit_scan {A} (m : txm (option (option A))) none fail : nocommit m → nocommit (scan m none fail).
Proof. intros Hm. apply nocommit_bind; [done|]. by intros [[]|]. Qed.
Lemma nocommit_query_row {A} none fail (q : sql (option A)) : nocommit (query_row none fail q).
Proof. apply nocommit_scan, nocommit_stmt. Qed.
Lemma nocommit_exec {A} fail (q : sql A) : nocommit (exec fail q).
Proof. apply nocommit_bind; [apply nocommit_stmt|]. by intros []. Qed.

Lemma aon_bind {A B} (m : txm A) (k : A → txm B) :
  nocommit m → (∀ a, all_or_nothing (k a)) → all_or_nothing (m ≫= k).
Proof.
  intros Hm Hk s. unfold mbind, txm_bind. specialize (Hm s).
  destruct (m s) as [[a|e] s1]; simpl in *; [|by left]. rewrite <-Hm. apply Hk.
Qed.
Lemma aon_nocommit {A} (m : txm A) : nocommit m → all_or_nothing m.
Proof. intros Hm s. left. apply Hm. Qed.
Lemma aon_commit {A} e (a : A) : all_or_nothing (commit e ;; mret a).
Proof.
  intros s. unfold mbind, txm_bind, commit.
  destruct (next_outcome _) as [[] e']; simpl; auto.
Qed.

Lemma clean_bind {A B} e0 (m : txm A) (k : A → txm B) :
  nocommit m → (∀ a, clean e0 (k a)) → clean e0 (m ≫= k).
Proof.
  intros Hm Hk s e s' H Hne. unfold mbind, txm_bind in H. specialize (Hm s).
  destruct (m s) as [[a|e1] s1]; simpl in *; [|by simplify_eq]. rewrite <-Hm. by eapply Hk.
Qed.
Lemma clean_nocommit {A} e0 (m : txm A) : nocommit m → clean e0 m.
Proof. intros Hm s e s' H _. specialize (Hm s). by rewrite H in Hm. Qed.
Lemma clean_commit {A} e0 (a : A) : clean e0 (commit e0 ;; mret a).
Proof.
  intros s e s' H Hne. unfold mbind, txm_bind, commit in H.
  destruct (next_outcome _) as [[] e']; simplify_eq/=.
Qed.
End atomicity.

(** ** Automation

    [tx_auto] proves [keeps], [respects], [nocommit], [all_or_nothing] and
    [clean] goals by following the program's structure; the lemmas about the
    components' own operations are in the hint database [tx]. *)
Create HintDb tx.

Ltac tx_split :=
  match goal with
  | |- context [match ?x with _ => _ end] =>
      lazymatch goal with
      | |- keeps _ (match ?y with _ => _ end) => destruct y
      | |- nocommit (match ?y with _ => _ end) => destruct y
      | |- all_or_nothing (match ?y with _ => _ end) => destruct y
      | |- clean _ (match ?y with _ => _ end) => destruct y
      end
  end.

Ltac tx_rule :=
  lazymatch goal with
  | |- keeps _ (mbind _ _) => apply keeps_bind
  | |- keeps _ (mret _) => apply keeps_ret
  | |- keeps _ (throw _) => apply keeps_throw
  | |- keeps _ (lift _) => apply keeps_lift
  | |- keeps _ (reject_if _ _) => apply keeps_reject_if
  | |- keeps _ (attempt _) => apply keeps_attempt
  | |- keeps _ (or_fail _ _) => apply keeps_or_fail
  | |- keeps _ (for_each _ _) => apply keeps_for_each
  | |- keeps _ (new_id _) => apply keeps_new_id
  | |- keeps _ (rand_read _) => apply keeps_rand_read
  | |- keeps _ go_now => apply keeps_go_now
  | |- keeps _ (begin_tx _) => apply keeps_begin_tx
  | |- keeps _ (commit _) => apply keeps_commit
  | |- keeps _ (query_row _ _ _) => apply keeps_query_row
  | |- keeps _ (pool_row _ _ _) => apply keeps_pool_row
  | |- keeps _ (exec _ _) => apply keeps_exec
  | |- keeps _ (pool_exec _ _) => apply keeps_pool_exec
  | |- keeps _ (stmt _) => apply keeps_stmt
  | |- respects _ (rd _) => apply respects_rd
  | |- nocommit (mbind _ _) => apply nocommit_bind
  | |- nocommit (mret _) => apply nocommit_ret
  | |- nocommit (throw _) => apply nocommit_throw
  | |- nocommit (lift _) => apply nocommit_lift
  | |- nocommit (reject_if _ _) => apply nocommit_reject_if
  | |- nocommit (attempt _) => apply nocommit_attempt
  | |- nocommit (or_fail _ _) => apply nocommit_or_fail
  | |- nocommit (new_id _) => apply nocommit_new_id
  | |- nocommit (rand_read _) => apply nocommit_rand_read
  | |- nocommit go_now => apply nocommit_go_now
  | |- nocommit (begin_tx _) => apply nocommit_begin_tx
  | |- nocommit (query_row _ _ _) => apply nocommit_query_row
  | |- nocommit (exec _ _) => apply nocommit_exec
  | |- nocommit (stmt _) => apply nocommit_stmt
  | |- all_or_nothing (mbind (λ _, mret _) (commit _)) => apply aon_commit
  | |- all_or_nothing (mbind _ _) => apply aon_bind
  | |- all_or_nothing _ => apply aon_nocommit
  | |- clean _ (mbind (λ _, mret _) (commit _)) => apply clean_commit
  | |- clean _ (mbind _ _) => apply clean_bind
  | |- clean _ _ => apply clean_nocommit
  end.

Ltac tx_auto :=
  repeat (intros; cbv beta;
          first [ solve [typeclasses eauto]
                | solve [eauto with tx nocore]
                | tx_split
                | tx_rule ]).
