(* ===== verification/Wp.v ===== *)
(** Weakest preconditions of [txm] programs.

    [wp m Q s] says that running [m] from [s] ends in a result and a state
    that satisfy [Q].  Every round trip contributes the branch where it fails,
    so a property proved with these rules holds under every fault schedule.
    Components export one [wp] rule per operation and register it in
    [wp_hook]. *)
From S2P Require Import Prelude GoBase Identifier Schema Tx TxLogic.
Local Open Scope Z_scope.

Definition wp {A} (m : txm A) (Q : go A → txs → Prop) (s : txs) : Prop := Q (m s).1 (m s).2.

Section rules.
Context {A B : Type}.
Implicit Types (d w : db) (e : env) (Q : go A → txs → Prop).

Lemma wp_elim (m : txm A) Q s r s' : wp m Q s → m s = (r, s') → Q r s'.
Proof. unfold wp. intros H E. by rewrite E in H. Qed.

Lemma wp_mono (m : txm A) Q Q' s : wp m Q s → (∀ r s', Q r s' → Q' r s') → wp m Q' s.
Proof. unfold wp. auto. Qed.

Lemma wp_bind (m : txm B) (k : B → txm A) Q s :
  wp m (λ r s', match r with Ok b => wp (k b) Q s' | Err err => Q (Err err) s' end) s →
  wp (m ≫= k) Q s.
Proof. unfold wp, mbind, txm_bind. by destruct (m s) as [[b|err] s']. Qed.

Lemma wp_ret (a : A) Q s : Q (Ok a) s → wp (mret a) Q s.
Proof. done. Qed.
Lemma wp_throw err Q s : Q (Err err) s → wp (throw err) Q s.
Proof. done. Qed.
Lemma wp_lift (r : go A) Q s : Q r s → wp (lift r) Q s.
Proof. done. Qed.
Lemma wp_reject_if b err (Q : go unit → txs → Prop) s :
  (b = true → Q (Err err) s) → (b = false → Q (Ok tt) s) → wp (reject_if b err) Q s.
Proof. destruct b; unfold wp; simpl; auto. Qed.
Lemma wp_attempt (m : txm A) (Q : go (go A) → txs → Prop) s :
  wp m (λ r s', Q (Ok r) s') s → wp (attempt m) Q s.
Proof. unfold wp, attempt. by destruct (m s). Qed.
Lemma wp_or_fail err (m : txm A) Q s :
  wp m (λ r s', match r with Ok a => Q (Ok a) s' | Err _ => Q (Err err) s' end) s →
  wp (or_fail err m) Q s.
Proof. unfold wp, or_fail. by destruct (m s) as [[]]. Qed.

Lemma wp_stmt (q : sql A) (Q : go (option A) → txs → Prop) d w e :
  (∀ e', env_le e e' → Q (Ok None) (Txs d w e')) →
  (∀ a w' e', env_le e e' → q (en_clock e') w = Some (a, w') → Q (Ok (Some a)) (Txs d w' e')) →
  wp (stmt q) Q (Txs d w e).
Proof.
  intros Hf Hok. unfold wp, stmt; simpl. destruct (next_outcome e) as [f e'] eqn:He.
  apply next_outcome_le in He. destruct f; simpl; [|by apply Hf..].
  destruct (q (en_clock e') w) as [[a w']|] eqn:Hq; simpl; auto.
Qed.

Lemma wp_exec fail (q : sql A) Q d w e :
  (∀ e', env_le e e' → Q (Err fail) (Txs d w e')) →
  (∀ a w' e', env_le e e' → q (en_clock e') w = Some (a, w') → Q (Ok a) (Txs d w' e')) →
  wp (exec fail q) Q (Txs d w e).
Proof.
  intros Hf Hok. unfold wp, exec, mbind, txm_bind.
  apply (wp_stmt q (λ r s', Q (match r with Ok None => Err fail | Ok (Some a) => Ok a | Err x => Err x end) s')
           d w e Hf) in Hok.
  unfold wp in Hok. by destruct (stmt q (Txs d w e)) as [[[a|]|err] s'].
Qed.

Lemma wp_query_row none fail (q : sql (option A)) Q d w e :
  (∀ e', env_le e e' → Q (Err fail) (Txs d w e')) →
  (∀ w' e', env_le e e' → q (en_clock e') w = Some (None, w') → Q (Err none) (Txs d w' e')) →
  (∀ a w' e', env_le e e' → q (en_clock e') w = Some (Some a, w') → Q (Ok a) (Txs d w' e')) →
  wp (query_row none fail q) Q (Txs d w e).
Proof.
  intros Hf Hn Hok. unfold wp, query_row, scan, stmt, mbind, txm_bind; simpl.
  destruct (next_outcome e) as [f e'] eqn:He. apply next_outcome_le in He.
  destruct f; simpl; [|by apply Hf..].
  destruct (q (en_clock e') w) as [[[a|] w']|] eqn:Hq; simpl; eauto.
Qed.

Lemma wp_exec_rd fail (q : time → db → A) Q d w e :
  (∀ e', env_le e e' → Q (Err fail) (Txs d w e')) →
  (∀ e', env_le e e' → Q (Ok (q (en_clock e') w)) (Txs d w e')) →
  wp (exec fail (rd q)) Q (Txs d w e).
Proof. intros Hf Hok. apply wp_exec; [done|]. intros a w' e' He [= <- <-]. auto. Qed.

Lemma wp_query_row_rd none fail (q : time → db → option A) Q d w e :
  (∀ e', env_le e e' → Q (Err fail) (Txs d w e')) →
  (∀ e', env_le e e' → q (en_clock e') w = None → Q (Err none) (Txs d w e')) →
  (∀ a e', env_le e e' → q (en_clock e') w = Some a → Q (Ok a) (Txs d w e')) →
  wp (query_row none fail (rd q)) Q (Txs d w e).
Proof.
  intros Hf Hn Hok. apply wp_query_row; [done|..].
  - intros w' e' He [= Hq <-]. auto.
  - intros a w' e' He [= Hq <-]. auto.
Qed.

Lemma wp_begin_tx err (Q : go unit → txs → Prop) d w e :
  (∀ e', env_le e e' → Q (Err err) (Txs d w e')) →
  (∀ e', env_le e e' → Q (Ok tt) (Txs d d e')) →
  wp (begin_tx err) Q (Txs d w e).
Proof.
  intros Hf Hok. unfold wp, begin_tx; simpl. destruct (next_outcome e) as [[] e'] eqn:He;
    apply next_outcome_le in He; simpl; auto.
Qed.

(** A failed COMMIT leaves the old database or the whole transaction. *)
Lemma wp_commit err (Q : go unit → txs → Prop) d w e :
  (∀ e', env_le e e' → Q (Err err) (Txs d w e')) →
  (∀ e', env_le e e' → Q (Err err) (Txs w w e')) →
  (∀ e', env_le e e' → Q (Ok tt) (Txs w w e')) →
  wp (commit err) Q (Txs d w e).
Proof.
  intros Hl Hu Hok. unfold wp, commit; simpl. destruct (next_outcome e) as [[] e'] eqn:He;
    apply next_outcome_le in He; simpl; auto.
Qed.

Lemma wp_new_id err (Q : go uuid → txs → Prop) d w e :
  (∀ e', env_le e e' → Q (Err err) (Txs d w e')) →
  (∀ u e', env_le e e' → Some u ∈ en_ids e → Q (Ok u) (Txs d w e')) →
  wp (new_id err) Q (Txs d w e).
Proof.
  intros Hf Hok. unfold wp, new_id; simpl.
  assert (∀ u ids, en_ids e = u :: ids →
    env_le e (Env (en_clock e) (en_skew e) (en_outcomes e) ids (en_random e))) as Hle.
  { intros u ids Hi. split_and!; [done..|]. rewrite Hi. by apply suffix_cons_r. }
  destruct (en_ids e) as [|[u|] ids] eqn:Hi; simpl; [by apply Hf|..].
  - apply Hok; [by eapply Hle|]. set_solver.
  - apply Hf. by eapply Hle.
Qed.

Lemma wp_rand_read err (Q : go N → txs → Prop) d w e :
  (∀ e', env_le e e' → Q (Err err) (Txs d w e')) →
  (∀ n e', env_le e e' → Q (Ok n) (Txs d w e')) →
  wp (rand_read err) Q (Txs d w e).
Proof.
  intros Hf Hok. unfold wp, rand_read; simpl.
  destruct (en_random e) as [|[n|] r] eqn:Hi; simpl; [by apply Hf|by apply Hok|by apply Hf].
Qed.

Lemma wp_go_now (Q : go time → txs → Prop) d w e :
  Q (Ok (en_clock e + en_skew e)) (Txs d w e) → wp go_now Q (Txs d w e).
Proof. done. Qed.

(** Statements outside a transaction: the open view is not used again. *)
Lemma wp_pool_exec fail (q : sql A) Q d w e :
  (∀ e', env_le e e' → Q (Err fail) (Txs d d e')) →
  (∀ a d' e', env_le e e' → q (en_clock e') d = Some (a, d') → Q (Err fail) (Txs d' d' e')) →
  (∀ a d' e', env_le e e' → q (en_clock e') d = Some (a, d') → Q (Ok a) (Txs d' d' e')) →
  wp (pool_exec fail q) Q (Txs d w e).
Proof.
  intros Hf Hu Hok. unfold wp, pool_exec, pool_stmt, mbind, txm_bind; simpl.
  destruct (next_outcome e) as [f e'] eqn:He. apply next_outcome_le in He.
  destruct (q (en_clock e') d) as [[a d']|] eqn:Hq; [|by apply Hf].
  destruct f; simpl; eauto.
Qed.

Lemma wp_pool_row none fail (q : sql (option A)) Q d w e :
  (∀ e', env_le e e' → Q (Err fail) (Txs d d e')) →
  (∀ a d' e', env_le e e' → q (en_clock e') d = Some (a, d') → Q (Err fail) (Txs d' d' e')) →
  (∀ d' e', env_le e e' → q (en_clock e') d = Some (None, d') → Q (Err none) (Txs d' d' e')) →
  (∀ a d' e', env_le e e' → q (en_clock e') d = Some (Some a, d') → Q (Ok a) (Txs d' d' e')) →
  wp (pool_row none fail q) Q (Txs d w e).
Proof.
  intros Hf Hu Hn Hok. unfold wp, pool_row, scan, pool_stmt, mbind, txm_bind; simpl.
  destruct (next_outcome e) as [f e'] eqn:He. apply next_outcome_le in He.
  destruct (q (en_clock e') d) as [[[a|] d']|] eqn:Hq; [..|by apply Hf]; destruct f; simpl; eauto.
Qed.

(** Reads outside a transaction. *)
Lemma wp_pool_read fail (f : time → db → A) Q d w e :
  (∀ e', env_le e e' → Q (Err fail) (Txs d d e')) →
  (∀ e', env_le e e' → Q (Ok (f (en_clock e') d)) (Txs d d e')) →
  wp (pool_exec fail (rd f)) Q (Txs d w e).
Proof. intros Hf Hok. apply wp_pool_exec; [done|..]; intros a d' e' He [= <- <-]; auto. Qed.

Lemma wp_pool_read_row none fail (f : time → db → option A) Q d w e :
  (∀ e', env_le e e' → Q (Err fail) (Txs d d e')) →
  (∀ e', env_le e e' → f (en_clock e') d = None → Q (Err none) (Txs d d e')) →
  (∀ a e', env_le e e' → f (en_clock e') d = Some a → Q (Ok a) (Txs d d e')) →
  wp (pool_row none fail (rd f)) Q (Txs d w e).
Proof.
  intros Hf Hn Hok. apply wp_pool_row; [done|..]; unfold rd; naive_solver.
Qed.
End rules.

(** ** Specifications of operations inside a transaction

    What a component promises of an operation that its callers run in their
    own transaction: it commits nothing; when it fails, the error and the view
    it leaves satisfy [E]; when it succeeds, [P] relates the view before, the
    result, the view after and the environment it ended in. *)
Class TxSpec {A} (m : txm A) (E : db → error → db → Prop) (P : db → A → db → env → Prop) : Prop :=
  tx_spec d w e : wp m (λ r s', tx_db s' = d ∧ env_le e (tx_env s') ∧
    match r with Ok a => P w a (tx_work s') (tx_env s') | Err err => E w err (tx_work s') end) (Txs d w e).
#[export] Hint Mode TxSpec - ! - - : typeclass_instances.

Lemma wp_call {A} (m : txm A) E P `{!TxSpec m E P} (Q : go A → txs → Prop) d w e :
  (∀ err w' e', env_le e e' → E w err w' → Q (Err err) (Txs d w' e')) →
  (∀ a w' e', env_le e e' → P w a w' e' → Q (Ok a) (Txs d w' e')) →
  wp m Q (Txs d w e).
Proof.
  intros Herr Hok. eapply wp_mono; [apply tx_spec|]. intros r [d' w' e'] (Hd & He & H).
  simpl in *; subst. destruct r; auto.
Qed.

(** Errors that leave the view as it was. *)
Definition unchanged (w : db) (_ : error) (w' : db) : Prop := w' = w.
(** No promise: the caller rolls back. *)
Definition rolled_back (_ : db) (_ : error) (_ : db) : Prop := True.

(** The contract of a whole transaction: success means [P] relates the
    database before, the result and the database after; an error means nothing
    was written, unless it is [fail], the error of a COMMIT whose outcome is
    unknown, and then all of it may have been. *)
Definition atomic {A} (fail : error) (P : db → A → db → Prop) (d : db) (r : go A) (s' : txs) : Prop :=
  match r with
  | Ok a => P d a (tx_db s')
  | Err err => tx_db s' = d ∨ err = fail ∧ ∃ a, P d a (tx_db s')
  end.

Lemma atomic_cases {A} fail (P : db → A → db → Prop) d r s' :
  atomic fail P d r s' → tx_db s' = d ∨ ∃ a, P d a (tx_db s').
Proof. destruct r; simpl; naive_solver. Qed.

Lemma wp_commit_atomic {A} fail (P : db → A → db → Prop) a d w e :
  P d a w → wp (commit fail ;; mret a) (atomic fail P d) (Txs d w e).
Proof. intros H. apply wp_bind, wp_commit; intros e' _; simpl; eauto. Qed.

(** The outcome of one transaction from [d]: [P] relates the database before,
    the answer and the database after. *)
Definition contract {A} (fail : error) (t : txm A) (P : db → A → db → Prop) : Prop :=
  ∀ d e, let o := t (Txs d d e) in
    match o.1 with
    | Ok a => P d a (tx_db o.2)
    | Err err => tx_db o.2 = d ∨ err = fail ∧ ∃ a, P d a (tx_db o.2)
    end.

Lemma contract_wp {A} fail (t : txm A) P Q :
  (∀ d e, wp t (atomic fail P d) (Txs d d e)) → (∀ d a d', P d a d' → Q d a d') → contract fail t Q.
Proof.
  intros Hw HP d e o. pose proof (Hw d e) as H. unfold wp in H. fold o in H.
  destruct o.1; simpl in *; naive_solver.
Qed.

Ltac wp_prim :=
  lazymatch goal with
  | |- wp (mbind (λ _, mret _) (commit _)) (atomic _ _ _) (Txs ?d _ _) => apply wp_commit_atomic
  | |- wp (mbind _ _) _ _ => apply wp_bind
  | |- wp (mret _) _ _ => apply wp_ret
  | |- wp (throw _) _ _ => apply wp_throw
  | |- wp (lift ?r) _ _ => apply wp_lift; destruct r eqn:?
  | |- wp (reject_if _ _) _ _ => apply wp_reject_if; intros ?
  | |- wp (attempt _) _ _ => apply wp_attempt
  | |- wp (or_fail _ _) _ _ => apply wp_or_fail
  | |- wp (exec _ (rd _)) _ _ => apply wp_exec_rd; intros ? ?
  | |- wp (query_row _ _ (rd _)) _ _ => apply wp_query_row_rd; [intros ? ?|intros ? ? ?|intros ? ? ? ?]
  | |- wp (exec _ _) _ _ => apply wp_exec; [intros ? ?|intros ? ? ? ? ?]
  | |- wp (query_row _ _ _) _ _ => apply wp_query_row; [intros ? ?|intros ? ? ? ?|intros ? ? ? ? ?]
  | |- wp (stmt _) _ _ => apply wp_stmt; [intros ? ?|intros ? ? ? ? ?]
  | |- wp (begin_tx _) _ _ => apply wp_begin_tx; intros ? ?
  | |- wp (commit _) _ _ => apply wp_commit; intros ? ?
  | |- wp (new_id _) _ _ => apply wp_new_id; [intros ? ?|intros ? ? ? ?]
  | |- wp (rand_read _) _ _ => apply wp_rand_read; [intros ? ?|intros ? ? ?]
  | |- wp go_now _ _ => apply wp_go_now
  | |- wp (pool_exec _ _) _ _ => apply wp_pool_exec; [intros ? ?|intros ? ? ? ? ?..]
  | |- wp (pool_row _ _ _) _ _ => apply wp_pool_row; [intros ? ?|intros ? ? ? ? ?|intros ? ? ? ?|intros ? ? ? ? ?]
  | |- wp (if ?b then _ else _) _ _ => destruct b eqn:?
  | |- wp (match ?x with _ => _ end) _ _ => destruct x eqn:?
  | |- wp _ _ _ =>
      let H := fresh "Hspec" in
      eapply wp_call; [typeclasses eauto|intros ? ? ? ? H; cbv beta in H|intros ? ? ? ? H; cbv beta in H]
  end.

Ltac wp_facts :=
  repeat match goal with
  | H : _ ∧ _ |- _ => destruct H
  | H : unchanged _ _ _ |- _ => unfold unchanged in H
  | H : ∃ _, _ |- _ => destruct H
  | H : _ ∨ _ |- wp _ _ _ => destruct H
  end; subst.

Ltac wp_step := cbv beta iota; wp_prim; cbv beta iota; wp_facts.

(** Run the program symbolically, then close the branches [tac] closes. *)
Tactic Notation "wp_run" "by" tactic3(tac) := repeat wp_step; try solve [tac].

(** Close the branches of a specification that need no argument. *)
Ltac env_solve := solve [done | repeat first [eassumption | etrans; [eassumption|]]; done].
Ltac tx_done :=
  simpl; split_and!;
  first [ done | env_solve
        | solve [repeat first [apply list_elem_of_here | apply list_elem_of_further]]
        | solve [eauto 4] ].

(** Invert the success of a statement's meaning. *)
Ltac sql_inv H :=
  lazymatch type of H with
  | mbind _ _ = Some _ =>
      let x := fresh "v" in let H1 := fresh "Hq" in
      apply bind_Some in H as (x & H1 & H); sql_inv H1; cbv beta in H; sql_inv H
  | require _ = Some _ => apply require_Some in H
  | bigint _ = Some _ => let H2 := fresh "Hmax" in apply bigint_Some in H as [H H2]; subst
  | insert_new _ _ _ = Some _ => let H2 := fresh "Hnew" in apply insert_new_Some in H as [H2 H]; subst
  | Some _ = Some _ => simplify_eq
  | None = Some _ => discriminate H
  | (if ?x then _ else _) = Some _ => destruct x eqn:?; sql_inv H
  | (match ?x with _ => _ end) = Some _ => destruct x eqn:?; sql_inv H
  | _ => idtac
  end.

(** The same for a program of reads outside transactions. *)
Ltac read_prim :=
  cbv beta iota;
  lazymatch goal with
  | |- wp (pool_exec _ (rd _)) _ _ => apply wp_pool_read; intros ? ?
  | |- wp (pool_row _ _ (rd _)) _ _ => apply wp_pool_read_row; [intros ? ?|intros ? ? ?|intros ? ? ? ?]
  | _ => wp_prim
  end; cbv beta iota; wp_facts.

(** ** Runs in which no round trip fails *)

Lemma run_bind {A B} (m : txm A) (k : A → txm B) s a s' : m s = (Ok a, s') → (m ≫= k) s = k a s'.
Proof. intros Hm. unfold mbind, txm_bind. by rewrite Hm. Qed.

Lemma run_reject_if b err s : b = false → reject_if b err s = (Ok tt, s).
Proof. by intros ->. Qed.

Lemma run_pool_exec {A} fail (f : time → db → A) d w e : en_outcomes e = [] →
  pool_exec fail (rd f) (Txs d w e) = (Ok (f (en_clock e) d), Txs d d e).
Proof. intros He. unfold pool_exec, pool_stmt, next_outcome, mbind, txm_bind, rd. simpl. by rewrite He. Qed.

Lemma run_pool_row {A} none fail (f : time → db → option A) a d w e : en_outcomes e = [] →
  f (en_clock e) d = Some a → pool_row none fail (rd f) (Txs d w e) = (Ok a, Txs d d e).
Proof. intros He Hf. unfold pool_row, scan, pool_stmt, next_outcome, mbind, txm_bind, rd. simpl. by rewrite He, Hf. Qed.

(** Step through a quiet run of reads. *)
Ltac quiet_run :=
  repeat first
    [ rewrite (run_bind _ _ _ _ _ (run_reject_if _ _ _ ltac:(done)))
    | erewrite run_bind; [|apply run_pool_exec; done]
    | erewrite run_bind; [|apply run_pool_row; done]
    | erewrite run_bind; [|reflexivity] ]; cbv beta iota.
