(* ===== verification/Sample.v ===== *)
(** A small concrete installation on which the properties are evaluated: two
    owners, an admin and an operator of one workspace with one active
    connection, one published server and an open dispatch gate. *)
From S2P Require Import Prelude GoBase Identifier Schema Tx.
Local Open Scope Z_scope.

Definition alice : uuid := sample_id 1.
Definition bob : uuid := sample_id 2.
Definition carol : uuid := sample_id 3.
Definition dave : uuid := sample_id 4.
Definition wid : uuid := sample_id 10.
Definition cid : uuid := sample_id 20.
Definition rid : uuid := sample_id 30.
Definition sid : uuid := sample_id 40.

Definition sample_now : time := 1000 * Second.

Definition sample_db : db :=
  empty_db
    <| users := list_to_map ((λ u, (u, User "https://issuer" "subject" "" None)) <$> [alice; bob; carol; dave]) |>
    <| workspaces := {[wid := Workspace "team" 7 None 1000 180]} |>
    <| memberships := list_to_map
         [((wid, alice), Membership "owner" 1); ((wid, bob), Membership "owner" 5);
          ((wid, carol), Membership "admin" 6); ((wid, dave), Membership "operator" 7)] |>
    <| connections := {[cid := Connection wid "hetzner" "hetzner-cloud" "account" [] "main" "active"
                          (Some 1) (Some 5) ["compute.server.read"; "compute.server.power_on"; "compute.server.power_off"]]} |>
    <| credential_versions := {[(wid, cid, 1) := CredentialVersion [1%N] [] [] [] 1 "key" None]} |>
    <| connection_grants := list_to_map
         [((wid, cid, alice), ["read"; "refresh"; "operate"; "high_impact"]);
          ((wid, cid, carol), ["read"; "operate"])] |>
    <| sync_runs := {[sid := SyncRun wid cid "compute.server" "global" sid "succeeded" 1 (Some 1) (Some 2)
                        (Some alice) true (Some 1) None 1]} |>
    <| resources := {[rid := Resource wid cid "hetzner-cloud" "compute.server" "global" "server-1" "off"
                        "stopped" "web" (Details "fsn1" "cx22" None) 2 sid None 1]} |>
    <| dispatch_recovery_gate := Some (RecoveryGate true 2 0) |>
    <| generation_sequence := 1 |>.

(** An environment without faults that hands out the identifiers from [n] on. *)
Definition sample_env (n : nat) : env :=
  Env sample_now 0 [] ((λ i, Some (sample_id (N.of_nat i))) <$> seq n 40)
    ((λ i, Some (N.of_nat i)) <$> seq (n + 1) 8).

Definition sample_txs (d : db) (n : nat) : txs := Txs d d (sample_env n).
