(* ===== verification/AuditLog.v ===== *)
(** [internal/audit/append.go]: validation against the allowlists and the
    append in the caller's transaction.  The table's metadata CHECK, which
    repeats the allowlist in SQL, is not modelled; its foreign keys are. *)
From S2P Require Import Prelude GoBase Identifier Schema Tx TxLogic Wp.
Local Open Scope Z_scope.

Definition ActorUser := "user".
Definition ActorSystem := "system".
Definition ActorInstallation := "installation".

Record Event := MkEvent {
  ev_ID : uuid;
  ev_Workspace : uuid;
  ev_ActorKind : string;
  ev_ActorID : option uuid;
  ev_Type : string;
  ev_RequestID : string;
  ev_Metadata : gmap string string;
}.

Definition safeCode (s : string) : bool := match_code "._-" 63 s.

Definition metadataFields (kind : string) : option (list string) :=
  (list_to_map [
    ("connection.grants_changed", ["connection_id"; "member_id"]);
    ("connection.grants_denied", ["connection_id"; "member_id"]);
    ("invitation.created", ["role"]);
    ("auth.logout", []);
    ("auth.login", []);
    ("workspace.settings_changed", ["policy_version"]);
    ("workspace.created", []);
    ("membership.changed", ["member_id"; "role"]);
    ("connection.created", ["connection_id"]);
    ("connection.credential_rotated", ["connection_id"]);
    ("connection.disabled", ["connection_id"]);
    ("operation.accepted", ["operation_id"; "resource_id"]);
    ("operation.completed", ["operation_id"; "resource_id"]);
    ("operation.failed", ["operation_id"; "resource_id"; "reason_code"]);
    ("operation.reconciled", ["operation_id"; "resource_id"; "reason_code"]);
    ("operation.cancelled", ["operation_id"; "resource_id"; "reason_code"]);
    ("operation.reservation_released", ["operation_id"; "resource_id"; "reason_code"])
  ] : gmap string (list string)) !! kind.

Section audit.
Context `{U : UuidApi}.

Definition isEntityID (value : uuid) : bool := is_ok (Parse (uuid_String value)).

(** The value check of one metadata entry. *)
Definition valid_field (key value : string) : bool :=
  if decide (key ∈ ["member_id"; "connection_id"; "operation_id"; "resource_id"])
  then is_ok (Parse value)
  else if decide (key = "role")
  then bool_decide (value ∈ ["viewer"; "operator"; "admin"; "owner"])
  else if decide (key = "reason_code") then safeCode value
  else true.

Definition valid_actor (event : Event) : bool :=
  if decide (ev_ActorKind event = ActorUser)
  then match ev_ActorID event with Some a => isEntityID a | None => false end
  else if decide (ev_ActorKind event = ActorSystem ∨ ev_ActorKind event = ActorInstallation)
  then match ev_ActorID event with None => true | Some _ => false end
  else false.

Definition validate (event : Event) : go (gmap string string) :=
  if negb (isEntityID (ev_ID event)) || negb (isEntityID (ev_Workspace event))
     || (64 <? len (ev_RequestID event)) || negb (safeCode (ev_RequestID event))
  then Err AuditErrEvent
  else if negb (valid_actor event) then Err AuditErrEvent
  else match metadataFields (ev_Type event) with
  | None => Err AuditErrEvent
  | Some allowed =>
      if (8 <? size (ev_Metadata event))%nat then Err AuditErrEvent
      else if forallb (λ '(key, value),
                bool_decide (key ∈ allowed) && (0 <? len value) && (len value <=? 64)
                && valid_field key value) (map_to_list (ev_Metadata event))
      then Ok (ev_Metadata event)
      else Err AuditErrMetadata
  end.

(** [INSERT INTO audit_events ...]: primary key and foreign keys. *)
Definition insert_audit (event : Event) (metadata : gmap string string) : sql unit := λ now d,
  require (bool_decide (is_Some (workspaces d !! ev_Workspace event))) ;;
  require (match ev_ActorID event with
           | Some a => bool_decide (is_Some (users d !! a)) | None => true end) ;;
  t ← insert_new (ev_ID event)
        (AuditEvent (ev_Workspace event) (ev_ActorKind event) (ev_ActorID event) (ev_Type event)
           (ev_RequestID event) metadata now) (audit_events d);
  Some (tt, d <| audit_events := t |>).

Definition Append (event : Event) : txm unit :=
  metadata ← lift (validate event);
  exec AuditErrAppend (insert_audit event metadata).

Definition audit_row (event : Event) (now : time) : audit_event :=
  AuditEvent (ev_Workspace event) (ev_ActorKind event) (ev_ActorID event) (ev_Type event)
    (ev_RequestID event) (ev_Metadata event) now.

Lemma validate_Ok event m : validate event = Ok m → m = ev_Metadata event.
Proof.
  unfold validate. destruct (_ || _); [done|]. destruct (negb _); [done|].
  destruct (metadataFields _); [|done]. destruct (_ <? _)%nat; [done|].
  destruct (forallb _ _); [|done]. congruence.
Qed.

Lemma insert_audit_Some event now d u d' :
  insert_audit event (ev_Metadata event) now d = Some (u, d') →
  audit_events d !! ev_ID event = None ∧
  d' = d <| audit_events ::= <[ev_ID event := audit_row event now]> |>.
Proof.
  unfold insert_audit. intros (? & _ & H)%bind_Some. apply bind_Some in H as (? & _ & H).
  apply bind_Some in H as (t & (Hn & ->)%insert_new_Some & H). simplify_eq. done.
Qed.

(** What the other components rely on: one new row, of a valid event. *)
#[export] Instance Append_spec event :
  TxSpec (Append event) unchanged (λ w _ w' e',
    is_ok (validate event) = true ∧ audit_events w !! ev_ID event = None ∧
    w' = w <| audit_events ::= <[ev_ID event := audit_row event (en_clock e')]> |>).
Proof.
  intros d w e. unfold Append. do 2 wp_step; [|done].
  match goal with H : validate _ = _ |- _ => rename H into Hv end.
  apply validate_Ok in Hv as Hm. subst. wp_step; simpl; [done|].
  destruct (insert_audit_Some _ _ _ _ _ ltac:(eassumption)) as [? ->]. done.
Qed.

Lemma nocommit_Append event : nocommit (Append event).
Proof. unfold Append. tx_auto. Qed.

(** An append changes no table but its own. *)
Lemma keeps_Append (R : db → db → Prop) `{!PreOrder R} event :
  (∀ d t, R d (d <| audit_events := t |>)) → keeps R (Append event).
Proof.
  intros HR. unfold Append. tx_auto. intros now d u d'. unfold insert_audit.
  intros (? & _ & H)%bind_Some. apply bind_Some in H as (? & _ & H).
  apply bind_Some in H as (t & _ & H). simplify_eq. apply HR.
Qed.
End audit.
#[export] Hint Resolve nocommit_Append : tx.

Definition NewID (err : error) : txm uuid := new_id err.

#[export] Instance NewID_spec err :
  TxSpec (NewID err) (λ w e' w', w' = w ∧ e' = err) (λ w _ w' _, w' = w).
Proof. intros d w e. unfold NewID. wp_run by tx_done. Qed.
