(* ===== verification/Paging.v ===== *)
(** Keyset paging, as every list of the backend does it: a query selects the
    rows a reader may see, keeps those beyond a position, orders them by a key
    and takes one more than a page; the page's last row gives the position of
    the next.

    [KeysetReader] is what such a reader promises.  What a client that follows
    the positions then sees is proved once, against that interface, and for a
    database that changes between the pages. *)
From S2P Require Import Prelude GoBase Identifier Schema Tx TxLogic Wp.

(** ** Ordered selections *)

Section ordered.
Context {K : Type} (before : relation K) `{!RelDecision before}.
Context {A : Type} (key : A → K).

(** [ORDER BY key] where [before] is the strict order of the keys. *)
Definition not_after : relation A := λ x y, ¬ before (key y) (key x).
#[local] Instance not_after_dec : RelDecision not_after.
Proof. intros x y. unfold not_after. apply _. Defined.

Definition order_by (rows : list A) : list A := merge_sort not_after rows.

(** [WHERE key > k] *)
Definition beyond (k : K) (rows : list A) : list A := filter (λ x, before k (key x)) rows.

(** [if len(data) > limit { data = data[:limit]; next = data[limit-1] }] *)
Definition cut (limit : nat) (rows : list A) : list A * option A :=
  if (limit <? length rows)%nat then (take limit rows, last (take limit rows)) else (rows, None).

(** The page after [k]: the query's [LIMIT] is one more than the page's. *)
Definition page (limit : nat) (k : K) (rows : list A) : list A * option A :=
  cut limit (take (S limit) (order_by (beyond k rows))).

Context `{!StrictOrder before, !Trichotomy before}.

#[local] Instance not_after_trans : Transitive not_after.
Proof.
  intros x y z Hxy Hyz Hzx. unfold not_after in *.
  destruct (trichotomy before (key y) (key z)) as [Hlt|[Heq|Hlt]]; [|congruence|done].
  apply Hxy. by transitivity (key z).
Qed.
#[local] Instance not_after_total : Total not_after.
Proof.
  intros x y. unfold not_after.
  destruct (trichotomy before (key x) (key y)) as [Hlt|[->|Hlt]].
  - left. intros Hgt. by apply (irreflexivity before (key x)); transitivity (key y).
  - left. apply irreflexivity, _.
  - right. intros Hgt. by apply (irreflexivity before (key x)); transitivity (key y).
Qed.

Definition sorted (rows : list A) : Prop := StronglySorted before (key <$> rows).

Lemma order_by_Permutation rows : order_by rows ≡ₚ rows.
Proof. apply merge_sort_Permutation. Qed.

Lemma not_after_sorted rows : NoDup (key <$> rows) → StronglySorted not_after rows → sorted rows.
Proof.
  unfold sorted. induction rows as [|x rows IH]; simpl; [constructor|].
  intros [Hx Hnd]%NoDup_cons [Hall Hs]%StronglySorted_cons. constructor; [by apply IH|].
  apply Forall_fmap, Forall_forall. intros y Hy. simpl. rewrite Forall_forall in Hall. specialize (Hall _ Hy).
  destruct (trichotomy before (key x) (key y)) as [|[Heq|]]; [done| |by destruct Hall].
  destruct Hx. rewrite Heq. by apply list_elem_of_fmap_2.
Qed.

Lemma order_by_sorted rows : NoDup (key <$> rows) → sorted (order_by rows).
Proof.
  intros Hnd. apply not_after_sorted; [by rewrite order_by_Permutation|]. apply StronglySorted_merge_sort; apply _.
Qed.

Lemma sorted_unique (l l' : list A) : sorted l → sorted l' → l ≡ₚ l' → l = l'.
Proof.
  intros Hl Hl' Hp.
  assert (∀ rows, sorted rows → StronglySorted (λ x y, before (key x) (key y)) rows) as Hs.
  { intros rows. unfold sorted. induction rows as [|x rows IH]; [constructor|]. simpl.
    intros [Hall ?]%StronglySorted_cons. constructor; [by apply IH|].
    apply Forall_forall. intros y Hy. rewrite Forall_forall in Hall. by apply Hall, list_elem_of_fmap_2. }
  apply (StronglySorted_unique_strong (λ x y, before (key x) (key y))); [|by apply Hs..|done].
  intros x y _ _ Hxy Hyx. by destruct (irreflexivity before (key x)); transitivity (key y).
Qed.

Lemma sorted_filter (P : A → Prop) `{!∀ x, Decision (P x)} rows : sorted rows → sorted (filter P rows).
Proof.
  unfold sorted. induction rows as [|x rows IH]; [done|]. simpl. intros [Hall Hs]%StronglySorted_cons.
  rewrite filter_cons. case_decide; [|by apply IH]. simpl. constructor; [by apply IH|].
  apply Forall_fmap, Forall_forall. intros y [_ Hy]%list_elem_of_filter.
  rewrite Forall_forall in Hall. by apply Hall, list_elem_of_fmap_2.
Qed.

Lemma sorted_NoDup rows : sorted rows → NoDup rows.
Proof.
  unfold sorted. induction rows as [|x rows IH]; [constructor|]. simpl. intros [Hall Hs]%StronglySorted_cons.
  constructor; [|by apply IH]. intros Hx. rewrite Forall_forall in Hall.
  apply (irreflexivity before (key x)), Hall. by apply list_elem_of_fmap_2.
Qed.

Lemma NoDup_keys (l : list A) x y : NoDup (key <$> l) → x ∈ l → y ∈ l → key x = key y → x = y.
Proof using Type.
  intros Hnd (i & Hi)%list_elem_of_lookup (j & Hj)%list_elem_of_lookup Hxy.
  assert (i = j) as ->; [|congruence].
  eapply (NoDup_lookup _ _ _ (key x) Hnd); rewrite list_lookup_fmap; [by rewrite Hi|by rewrite Hj, Hxy].
Qed.

(** Selecting a position and ordering commute. *)
Lemma order_by_beyond k rows : NoDup (key <$> rows) → order_by (beyond k rows) = beyond k (order_by rows).
Proof.
  intros Hnd. apply sorted_unique.
  - apply order_by_sorted. eapply sublist_NoDup; [exact Hnd|]. apply fmap_sublist, sublist_filter.
  - by apply sorted_filter, order_by_sorted.
  - unfold beyond. by rewrite !order_by_Permutation.
Qed.

(** What is beyond the last row of a page is the rest of the list. *)
Lemma sorted_split l l' x : sorted (l ++ l') → last l = Some x →
  Forall (λ y, ¬ before (key x) (key y)) l ∧ Forall (λ y, before (key x) (key y)) l'.
Proof.
  unfold sorted. intros Hs [l0 ->]%last_Some. rewrite !fmap_app in Hs. simpl in Hs.
  apply StronglySorted_app in Hs as (Hll' & Hl & _). apply StronglySorted_app in Hl as (Hl0 & _ & _).
  split; apply Forall_forall; intros y Hy.
  - apply elem_of_app in Hy as [Hy|Hy]; [|apply list_elem_of_singleton in Hy as ->; apply irreflexivity, _].
    assert (before (key y) (key x)) by (apply Hl0; [by apply list_elem_of_fmap_2|by apply list_elem_of_singleton]).
    intros ?. by apply (irreflexivity before (key y)); transitivity (key x).
  - apply Hll'; [apply elem_of_app; right; by apply list_elem_of_singleton|by apply list_elem_of_fmap_2].
Qed.

Lemma page_spec limit k rows data next : (0 < limit)%nat → NoDup (key <$> rows) → page limit k rows = (data, next) →
  data = take limit (beyond k (order_by rows)) ∧
  match next with
  | None => data = beyond k (order_by rows)
  | Some x => length data = limit ∧ last data = Some x
  end.
Proof.
  intros Hpos Hnd. unfold page, cut. rewrite order_by_beyond by done. set (all := beyond k (order_by rows)).
  rewrite length_take. destruct (Nat.ltb_spec limit (S limit `min` length all)) as [Hlt|Hge]; intros [= <- <-].
  - rewrite take_take, Nat.min_l by lia. split; [done|].
    assert (is_Some (last (take limit all))) as [x Hx].
    { apply last_is_Some. intros E%(f_equal length). rewrite length_take in E. simpl in E. lia. }
    rewrite Hx, length_take. split; [lia|done].
  - assert (length all ≤ limit)%nat by lia. by rewrite !take_ge by lia.
Qed.

Lemma page_rows limit k rows data next : page limit k rows = (data, next) →
  data ⊆ rows ∧ ∀ x, next = Some x → x ∈ data.
Proof.
  unfold page, cut. intros Hp. split.
  - assert (data ⊆ order_by (beyond k rows)) as Hd.
    { case_match; injection Hp as <- <-; intros x Hx; 
        by repeat apply elem_of_take in Hx as (? & Hx%list_elem_of_lookup_2 & _). }
    intros x Hx%Hd. rewrite order_by_Permutation in Hx. by apply list_elem_of_filter in Hx as [_ Hx].
  - case_match; injection Hp as <- <-; [|done]. intros x. apply last_Some_elem_of.
Qed.
End ordered.
Arguments sorted {K} before {A} key rows.

(** Mapping the rows of a page by a function that keeps their keys. *)
Lemma cut_fmap {A B} (f : A → B) limit rows :
  cut limit (f <$> rows) = (f <$> (cut limit rows).1, f <$> (cut limit rows).2).
Proof.
  unfold cut. rewrite length_fmap. case_match; simpl; [|done]. by rewrite <-fmap_take, fmap_last.
Qed.

Section fmap.
Context {K A B : Type} (before : relation K) `{!RelDecision before, !StrictOrder before, !Trichotomy before}.
Context (key : A → K) (key' : B → K) (f : A → B) (Hkey : ∀ x, key' (f x) = key x).

Lemma keys_fmap (l : list A) : key' <$> (f <$> l) = key <$> l.
Proof using Hkey. rewrite <-list_fmap_compose. apply list_fmap_ext. intros i x _. apply Hkey. Qed.

Lemma order_by_fmap (l : list A) : NoDup (key <$> l) → order_by before key' (f <$> l) = f <$> order_by before key l.
Proof using All.
  intros Hl. apply (sorted_unique before key').
  - apply order_by_sorted; [apply _..|]. by rewrite keys_fmap.
  - unfold sorted. rewrite keys_fmap. by apply order_by_sorted.
  - by rewrite !order_by_Permutation.
Qed.

Lemma page_fmap limit k rows : NoDup (key <$> rows) →
  page before key' limit k (f <$> rows) = (f <$> (page before key limit k rows).1, f <$> (page before key limit k rows).2).
Proof using All.
  intros Hnd. unfold page. rewrite <-cut_fmap, fmap_take. do 2 f_equal.
  assert (beyond before key' k (f <$> rows) = f <$> beyond before key k rows) as ->.
  { unfold beyond. clear Hnd. induction rows as [|x rows IH]; [done|]. rewrite fmap_cons, !filter_cons, IH, Hkey.
    by case_decide. }
  apply order_by_fmap. eapply sublist_NoDup; [exact Hnd|]. apply fmap_sublist, sublist_filter.
Qed.
End fmap.

(** ** Newest first

    [ORDER BY created_at DESC, id DESC]: a position is a pair of both columns,
    or nothing at the start. *)
Definition older (x y : time * uuid) : Prop := (y.1 < x.1 ∨ y.1 = x.1 ∧ (y.2 < x.2)%N)%Z.
Definition recency (x y : option (time * uuid)) : Prop :=
  match x, y with
  | None, Some _ => True
  | Some x, Some y => older x y
  | _, None => False
  end.

#[export] Instance recency_dec : RelDecision recency.
Proof. intros [[t u]|] [[t' u']|]; unfold recency, older; simpl; apply _. Defined.
#[export] Instance recency_strict : StrictOrder recency.
Proof.
  split.
  - intros [[t u]|]; unfold complement, recency, older; simpl; [lia|done].
  - intros [[t u]|] [[t' u']|] [[t2 u2]|]; unfold recency, older; simpl; try done. lia.
Qed.
#[export] Instance recency_trichotomy : Trichotomy recency.
Proof.
  intros [[t u]|] [[t' u']|]; unfold recency, older; simpl; auto.
  destruct (Z.lt_trichotomy t t') as [|[->|]]; [by auto| |by auto].
  destruct (N.lt_trichotomy u u') as [|[->|]]; auto.
Qed.

(** ** Readers *)

(** A reader of the rows a database shows: [read] answers a position with a
    page and perhaps the next position, [listing] is everything it may show,
    and [position] is the key a position stands for.  A page's rows are what
    [shown] makes of rows of the listing: the part a reader adds from its
    clock is left out.  [ok] is what the reader relies on in the database. *)
Class KeysetReader {K A B Pos : Type} (before : relation K) `{!RelDecision before} (key : A → K) (limit : nat)
    (ok live : db → Prop) (listing : db → list A) (shown : B → A)
    (read : Pos → txm (list B * option Pos)) (first : Pos) (position : Pos → option K) := {
  ks_limit : (0 < limit)%nat;
  ks_keys : ∀ d, ok d → NoDup (key <$> listing d);
  ks_first : ∀ d, ok d → ∃ k, position first = Some k ∧ Forall (λ x, before k (key x)) (listing d);
  ks_read : ∀ pos d w e, ok d → wp (read pos) (λ r _,
    match r with
    | Err _ => True
    | Ok (rows, next) => ∃ k last, position pos = Some k ∧
        page before key limit k (listing d) = (shown <$> rows, last) ∧
        match next, last with
        | None, None => True | Some c, Some x => position c = Some (key x) | _, _ => False
        end
    end) (Txs d w e);
  ks_total : ∀ pos k d w e, ok d → live d → position pos = Some k → en_outcomes e = [] →
    is_ok (read pos (Txs d w e)).1;
}.

Section reading.
Context {K A B Pos : Type} (before : relation K) `{!RelDecision before, !StrictOrder before, !Trichotomy before}.
Context (key : A → K) (limit : nat) (ok live : db → Prop) (listing : db → list A) (shown : B → A).
Context (read : Pos → txm (list B * option Pos)) (first : Pos) (position : Pos → option K).
Context `{!KeysetReader before key limit ok live listing shown read first position}.

(** A client that follows the positions to the end.  Between two pages the
    database may change; each page comes with the one it was read from. *)
Inductive traversal : Pos → list (db * list A) → Prop :=
| traversal_end pos s rows s' : ok (tx_db s) → read pos s = (Ok (rows, None), s') →
    traversal pos [(tx_db s, shown <$> rows)]
| traversal_next pos s rows c s' rest : ok (tx_db s) → read pos s = (Ok (rows, Some c), s') →
    traversal c rest → traversal pos ((tx_db s, shown <$> rows) :: rest).

(** What such a client has seen, from [k] on. *)
Record traversed (k : K) (pages : list (db * list A)) : Prop := {
  tv_ordered : sorted before key (mjoin pages.*2);
  tv_beyond : Forall (λ x, before k (key x)) (mjoin pages.*2);
  tv_sound : Forall (λ p, p.2 ⊆ listing p.1) pages;
  tv_complete : ∀ i, before k i → Forall (λ p, i ∈ key <$> listing p.1) pages → i ∈ key <$> mjoin pages.*2;
  tv_full : Forall (λ p, length p.2 = limit) (take (pred (length pages)) pages);
}.

Lemma ks_page pos s rows next s' : ok (tx_db s) → read pos s = (Ok (rows, next), s') →
  ∃ k, position pos = Some k ∧
    let all := beyond before key k (order_by before key (listing (tx_db s))) in
    sorted before key all ∧ (∀ x, x ∈ all ↔ before k (key x) ∧ x ∈ listing (tx_db s)) ∧
    match next with
    | None => shown <$> rows = all
    | Some c => ∃ x r, all = (shown <$> rows) ++ r ∧ length (shown <$> rows) = limit ∧
                  last (shown <$> rows) = Some x ∧ position c = Some (key x)
    end.
Proof.
  destruct s as [d w e]. intros Hok Hread. pose proof (ks_read pos d w e Hok) as Hwp.
  apply (wp_elim _ _ _ _ _ Hwp) in Hread as (k & l & Hk & Hpage & Hnext). exists k. split; [done|].
  pose proof (ks_keys _ Hok) as Hnd. apply page_spec in Hpage as [Hd Hl]; [|apply _|apply _|apply ks_limit|done].
  split_and!.
  - by apply sorted_filter, order_by_sorted.
  - intros x. unfold beyond. rewrite list_elem_of_filter, order_by_Permutation. done.
  - destruct next as [c|], l as [x|]; try done. destruct Hl as [Hlen Hlast].
    exists x, (drop limit (beyond before key k (order_by before key (listing d)))).
    by rewrite Hd at 1; rewrite take_drop.
Qed.

Lemma traversal_from pos pages : traversal pos pages → ∃ k, position pos = Some k ∧ traversed k pages.
Proof.
  induction 1 as [pos s rows s' Hok Hread|pos s rows c s' rest Hok Hread _ (k' & Hk' & IH)];
    apply ks_page in Hread as (k & Hk & Hs & Hin & Hall); try done; exists k; (split; [done|]); simpl in *.
  - rewrite <-Hall in *. split; simpl; rewrite ?app_nil_r.
    + done.
    + apply Forall_forall. intros x Hx. by apply Hin.
    + constructor; [|constructor]. simpl. intros x Hx. by apply Hin.
    + intros i Hki [Hi _]%Forall_cons. simpl in Hi. apply list_elem_of_fmap in Hi as (x & -> & Hx).
      by apply list_elem_of_fmap_2, Hin.
    + constructor.
  - destruct Hall as (x & r & Hall & Hlen & Hlast & Hc). assert (k' = key x) as -> by congruence.
    rewrite Hall in *. destruct (sorted_split before key _ _ _ Hs Hlast) as [Hpre Hr]. destruct IH as [Ho Hb Hso Hco Hf].
    assert (∀ y, y ∈ shown <$> rows → before k (key y) ∧ y ∈ listing (tx_db s)) as Hrows.
    { intros y Hy. apply Hin, elem_of_app. by left. }
    assert (before k (key x)) as Hkx by (apply Hrows, last_Some_elem_of; done).
    split; simpl.
    + unfold sorted in *. rewrite fmap_app. apply StronglySorted_app. split_and!; [|rewrite fmap_app in Hs; by apply StronglySorted_app_1_l in Hs|done].
      intros a b (y & -> & Hy)%list_elem_of_fmap (z & -> & Hz)%list_elem_of_fmap.
      rewrite Forall_forall in Hb, Hpre. specialize (Hb _ Hz). specialize (Hpre _ Hy).
      destruct (trichotomy before (key x) (key y)) as [|[<-|]]; [done|done|]. by transitivity (key x).
    + apply Forall_app. split; apply Forall_forall; intros y Hy; [by apply Hrows|].
      rewrite Forall_forall in Hb. by transitivity (key x); [|apply Hb].
    + constructor; [|done]. intros y Hy. by apply Hrows.
    + intros i Hki Hi. apply Forall_cons in Hi as [Hi Hrest]. simpl in Hi. rewrite fmap_app. apply elem_of_app.
      pose proof Hi as (y & -> & Hy)%list_elem_of_fmap.
      assert (y ∈ (shown <$> rows) ++ r) as [|Hyr]%elem_of_app by (by apply Hin); [left; by apply list_elem_of_fmap_2|right].
      apply Hco; [|done]. rewrite Forall_forall in Hr. by apply Hr.
    + destruct rest as [|p rest]; [constructor|]. constructor; [done|]. exact Hf.
Qed.

(** Every row shown at most once, in order; nothing that was never to be
    shown; every row, told by its key and whatever else of it changed, that
    was to be shown all along; and exactly the listing if the database stood
    still. *)
Record faithful (pages : list (db * list A)) : Prop := {
  fa_ordered : sorted before key (mjoin pages.*2);
  fa_sound : Forall (λ p, p.2 ⊆ listing p.1) pages;
  fa_complete : ∀ i, Forall (λ p, i ∈ key <$> listing p.1) pages → i ∈ key <$> mjoin pages.*2;
  fa_still : ∀ d, Forall (λ p, p.1 = d) pages → mjoin pages.*2 = order_by before key (listing d);
  fa_full : Forall (λ p, length p.2 = limit) (take (pred (length pages)) pages);
}.

Lemma traversal_head pos pages : traversal pos pages → ∃ d rows rest, pages = (d, rows) :: rest ∧ ok d.
Proof. destruct 1; eauto. Qed.

Lemma traversal_faithful pages : traversal first pages → faithful pages.
Proof.
  intros Ht. destruct (traversal_head _ _ Ht) as (d0 & rows0 & rest0 & Hp0 & Hok0).
  apply traversal_from in Ht as (k & Hk & [Ho _ Hso Hco Hf]).
  assert (∀ i, Forall (λ p, i ∈ key <$> listing p.1) pages → before k i) as Hall.
  { intros i Hi. destruct (ks_first _ Hok0) as (k0 & Hk0 & Hlist). assert (k0 = k) as -> by congruence.
    rewrite Hp0 in Hi. apply Forall_cons in Hi as [(x & -> & Hx)%list_elem_of_fmap _].
    rewrite Forall_forall in Hlist. by apply Hlist. }
  split; [done|done|by eauto| |done].
  intros d Hd. assert (d0 = d) as -> by (rewrite Hp0 in Hd; by inversion Hd).
  apply (sorted_unique before key); [done|by apply order_by_sorted, ks_keys|].
  apply NoDup_Permutation.
  - by eapply sorted_NoDup.
  - rewrite order_by_Permutation. apply (NoDup_fmap_1 key), ks_keys, Hok0.
  - assert (∀ x, x ∈ mjoin pages.*2 → x ∈ listing d) as Hseen.
    { intros x (rows & Hx & ([? ?] & -> & Hp)%list_elem_of_fmap)%list_elem_of_join.
      rewrite Forall_forall in Hso, Hd. specialize (Hso _ Hp). specialize (Hd _ Hp). simpl in *. subst. by apply Hso. }
    intros x. rewrite order_by_Permutation. split; [apply Hseen|]. intros Hx.
    assert (Forall (λ p, key x ∈ key <$> listing p.1) pages) as Hx'.
    { eapply Forall_impl; [exact Hd|]. intros ? ->. by apply list_elem_of_fmap_2. }
    apply Hco in Hx' as (y & Hxy & Hy)%list_elem_of_fmap; [|by apply Hall].
    rewrite (NoDup_keys key (listing d) x y); [done|by apply ks_keys|done|by apply Hseen|done].
Qed.

(** If nothing fails and the database stands still, the end is reached. *)
Lemma traversal_exists d e : ok d → live d → en_outcomes e = [] →
  ∃ pages, traversal first pages ∧ Forall (λ p, p.1 = d) pages.
Proof.
  intros Hok Hlive He. destruct (ks_first _ Hok) as (k & Hk & _).
  set (all k := beyond before key k (order_by before key (listing d))).
  assert (∀ n pos k, (length (all k) < n)%nat → position pos = Some k →
    ∃ pages, traversal pos pages ∧ Forall (λ p, p.1 = d) pages) as H; [|by apply (H (S (length (all k))) first k); [lia|]].
  clear k Hk. induction n as [|n IH]; [lia|]. intros pos k Hlen Hk.
  pose proof (ks_total pos k d d e Hok Hlive Hk He) as Hread.
  destruct (read pos (Txs d d e)) as [[[rows next]|] s'] eqn:Hr; [|done].
  pose proof Hr as (k' & Hk' & Hs & Hin & Hall)%ks_page; [|done]. assert (k' = k) as -> by congruence. simpl in *.
  destruct next as [c|]; [|eexists; split; [by apply (traversal_end pos (Txs d d e) rows s')|by constructor]].
  destruct Hall as (x & r & Hall & Hrows & Hlast & Hc).
  destruct (IH c (key x)) as (rest & Hrest & Hd); [|done|].
  - assert (all (key x) ⊆+ r) as Hle%submseteq_length.
    { apply NoDup_submseteq.
      - apply (sorted_NoDup before key). by apply sorted_filter, order_by_sorted, ks_keys.
      - intros y [Hy Hly]%list_elem_of_filter. rewrite order_by_Permutation in Hly.
        rewrite Hall in Hs, Hin. destruct (sorted_split before key _ _ _ Hs Hlast) as [Hpre _].
        assert (y ∈ (shown <$> rows) ++ r) as [Hy'|?]%elem_of_app; [|exfalso|done].
        + apply Hin. split; [|done]. transitivity (key x); [|done].
          apply Hin, elem_of_app. left. by apply last_Some_elem_of.
        + rewrite Forall_forall in Hpre. by apply (Hpre y). }
    unfold all in Hlen. rewrite Hall, length_app in Hlen. pose proof ks_limit. lia.
  - exists ((d, shown <$> rows) :: rest). split; [|by constructor].
    by apply (traversal_next pos (Txs d d e) rows c s').
Qed.

(** Both together: what a reader with this interface guarantees a client. *)
Definition reliable : Prop :=
  (∀ pages, traversal first pages → faithful pages) ∧
  (∀ d e, ok d → live d → en_outcomes e = [] →
     ∃ pages, traversal first pages ∧ Forall (λ p, p.1 = d) pages).
Lemma keyset_reliable : reliable.
Proof. split; [apply traversal_faithful|apply traversal_exists]. Qed.
End reading.
