(* ===== verification/Jobs.v ===== *)
(** [internal/job]: durable job records and their leases ([store.go],
    [lease.go], [prune.go]).  The CHECK constraints and indexes of [jobs] are
    part of every insert and update. *)
From S2P Require Import Prelude GoBase Identifier Schema Tx TxLogic Wp.
Local Open Scope Z_scope.

(** [job.Record] and [job.Lease] *)
Record Record_ := MkRecord {
  jr_Operation : uuid; jr_ID : uuid; jr_Workspace : uuid; jr_Connection : uuid;
  jr_Type : string; jr_PayloadVersion : Z; jr_Deadline : time }.

Record Lease := MkLease { ls_Record : Record_; ls_Token : uuid; ls_Owner : uuid }.

Definition ls_ID (l : Lease) : uuid := jr_ID (ls_Record l).
Definition ls_Workspace (l : Lease) : uuid := jr_Workspace (ls_Record l).
Definition ls_Connection (l : Lease) : uuid := jr_Connection (ls_Record l).
Definition ls_Deadline (l : Lease) : time := jr_Deadline (ls_Record l).

(** A lease record that names only a workspace, as [Cancel] and [Recheck] pass. *)
Definition workspace_lease (scope : uuid) : Lease :=
  MkLease (MkRecord Nil Nil scope Nil "" 0 zero_time) Nil Nil.

(** ** The table's constraints *)

Definition job_check (j : job) : bool :=
  (0 <=? jb_attempts j) && (jb_attempts j <=? 100)
  && (jb_created_at j <? jb_deadline j) && (jb_next_run_at j <=? jb_deadline j)
  && (negb (bool_decide (jb_state j = JRunning)) || bool_decide (is_Some (jb_lease j)))
  && match jb_completed_at j with Some t => jb_created_at j <=? t | None => true end
  && (bool_decide (jb_type j = "connection_refresh") && bool_decide (jb_operation j = None)
        && (bool_decide (jb_payload_version j = 1) && bool_decide (jb_sync j = None)
            || bool_decide (jb_payload_version j = 2) && bool_decide (is_Some (jb_sync j)))
      || bool_decide (jb_type j = "operation_dispatch") && bool_decide (jb_payload_version j = 3)
        && bool_decide (jb_sync j = None) && bool_decide (is_Some (jb_operation j))).

Definition insert_job (id : uuid) (j : job) : sql unit := λ _ d,
  require (job_check j) ;;
  c ← connections d !! jb_connection j;
  require (bool_decide (cn_workspace c = jb_workspace j)) ;;
  match jb_sync j with
  | None => Some tt
  | Some y =>
      sy ← sync_runs d !! y;
      require (bool_decide (sy_workspace sy = jb_workspace j ∧ sy_connection sy = jb_connection j))
  end ;;
  match jb_operation j with
  | None => Some tt
  | Some o =>
      op ← operations d !! o;
      require (bool_decide (op_workspace op = jb_workspace j ∧ op_connection op = jb_connection j)) ;;
      require (negb (exists_where (λ _ j', bool_decide (jb_operation j' = Some o)) (jobs d)))
  end ;;
  t ← insert_new id j (jobs d);
  Some (tt, d <| jobs := t |>).

(** [UPDATE jobs SET ... WHERE p], rejected when a row would violate a CHECK. *)
Definition update_jobs (p : time → uuid → job → bool) (f : time → job → job) : sql nat := λ now d,
  if exists_where (λ k j, p now k j && negb (job_check (f now j))) (jobs d) then None
  else let '(n, t) := update_where (p now) (f now) (jobs d) in Some (n, d <| jobs := t |>).

Definition clear_lease (j : job) : job := j <| jb_lease := None |>.

(** The row is leased to this lease and still live at [now]. *)
Definition holds (now : time) (l : Lease) (id : uuid) (j : job) : bool :=
  bool_decide (id = ls_ID l) && bool_decide (jb_state j = JRunning)
  && match jb_lease j with
     | Some h => bool_decide (hl_owner h = ls_Owner l) && bool_decide (hl_token h = ls_Token l)
                 && (now <? hl_expires_at h)
     | None => false
     end
  && (now <? jb_deadline j).

(** ** [store.go] *)

Section store.
Context `{U : UuidApi}.

Definition new_job (r : Record_) (sync op : option uuid) (now : time) : job :=
  Job (jr_Workspace r) (jr_Connection r) (jr_Type r) (jr_PayloadVersion r) sync op JQueued now
      None 0 (jr_Deadline r) now None.

Definition Insert (record : Record_) : txm unit :=
  reject_if (negb (is_v7 (jr_ID record)) || negb (is_v7 (jr_Workspace record))
             || negb (is_v7 (jr_Connection record))
             || negb (bool_decide (jr_Type record = "connection_refresh"))
             || negb (jr_PayloadVersion record =? 1)
             || negb (bool_decide (jr_Operation record = Nil))) JobErrJob ;;
  exec JobErrJob (λ now, insert_job (jr_ID record) (new_job record None None now) now).

Definition InsertOperation (record : Record_) : txm unit :=
  reject_if (negb (is_v7 (jr_ID record)) || negb (is_v7 (jr_Workspace record))
             || negb (is_v7 (jr_Connection record)) || negb (is_v7 (jr_Operation record))
             || negb (bool_decide (jr_Type record = "operation_dispatch"))
             || negb (jr_PayloadVersion record =? 3)) JobErrJob ;;
  exec JobErrJob
    (λ now, insert_job (jr_ID record) (new_job record None (Some (jr_Operation record)) now) now).
End store.

(** ** [lease.go] *)

Definition lease_time : duration := 60 * Second.

(** Rows [Claim] may take at [now]. *)
Definition due (operations : bool) (now : time) (j : job) : bool :=
  (bool_decide (jb_type j = "connection_refresh")
   || operations && bool_decide (jb_type j = "operation_dispatch") && (jb_payload_version j =? 3))
  && (now <? jb_deadline j) && (jb_attempts j <? 100)
  && (bool_decide (jb_state j = JQueued) && (jb_next_run_at j <=? now)
      || bool_decide (jb_state j = JRunning)
         && match jb_lease j with Some h => hl_expires_at h <=? now | None => false end).

(** [ORDER BY next_run_at, id] *)
Definition due_order (x y : uuid * job) : Prop :=
  jb_next_run_at (snd x) < jb_next_run_at (snd y)
  ∨ jb_next_run_at (snd x) = jb_next_run_at (snd y) ∧ (fst x <= fst y)%N.
#[export] Instance due_order_dec : RelDecision due_order.
Proof. intros x y. unfold due_order. apply _. Defined.

(** [FOR UPDATE SKIP LOCKED LIMIT 1]; [locked] are the rows other transactions
    hold at this moment. *)
Definition candidate (operations : bool) (locked : uuid → bool) (now : time) (d : db)
  : option (uuid * job) :=
  head (merge_sort due_order
    (filter (λ '(id, j), due operations now j && negb (locked id) = true) (map_to_list (jobs d)))).

Definition claim_row (owner token : uuid) (now : time) (j : job) : job :=
  j <| jb_state := JRunning |>
    <| jb_lease := Some (HeldLease owner token (Z.min (now + lease_time) (jb_deadline j))) |>
    <| jb_attempts ::= Z.succ |>.

Definition claim_sql (operations : bool) (locked : uuid → bool) (owner token : uuid) (now : time)
  : sql (option (uuid * job)) := λ _ d,
  match candidate operations locked now d with
  | None => Some (None, d)
  | Some (id, j) =>
      let j' := claim_row owner token now j in
      require (job_check j') ;;
      Some (Some (id, j'), d <| jobs ::= <[id := j']> |>)
  end.

(** [Scheduler.Claim] after its maintenance hook: one transaction. *)
Definition Claim (operations : bool) (locked : uuid → bool) (owner : uuid) : txm Lease :=
  reject_if (bool_decide (owner = Nil)) JobErrLease ;;
  now ← go_now;
  token ← new_id JobErrLease;
  begin_tx JobErrLease ;;
  '(id, j) ← query_row JobErrNoJob JobErrLease (claim_sql operations locked owner token now);
  commit JobErrLease ;;
  mret (MkLease (MkRecord Nil id (jb_workspace j) (jb_connection j) (jb_type j)
                          (jb_payload_version j) (jb_deadline j)) token owner).

Definition renew_sql (l : Lease) (now : time) : sql (option time) := λ _ d,
  match jobs d !! ls_ID l with
  | Some j =>
      if holds now l (ls_ID l) j then
        let expires := Z.min (now + lease_time) (jb_deadline j) in
        Some (Some expires,
              d <| jobs ::= <[ls_ID l := j <| jb_lease ::= fmap (λ h, h <| hl_expires_at := expires |>) |>]> |>)
      else Some (None, d)
  | None => Some (None, d)
  end.

(** [Scheduler.renew]: the local instant the granted lease runs out, anchored
    before the query. *)
Definition renew (l : Lease) : txm time :=
  started ← go_now;
  now ← go_now;
  expires ← pool_row JobErrLease JobErrLease (renew_sql l now);
  mret (started + (expires - now)).

Definition Renew (l : Lease) : txm unit := renew l ;; mret tt.

Definition finish_row (st : job_state) (now : time) (j : job) : job :=
  clear_lease (j <| jb_state := st |> <| jb_completed_at := Some now |>).

(** [Scheduler.Finish] *)
Definition Finish (l : Lease) (st : job_state) : txm unit :=
  reject_if (negb (bool_decide (st = JSucceeded)) && negb (bool_decide (st = JFailed))) JobErrLease ;;
  now ← go_now;
  n ← pool_exec JobErrLease (update_jobs (λ _, holds now l) (λ at_ j, finish_row st at_ j));
  reject_if (negb (bool_decide (n = 1%nat))) JobErrLease.

(** ** [prune.go] *)

Definition job_terminal (s : job_state) : bool :=
  match s with JSucceeded | JFailed | JCancelled => true | _ => false end.
Definition op_terminal (s : op_state) : bool :=
  match s with Succeeded | Failed | Cancelled => true | _ => false end.

Definition prunable (now : time) (d : db) (j : job) : bool :=
  job_terminal (jb_state j)
  && match jb_completed_at j with Some t => t <? now - 7 * Day | None => false end
  && match jb_operation j with
     | None => true
     | Some o => match operations d !! o with
                 | Some op => bool_decide (op_workspace op = jb_workspace j) && op_terminal (op_st op)
                 | None => false
                 end
     end.

Definition completed_order (x y : uuid * job) : Prop :=
  let t z := default 0 (jb_completed_at (snd z)) in
  t x < t y ∨ t x = t y ∧ (fst x <= fst y)%N.
#[export] Instance completed_order_dec : RelDecision completed_order.
Proof. intros x y. unfold completed_order. apply _. Defined.

Definition PruneTerminal (locked : uuid → bool) : txm Z :=
  pool_exec JobErrJob (λ now d,
    let expired := take 100 (merge_sort completed_order
      (filter (λ '(id, j), prunable now d j && negb (locked id) = true) (map_to_list (jobs d)))) in
    let ids := fst <$> expired in
    Some (Z.of_nat (length ids), d <| jobs ::= filter (λ '(id, _), id ∉ ids) |>)).

(** ** What an update did *)

Lemma insert_job_Some id j now d u d' :
  insert_job id j now d = Some (u, d') →
  jobs d !! id = None ∧ d' = d <| jobs ::= <[id := j]> |> ∧
  (∀ o k j', jb_operation j = Some o → jobs d !! k = Some j' → jb_operation j' ≠ Some o).
Proof.
  unfold insert_job. intros H. apply bind_Some in H as (? & _ & H). apply bind_Some in H as (c & _ & H).
  apply bind_Some in H as (? & _ & H). apply bind_Some in H as (? & _ & H).
  apply bind_Some in H as (? & Hop & H). sql_inv H. split_and!; [done|done|].
  intros o k j' Ho Hk Hj. rewrite Ho in Hop. sql_inv Hop. guards.
  assert (exists_where (λ _ j', bool_decide (jb_operation j' = Some o)) (jobs d) = true); [|congruence].
  apply exists_where_true. exists k, j'. split; [done|]. by apply bool_decide_eq_true.
Qed.

Lemma update_jobs_Some p f now d n d' :
  update_jobs p f now d = Some (n, d') →
  n = (update_where (p now) (f now) (jobs d)).1 ∧
  d' = d <| jobs := (update_where (p now) (f now) (jobs d)).2 |> ∧
  (∀ k j, jobs d !! k = Some j → p now k j = true → job_check (f now j) = true).
Proof.
  unfold update_jobs. destruct (exists_where _ _) eqn:He; [done|].
  destruct (update_where _ _ _) as [m t] eqn:Hu. intros [= <- <-]. split_and!; [done|done|].
  intros k j Hk Hp. apply not_false_iff_true. intros Hc.
  assert (exists_where (λ k j, p now k j && negb (job_check (f now j))) (jobs d) = true); [|congruence].
  apply exists_where_true. exists k, j. by rewrite Hp, Hc.
Qed.

Lemma update_jobs_lookup p f now d n d' k :
  update_jobs p f now d = Some (n, d') →
  jobs d' !! k = (λ j, if p now k j then f now j else j) <$> jobs d !! k.
Proof. intros (_ & -> & _)%update_jobs_Some. apply lookup_update_where. Qed.
