(* ===== verification/Membership.v ===== *)
(** [internal/workspace]: membership authority and the writers of membership
    and workspace policy ([membership.go], [change_member.go], [transfer.go],
    [settings.go], [create.go], [bootstrap.go]).  Each writer locks its
    workspace row first, so its transaction is one atomic step. *)
From S2P Require Import Prelude GoBase Identifier Roles Schema Tx TxLogic Wp AuditLog.
Local Open Scope Z_scope.

(** [Membership{}]: the zero value an absent member reads as. *)
Definition no_membership : membership := Membership "" 0.

(** A user that may act: present and not disabled. *)
Definition enabled (d : db) (u : uuid) : bool :=
  match users d !! u with
  | Some r => match us_disabled_at r with None => true | Some _ => false end
  | None => false
  end.

Definition open_workspace (d : db) (w : uuid) : bool :=
  match workspaces d !! w with
  | Some r => match ws_closed_at r with None => true | Some _ => false end
  | None => false
  end.

(** [SELECT id FROM workspaces WHERE id=$1 AND closed_at IS NULL FOR UPDATE] *)
Definition lock_workspace (scope : uuid) : time → db → option unit := λ _ d,
  require (open_workspace d scope).

Definition ValidName (name : string) : bool :=
  String.eqb name (TrimSpace name) && ValidString name
  && (1 <=? RuneCountInString name) && (RuneCountInString name <=? 100)
  && negb (has_control name).

(** [memberships JOIN users ... disabled_at IS NULL] *)
Definition member_row (scope user : uuid) : time → db → option membership := λ _ d,
  m ← memberships d !! (scope, user); require (enabled d user) ;; Some m.

(** ** Authority *)

Definition memberInTx (scope user : uuid) : txm membership :=
  query_row WsErrNotFound WsErrStore (rd (member_row scope user)).

Definition LockAuthority (actor scope : uuid) : txm membership :=
  query_row WsErrNotFound WsErrStore (rd (lock_workspace scope)) ;;
  m ← memberInTx scope actor;
  reject_if (negb (Allows (mb_role m) "admin")) WsErrDenied ;;
  mret m.

Definition ResolveMembership (user workspace : uuid) (minimumRole : string) : txm membership :=
  m ← pool_row WsErrNotFound WsErrStore (rd (λ _ d,
        m ← memberships d !! (workspace, user); require (open_workspace d workspace) ;; Some m));
  reject_if (negb (Allows (mb_role m) minimumRole)) WsErrDenied ;;
  mret m.

(** ** Statements *)

(** [UPDATE workspaces SET policy_version=policy_version+1 ... RETURNING] *)
Definition bump_policy (scope : uuid) : sql (option Z) := λ _ d,
  match workspaces d !! scope with
  | None => Some (None, d)
  | Some w =>
      v ← bigint (ws_policy_version w + 1);
      Some (Some v, d <| workspaces ::= <[scope := w <| ws_policy_version := v |>]> |>)
  end.

(** The CHECK constraints of [memberships]. *)
Definition membership_check (m : membership) : bool :=
  bool_decide (known_role (mb_role m)) && (0 <? mb_version m).

Definition insert_membership (scope user : uuid) (m : membership) : sql unit := λ _ d,
  require (bool_decide (is_Some (workspaces d !! scope)) && bool_decide (is_Some (users d !! user))) ;;
  require (membership_check m) ;;
  t ← insert_new (scope, user) m (memberships d);
  Some (tt, d <| memberships := t |>).

(** The rows of [connection_grants] reference their membership ON DELETE CASCADE. *)
Definition delete_membership (scope user : uuid) : sql unit := λ _ d,
  Some (tt, d <| memberships ::= delete (scope, user) |>
              <| connection_grants ::= filter (λ '((w, c, u), _), ¬ (w = scope ∧ u = user)) |>).

Definition update_membership (scope user : uuid) (m : membership) : sql unit := λ _ d,
  match memberships d !! (scope, user) with
  | None => Some (tt, d)
  | Some _ => require (membership_check m) ;;
              Some (tt, d <| memberships ::= <[(scope, user) := m]> |>)
  end.

Definition delete_sessions (user : uuid) : sql unit := λ _ d,
  Some (tt, d <| sessions ::= filter (λ '(_, s), se_user s ≠ user) |>).

(** [count( * ) FROM memberships JOIN users ... role='owner' AND disabled_at IS NULL] *)
Definition enabled_owner (d : db) (scope : uuid) (k : uuid * uuid) (m : membership) : bool :=
  bool_decide (k.1 = scope) && bool_decide (mb_role m = "owner") && enabled d k.2.

Definition count_owners (scope : uuid) : time → db → Z := λ _ d,
  count_where (enabled_owner d scope) (memberships d).

(** An identity already admitted to some open workspace. *)
Definition admitted (user : uuid) : time → db → bool := λ _ d,
  enabled d user
  && exists_where (λ k _, bool_decide (k.2 = user) && open_workspace d k.1) (memberships d).

(** ** Membership changes *)

Section membership.
Context `{U : UuidApi}.

Definition memberAudit (actor scope target : uuid) (role request : string) : txm unit :=
  id ← NewID WsErrStore;
  let metadata : gmap string string :=
    if decide (role = "") then {["member_id" := uuid_String target]}
    else {["member_id" := uuid_String target; "role" := role]} in
  or_fail WsErrStore
    (Append (MkEvent id scope ActorUser (Some actor) "membership.changed" request metadata)).

Definition invalidateElevation (user : uuid) (previous next : string) : txm unit :=
  if negb (bool_decide (next = "")) && negb (Allows previous next)
  then exec WsErrStore (delete_sessions user) else mret tt.

(** The statement [ChangeMember] picks: insert, delete or update. *)
Definition write_member (scope target : uuid) (role : string) (version revision : Z) : txm unit :=
  if version =? 0 then
    ok ← exec WsErrStore (rd (admitted target));
    reject_if (negb ok) WsErrNotFound ;;
    exec WsErrStore (insert_membership scope target (Membership role revision))
  else if decide (role = "") then exec WsErrStore (delete_membership scope target)
  else exec WsErrStore (update_membership scope target (Membership role revision)).

(** [memberInTx] where an absent member reads as the zero [Membership]. *)
Definition previous_member (scope target : uuid) : txm membership :=
  found ← attempt (memberInTx scope target);
  match found with
  | Ok m => mret m
  | Err e => if decide (e = WsErrNotFound) then mret no_membership else throw e
  end.

(** [if previous.Role == "owner" && role != "owner"]: the owner must not be the last. *)
Definition require_other_owner (scope : uuid) (previous role : string) : txm unit :=
  if bool_decide (previous = "owner") && negb (bool_decide (role = "owner")) then
    owners ← exec WsErrStore (rd (count_owners scope));
    reject_if (owners <=? 1) WsErrConflict
  else mret tt.

Definition ChangeMember (actor scope target : uuid) (role : string) (version : Z) (request : string)
  : txm unit :=
  reject_if ((version <? 0) || negb (bool_decide (role = "")) && negb (Allows role "viewer"))
    WsErrInvalid ;;
  begin_tx WsErrStore ;;
  current ← LockAuthority actor scope;
  previous ← previous_member scope target;
  reject_if (negb (CanAssign (mb_role current) role) && negb (bool_decide (role = ""))
             || negb (bool_decide (mb_role previous = ""))
                && negb (CanAssign (mb_role current) (mb_role previous))) WsErrDenied ;;
  reject_if (negb (mb_version previous =? version)
             || (mb_version previous =? 0) && bool_decide (role = "")) WsErrConflict ;;
  require_other_owner scope (mb_role previous) role ;;
  revision ← query_row WsErrStore WsErrStore (bump_policy scope);
  write_member scope target role version revision ;;
  invalidateElevation target (mb_role previous) role ;;
  memberAudit actor scope target role request ;;
  commit WsErrStore ;;
  mret tt.

Definition Transfer (actor scope target : uuid) (actorVersion targetVersion : Z) (demote : bool)
  (request : string) : txm unit :=
  reject_if (bool_decide (actor = target) || (actorVersion <? 1) || (targetVersion <? 1))
    WsErrInvalid ;;
  begin_tx WsErrStore ;;
  caller ← LockAuthority actor scope;
  reject_if (negb (bool_decide (mb_role caller = "owner"))) WsErrDenied ;;
  member ← memberInTx scope target;
  reject_if (negb (mb_version caller =? actorVersion) || negb (mb_version member =? targetVersion))
    WsErrConflict ;;
  revision ← query_row WsErrStore WsErrStore (bump_policy scope);
  exec WsErrStore (update_membership scope target (Membership "owner" revision)) ;;
  invalidateElevation target (mb_role member) "owner" ;;
  memberAudit actor scope target "owner" request ;;
  (if demote then
     exec WsErrStore (update_membership scope actor (Membership "admin" revision)) ;;
     memberAudit actor scope actor "admin" request
   else mret tt) ;;
  commit WsErrStore ;;
  mret tt.

(** ** [settings.go] *)

Record Settings := MkSettings {
  st_Name : string; st_PolicyVersion : Z; st_QueueLimit : Z; st_AuditRetentionDays : Z }.

#[export] Instance Settings_eq_dec : EqDecision Settings.
Proof. solve_decision. Defined.

Definition settings_of (w : workspace) : Settings :=
  MkSettings (ws_name w) (ws_policy_version w) (ws_queue_limit w) (ws_audit_retention_days w).

Definition update_settings (scope : uuid) (s : Settings) : sql unit := λ _ d,
  w ← workspaces d !! scope;
  require ((0 <? st_PolicyVersion s) && (1 <=? st_QueueLimit s) && (st_QueueLimit s <=? 1000)
           && (180 <=? st_AuditRetentionDays s) && (st_AuditRetentionDays s <=? 3650)) ;;
  v ← bigint (st_PolicyVersion s);
  Some (tt, d <| workspaces ::= <[scope :=
    w <| ws_name := st_Name s |> <| ws_policy_version := v |> <| ws_queue_limit := st_QueueLimit s |>
      <| ws_audit_retention_days := st_AuditRetentionDays s |>]> |>).

Definition WorkspaceSettings (actor scope : uuid) (update : option Settings) (request : string)
  : txm Settings :=
  begin_tx WsErrStore ;;
  member ← LockAuthority actor scope;
  reject_if (negb (bool_decide (mb_role member = "owner"))) WsErrDenied ;;
  current ← query_row WsErrStore WsErrStore (rd (λ _ d, settings_of <$> workspaces d !! scope));
  match update with
  | None => mret current
  | Some u =>
      reject_if (negb (ValidName (st_Name u)) || (st_QueueLimit u <? 1) || (1000 <? st_QueueLimit u)
                 || (st_AuditRetentionDays u <? 180) || (3650 <? st_AuditRetentionDays u)) WsErrInvalid ;;
      reject_if (negb (st_PolicyVersion u =? st_PolicyVersion current)) WsErrPolicyConflict ;;
      if decide (u = current) then mret current
      else
        let next := MkSettings (st_Name u) (st_PolicyVersion u + 1) (st_QueueLimit u)
                      (st_AuditRetentionDays u) in
        exec WsErrStore (update_settings scope next) ;;
        event ← NewID WsErrStore;
        or_fail WsErrStore
          (Append (MkEvent event scope ActorUser (Some actor) "workspace.settings_changed" request
             {["policy_version" := FormatInt (st_PolicyVersion next)]})) ;;
        commit WsErrStore ;;
        mret next
  end.

(** ** [create.go] *)

Record WorkspaceView := MkWorkspaceView { vw_ID : uuid; vw_Name : string; vw_Role : string }.

Definition MaxOwnedWorkspaces : Z := 10.

(** A row with the defaults of [000002] and [000013]. *)
Definition insert_workspace (id : uuid) (name : string) : sql unit := λ _ d,
  t ← insert_new id (Workspace name 1 None 1000 180) (workspaces d);
  Some (tt, d <| workspaces := t |>).

Definition Create (user : uuid) (name requestID : string) : txm WorkspaceView :=
  reject_if (negb (ValidName name)) WsErrInvalid ;;
  id ← new_id WsErrStore;
  event ← NewID WsErrStore;
  begin_tx WsErrStore ;;
  query_row WsErrDenied WsErrStore (rd (λ now d, require (admitted user now d))) ;;
  owned ← exec WsErrStore (rd (λ _ d,
    count_where (λ k m, bool_decide (k.2 = user) && bool_decide (mb_role m = "owner")) (memberships d)));
  reject_if (MaxOwnedWorkspaces <=? owned) WsErrLimit ;;
  exec WsErrStore (insert_workspace id name) ;;
  exec WsErrStore (insert_membership id user (Membership "owner" 1)) ;;
  or_fail WsErrStore (Append (MkEvent event id ActorUser (Some user) "workspace.created" requestID ∅)) ;;
  commit WsErrStore ;;
  mret (MkWorkspaceView id name "owner").

(** ** [bootstrap.go] *)

(** [ON CONFLICT(issuer,subject) DO NOTHING], with the CHECKs of [users]. *)
Definition insert_user (id : uuid) (issuer subject : string) : sql unit := λ _ d,
  require ((0 <? len issuer) && (RuneCountInString issuer <=? 2048)
           && (0 <? len subject) && (RuneCountInString subject <=? 255)) ;;
  if exists_where (λ _ u, bool_decide (us_issuer u = issuer ∧ us_subject u = subject)) (users d)
  then Some (tt, d)
  else t ← insert_new id (User issuer subject "" None) (users d); Some (tt, d <| users := t |>).

(** The enabled user with this identity. *)
Definition identity_row (issuer subject : string) : time → db → option uuid := λ _ d,
  fst <$> head (filter (λ '(_, u), us_issuer u = issuer ∧ us_subject u = subject
                                    ∧ us_disabled_at u = None) (map_to_list (users d))).

(** [locked]: whether [pg_try_advisory_xact_lock(891016)] succeeds. *)
Definition Bootstrap (locked : bool) (configuredIssuer issuer subject name : string) : txm uuid :=
  reject_if (bool_decide (configuredIssuer = "") || negb (bool_decide (issuer = configuredIssuer))
             || bool_decide (TrimSpace subject = "") || (255 <? len subject) || negb (ValidName name))
    WsErrInvalid ;;
  user0 ← new_id WsErrStore;
  workspace ← new_id WsErrStore;
  event ← NewID WsErrStore;
  begin_tx WsErrStore ;;
  locked ← exec WsErrStore (rd (λ _ _, locked));
  reject_if (negb locked) WsErrBootstrapExists ;;
  initialized ← exec WsErrStore (rd (λ _ d,
    bool_decide (is_Some (installation_bootstrap d)) || bool_decide (workspaces d ≠ ∅)));
  reject_if initialized WsErrBootstrapExists ;;
  exec WsErrStore (insert_user user0 issuer subject) ;;
  user ← query_row WsErrStore WsErrStore (rd (identity_row issuer subject));
  exec WsErrStore (insert_workspace workspace name) ;;
  exec WsErrStore (insert_membership workspace user (Membership "owner" 1)) ;;
  exec WsErrStore (λ _ d, match installation_bootstrap d with
                          | Some _ => None
                          | None => Some (tt, d <| installation_bootstrap := Some (user, workspace) |>)
                          end) ;;
  or_fail WsErrStore
    (Append (MkEvent event workspace ActorInstallation None "workspace.created"
               "installation-bootstrap" ∅)) ;;
  commit WsErrStore ;;
  mret workspace.
(** ** What callers rely on *)

Lemma member_row_Some scope user now d m :
  member_row scope user now d = Some m ↔
  memberships d !! (scope, user) = Some m ∧ enabled d user = true.
Proof.
  unfold member_row. destruct (memberships d !! (scope, user)); simpl; [|naive_solver].
  destruct (enabled d user); naive_solver.
Qed.

#[export] Instance memberInTx_spec scope user :
  TxSpec (memberInTx scope user)
    (λ w err w', w' = w ∧ (err = WsErrNotFound ∧ (∀ now, member_row scope user now w = None)
                           ∨ err = WsErrStore))
    (λ w m w' _, w' = w ∧ memberships w !! (scope, user) = Some m ∧ enabled w user = true).
Proof.
  intros d w e. unfold memberInTx. wp_step.
  - tx_done.
  - simpl. eauto 10.
  - simpl. by match goal with H : _ |- _ => apply member_row_Some in H as [? ?] end.
Qed.

#[export] Instance LockAuthority_spec actor scope :
  TxSpec (LockAuthority actor scope)
    (λ w err w', w' = w ∧ err ∈ [WsErrNotFound; WsErrStore; WsErrDenied])
    (λ w m w' _, w' = w ∧ memberships w !! (scope, actor) = Some m ∧ enabled w actor = true ∧
      open_workspace w scope = true ∧ Allows (mb_role m) "admin" = true).
Proof.
  intros d w e. unfold LockAuthority. wp_run by tx_done.
  - match goal with H : _ ∨ _ |- _ => destruct H; wp_facts; tx_done end.
  - unfold lock_workspace in *. rewrite negb_false_iff, require_Some in *. tx_done.
Qed.

(** Tables a membership change must leave alone, as one relation. *)
Definition audit_only (w w' : db) : Prop := ∃ t, w' = w <| audit_events := t |>.

#[export] Instance memberAudit_spec actor scope target role request :
  TxSpec (memberAudit actor scope target role request)
    (λ w err w', err = WsErrStore) (λ w _ w' _, audit_only w w').
Proof.
  intros d w e. unfold memberAudit, NewID. wp_run by tx_done.
  simpl. split_and!; [done|env_solve|]. by eexists.
Qed.

(** Sessions of [user] are dropped when the change raises the role. *)
Definition elevated (previous next : string) : bool :=
  negb (bool_decide (next = "")) && negb (Allows previous next).

Definition drop_sessions (user : uuid) (d : db) : db :=
  d <| sessions ::= filter (λ '(_, s), se_user s ≠ user) |>.

#[export] Instance invalidateElevation_spec user previous next :
  TxSpec (invalidateElevation user previous next) (λ w err w', err = WsErrStore)
    (λ w _ w' _, w' = if elevated previous next then drop_sessions user w else w).
Proof.
  intros d w e. unfold invalidateElevation, elevated. wp_run by tx_done.
  match goal with H : delete_sessions _ _ _ = _ |- _ => injection H as <- <- end. tx_done.
Qed.

Lemma bump_policy_Some scope now d v d' :
  bump_policy scope now d = Some (Some v, d') →
  ∃ w, workspaces d !! scope = Some w ∧ v = ws_policy_version w + 1 ∧ v <= bigint_max ∧
    d' = d <| workspaces ::= <[scope := w <| ws_policy_version := v |>]> |>.
Proof.
  unfold bump_policy. destruct (workspaces d !! scope) as [w|]; [|done].
  intros (v' & (-> & ?)%bigint_Some & [= <- <-])%bind_Some. eauto.
Qed.

(** The memberships [write_member] leaves. *)
Definition member_change (scope target : uuid) (role : string) (revision : Z)
  (t : gmap (uuid * uuid) membership) : gmap (uuid * uuid) membership :=
  if decide (role = "") then delete (scope, target) t
  else <[(scope, target) := Membership role revision]> t.

Lemma membership_check_true m :
  membership_check m = true → known_role (mb_role m) ∧ 0 < mb_version m.
Proof. unfold membership_check. by rewrite andb_true_iff, bool_decide_eq_true, Z.ltb_lt. Qed.

(** Grants of other workspaces are untouched. *)
Definition other_grants (scope : uuid) (d d' : db) : Prop :=
  ∀ w c u, w ≠ scope → connection_grants d' !! (w, c, u) = connection_grants d !! (w, c, u).

#[export] Instance write_member_spec scope target role version revision :
  TxSpec (write_member scope target role version revision) rolled_back
    (λ w _ w' _, (version = 0 → role ≠ "") →
      (version ≠ 0 → is_Some (memberships w !! (scope, target))) →
      memberships w' = member_change scope target role revision (memberships w) ∧
      (role ≠ "" → known_role role ∧ 0 < revision) ∧
      workspaces w' = workspaces w ∧ users w' = users w ∧
      (version = 0 → memberships w !! (scope, target) = None) ∧
      other_grants scope w w').
Proof.
  intros d w e. unfold write_member, member_change. wp_run by tx_done.
  all: simpl; split_and!; [done|env_solve|]; intros Hv0 Hv1.
  - unfold insert_membership in *. sql_inv H2. rewrite decide_False by (apply Hv0; lia).
    apply membership_check_true in Hq0. tx_done.
  - unfold delete_membership in *. simplify_eq/=. rewrite Z.eqb_neq in *.
    split_and!; [done|done|done|done|done|]. intros w0 c u Hne. simpl.
    destruct (connection_grants w !! (w0, c, u)) as [g|] eqn:Hg.
    + apply map_lookup_filter_Some. naive_solver.
    + apply map_lookup_filter_None. by left.
  - rewrite Z.eqb_neq in *. destruct (Hv1 ltac:(done)) as [m Hm].
    unfold update_membership in *. rewrite Hm in *.
    sql_inv H0. apply membership_check_true in Hq. split_and!; try done.
Qed.

Definition current_member (d : db) (scope user : uuid) : membership :=
  default no_membership (member_row scope user 0 d).

#[export] Instance previous_member_spec scope target :
  TxSpec (previous_member scope target) unchanged
    (λ w m w' _, w' = w ∧ m = current_member w scope target).
Proof.
  intros d w e. unfold previous_member, current_member. wp_run by tx_done; simplify_eq.
  all: simpl; split_and!; [done|env_solve|done|].
  - match goal with H : ∀ _, member_row _ _ _ _ = None |- _ => by rewrite H end.
  - unfold member_row.
    by match goal with H : memberships _ !! _ = _, H2 : enabled _ _ = _ |- _ => rewrite H; simpl; rewrite H2 end.
Qed.

Lemma current_member_present d scope user :
  mb_version (current_member d scope user) ≠ 0 → is_Some (memberships d !! (scope, user)).
Proof.
  unfold current_member, member_row. destruct (memberships d !! (scope, user)); [by eexists|done].
Qed.

#[export] Instance require_other_owner_spec scope previous role :
  TxSpec (require_other_owner scope previous role) unchanged
    (λ w _ w' _, w' = w ∧ (previous = "owner" → role ≠ "owner" → 1 < count_owners scope 0 w)).
Proof.
  intros d w e. unfold require_other_owner. wp_run by tx_done; simpl.
  - rewrite Z.leb_gt in *. tx_done.
  - rewrite andb_false_iff, bool_decide_eq_false, negb_false_iff, bool_decide_eq_true in *.
    split_and!; [done|env_solve|done|naive_solver].
Qed.

Lemma insert_user_Some id issuer subject now d u d' :
  insert_user id issuer subject now d = Some (u, d') →
  ∃ t, d' = d <| users := t |> ∧ ∀ k v, users d !! k = Some v → t !! k = Some v.
Proof.
  unfold insert_user. intros H. sql_inv H.
  - exists (users d'). split; [by destruct d'|done].
  - simplify_eq. eexists. split; [done|]. intros k u0 Hk. rewrite lookup_insert_ne; [done|congruence].
Qed.

Lemma identity_row_Some issuer subject now d user :
  identity_row issuer subject now d = Some user →
  ∃ u, users d !! user = Some u ∧ us_issuer u = issuer ∧ us_subject u = subject ∧ us_disabled_at u = None.
Proof.
  unfold identity_row. intros ([k u] & [? ?]%head_filter_Some & [= ->])%fmap_Some. eauto.
Qed.

(** Everything a committed [ChangeMember] did, and what it had checked. *)
Record member_changed (actor scope target : uuid) (role : string) (version : Z) (d d' : db) : Prop := {
  mc_actor : ∃ m, memberships d !! (scope, actor) = Some m ∧ enabled d actor = true ∧
    Allows (mb_role m) "admin" = true ∧
    (role ≠ "" → CanAssign (mb_role m) role = true) ∧
    (mb_role (current_member d scope target) ≠ "" →
     CanAssign (mb_role m) (mb_role (current_member d scope target)) = true);
  mc_open : open_workspace d scope = true;
  mc_version : mb_version (current_member d scope target) = version;
  mc_present : version = 0 → role ≠ "" ∧ memberships d !! (scope, target) = None;
  mc_owners : mb_role (current_member d scope target) = "owner" → role ≠ "owner" →
    1 < count_owners scope 0 d;
  mc_role : role ≠ "" → known_role role;
  mc_commit : ∃ W, workspaces d !! scope = Some W ∧
    workspaces d' = <[scope := W <| ws_policy_version := ws_policy_version W + 1 |>]> (workspaces d) ∧
    memberships d' = member_change scope target role (ws_policy_version W + 1) (memberships d);
  mc_frame : users d' = users d ∧ other_grants scope d d';
}.

Lemma ChangeMember_spec actor scope target role version request d w e :
  wp (ChangeMember actor scope target role version request)
     (atomic WsErrStore (λ d _ d', member_changed actor scope target role version d d') d) (Txs d w e).
Proof.
  unfold ChangeMember. repeat wp_step. all: try solve [simpl; auto].
  destruct (bump_policy_Some _ _ _ _ _ ltac:(eassumption)) as (W & HW & -> & _ & ->).
  assert (Hv : mb_version (current_member d scope target) = version) by (guards; lia).
  destruct Hspec as (Hm & Hr & Hws & Hus & Hnone & Hg).
  - intros ->. by guards.
  - intros Hne. simpl. eapply current_member_present. by rewrite Hv.
  - destruct Hspec0 as [t ->]. split; try done.
    + eexists. split_and!; try done; intros Hne. all: guards; congruence.
    + intros ->. split; [by guards|by apply Hnone].
    + naive_solver.
    + exists W. split_and!; [done| |].
      * by destruct (elevated _ _); simpl; rewrite Hws.
      * by destruct (elevated _ _); simpl; rewrite Hm.
    + split; [by destruct (elevated _ _); simpl; rewrite Hus|].
      intros w0 c u Hne. by destruct (elevated _ _); simpl; rewrite Hg.
Qed.

(** Everything a committed [Transfer] did, and what it had checked. *)
Record transferred (actor scope target : uuid) (actorVersion targetVersion : Z) (demote : bool)
  (d d' : db) : Prop := {
  tr_distinct : actor ≠ target;
  tr_actor : memberships d !! (scope, actor) = Some (Membership "owner" actorVersion);
  tr_target : ∃ role, memberships d !! (scope, target) = Some (Membership role targetVersion);
  tr_enabled : enabled d actor = true ∧ enabled d target = true;
  tr_open : open_workspace d scope = true;
  tr_commit : ∃ W, workspaces d !! scope = Some W ∧
    let revision := ws_policy_version W + 1 in
    workspaces d' = <[scope := W <| ws_policy_version := revision |>]> (workspaces d) ∧
    0 < revision ∧
    memberships d' =
      (if demote then <[(scope, actor) := Membership "admin" revision]> else id)
        (<[(scope, target) := Membership "owner" revision]> (memberships d));
  tr_frame : users d' = users d ∧ connection_grants d' = connection_grants d;
}.

Lemma update_membership_Some scope user m now d u d' m0 :
  update_membership scope user m now d = Some (u, d') → memberships d !! (scope, user) = Some m0 →
  known_role (mb_role m) ∧ 0 < mb_version m ∧ d' = d <| memberships ::= <[(scope, user) := m]> |>.
Proof.
  unfold update_membership. intros H Hm. rewrite Hm in H. sql_inv H.
  apply membership_check_true in Hq as [? ?]. done.
Qed.

(** Dropping sessions and appending audit rows leaves membership alone. *)
Lemma audit_only_frame w w' : audit_only w w' →
  memberships w' = memberships w ∧ workspaces w' = workspaces w ∧ users w' = users w ∧
  connection_grants w' = connection_grants w.
Proof. by intros [t ->]. Qed.
Lemma drop_sessions_frame b user w w' : audit_only (if b : bool then drop_sessions user w else w) w' →
  memberships w' = memberships w ∧ workspaces w' = workspaces w ∧ users w' = users w ∧
  connection_grants w' = connection_grants w.
Proof. intros [t ->]. by destruct b. Qed.

Lemma Transfer_spec actor scope target av tv demote request d w e :
  wp (Transfer actor scope target av tv demote request)
     (atomic WsErrStore (λ d _ d', transferred actor scope target av tv demote d d') d) (Txs d w e).
Proof.
  unfold Transfer. repeat wp_step. all: try solve [simpl; auto]. all: guards.
  all: destruct (bump_policy_Some _ _ _ _ _ ltac:(eassumption)) as (W & HW & -> & _ & ->).
  all: match goal with H : update_membership _ _ (Membership "owner" _) _ _ = _ |- _ =>
         eapply update_membership_Some in H as (_ & Hpos & ->); [|eassumption] end.
  all: match goal with H : audit_only (if elevated _ _ then _ else _) _ |- _ =>
         apply drop_sessions_frame in H as (Hm & Hws & Hus & Hg) end.
  all: simpl in *.
  - match goal with H : update_membership _ actor _ _ _ = _ |- _ =>
      eapply update_membership_Some in H as (_ & _ & ->);
        [|rewrite Hm, lookup_insert_ne by congruence; eassumption] end.
    match goal with H : audit_only _ _ |- _ => apply audit_only_frame in H as (Hm' & Hws' & Hus' & Hg') end.
    simpl in *. destruct a as [r v], a0 as [r0 v0]; simpl in *; subst.
    split; try done; [by eexists|..].
    + exists W. simpl. rewrite Hws', Hm', Hws, Hm. done.
    + by rewrite Hus', Hus, Hg', Hg.
  - destruct a as [r v], a0 as [r0 v0]; simpl in *; subst.
    split; try done; [by eexists|]. exists W. simpl. by rewrite Hws, Hm.
Qed.

End membership.
