(* ===== verification/Grants.v ===== *)
(** [internal/workspace/grants.go]: per-connection grants. *)
From S2P Require Import Prelude GoBase Identifier Roles Schema Tx TxLogic Wp AuditLog Membership.
Local Open Scope Z_scope.

(** [connections ... WHERE workspace_id=$1 AND id=$2] *)
Definition connection_in (scope id : uuid) (d : db) : option connection :=
  c ← connections d !! id; require (bool_decide (cn_workspace c = scope)) ;; Some c.

Lemma connection_in_Some scope id d c :
  connection_in scope id d = Some c ↔ connections d !! id = Some c ∧ cn_workspace c = scope.
Proof.
  unfold connection_in. destruct (connections d !! id) as [c'|]; simpl; [|naive_solver].
  case_bool_decide; simpl; naive_solver.
Qed.

(** [COALESCE(g.actions,'{}')] *)
Definition granted (d : db) (scope connection user : uuid) : list string :=
  default [] (connection_grants d !! (scope, connection, user)).

Section grants.
Context `{U : UuidApi}.

(** The row [ConnectionAuthority] and [ReadGrant] join. *)
Definition grant_row (actor scope connection : uuid) : time → db → option (string * string * list string) :=
  λ now d,
  m ← member_row scope actor now d;
  require (open_workspace d scope) ;;
  c ← connection_in scope connection d;
  Some (mb_role m, cn_status c, granted d scope connection actor).

Definition ConnectionAuthority (actor scope connection : uuid) (action : string) : txm unit :=
  '(role, status, actions) ← pool_row WsErrNotFound WsErrStore (rd (grant_row actor scope connection));
  if decide (action = "manage")
  then if Allows role "admin" then mret tt else throw WsErrDenied
  else
    reject_if (negb (bool_decide ("read" ∈ actions))) WsErrNotFound ;;
    reject_if (negb (WithinCeiling role action) || negb (bool_decide (action ∈ actions))
               || negb (bool_decide (action = "read")) && negb (bool_decide (status = "active"))) WsErrDenied.

Definition ReadGrant (actor scope connection : uuid) : txm (list string) :=
  pool_row WsErrNotFound WsErrStore (rd (λ now d,
    '(role, _, actions) ← grant_row actor scope connection now d;
    require (bool_decide (role = "admin") || bool_decide (role = "owner")
             || bool_decide ("read" ∈ actions)) ;;
    Some actions)).

Definition grantAudit (actor scope connection target : uuid) (kind request : string) : txm unit :=
  id ← NewID WsErrStore;
  or_fail WsErrStore
    (Append (MkEvent id scope ActorUser (Some actor) kind request
       {["connection_id" := uuid_String connection; "member_id" := uuid_String target]})).

(** The closure [deny]: the refusal is audited and committed. *)
Definition deny (actor scope connection target : uuid) (request : string) (cause : error) : txm unit :=
  grantAudit actor scope connection target "connection.grants_denied" request ;;
  commit WsErrStore ;;
  throw cause.

(** [INSERT ... ON CONFLICT DO UPDATE] with the table's constraints. *)
Definition upsert_grant (scope connection target : uuid) (actions : list string) : sql unit := λ _ d,
  require (bool_decide (is_Some (connection_in scope connection d))
           && bool_decide (is_Some (memberships d !! (scope, target)))
           && bool_decide (actions ⊆ grant_classes) && (length actions <=? 4)%nat) ;;
  Some (tt, d <| connection_grants ::= <[(scope, connection, target) := actions]> |>).

(** [if err != nil]: what [SetGrant] does with the error of [LockAuthority]. *)
Definition authority_failed (actor scope connection target : uuid) (request : string) (err : error)
  : txm unit :=
  if decide (err = WsErrDenied) then deny actor scope connection target request err else throw err.

(** The caller's own grant, read only when the caller is an admin. *)
Definition own_actions (role : string) (scope connection actor : uuid) : txm (list string) :=
  if decide (role = "admin")
  then exec WsErrStore (rd (λ _ d, granted d scope connection actor))
  else mret [].

Definition grant_denied (current target : string) (own actions : list string) : bool :=
  negb (CanAssign current target)
  || existsb (λ action, negb (WithinCeiling target action)
                        || bool_decide (current = "admin") && negb (bool_decide (action ∈ own))) actions.

(** [if !denied]: the grant and the policy version move together. *)
Definition write_grant (scope connection target : uuid) (actions : list string) (denied : bool)
  : txm unit :=
  if negb denied then
    exec WsErrStore (upsert_grant scope connection target actions) ;;
    exec WsErrStore (bump_policy scope) ;;
    mret tt
  else mret tt.

Definition SetGrant (actor scope connection target : uuid) (actions : list string) (request : string)
  : txm unit :=
  reject_if (4 <? length actions)%nat WsErrInvalid ;;
  reject_if (negb (forallb (WithinCeiling "owner") actions) || negb (bool_decide (NoDup actions))) WsErrInvalid ;;
  reject_if ((0 <? length actions)%nat && negb (bool_decide ("read" ∈ actions))) WsErrInvalid ;;
  begin_tx WsErrStore ;;
  authority ← attempt (LockAuthority actor scope);
  match authority with
  | Err err => authority_failed actor scope connection target request err
  | Ok current =>
      found ← exec WsErrStore (rd (λ _ d, bool_decide (is_Some (connection_in scope connection d))));
      if negb found then deny actor scope connection target request WsErrNotFound else
      member ← attempt (memberInTx scope target);
      match member with
      | Err err =>
          if decide (err = WsErrNotFound) then deny actor scope connection target request err
          else throw err
      | Ok member =>
          own ← own_actions (mb_role current) scope connection actor;
          let denied := grant_denied (mb_role current) (mb_role member) own actions in
          grantAudit actor scope connection target
            (if denied then "connection.grants_denied" else "connection.grants_changed") request ;;
          write_grant scope connection target actions denied ;;
          commit WsErrStore ;;
          reject_if denied WsErrDenied
      end
  end.

#[export] Instance grantAudit_spec actor scope connection target kind request :
  TxSpec (grantAudit actor scope connection target kind request)
    (λ _ err _, err = WsErrStore) (λ w _ w' _, audit_only w w').
Proof.
  intros d w e. unfold grantAudit, NewID. wp_run by tx_done.
  simpl. split_and!; [done|env_solve|]. by eexists.
Qed.

#[export] Instance own_actions_spec role scope connection actor :
  TxSpec (own_actions role scope connection actor) (λ w err w', w' = w ∧ err = WsErrStore)
    (λ w own w' _, w' = w ∧ (role = "admin" → own = granted w scope connection actor)).
Proof. intros d w e. unfold own_actions. wp_run by tx_done. Qed.

(** A committed change of a grant, and what [SetGrant] had checked. *)
Record grant_changed (actor scope connection target : uuid) (actions : list string) (d d' : db) : Prop := {
  gc_caller : ∃ m t, memberships d !! (scope, actor) = Some m ∧ enabled d actor = true ∧
    memberships d !! (scope, target) = Some t ∧ enabled d target = true ∧
    Allows (mb_role m) "admin" = true ∧ CanAssign (mb_role m) (mb_role t) = true ∧
    (∀ a, a ∈ actions → WithinCeiling (mb_role t) a = true ∧
      (mb_role m = "admin" → a ∈ granted d scope connection actor));
  gc_open : open_workspace d scope = true;
  gc_connection : is_Some (connection_in scope connection d);
  gc_actions : actions ⊆ grant_classes ∧ NoDup actions ∧ (actions ≠ [] → "read" ∈ actions);
  gc_grants : connection_grants d' = <[(scope, connection, target) := actions]> (connection_grants d);
  gc_policy : ∃ W, workspaces d !! scope = Some W ∧
    workspaces d' = <[scope := W <| ws_policy_version := ws_policy_version W + 1 |>]> (workspaces d);
  gc_frame : memberships d' = memberships d ∧ users d' = users d;
}.

#[export] Instance write_grant_spec scope connection target actions denied :
  TxSpec (write_grant scope connection target actions denied) (λ _ err _, err = WsErrStore)
    (λ w _ w' _, if denied then w' = w else
      actions ⊆ grant_classes ∧ is_Some (connection_in scope connection w) ∧
      w' = w <| connection_grants ::= <[(scope, connection, target) := actions]> |>
             <| workspaces ::= match workspaces w !! scope with
                  | Some W => <[scope := W <| ws_policy_version := ws_policy_version W + 1 |>]>
                  | None => id end |>).
Proof.
  intros d w e. unfold write_grant. wp_run by tx_done.
  - simpl. split_and!; [done|env_solve|]. guards. subst denied.
    unfold upsert_grant in *. sql_inv H0. simplify_eq. guards.
    unfold bump_policy in *. simpl in *.
    destruct (workspaces w !! scope) as [W|] eqn:HW; sql_inv H2; simplify_eq; by split_and!.
  - simpl. guards. subst. tx_done.
Qed.

(** A refusal leaves at most its audit event. *)
Definition grant_outcome (actor scope connection target : uuid) (actions : list string) (d : db)
  (r : go unit) (s' : txs) : Prop :=
  match r with
  | Ok _ => grant_changed actor scope connection target actions d (tx_db s')
  | Err err => tx_db s' = d ∨ audit_only d (tx_db s') ∨
      err = WsErrStore ∧ grant_changed actor scope connection target actions d (tx_db s')
  end.

Lemma deny_spec actor scope connection target request cause actions d e :
  wp (deny actor scope connection target request cause)
     (grant_outcome actor scope connection target actions d) (Txs d d e).
Proof. unfold deny, grant_outcome. wp_run by (simpl; auto). Qed.

Lemma grant_denied_false current target own actions :
  grant_denied current target own actions = false →
  CanAssign current target = true ∧
  ∀ a, a ∈ actions → WithinCeiling target a = true ∧ (current = "admin" → a ∈ own).
Proof.
  unfold grant_denied. intros H. guards. split; [done|]. intros a Ha.
  destruct (existsb _ actions) eqn:Hex in H0; [done|].
  assert (Hf : ∀ x, x ∈ actions → negb (WithinCeiling target x)
               || bool_decide (current = "admin") && negb (bool_decide (x ∈ own)) = false).
  { intros x Hx. apply not_true_is_false. intros Ht.
    assert (existsb (λ action, negb (WithinCeiling target action)
               || bool_decide (current = "admin") && negb (bool_decide (action ∈ own))) actions = true)
      by (apply existsb_exists; exists x; split; [by apply list_elem_of_In|done]). congruence. }
  specialize (Hf a Ha). guards; naive_solver.
Qed.

Lemma grant_changed_intro actor scope connection target actions d w w' m t own :
  memberships d !! (scope, actor) = Some m → enabled d actor = true →
  memberships d !! (scope, target) = Some t → enabled d target = true →
  open_workspace d scope = true → Allows (mb_role m) "admin" = true →
  (mb_role m = "admin" → own = granted d scope connection actor) →
  grant_denied (mb_role m) (mb_role t) own actions = false →
  NoDup actions → (actions ≠ [] → "read" ∈ actions) → audit_only d w →
  actions ⊆ grant_classes ∧ is_Some (connection_in scope connection w) ∧
  w' = w <| connection_grants ::= <[(scope, connection, target) := actions]> |>
         <| workspaces ::= match workspaces w !! scope with
              | Some W => <[scope := W <| ws_policy_version := ws_policy_version W + 1 |>]>
              | None => id end |> →
  grant_changed actor scope connection target actions d w'.
Proof.
  intros Hm He Ht Het Hopen Hadm Hown [Hassign Hclasses]%grant_denied_false Hnd Hread [ae ->] (Hsub & Hc & ->).
  simpl in *. split; try done.
  - exists m, t. split_and!; try done. intros a Ha. destruct (Hclasses a Ha) as [? Hin].
    split; [done|]. intros Hr. rewrite <-Hown by done. auto.
  - simpl. unfold open_workspace in Hopen. destruct (workspaces d !! scope) as [W|]; [|done]. by exists W.
Qed.

Ltac grant_step :=
  lazymatch goal with |- wp (deny _ _ _ _ _ _) _ _ => apply deny_spec | _ => wp_step end.

Lemma SetGrant_spec actor scope connection target actions request d w e :
  wp (SetGrant actor scope connection target actions request)
     (grant_outcome actor scope connection target actions d) (Txs d w e).
Proof.
  unfold SetGrant, authority_failed. repeat grant_step. all: try solve [simpl; auto].
  all: destruct (grant_denied _ _ _ _) eqn:Hden; try done; simpl; subst; auto.
  all: try (right; right; split; [done|]).
  all: eapply grant_changed_intro; [eassumption..| | |eassumption|eassumption].
  all: guards; try done.
  all: intros Hne; destruct actions; try done.
Qed.
End grants.
