(* ===== verification/Recent.v ===== *)
(** [internal/identity/recent.go]: the recent-authentication gate. *)
From S2P Require Import Prelude GoBase Identifier.
Local Open Scope Z_scope.

(** [identity.Principal] *)
Record Principal := MkPrincipal {
  pr_UserID : uuid; pr_AuthenticatedAt : time; pr_CSRFHash : bytes; pr_Reauthenticated : bool }.

Definition recentAt (at_ now : time) : bool :=
  negb (at_ =? zero_time) && negb (After at_ now) && (now - at_ <? 5 * Minute).

Definition RequireRecent (p : Principal) (now : time) : go unit :=
  fail_if (negb (pr_Reauthenticated p) || negb (recentAt (pr_AuthenticatedAt p) now)) IdErrRecentRequired.

(** The gate opens only within five minutes of a verified
    re-authentication that is not in the future. *)
Theorem RequireRecent_spec p now :
  RequireRecent p now = Ok tt ↔
  pr_Reauthenticated p = true ∧ pr_AuthenticatedAt p ≠ zero_time ∧
  pr_AuthenticatedAt p <= now < pr_AuthenticatedAt p + 5 * Minute.
Proof.
  unfold RequireRecent, fail_if, recentAt, After.
  destruct (pr_Reauthenticated p); simpl; [|naive_solver].
  destruct (Z.eqb_spec (pr_AuthenticatedAt p) zero_time); simpl; [naive_solver|].
  destruct (Z.ltb_spec now (pr_AuthenticatedAt p)); simpl; [naive_solver lia|].
  destruct (Z.ltb_spec (now - pr_AuthenticatedAt p) (5 * Minute)); simpl; naive_solver lia.
Qed.
