(* ===== verification/Sessions.v ===== *)
(** [internal/identity]: opaque bearer tokens and server-side sessions
    ([sessions.go], [logout.go], [user.go] and the rotation of [recent.go]).
    The [now] the package is built with is the process clock. *)
From S2P Require Import Prelude GoBase Sha256 Base64 Identifier Roles Schema Tx TxLogic Wp AuditLog.
From S2P Require Import Membership Recent.
Local Open Scope Z_scope.

(** ** Tokens *)

Definition randomToken (err : error) : txm string :=
  n ← rand_read err; mret (EncodeToString (be_bytes 32 n)).

(** The digest a well-formed token is stored under. *)
Definition tokenDigest (token : string) : option bytes :=
  decoded ← DecodeString token;
  require ((length decoded =? 32)%nat && bool_decide (EncodeToString decoded = token)) ;;
  Some (Sum256 (string_bytes token)).

Definition digest_of (token : string) : bytes := default [] (tokenDigest token).

(** [subtle.ConstantTimeCompare(x, y) == 1] *)
Definition ValidCSRF (p : Principal) (raw : string) : bool :=
  match tokenDigest raw with
  | Some digest => bool_decide (digest = pr_CSRFHash p)
  | None => false
  end.

(** ** Sessions *)

Record SessionPolicy := MkSessionPolicy { sp_Idle : duration; sp_Absolute : duration }.

Definition DefaultSessionPolicy : SessionPolicy := MkSessionPolicy (30 * Minute) (12 * Hour).

(** [NewSessions], its pool and clock present. *)
Definition NewSessions (policy : SessionPolicy) : go SessionPolicy :=
  fail_if ((sp_Idle policy <? Second) || (sp_Absolute policy <? sp_Idle policy)
           || (24 * Hour <? sp_Idle policy) || (30 * Day <? sp_Absolute policy)) IdErrPolicy ;;
  Ok policy.

Definition CookieMaxAge (policy : SessionPolicy) : Z := sp_Absolute policy / Second.

(** The token and the CSRF token, returned to the browser once. *)
Record SessionCredential := MkSessionCredential { sc_Token : string; sc_CSRF : string }.

(** The CHECK constraints of [sessions]. *)
Definition session_check (digest : bytes) (s : session) : bool :=
  (length digest =? 32)%nat && (length (se_csrf s) =? 32)%nat
  && (se_created_at s <=? se_last_seen_at s) && (se_last_seen_at s <? se_absolute_expires_at s)
  && (se_idle_expires_at s <=? se_absolute_expires_at s).

(** [(SELECT workspace_id FROM memberships WHERE user_id=$2 ORDER BY workspace_id LIMIT 1)] *)
Definition first_workspace (user : uuid) (d : db) : option uuid :=
  head (merge_sort N.le ((λ '((w, _), _), w) <$> filter (λ '((_, u), _), u = user) (map_to_list (memberships d)))).

(** [INSERT INTO sessions ... SELECT ... FROM users WHERE id=$2 AND disabled_at IS NULL]:
    no row for an absent or disabled user, an error when no workspace audits it. *)
Definition insert_session (digest : bytes) (user : uuid) (csrf : bytes) (at_ now idle absolute : time) : sql unit :=
  λ _ d,
  if negb (enabled d user) then Some (tt, d)
  else
    w ← first_workspace user d;
    let s := Session user csrf at_ now now idle absolute w false in
    require (session_check digest s) ;;
    t ← insert_new digest s (sessions d);
    Some (tt, d <| sessions := t |>).

(** [DELETE FROM sessions WHERE token_digest=$1 AND p] *)
Definition delete_session (digest : bytes) (p : session → bool) : sql nat := λ _ d,
  match sessions d !! digest with
  | Some s => if p s then Some (1%nat, d <| sessions ::= delete digest |>) else Some (0%nat, d)
  | None => Some (0%nat, d)
  end.

Definition unexpired (now : time) (s : session) : bool :=
  (now <? se_idle_expires_at s) && (now <? se_absolute_expires_at s).

(** What [Resolve] makes of the row it finds. *)
Definition touched (now idle : time) (s : session) : session :=
  s <| se_last_seen_at := Z.max (se_last_seen_at s) now |>
    <| se_idle_expires_at := Z.min (se_absolute_expires_at s) (Z.max (se_idle_expires_at s) idle) |>.

Definition resolve_sql (digest : bytes) (now idle : time) : sql (option session) := λ _ d,
  match sessions d !! digest with
  | Some s =>
      if enabled d (se_user s) && unexpired now s then
        require (session_check digest (touched now idle s)) ;;
        Some (Some (touched now idle s), d <| sessions ::= <[digest := touched now idle s]> |>)
      else Some (None, d)
  | None => Some (None, d)
  end.

Definition mark_reauthenticated (digest : bytes) : sql unit := λ _ d,
  Some (tt, d <| sessions ::= alter (λ s, s <| se_reauthenticated := true |>) digest |>).

Section sessions.
Context `{U : UuidApi}.

(** [Sessions.Create], in the caller's transaction. *)
Definition Create_session (policy : SessionPolicy) (user : uuid) (authenticatedAt : time) (previous : string)
  : txm SessionCredential :=
  now ← go_now;
  reject_if (negb (is_ok (Parse (uuid_String user))) || After authenticatedAt now
             || (authenticatedAt =? zero_time)) IdErrUnauthenticated ;;
  token ← randomToken IdErrRandom;
  csrf ← randomToken IdErrRandom;
  match tokenDigest previous with
  | Some previousHash => exec IdErrStore (delete_session previousHash (λ s, bool_decide (se_user s = user))) ;; mret tt
  | None => mret tt
  end ;;
  exec IdErrStore (insert_session (digest_of token) user (digest_of csrf) authenticatedAt now
                     (now + sp_Idle policy) (now + sp_Absolute policy)) ;;
  present ← exec IdErrStore (rd (λ _ d, bool_decide (is_Some (sessions d !! digest_of token))));
  reject_if (negb present) IdErrUnauthenticated ;;
  mret (MkSessionCredential token csrf).

Definition Resolve_session (policy : SessionPolicy) (token : string) : txm Principal :=
  match tokenDigest token with
  | None => throw IdErrUnauthenticated
  | Some digest =>
      now ← go_now;
      s ← pool_row IdErrUnauthenticated IdErrStore (resolve_sql digest now (now + sp_Idle policy));
      mret (MkPrincipal (se_user s) (se_authenticated_at s) (se_csrf s) (se_reauthenticated s))
  end.

Definition Revoke (token : string) : txm unit :=
  match tokenDigest token with
  | None => mret tt
  | Some digest => pool_exec IdErrStore (delete_session digest (λ _, true)) ;; mret tt
  end.

(** [DELETE FROM sessions WHERE token_digest=$1 RETURNING user_id,audit_workspace_id] *)
Definition take_session (digest : bytes) : sql (option session) := λ _ d,
  match sessions d !! digest with
  | Some s => Some (Some s, d <| sessions ::= delete digest |>)
  | None => Some (None, d)
  end.

Definition Logout (token requestID : string) : txm unit :=
  match tokenDigest token with
  | None => mret tt
  | Some digest =>
      begin_tx IdErrStore ;;
      found ← exec IdErrStore (take_session digest);
      match found with
      | None => mret tt
      | Some s =>
          id ← NewID IdErrStore;
          or_fail IdErrStore
            (Append (MkEvent id (se_audit_workspace s) ActorUser (Some (se_user s)) "auth.logout" requestID ∅)) ;;
          commit IdErrStore ;;
          mret tt
      end
  end.

(** [RotateRecent], in the caller's transaction. *)
Definition RotateRecent (policy : SessionPolicy) (user : uuid) (at_ : time) (previous : string) (boundDigest : bytes)
  : txm SessionCredential :=
  now ← go_now;
  let digest := tokenDigest previous in
  reject_if (negb (bool_decide (digest = Some boundDigest)) || negb (recentAt at_ now)) IdErrUnauthenticated ;;
  now ← go_now;
  deleted ← exec IdErrStore (delete_session (default [] digest)
                               (λ s, bool_decide (se_user s = user) && unexpired now s));
  reject_if (negb (bool_decide (deleted = 1%nat))) IdErrUnauthenticated ;;
  credential ← Create_session policy user at_ "";
  exec IdErrStore (mark_reauthenticated (digest_of (sc_Token credential))) ;;
  mret credential.

Record UserView := MkUserView { uv_ID : uuid; uv_DisplayName : string }.

Definition CurrentUser (id : uuid) : txm UserView :=
  pool_row IdErrUnauthenticated IdErrStore (rd (λ _ d,
    u ← users d !! id; require (enabled d id) ;; Some (MkUserView id (us_display_name u)))).
End sessions.

(** [AuthenticationTime]: whether the issuer policy supports it, the ACR it
    requires, and the claims the verified token decodes to ([auth_time] and
    [acr]), which the OIDC library yields. *)
Definition Truncate (t unit : Z) : time := t - (t - zero_time) mod unit.

Definition AuthenticationTime (supported : bool) (acr : string) (claims : option (Z * string)) (started now : time)
  : go time :=
  fail_if (negb supported) IdErrReauthUnsupported ;;
  match claims with
  | None => Err IdErrRecentRequired
  | Some (authTime, tokenACR) =>
      fail_if ((authTime <=? 0) || negb (bool_decide (tokenACR = acr))) IdErrRecentRequired ;;
      let at_ := authTime * Second in
      fail_if (negb (recentAt at_ now) || (at_ <? Truncate started Second)) IdErrRecentRequired ;;
      Ok at_
  end.

(** ** [Cleanup] *)

(** What [ORDER BY key LIMIT limit] may select among the rows that qualify:
    rows with equal keys come in any order. *)
Definition selection {V} (p : bytes → V → bool) (key : V → Z) (limit : nat) (t : gmap bytes V) (l : list bytes) : bool :=
  bool_decide (NoDup l)
  && bool_decide (length l = limit `min` size (filter (λ '(k, v), p k v = true) t))%nat
  && forallb (λ k, match t !! k with
                   | Some v => p k v
                               && forallb (λ '(k', v'), negb (p k' v') || bool_decide (k' ∈ l) || (key v <=? key v'))
                                    (map_to_list t)
                   | None => false
                   end) l.

(** [DELETE FROM sessions WHERE token_digest IN (SELECT ... LIMIT $2)]; [l]
    is what the subquery selects. *)
Definition cleanup_sql (now : time) (limit : nat) (l : list bytes) : sql Z := λ _ d,
  require (selection (λ _ s, (se_idle_expires_at s <=? now) || (se_absolute_expires_at s <=? now))
             se_idle_expires_at limit (sessions d) l) ;;
  Some (Z.of_nat (length l), d <| sessions ::= filter (λ '(k, _), k ∉ l) |>).

Definition Cleanup (limit : Z) (l : list bytes) : txm Z :=
  reject_if ((limit <? 1) || (1000 <? limit)) IdErrCleanup ;;
  now ← go_now;
  pool_exec IdErrStore (cleanup_sql now (Z.to_nat limit) l).

(** ** What they did *)

Lemma tokenDigest_bytes raw : Forall (λ x, x < 256)%N raw → length raw = 32%nat →
  tokenDigest (EncodeToString raw) = Some (Sum256 (string_bytes (EncodeToString raw))).
Proof.
  intros Hs Hl. unfold tokenDigest. rewrite (DecodeString_bytes raw Hs). simpl.
  by rewrite Hl, bool_decide_eq_true_2.
Qed.

(** Tokens are canonical: [tokenDigest] accepts exactly the texts
    [randomToken] can make, the unpadded URL-safe base64 of 32 bytes, so that no
    second spelling (line breaks, stray bits of the last character, padding)
    names a session, and it maps each to the digest of the text itself. *)
Theorem tokenDigest_spec token digest :
  tokenDigest token = Some digest ↔
  digest = Sum256 (string_bytes token) ∧
  ∃ raw, Forall (λ x, x < 256)%N raw ∧ length raw = 32%nat ∧ token = EncodeToString raw.
Proof.
  split.
  - unfold tokenDigest. intros H. destruct (DecodeString token) as [raw|] eqn:Hd; [|done]. simpl in H.
    sql_inv H. guards. split; [done|]. exists raw.
    split_and!; [by eapply DecodeString_small|by apply Nat.eqb_eq|done].
  - intros (-> & raw & Hs & Hl & ->). by apply tokenDigest_bytes.
Qed.

(** What a program is told that asked [randomToken] for a token. *)
Definition fresh_token (token : string) : Prop := ∃ digest, tokenDigest token = Some digest.

#[export] Instance randomToken_spec err :
  TxSpec (randomToken err) (λ w err' w', w' = w ∧ err' = err) (λ w token w' _, w' = w ∧ fresh_token token).
Proof.
  intros d w e. unfold randomToken. repeat wp_step; simpl; [done|]. split_and!; [done..|].
  eexists. apply tokenDigest_bytes; [apply be_bytes_small|apply be_bytes_length].
Qed.

Lemma digest_of_fresh token : fresh_token token → tokenDigest token = Some (digest_of token).
Proof. unfold digest_of. by intros [? ->]. Qed.

(** The sessions left when the user's session under [previous] is dropped. *)
Definition without (user : uuid) (previous : string) (t : gmap bytes session) : gmap bytes session :=
  match tokenDigest previous with
  | Some digest => match t !! digest with
                   | Some s => if bool_decide (se_user s = user) then delete digest t else t
                   | None => t
                   end
  | None => t
  end.

Lemma delete_session_Some digest p now d n d' :
  delete_session digest p now d = Some (n, d') →
  d' = d <| sessions := match sessions d !! digest with
                        | Some s => if p s then delete digest (sessions d) else sessions d
                        | None => sessions d
                        end |> ∧
  (n = 1%nat → ∃ s, sessions d !! digest = Some s ∧ p s = true).
Proof.
  unfold delete_session. intros H. sql_inv H; simpl; (split; [by destruct d || by destruct d'|naive_solver]).
Qed.

(** The row [Create] inserts. *)
Definition new_session (policy : SessionPolicy) (user : uuid) (csrf : bytes) (at_ now : time) (w : uuid) : session :=
  Session user csrf at_ now now (now + sp_Idle policy) (now + sp_Absolute policy) w false.

(** A credential created in a transaction that began with [d]. *)
Record created (policy : SessionPolicy) (user : uuid) (at_ : time) (reauthenticated : bool)
  (kept : gmap bytes session) (d : db) (c : SessionCredential) (d' : db) (until : time) : Prop := {
  cr_user : enabled d user = true;
  cr_digest : tokenDigest (sc_Token c) = Some (digest_of (sc_Token c));
  cr_csrf : tokenDigest (sc_CSRF c) = Some (digest_of (sc_CSRF c));
  cr_row : ∃ now w, at_ <= now <= until ∧ first_workspace user d = Some w ∧
    let s := (new_session policy user (digest_of (sc_CSRF c)) at_ now w) <| se_reauthenticated := reauthenticated |> in
    session_check (digest_of (sc_Token c)) s = true ∧
    kept !! digest_of (sc_Token c) = None ∧
    d' = d <| sessions := <[digest_of (sc_Token c) := s]> kept |>;
}.
Section specs.
Context `{U : UuidApi}.

Lemma insert_session_Some digest user csrf at_ now idle absolute at0 d u d' :
  insert_session digest user csrf at_ now idle absolute at0 d = Some (u, d') → enabled d user = true →
  ∃ w, first_workspace user d = Some w ∧
    let s := Session user csrf at_ now now idle absolute w false in
    session_check digest s = true ∧ sessions d !! digest = None ∧
    d' = d <| sessions ::= <[digest := s]> |>.
Proof. unfold insert_session. intros H He. rewrite He in H. simpl in H. sql_inv H. eauto. Qed.

Lemma created_intro policy user at_ now kept d token csrf at0 u d' until :
  insert_session (digest_of token) user (digest_of csrf) at_ now (now + sp_Idle policy)
    (now + sp_Absolute policy) at0 (d <| sessions := kept |>) = Some (u, d') →
  enabled d user = true → fresh_token token → fresh_token csrf → at_ <= now <= until →
  created policy user at_ false kept d (MkSessionCredential token csrf) d' until.
Proof.
  intros H He Ht Hcs Hle. destruct (insert_session_Some _ _ _ _ _ _ _ _ _ _ _ H He) as (w & Hw & Hc & Hn & ->).
  split; [done|by apply digest_of_fresh..|]. exists now, w. split_and!; [lia|lia|exact Hw|]. intros s.
  split_and!; [exact Hc|exact Hn|reflexivity].
Qed.

(** For a disabled user no row is inserted: the credential names a session only
    if its random token collides with one that exists. *)
#[export] Instance Create_session_spec policy user at_ previous :
  TxSpec (Create_session policy user at_ previous) rolled_back
    (λ w c w' e', at_ ≠ zero_time ∧ (enabled w user = true →
       created policy user at_ false (without user previous (sessions w)) w c w' (en_clock e' + en_skew e'))).
Proof.
  intros d w e. unfold Create_session, without. repeat wp_step. all: try solve [tx_done].
  all: simpl; split_and!; [done|env_solve|by guards|]; intros He.
  all: assert (at_ <= en_clock e + en_skew e) by (unfold After in *; guards; lia).
  - match goal with H : delete_session _ _ _ _ = _ |- _ => apply delete_session_Some in H as [-> _] end.
    eapply created_intro; [eassumption|done..|unfold env_le in *; lia].
  - match goal with H : insert_session _ _ _ _ _ _ _ _ w = _ |- _ =>
      replace w with (w <| sessions := sessions w |>) in H by (by destruct w);
      eapply created_intro; [exact H|done..|unfold env_le in *; lia] end.
Qed.
#[export] Instance RotateRecent_spec policy user at_ previous bound :
  TxSpec (RotateRecent policy user at_ previous bound) rolled_back
    (λ w c w' e', enabled w user = true →
       tokenDigest previous = Some bound ∧
       (∃ s now, sessions w !! bound = Some s ∧ se_user s = user ∧ unexpired now s = true ∧ recentAt at_ now = true) ∧
       created policy user at_ true (delete bound (sessions w)) w c w' (en_clock e' + en_skew e')).
Proof.
  intros d w e. unfold RotateRecent. repeat wp_step. all: try solve [tx_done].
  simpl. split_and!; [done|env_solve|]. intros He. guards.
  match goal with H : delete_session _ _ _ _ = _ |- _ => apply delete_session_Some in H as [-> Hd] end.
  destruct Hd as (s & Hs & Hp); [done|].
  match goal with H : tokenDigest previous = _ |- _ => rewrite H in * end. simpl in *.
  rewrite Hs, Hp in *.
  match goal with H : _ → created _ _ _ _ _ _ _ _ _ |- _ => destruct (H He) as [_ Ht Hc (now & w1 & Hle & Hw & Hk & Hn & ->)] end.
  unfold without in *. simpl in *. guards.
  split_and!; [done|by exists s, (en_clock e + en_skew e)|].
  match goal with H : mark_reauthenticated _ _ _ = _ |- _ => unfold mark_reauthenticated in H; simplify_eq/= end.
  split; [done..|]. exists now, w1. unfold env_le in *. split_and!; [lia|lia|done..|].
  unfold set, set_sessions; simpl. by rewrite alter_insert_eq.
Qed.
End specs.

(** ** Resolution and revocation *)

(** What a session request that found a live session was told, and did. *)
Definition resolved (policy : SessionPolicy) (token : string) (now : time) (d : db) (p : Principal) (d' : db) : Prop :=
  ∃ digest s, tokenDigest token = Some digest ∧ sessions d !! digest = Some s ∧
    enabled d (se_user s) = true ∧ now < se_idle_expires_at s ∧ now < se_absolute_expires_at s ∧
    p = MkPrincipal (se_user s) (se_authenticated_at s) (se_csrf s) (se_reauthenticated s) ∧
    d' = d <| sessions ::= <[digest := touched now (now + sp_Idle policy) s]> |>.

Lemma resolve_sql_Some digest now idle at_ d r d' :
  resolve_sql digest now idle at_ d = Some (r, d') →
  match r with
  | None => d' = d
  | Some s' => ∃ s, sessions d !! digest = Some s ∧ enabled d (se_user s) = true ∧ unexpired now s = true ∧
                 s' = touched now idle s ∧ d' = d <| sessions ::= <[digest := s']> |>
  end.
Proof. unfold resolve_sql. intros H. sql_inv H; guards; eauto 10. Qed.

(** A session whose deadlines are in order stays so when it is used. *)
Lemma touched_check digest now idle s :
  session_check digest s = true → unexpired now s = true → session_check digest (touched now idle s) = true.
Proof.
  destruct s. unfold session_check, unexpired, touched, set; simpl.
  rewrite !andb_true_iff, !Z.leb_le, !Z.ltb_lt. intros. split_and!; try tauto; lia.
Qed.

Lemma resolved_intro policy token now digest s s' d d' :
  tokenDigest token = Some digest → sessions d !! digest = Some s → enabled d (se_user s) = true →
  unexpired now s = true → s' = touched now (now + sp_Idle policy) s →
  d' = d <| sessions ::= <[digest := s']> |> →
  resolved policy token now d
    (MkPrincipal (se_user s') (se_authenticated_at s') (se_csrf s') (se_reauthenticated s')) d'.
Proof.
  intros Ht Hs He Hu -> ->. unfold unexpired in Hu. guards. exists digest, s. by destruct s.
Qed.

Lemma Resolve_session_spec policy token d e :
  wp (Resolve_session policy token)
    (atomic IdErrStore (resolved policy token (en_clock e + en_skew e)) d) (Txs d d e).
Proof.
  unfold Resolve_session. repeat wp_step; simpl; auto.
  all: match goal with H : resolve_sql _ _ _ _ _ = Some (?r, _) |- _ => apply resolve_sql_Some in H end.
  - destruct a as [s'|]; [|by left]. wp_facts. right. split; [done|]. eexists. by eapply resolved_intro.
  - by left.
  - wp_facts. by eapply resolved_intro.
Qed.

(** Without faults every live session is recognised. *)
Lemma Resolve_live policy token d e digest s :
  let now := en_clock e + en_skew e in
  en_outcomes e = [] → tokenDigest token = Some digest → sessions d !! digest = Some s →
  session_check digest s = true → enabled d (se_user s) = true → unexpired now s = true →
  ∃ d', Resolve_session policy token (Txs d d e) =
    (Ok (MkPrincipal (se_user s) (se_authenticated_at s) (se_csrf s) (se_reauthenticated s)), Txs d' d' e).
Proof.
  intros now Hf Ht Hs Hc He Hu. subst now. unfold Resolve_session. rewrite Ht.
  unfold pool_row, scan, pool_stmt, mbind, txm_bind, go_now; simpl.
  unfold next_outcome. rewrite Hf. simpl. unfold resolve_sql. rewrite Hs, He, Hu. simpl.
  unfold require. rewrite touched_check by done. simpl. destruct s. by eexists.
Qed.

(** [Resolve] recognises a token exactly while its session is live: it
    returns the principal of the stored session of an enabled user before both
    deadlines, and slides the idle deadline without passing the absolute one; a
    refusal changes nothing, unless the statement's answer was lost; and
    without faults every live session is recognised. *)
Theorem Resolve_correct policy token d e :
  let now := en_clock e + en_skew e in
  let o := Resolve_session policy token (Txs d d e) in
  atomic IdErrStore (resolved policy token now) d o.1 o.2 ∧
  ∀ digest s, en_outcomes e = [] → tokenDigest token = Some digest → sessions d !! digest = Some s →
    session_check digest s = true → enabled d (se_user s) = true → unexpired now s = true →
    is_ok o.1 = true ∧ se_idle_expires_at (touched now (now + sp_Idle policy) s) <= se_absolute_expires_at s.
Proof.
  intros now o. split; [apply Resolve_session_spec|].
  intros digest s Hf Ht Hs Hc He Hu. split; [|destruct s; unfold touched, set; simpl; lia].
  unfold o. by destruct (Resolve_live policy token d e digest s) as [? ->].
Qed.

(** ** Logging out *)

(** What a logout did: the session is gone, with the event that records it. *)
Definition logged_out `{U : UuidApi} (token request : string) (d : db) (d' : db) : Prop :=
  match tokenDigest token with
  | None => d' = d
  | Some digest => sessions d' = delete digest (sessions d) ∧
      match sessions d !! digest with
      | None => d' = d
      | Some s => ∃ id now, audit_events d !! id = None ∧ audit_events d' = <[id :=
          AuditEvent (se_audit_workspace s) "user" (Some (se_user s)) "auth.logout" request ∅ now]> (audit_events d)
      end
  end.

Lemma Logout_spec `{U : UuidApi} token request d e :
  wp (Logout token request) (atomic IdErrStore (λ d _ d', logged_out token request d d') d) (Txs d d e).
Proof.
  unfold Logout, logged_out. destruct (tokenDigest token) as [digest|]; [|done].
  repeat wp_step. all: try solve [simpl; auto].
  all: match goal with H : take_session _ _ _ = _ |- _ => unfold take_session in H; sql_inv H end.
  - split; [done|]. eexists _, _. split; [done|]. reflexivity.
  - simpl. match goal with H : sessions _ !! _ = None |- _ => rewrite H end. by rewrite delete_id.
Qed.

(** Logging out is final: once [Logout] has succeeded the token's session
    is deleted together with the event that records it, and neither [Resolve]
    nor a reauthentication accepts the token, whatever the clock and whatever
    the policy; an error leaves the session as it was, unless the outcome of
    the COMMIT is unknown. *)
Theorem Logout_final `{U : UuidApi} token request d e :
  let o := Logout token request (Txs d d e) in
  atomic IdErrStore (λ d _ d', logged_out token request d d') d o.1 o.2 ∧
  (o.1 = Ok tt → ∀ d' policy e' user at_ bound, sessions d' ⊆ sessions (tx_db o.2) →
     is_ok (Resolve_session policy token (Txs d' d' e')).1 = false ∧
     (enabled d' user = true → is_ok (RotateRecent policy user at_ token bound (Txs d' d' e')).1 = false)).
Proof.
  intros o. pose proof (Logout_spec token request d e) as Hw. split; [exact Hw|].
  intros Ho d' policy e' user at_ bound Hsub. unfold wp in Hw. fold o in Hw. rewrite Ho in Hw. simpl in Hw.
  assert (∀ digest, tokenDigest token = Some digest → sessions d' !! digest = None) as Hgone.
  { intros digest Ht. unfold logged_out in Hw. rewrite Ht in Hw. destruct Hw as [Hs _].
    eapply lookup_weaken_None; [|done]. by rewrite Hs, lookup_delete_eq. }
  split.
  - pose proof (Resolve_session_spec policy token d' e') as Hr. unfold wp in Hr.
    destruct (Resolve_session _ _ _).1; [|done]. simpl in Hr. destruct Hr as (digest & s & Ht & Hs & _).
    rewrite (Hgone _ Ht) in Hs. done.
  - intros He. pose proof (tx_spec (m := RotateRecent policy user at_ token bound) d' d' e') as Hr. unfold wp in Hr.
    destruct (RotateRecent _ _ _ _ _ _).1; [|done]. destruct Hr as (_ & _ & Hr).
    destruct (Hr He) as (Ht & (s & now & Hs & _) & _). rewrite (Hgone _ Ht) in Hs. done.
Qed.
