(* ===== verification/Challenges.v ===== *)
(** [internal/identity/challenges.go]: the login challenges that bind an OIDC
    round trip to the browser that began it, and the budget that limits them. *)
From S2P Require Import Prelude GoBase Sha256 Base64 Identifier Schema Tx TxLogic Wp Sessions.
Local Open Scope Z_scope.

Record Challenge := MkChallenge {
  ch_State : string; ch_Browser : string; ch_Nonce : string; ch_Verifier : string;
  ch_InvitationDigest : option bytes; ch_SessionDigest : option bytes; ch_StartedAt : time }.

(** [login_initiation_budget] at [now]: the row [INSERT ... ON CONFLICT DO UPDATE
    ... WHERE ... RETURNING] leaves, or none when the window is used up. *)
Definition spend (b : option login_budget) (now : time) : option login_budget :=
  match b with
  | None => Some (LoginBudget now 1)
  | Some b =>
      if lb_window_started_at b <=? now - Minute then Some (LoginBudget now 1)
      else if lb_issued b <? 30 then Some (LoginBudget (lb_window_started_at b) (lb_issued b + 1))
      else None
  end.

Definition spend_sql (now : time) : sql (option Z) := λ _ d,
  match spend (login_initiation_budget d) now with
  | Some b => require (lb_issued b <=? 30) ;;
              Some (Some (lb_issued b), d <| login_initiation_budget := Some b |>)
  | None => Some (None, d)
  end.

(** [DELETE FROM login_challenges WHERE state_digest IN (SELECT ... LIMIT 100)];
    [l] is what the subquery selects. *)
Definition drop_expired (now : time) (l : list bytes) : sql unit := λ _ d,
  require (selection (λ _ c, lc_expires_at c <=? now) lc_expires_at 100 (login_challenges d) l) ;;
  Some (tt, d <| login_challenges ::= filter (λ '(k, _), k ∉ l) |>).

(** The CHECK constraints of [login_challenges]. *)
Definition challenge_check (digest : bytes) (c : login_challenge) : bool :=
  let digest_ok o := match o with Some b => (length b =? 32)%nat | None => true end in
  (length digest =? 32)%nat && (length (lc_browser c) =? 32)%nat
  && (RuneCountInString (lc_nonce c) =? 43) && (RuneCountInString (lc_verifier c) =? 43)
  && (lc_created_at c <? lc_expires_at c)
  && digest_ok (lc_invitation c) && digest_ok (lc_session c)
  && (bool_decide (lc_session c = None) || bool_decide (lc_invitation c = None)).

Definition insert_challenge (digest : bytes) (c : login_challenge) : sql unit := λ _ d,
  require (challenge_check digest c) ;;
  t ← insert_new digest c (login_challenges d);
  Some (tt, d <| login_challenges := t |>).

(** [start]; [locked] is whether [pg_try_advisory_xact_lock(891014)] succeeds
    and [l] the expired challenges the clean-up selects. *)
Definition start (locked : bool) (l : list bytes) (invitation session : option bytes) : txm Challenge :=
  state ← randomToken IdErrRandom;
  browser ← randomToken IdErrRandom;
  nonce ← randomToken IdErrRandom;
  verifier ← randomToken IdErrRandom;
  begin_tx IdErrStore ;;
  locked ← exec IdErrStore (rd (λ _ _, locked));
  reject_if (negb locked) IdErrRateLimited ;;
  now ← go_now;
  exec IdErrStore (drop_expired now l) ;;
  query_row IdErrRateLimited IdErrStore (spend_sql now) ;;
  total ← exec IdErrStore (rd (λ _ d, Z.of_nat (size (login_challenges d))));
  reject_if (1000 <=? total) IdErrRateLimited ;;
  exec IdErrStore (insert_challenge (digest_of state)
    (LoginChallenge (digest_of browser) nonce verifier now (now + 5 * Minute) invitation session)) ;;
  commit IdErrStore ;;
  mret (MkChallenge state browser nonce verifier None None zero_time).

Definition Start (locked : bool) (l : list bytes) : txm Challenge := start locked l None None.

Definition StartInvitation (locked : bool) (l : list bytes) (proof : string) : txm Challenge :=
  match tokenDigest proof with
  | None => throw IdErrUnauthenticated
  | Some digest => start locked l (Some digest) None
  end.

Definition StartReauthentication (locked : bool) (l : list bytes) (token : string) : txm Challenge :=
  match tokenDigest token with
  | None => throw IdErrUnauthenticated
  | Some digest => start locked l None (Some digest)
  end.

(** [DELETE FROM login_challenges WHERE state_digest=$1 AND browser_digest=$2 AND expires_at>$3 RETURNING ...] *)
Definition take_challenge (state browser : bytes) (now : time) : sql (option login_challenge) := λ _ d,
  match login_challenges d !! state with
  | Some c =>
      if bool_decide (lc_browser c = browser) && (now <? lc_expires_at c)
      then Some (Some c, d <| login_challenges ::= delete state |>) else Some (None, d)
  | None => Some (None, d)
  end.

Definition Consume (state browser : string) : txm Challenge :=
  match tokenDigest state, tokenDigest browser with
  | Some stateHash, Some browserHash =>
      now ← go_now;
      c ← pool_row IdErrUnauthenticated IdErrStore (take_challenge stateHash browserHash now);
      mret (MkChallenge "" "" (lc_nonce c) (lc_verifier c) (lc_invitation c) (lc_session c) (lc_created_at c))
  | _, _ => throw IdErrUnauthenticated
  end.

(** ** The limit *)

(** The instants at which challenges are issued, of those at which one is asked for. *)
Fixpoint issued (b : option login_budget) (asked : list time) : list time :=
  match asked with
  | [] => []
  | t :: r => match spend b t with Some b' => t :: issued (Some b') r | None => issued b r end
  end.

Fixpoint nondecreasing (from : time) (l : list time) : Prop :=
  match l with [] => True | t :: r => from <= t ∧ nondecreasing t r end.

Lemma issued_from b asked from j u :
  nondecreasing from asked → issued b asked !! j = Some u → from <= u.
Proof.
  intros Ho Hj%list_elem_of_lookup_2. revert b from Ho Hj.
  induction asked as [|a r IH]; intros b from Ho; simpl; [by intros ?%not_elem_of_nil|].
  destruct Ho as [Ha Ho]. assert (∀ b, u ∈ issued b r → from <= u) as Hr.
  { intros b' ?%(IH b' a Ho). lia. }
  destruct (spend b a); [|apply Hr]. intros [->|H]%elem_of_cons; [done|by eapply Hr].
Qed.

(** The issues a window's budget leaves are made before its minute is over. *)
Lemma issued_window w n asked from j u :
  nondecreasing from asked → n <= 30 → issued (Some (LoginBudget w n)) asked !! j = Some u →
  30 - n <= Z.of_nat j → w + Minute <= u.
Proof.
  revert n from j. induction asked as [|a r IH]; intros n from j Ho Hn; simpl; [done|].
  destruct Ho as [_ Ho]. unfold spend; simpl. destruct (Z.leb_spec w (a - Minute)).
  - destruct j as [|j]; simpl; [intros; simplify_eq; lia|]. intros ?%(issued_from _ _ a); [lia|done].
  - destruct (Z.ltb_spec n 30); [|by eauto].
    destruct j as [|j]; simpl; [lia|]. intros. eapply IH; [done| |done|]; lia.
Qed.

(** ... and those of it and the next window before a minute from now is over. *)
Lemma issued_two_windows w n asked from j u :
  nondecreasing from asked → n <= 30 → issued (Some (LoginBudget w n)) asked !! j = Some u →
  60 - n <= Z.of_nat j → from + Minute <= u.
Proof.
  revert n from j. induction asked as [|a r IH]; intros n from j Ho Hn; simpl; [done|].
  destruct Ho as [Ha Ho]. unfold spend; simpl. destruct (Z.leb_spec w (a - Minute)).
  - destruct j as [|j]; simpl; [lia|]. intros Hj ?.
    eapply issued_window in Hj; [lia|done|done|lia].
  - destruct (Z.ltb_spec n 30).
    + destruct j as [|j]; simpl; [lia|]. intros Hj ?. eapply (IH _ a) in Hj; [|done|..]; lia.
    + intros Hj ?. eapply (IH _ a) in Hj; [|done..]. lia.
Qed.

Definition budget_ok (b : option login_budget) : Prop :=
  match b with Some b => 1 <= lb_issued b <= 30 | None => True end.

(** The installation-wide limit on login initiation: every budget row the
    statement leaves is within 30, the issues of one window are at most 30, and
    any 60 consecutive issues span at least a minute, whenever the requests
    come.  Across the boundary of two windows the 59 this leaves are reached
    ([boundary_burst]). *)
Theorem login_rate b from asked i t u :
  budget_ok b → nondecreasing from asked →
  issued b asked !! i = Some t → issued b asked !! (i + 59)%nat = Some u →
  t + Minute <= u ∧ ∀ now b', spend b now = Some b' → budget_ok (Some b').
Proof.
  intros Hb Ho Ht Hu. split.
  - clear -Hb Ho Ht Hu. revert b from i Hb Ho Ht Hu.
    induction asked as [|a r IH]; intros b from i Hb Ho; simpl; [done|]. destruct Ho as [Ha Ho].
    destruct (spend b a) as [[w n]|] eqn:Hs; [|by eapply IH].
    assert (1 <= n <= 30 ∧ (n = 1 → w = a)) as [Hn Hw].
    { revert Hs. unfold spend. destruct b as [[w0 n0]|]; simpl in *; [|naive_solver lia].
      destruct (Z.leb_spec w0 (a - Minute)); [naive_solver lia|].
      destruct (Z.ltb_spec n0 30); intros; simplify_eq; lia. }
    destruct i as [|i]; simpl; [|by apply (IH (Some _) a)].
    intros; simplify_eq. destruct (decide (n = 1)) as [->|].
    + rewrite Hw in * by done. eapply issued_window; [done| |done|]; lia.
    + eapply issued_two_windows; [done| |done|]; lia.
  - intros now b'. unfold spend. destruct b as [[w0 n0]|]; simpl in *; [|intros; simplify_eq; simpl; lia].
    destruct (_ <=? _); [intros; simplify_eq; simpl; lia|].
    destruct (Z.ltb_spec n0 30); intros; simplify_eq; simpl; lia.
Qed.

Definition burst : list time :=
  0 :: repeat (59 * Second) 29 ++ repeat (60 * Second) 40.

Lemma login_rate_witness :
  59 * Second + Minute <= 120 * Second ∧ ∀ now b', spend None now = Some b' → budget_ok (Some b').
Proof.
  apply (login_rate None 0 (burst ++ repeat (120 * Second) 30) 1); [done| |reflexivity|reflexivity].
  vm_compute. by repeat split.
Defined.

(** 59 challenges within one second, where [Start] documents 30 a minute. *)
Theorem boundary_burst :
  length (filter (λ t, 59 * Second <= t <= 60 * Second) (issued None burst)) = 59%nat.
Proof. vm_compute. reflexivity. Qed.

(** ** Single use *)

(** What the consumption of a challenge found, returned and did. *)
Definition consumed (state browser : string) (now : time) (d : db) (c : Challenge) (d' : db) : Prop :=
  ∃ stateHash r, tokenDigest state = Some stateHash ∧ login_challenges d !! stateHash = Some r ∧
    tokenDigest browser = Some (lc_browser r) ∧ now < lc_expires_at r ∧
    c = MkChallenge "" "" (lc_nonce r) (lc_verifier r) (lc_invitation r) (lc_session r) (lc_created_at r) ∧
    d' = d <| login_challenges ::= delete stateHash |>.

Lemma take_challenge_Some state browser now at_ d r d' :
  take_challenge state browser now at_ d = Some (r, d') →
  match r with
  | Some c => login_challenges d !! state = Some c ∧ lc_browser c = browser ∧ now < lc_expires_at c ∧
              d' = d <| login_challenges ::= delete state |>
  | None => d' = d
  end.
Proof. unfold take_challenge. intros H. sql_inv H; guards; done. Qed.

Lemma Consume_spec state browser d e :
  wp (Consume state browser) (atomic IdErrStore (consumed state browser (en_clock e + en_skew e)) d) (Txs d d e).
Proof.
  unfold Consume, consumed. repeat wp_step; simpl; auto.
  all: match goal with H : take_challenge _ _ _ _ _ = Some (?r, _) |- _ => apply take_challenge_Some in H end.
  - destruct a as [c|]; [|by left]. wp_facts. right. split; [done|]. eexists _, _, _. by split_and!.
  - by left.
  - wp_facts. eexists _, _. by split_and!.
Qed.

(** A login challenge is used at most once, by the browser that began it:
    [Consume] answers only with the unexpired challenge stored under this state
    for this browser cookie, and deletes it before the code exchange, so that
    whatever becomes of the login no later call accepts the state again; a
    refusal changes nothing, unless the statement's answer was lost, and then
    the challenge may be spent. *)
Theorem Consume_correct state browser d e :
  let o := Consume state browser (Txs d d e) in
  atomic IdErrStore (consumed state browser (en_clock e + en_skew e)) d o.1 o.2 ∧
  (is_ok o.1 = true → ∀ d' browser' e', login_challenges d' ⊆ login_challenges (tx_db o.2) →
     is_ok (Consume state browser' (Txs d' d' e')).1 = false).
Proof.
  intros o. pose proof (Consume_spec state browser d e) as Hw. split; [exact Hw|].
  intros Ho d' browser' e' Hsub. unfold wp in Hw. fold o in Hw. destruct o.1 as [c|]; [|done].
  destruct Hw as (h & r & Hh & Hr & _ & _ & _ & Hd).
  pose proof (Consume_spec state browser' d' e') as Hc. unfold wp in Hc.
  destruct (Consume _ _ _).1; [|done]. destruct Hc as (h' & r' & Hh' & Hr' & _). simplify_eq.
  eapply lookup_weaken in Hr'; [|done]. rewrite Hd in Hr'. simpl in Hr'. by rewrite lookup_delete_eq in Hr'.
Qed.

(** ** Starting *)

(** What a started challenge is: its row, bound to the digests of the state and
    of the browser cookie, within the budget and the stored maximum. *)
Record challenge_started (invitation session : option bytes) (d : db) (c : Challenge) (d' : db) : Prop := {
  st_tokens : fresh_token (ch_State c) ∧ fresh_token (ch_Browser c);
  st_row : ∃ now, login_challenges d' !! digest_of (ch_State c) =
    Some (LoginChallenge (digest_of (ch_Browser c)) (ch_Nonce c) (ch_Verifier c) now (now + 5 * Minute)
            invitation session) ∧ spend (login_initiation_budget d) now = login_initiation_budget d';
  st_total : (size (login_challenges d') <= 1000)%nat;
  st_frame : ∃ l b, d' = d <| login_challenges := l |> <| login_initiation_budget := b |>;
}.

Lemma spend_sql_Some now at_ d n d' : spend_sql now at_ d = Some (Some n, d') →
  ∃ b, spend (login_initiation_budget d) now = Some b ∧ d' = d <| login_initiation_budget := Some b |>.
Proof. unfold spend_sql. intros H. sql_inv H. eauto. Qed.

Lemma start_spec locked l invitation session d e :
  wp (start locked l invitation session)
     (atomic IdErrStore (challenge_started invitation session) d) (Txs d d e).
Proof.
  unfold start. repeat wp_step. all: try solve [simpl; auto].
  match goal with H : drop_expired _ _ _ _ = _ |- _ => unfold drop_expired in H; sql_inv H end.
  match goal with H : spend_sql _ _ _ = _ |- _ => apply spend_sql_Some in H as (b & Hb & ->) end.
  match goal with H : insert_challenge _ _ _ _ = _ |- _ => unfold insert_challenge in H; sql_inv H end.
  guards. simpl in *. split; simpl; [done| | |].
  - eexists. rewrite lookup_insert_eq. split; [done|]. exact Hb.
  - rewrite map_size_insert_None by done. lia.
  - by eexists _, _.
Qed.
