(* ===== verification/Invitations.v ===== *)
(** [internal/workspace/invitations.go] and [redeem_invitation.go]: invitations
    bound to one exact identity, issued by a member and redeemed inside the
    transaction that signs the invited identity in. *)
From S2P Require Import Prelude GoBase Sha256 Base64 Identifier Roles Schema Tx TxLogic Wp AuditLog.
From S2P Require Import Membership.
Local Open Scope Z_scope.

Definition InvitationDigest (proof : string) : option bytes :=
  raw ← DecodeString proof;
  require ((length raw =? 32)%nat && bool_decide (EncodeToString raw = proof)) ;;
  Some (Sum256 (string_bytes proof)).

(** [DELETE FROM invitations WHERE workspace_id=$1 AND expires_at<=$2] *)
Definition expire_invitations (scope : uuid) (now : time) : sql unit := λ _ d,
  Some (tt, d <| invitations ::= filter (λ '(_, i), ¬ (iv_workspace i = scope ∧ iv_expires_at i <= now)) |>).

Definition count_invitations (scope : uuid) (d : db) : Z :=
  count_where (λ _ i, bool_decide (iv_workspace i = scope)) (invitations d).

(** The CHECK constraints of [invitations]. *)
Definition invitation_check (digest : bytes) (i : invitation) : bool :=
  (length digest =? 32)%nat && (0 <? iv_inviter_version i)
  && (1 <=? RuneCountInString (iv_issuer i)) && (RuneCountInString (iv_issuer i) <=? 2048)
  && (1 <=? RuneCountInString (iv_subject i)) && (RuneCountInString (iv_subject i) <=? 255)
  && bool_decide (known_role (iv_role i)).

Definition insert_invitation (digest : bytes) (i : invitation) : sql unit := λ _ d,
  require (invitation_check digest i) ;;
  require (bool_decide (is_Some (workspaces d !! iv_workspace i))
           && bool_decide (is_Some (users d !! iv_inviter i))) ;;
  t ← insert_new digest i (invitations d);
  Some (tt, d <| invitations := t |>).

(** The invitation [digest] proves, addressed to this identity and unexpired. *)
Definition invitation_row (digest : bytes) (issuer subject : string) (now : time) : time → db → option invitation :=
  λ _ d,
  i ← invitations d !! digest;
  require (bool_decide (iv_issuer i = issuer) && bool_decide (iv_subject i = subject) && (now <? iv_expires_at i)) ;;
  Some i.

(** [DELETE FROM invitations WHERE token_digest=$1 AND expires_at>$2] *)
Definition take_invitation (digest : bytes) (now : time) : sql nat := λ _ d,
  match invitations d !! digest with
  | Some i => if now <? iv_expires_at i then Some (1%nat, d <| invitations ::= delete digest |>) else Some (0%nat, d)
  | None => Some (0%nat, d)
  end.

(** [INSERT INTO memberships ... ON CONFLICT DO NOTHING] *)
Definition admit_member (scope user : uuid) (m : membership) : sql nat := λ _ d,
  require (bool_decide (is_Some (workspaces d !! scope)) && bool_decide (is_Some (users d !! user))) ;;
  require (membership_check m) ;;
  match memberships d !! (scope, user) with
  | Some _ => Some (0%nat, d)
  | None => Some (1%nat, d <| memberships ::= <[(scope, user) := m]> |>)
  end.

Section invitations.
Context `{U : UuidApi}.

Definition IssueInvitation (actor scope : uuid) (issuer subject role request : string) (now : time) : txm string :=
  reject_if ((len issuer =? 0) || (2048 <? len issuer) || (len subject =? 0) || (255 <? len subject)
             || negb (Allows role "viewer")) WsErrInvalid ;;
  raw ← rand_read WsErrStore;
  let proof := EncodeToString (be_bytes 32 raw) in
  let digest := default [] (InvitationDigest proof) in
  begin_tx WsErrStore ;;
  caller ← LockAuthority actor scope;
  reject_if (negb (CanAssign (mb_role caller) role)) WsErrDenied ;;
  exec WsErrStore (expire_invitations scope now) ;;
  count ← exec WsErrStore (rd (λ _ d, count_invitations scope d));
  reject_if (100 <=? count) WsErrLimit ;;
  exec WsErrStore (insert_invitation digest
    (Invitation scope actor (mb_version caller) issuer subject role (now + 24 * Hour))) ;;
  id ← NewID WsErrStore;
  or_fail WsErrStore
    (Append (MkEvent id scope ActorUser (Some actor) "invitation.created" request {["role" := role]})) ;;
  commit WsErrStore ;;
  mret proof.

(** [RedeemInvitation], in the caller's transaction. *)
Definition RedeemInvitation (digest : bytes) (issuer subject request : string) (now : time) : txm unit :=
  i ← query_row WsErrDenied WsErrStore (rd (invitation_row digest issuer subject now));
  let scope := iv_workspace i in
  let inviter := iv_inviter i in
  let role := iv_role i in
  caller ← LockAuthority inviter scope;
  reject_if (negb (mb_version caller =? iv_inviter_version i) || negb (CanAssign (mb_role caller) role))
    WsErrDenied ;;
  removed ← exec WsErrStore (take_invitation digest now);
  reject_if (negb (bool_decide (removed = 1%nat))) WsErrDenied ;;
  id ← new_id WsErrStore;
  exec WsErrStore (insert_user id issuer subject) ;;
  user ← query_row WsErrDenied WsErrDenied (rd (identity_row issuer subject));
  revision ← query_row WsErrStore WsErrStore (bump_policy scope);
  inserted ← exec WsErrStore (admit_member scope user (Membership role revision));
  reject_if (negb (bool_decide (inserted = 1%nat))) WsErrConflict ;;
  invalidateElevation user "" role ;;
  memberAudit inviter scope user role request.
End invitations.

(** ** What they did *)

Lemma elevated_new role : known_role role → elevated "" role = true.
Proof.
  intros Hk. unfold elevated. apply andb_true_iff. split.
  - apply negb_true_iff, bool_decide_eq_false. by intros ->; destruct Hk as [|[|[]]].
  - apply negb_true_iff, not_true_iff_false. rewrite Allows_spec. apply ranks_known in Hk.
    change (ranks "") with 0. lia.
Qed.

(** An inviter whose authority is what it was when the invitation was issued. *)
Definition still_authorised (d : db) (i : invitation) : Prop :=
  open_workspace d (iv_workspace i) = true ∧ enabled d (iv_inviter i) = true ∧
  ∃ m, memberships d !! (iv_workspace i, iv_inviter i) = Some m ∧ mb_version m = iv_inviter_version i ∧
    CanAssign (mb_role m) (iv_role i) = true.

(** Everything a committed redemption did. *)
Record redeemed (digest : bytes) (issuer subject : string) (now : time) (d d' : db) : Prop := {
  rd_invitation : ∃ i, invitations d !! digest = Some i ∧
    iv_issuer i = issuer ∧ iv_subject i = subject ∧ now < iv_expires_at i ∧ still_authorised d i ∧
    ∃ W user u, workspaces d !! iv_workspace i = Some W ∧
      workspaces d' = <[iv_workspace i := W <| ws_policy_version := ws_policy_version W + 1 |>]> (workspaces d) ∧
      users d' !! user = Some u ∧ us_issuer u = issuer ∧ us_subject u = subject ∧ us_disabled_at u = None ∧
      memberships d !! (iv_workspace i, user) = None ∧
      memberships d' =
        <[(iv_workspace i, user) := Membership (iv_role i) (ws_policy_version W + 1)]> (memberships d) ∧
      sessions d' = filter (λ '(_, s), se_user s ≠ user) (sessions d);
  rd_used : invitations d' = delete digest (invitations d);
  rd_frame : connection_grants d' = connection_grants d ∧ login_challenges d' = login_challenges d ∧
    ∀ k u, users d !! k = Some u → users d' !! k = Some u;
}.

Lemma take_invitation_Some digest now at_ d n d' :
  take_invitation digest now at_ d = Some (n, d') → n = 1%nat →
  d' = d <| invitations ::= delete digest |>.
Proof. unfold take_invitation. intros H ->. sql_inv H; done. Qed.

Lemma admit_member_Some scope user m now d n d' :
  admit_member scope user m now d = Some (n, d') → n = 1%nat →
  memberships d !! (scope, user) = None ∧ known_role (mb_role m) ∧
  d' = d <| memberships ::= <[(scope, user) := m]> |>.
Proof.
  unfold admit_member. intros H ->. sql_inv H. by apply membership_check_true in Hq0 as [? _].
Qed.

Lemma invitation_row_Some digest issuer subject now at_ d i :
  invitation_row digest issuer subject now at_ d = Some i →
  invitations d !! digest = Some i ∧ iv_issuer i = issuer ∧ iv_subject i = subject ∧ now < iv_expires_at i.
Proof. unfold invitation_row. intros H. sql_inv H. guards. done. Qed.

Section specs.
Context `{U : UuidApi}.

#[export] Instance RedeemInvitation_spec digest issuer subject request now :
  TxSpec (RedeemInvitation digest issuer subject request now) rolled_back
    (λ w _ w' _, redeemed digest issuer subject now w w').
Proof.
  intros d w e. unfold RedeemInvitation. wp_run by tx_done.
  simpl. split_and!; [done|env_solve|]. guards.
  destruct (invitation_row_Some _ _ _ _ _ _ _ ltac:(eassumption)) as (Hi & His & Hsu & Hex).
  match goal with H : take_invitation _ _ _ _ = _ |- _ => apply take_invitation_Some in H as ->; [|done] end.
  destruct (insert_user_Some _ _ _ _ _ _ _ ltac:(eassumption)) as (t & -> & Hext).
  destruct (identity_row_Some _ _ _ _ _ ltac:(eassumption)) as (r & Hu & Hui & Hus & Hud).
  destruct (bump_policy_Some _ _ _ _ _ ltac:(eassumption)) as (W & HW & -> & _ & ->).
  destruct (admit_member_Some _ _ _ _ _ _ _ ltac:(eassumption) ltac:(done)) as (Hn & Hk & ->).
  rewrite elevated_new in * by done. simpl in *.
  match goal with H : audit_only _ _ |- _ => destruct H as [ta ->] end.
  split; simpl; [|done|done].
  exists a. split_and!; try done; [by split_and!; [..|eexists]|]. by exists W, a3, r.
Qed.

(** Everything a committed [IssueInvitation] did. *)
Record issued_invitation (actor scope : uuid) (issuer subject role : string) (now : time) (d : db)
  (proof : string) (d' : db) : Prop := {
  ii_actor : open_workspace d scope = true ∧ enabled d actor = true ∧
    ∃ m, memberships d !! (scope, actor) = Some m ∧ CanAssign (mb_role m) role = true ∧
    let i := Invitation scope actor (mb_version m) issuer subject role (now + 24 * Hour) in
    ∃ digest, InvitationDigest proof = Some digest ∧ invitations d' !! digest = Some i ∧
      (∀ k j, k ≠ digest → invitations d' !! k = Some j ↔
         invitations d !! k = Some j ∧ ¬ (iv_workspace j = scope ∧ iv_expires_at j <= now));
  ii_limit : count_invitations scope d' <= 100;
  ii_frame : ∃ ti ta, d' = d <| invitations := ti |> <| audit_events := ta |>;
}.

Lemma InvitationDigest_bytes raw : Forall (λ x, x < 256)%N raw → length raw = 32%nat →
  InvitationDigest (EncodeToString raw) = Some (Sum256 (string_bytes (EncodeToString raw))).
Proof.
  intros Hs Hl. unfold InvitationDigest. rewrite (DecodeString_bytes raw Hs). simpl.
  by rewrite Hl, bool_decide_eq_true_2.
Qed.

Lemma InvitationDigest_random n : ∃ digest,
  InvitationDigest (EncodeToString (be_bytes 32 n)) = Some digest ∧ length digest = 32%nat.
Proof.
  eexists. split; [apply InvitationDigest_bytes; [apply be_bytes_small|apply be_bytes_length]|].
  apply Sum256_length.
Qed.

Lemma insert_invitation_Some digest i now d u d' :
  insert_invitation digest i now d = Some (u, d') →
  invitations d !! digest = None ∧ d' = d <| invitations ::= <[digest := i]> |>.
Proof. unfold insert_invitation. intros H. sql_inv H. done. Qed.

Lemma count_insert `{Countable K} {V} (p : K → V → bool) (m : gmap K V) k v :
  count_where p (<[k := v]> m) <= count_where p m + 1.
Proof.
  unfold count_where. destruct (p k v) eqn:Hp.
  - rewrite map_filter_insert_True by done. rewrite map_size_insert. destruct (_ !! k); simpl; lia.
  - rewrite map_filter_insert_False by (by rewrite Hp).
    assert (size (filter (λ '(k, v), p k v = true) (delete k m))
            <= size (filter (λ '(k, v), p k v = true) m))%nat; [|lia].
    apply map_subseteq_size, map_filter_subseteq_mono, delete_subseteq.
Qed.

Lemma IssueInvitation_spec actor scope issuer subject role request now d e :
  wp (IssueInvitation actor scope issuer subject role request now)
     (atomic WsErrStore (issued_invitation actor scope issuer subject role now) d) (Txs d d e).
Proof.
  unfold IssueInvitation. repeat wp_step. all: try solve [simpl; auto].
  match goal with |- issued_invitation _ _ _ _ _ _ _ (EncodeToString (be_bytes 32 ?n)) _ =>
    destruct (InvitationDigest_random n) as (digest & Hd & _) end.
  rewrite Hd in *. simpl in *. guards.
  match goal with H : expire_invitations _ _ _ _ = _ |- _ => unfold expire_invitations in H; simplify_eq end.
  match goal with H : insert_invitation _ _ _ _ = _ |- _ => apply insert_invitation_Some in H as [Hnew ->] end.
  simpl in *. split; simpl.
  - split_and!; [done..|]. eexists. split_and!; [done|done|]. exists digest.
    split_and!; [done|by rewrite lookup_insert_eq|]. intros k j Hk. rewrite lookup_insert_ne by done.
    rewrite map_lookup_filter_Some. done.
  - unfold count_invitations in *. simpl in *.
    match goal with |- count_where ?p (<[?k := ?v]> ?m) <= _ => pose proof (count_insert p m k v) end. lia.
  - by eexists _, _.
Qed.

(** Only an admin or owner who may assign the role issues an invitation; it
    is bound to one exact issuer and subject, to the inviter's current
    membership version and to the digest of a proof returned once, it expires
    after a day, no live invitation of any workspace is lost, and a workspace
    never holds more than a hundred. *)
Theorem IssueInvitation_correct actor scope issuer subject role request now :
  contract WsErrStore (IssueInvitation actor scope issuer subject role request now)
    (issued_invitation actor scope issuer subject role now).
Proof. eapply contract_wp; [intros; apply IssueInvitation_spec|done]. Qed.

(** C27. A proof admits one identity once: redemption succeeds only for the exact
    identity the unexpired invitation names, while its inviter still holds the
    membership version the invitation was issued under and may still assign
    the role; it never changes an existing membership; it deletes the
    invitation in the same transaction, after which the proof is refused; and
    on an error nothing is committed. *)
Theorem RedeemInvitation_once digest issuer subject request now d w e :
  let o := RedeemInvitation digest issuer subject request now (Txs d w e) in
  tx_db o.2 = d ∧
  (o.1 = Ok tt → redeemed digest issuer subject now w (tx_work o.2) ∧
     ∀ issuer' subject' request' now' d' w' e', invitations w' ⊆ invitations (tx_work o.2) →
       is_ok (RedeemInvitation digest issuer' subject' request' now' (Txs d' w' e')).1 = false).
Proof.
  intros o. pose proof (tx_spec (m := RedeemInvitation digest issuer subject request now) d w e) as H.
  unfold wp in H. fold o in H. destruct H as (Hd & _ & H). split; [done|]. intros Ho. rewrite Ho in H.
  split; [done|]. intros issuer' subject' request' now' d' w' e' Hsub.
  pose proof (tx_spec (m := RedeemInvitation digest issuer' subject' request' now') d' w' e') as H'.
  unfold wp in H'. destruct (RedeemInvitation digest issuer' _ _ _ _).1; [|done].
  destruct H' as (_ & _ & [(i & Hi & _) _ _]). destruct H as [_ Hu _].
  eapply lookup_weaken in Hi; [|done]. rewrite Hu, lookup_delete_eq in Hi. done.
Qed.
End specs.
