(* ===== verification/Login.v ===== *)
(** [internal/httpapi/callback.go]: the transaction that signs a verified
    identity in, with the invitation it may redeem and the session it creates
    or rotates. *)
From S2P Require Import Prelude GoBase Base64 Identifier Roles Schema Tx TxLogic Wp AuditLog.
From S2P Require Import Membership Recent Sessions Challenges Invitations.
Local Open Scope Z_scope.

(** The verified ID token, as the OIDC library yields it: its identity, issue
    time, the [auth_time] claim [callback] decodes (none when the claims do not
    decode) and the claims [AuthenticationTime] decodes. *)
Record IDToken := MkIDToken {
  it_Issuer : string; it_Subject : string; it_IssuedAt : time;
  it_AuthTime : option Z; it_Claims : option (Z * string) }.

(** [SELECT u.id,m.workspace_id ... ORDER BY m.workspace_id LIMIT 1]: the
    enabled identity with an open workspace it is a member of. *)
Definition login_order (x y : uuid * uuid) : Prop := (x.2 <= y.2)%N.
#[export] Instance login_order_dec : RelDecision login_order.
Proof. intros x y. unfold login_order. apply _. Defined.

Definition has_identity (d : db) (user : uuid) (issuer subject : string) : bool :=
  match users d !! user with
  | Some u => bool_decide (us_issuer u = issuer ∧ us_subject u = subject) && enabled d user
  | None => false
  end.

Definition login_row (issuer subject : string) : time → db → option (uuid * uuid) := λ _ d,
  head (merge_sort login_order
    ((λ '((w, u), _), (u, w)) <$>
       filter (λ '((w, u), _), has_identity d u issuer subject && open_workspace d w = true)
         (map_to_list (memberships d)))).

Section login.
Context `{U : UuidApi}.

(** [if len(challenge.InvitationDigest) > 0 { ... }] *)
Definition redeem (token : IDToken) (challenge : Challenge) (request : string) : txm unit :=
  match ch_InvitationDigest challenge with
  | Some ((_ :: _) as digest) =>
      now ← go_now;
      r ← attempt (RedeemInvitation digest (it_Issuer token) (it_Subject token) request now);
      match r with
      | Ok _ => mret tt
      | Err err => throw (if decide (err = WsErrStore) then IdErrStore else err)
      end
  | _ => mret tt
  end.

(** The credential: rotated when the challenge reauthenticates a session. *)
Definition establish (policy : SessionPolicy) (supported : bool) (acr : string) (token : IDToken)
  (challenge : Challenge) (previous : string) (user : uuid) (authenticated : time) : txm SessionCredential :=
  match ch_SessionDigest challenge with
  | Some ((_ :: _) as digest) =>
      now ← go_now;
      authenticated ← lift (AuthenticationTime supported acr (it_Claims token) (ch_StartedAt challenge) now);
      RotateRecent policy user authenticated previous digest
  | _ => Create_session policy user authenticated previous
  end.

(** The transaction of [callback]: [supported] and [acr] are the issuer's
    reauthentication policy, [previous] the session cookie presented. *)
Definition callback (policy : SessionPolicy) (supported : bool) (acr : string) (token : IDToken)
  (challenge : Challenge) (previous request : string) : txm SessionCredential :=
  begin_tx IdErrStore ;;
  redeem token challenge request ;;
  '(user, workspace) ← query_row IdErrUnauthenticated IdErrStore (rd (login_row (it_Issuer token) (it_Subject token)));
  match it_AuthTime token with
  | None => throw IdErrUnauthenticated
  | Some authTime =>
      credential ← establish policy supported acr token challenge previous user
                     (if 0 <? authTime then authTime * Second else it_IssuedAt token);
      eventID ← NewID IdErrStore;
      or_fail IdErrStore
        (Append (MkEvent eventID workspace ActorUser (Some user) "auth.login" request ∅)) ;;
      commit IdErrStore ;;
      mret credential
  end.
End login.

(** [loginFailure]: the status, code and title of the answer to a failed login. *)
Definition loginFailure (err : error) : Z * string * string :=
  if decide (err = IdErrReauthUnsupported) then
    (403, "reauthentication_unsupported", "Issuer reauthentication policy is not configured or supported")
  else if decide (err = IdErrRecentRequired) then
    (403, "recent_authentication_required", "Recent authentication required")
  else if decide (err = IdErrStore) then (503, "identity_unavailable", "Service Unavailable")
  else (401, "unauthenticated", "Unauthorized").

(** ** What a login did *)

(** The invitation the challenge carries was redeemed, or there was none. *)
Definition after_invitation (token : IDToken) (challenge : Challenge) (d d' : db) : Prop :=
  match ch_InvitationDigest challenge with
  | Some ((_ :: _) as digest) => ∃ now, redeemed digest (it_Issuer token) (it_Subject token) now d d'
  | _ => d' = d
  end.

(** The session that was created, or that replaced the one the challenge is bound to. *)
Definition after_session (policy : SessionPolicy) (supported : bool) (acr : string) (token : IDToken)
  (challenge : Challenge) (previous : string) (user : uuid) (authenticated : time)
  (d : db) (c : SessionCredential) (d' : db) (until : time) : Prop :=
  match ch_SessionDigest challenge with
  | Some ((_ :: _) as bound) => ∃ now at_,
      AuthenticationTime supported acr (it_Claims token) (ch_StartedAt challenge) now = Ok at_ ∧
      tokenDigest previous = Some bound ∧
      (∃ s, sessions d !! bound = Some s ∧ se_user s = user) ∧
      created policy user at_ true (delete bound (sessions d)) d c d' until
  | _ => created policy user authenticated false (without user previous (sessions d)) d c d' until
  end.

Record signed_in (policy : SessionPolicy) (supported : bool) (acr : string) (token : IDToken)
  (challenge : Challenge) (previous request : string) (d : db) (c : SessionCredential) (d' : db) : Prop := {
  si_steps : ∃ d1 d2 user w authTime until id now,
    after_invitation token challenge d d1 ∧
    has_identity d1 user (it_Issuer token) (it_Subject token) = true ∧
    is_Some (memberships d1 !! (w, user)) ∧ open_workspace d1 w = true ∧ it_AuthTime token = Some authTime ∧
    after_session policy supported acr token challenge previous user
      (if 0 <? authTime then authTime * Second else it_IssuedAt token) d1 c d2 until ∧
    d' = d2 <| audit_events ::= <[id := AuditEvent w "user" (Some user) "auth.login" request ∅ now]> |>;
}.

Lemma login_row_Some issuer subject now d user w : login_row issuer subject now d = Some (user, w) →
  has_identity d user issuer subject = true ∧ open_workspace d w = true ∧ is_Some (memberships d !! (w, user)).
Proof.
  unfold login_row. intros H. apply head_Some_elem_of in H.
  rewrite (merge_sort_Permutation login_order) in H.
  apply list_elem_of_fmap in H as ([[w' u'] m] & [= -> ->] & H).
  apply list_elem_of_filter in H as [Hp Hm%elem_of_map_to_list]. guards. eauto.
Qed.

Section login_facts.
Context `{U : UuidApi}.

#[export] Instance redeem_spec token challenge request :
  TxSpec (redeem token challenge request) rolled_back (λ w _ w' _, after_invitation token challenge w w').
Proof.
  intros d w e. unfold redeem, after_invitation. wp_run by tx_done.
Qed.

#[export] Instance establish_spec policy supported acr token challenge previous user authenticated :
  TxSpec (establish policy supported acr token challenge previous user authenticated) rolled_back
    (λ w c w' e', enabled w user = true →
       after_session policy supported acr token challenge previous user authenticated w c w'
         (en_clock e' + en_skew e')).
Proof.
  intros d w e. unfold establish, after_session. wp_run by tx_done.
  all: simpl; split_and!; [done|env_solve|]; intros He; try naive_solver.
Qed.

Lemma callback_spec policy supported acr token challenge previous request d e :
  wp (callback policy supported acr token challenge previous request)
     (atomic IdErrStore (signed_in policy supported acr token challenge previous request) d) (Txs d d e).
Proof.
  unfold callback. repeat wp_step. all: try solve [simpl; auto].
  match goal with H : login_row _ _ _ _ = _ |- _ => apply login_row_Some in H as (Hi & Ho & Hm) end.
  assert (Hen : enabled w' n = true) by (unfold has_identity in Hi; destruct (users w' !! n); [by guards|done]).
  simpl in *. split. do 8 eexists. split_and!; eauto.
Qed.

Lemma created_kept policy user at_ r kept d c d' until : created policy user at_ r kept d c d' until →
  (∃ s, sessions d' !! digest_of (sc_Token c) = Some s ∧ se_user s = user ∧ se_csrf s = digest_of (sc_CSRF c) ∧
     session_check (digest_of (sc_Token c)) s = true) ∧ ∃ t, d' = d <| sessions := t |>.
Proof.
  intros [_ _ _ (now & w & _ & _ & Hk & _ & ->)]. split; [|by eexists].
  simpl. rewrite lookup_insert_eq. eexists. split_and!; done.
Qed.

Lemma after_session_created policy supported acr token challenge previous user at_ d c d' until :
  after_session policy supported acr token challenge previous user at_ d c d' until →
  ∃ at1 r kept, created policy user at1 r kept d c d' until.
Proof. unfold after_session. intros H. repeat case_match; naive_solver. Qed.

(** Signing in is one atomic step: the invitation is redeemed, the session
    is created, or replaces the very session the reauthentication is bound to,
    and the login is recorded together or not at all; the session belongs to the
    enabled user with the verified token's issuer and subject, a member of an
    open workspace; and the credential handed to the browser resolves to that
    user, with its CSRF token, as long as the session is live. *)
Theorem callback_correct policy supported acr token challenge previous request :
  contract IdErrStore (callback policy supported acr token challenge previous request)
    (λ d c d', signed_in policy supported acr token challenge previous request d c d' ∧
       ∃ user s, sessions d' !! digest_of (sc_Token c) = Some s ∧ se_user s = user ∧
         has_identity d' user (it_Issuer token) (it_Subject token) = true ∧
         ∀ policy' e', en_outcomes e' = [] → unexpired (en_clock e' + en_skew e') s = true →
           ∃ p d2, Resolve_session policy' (sc_Token c) (Txs d' d' e') = (Ok p, Txs d2 d2 e') ∧
             pr_UserID p = user ∧ ValidCSRF p (sc_CSRF c) = true).
Proof.
  eapply contract_wp; [intros; apply callback_spec|]. intros d c d' H. split; [done|].
  destruct H as [(d1 & d2 & user & w & authTime & until & id & now & _ & Hi & _ & _ & _ & Hs & ->)].
  apply after_session_created in Hs as (at1 & r & kept & Hc).
  destruct (created_kept _ _ _ _ _ _ _ _ _ Hc) as [(s & Hs & Hu & Hcs & Hk) [t ->]].
  destruct Hc as [He Ht Hcsrf _]. exists user, s. split_and!; [done..|].
  intros policy' e' Hf Hl. subst user.
  match goal with |- context [Resolve_session _ _ (Txs ?d' _ _)] =>
    destruct (Resolve_live policy' (sc_Token c) d' e' _ s Hf Ht Hs Hk He Hl) as [d3 Hr] end.
  eexists _, d3. split; [exact Hr|]. split; [done|]. unfold ValidCSRF. rewrite Hcsrf. simpl.
  by rewrite Hcs, bool_decide_eq_true_2.
Qed.
End login_facts.
