(* ===== verification/Workspace.v ===== *)
(** The workspace component as a whole: the contracts of [settings.go],
    [create.go] and [bootstrap.go], the step relation of every operation that
    writes memberships, grants or workspace policy, and what holds along every
    run of such steps, under every fault schedule. *)
From S2P Require Import Prelude GoBase Identifier Roles Schema Tx TxLogic Wp Sample AuditLog.
From S2P Require Import Membership Grants Recent Sessions Challenges Invitations Login.
Local Open Scope Z_scope.

Section workspace.
Context `{U : UuidApi}.

(** Everything a committed update of [WorkspaceSettings] did. *)
Record settings_changed (actor scope : uuid) (u next : Settings) (d d' : db) : Prop := {
  sc_owner : ∃ v, memberships d !! (scope, actor) = Some (Membership "owner" v) ∧ enabled d actor = true;
  sc_open : open_workspace d scope = true;
  sc_valid : ValidName (st_Name u) = true ∧ 1 <= st_QueueLimit u <= 1000 ∧
    180 <= st_AuditRetentionDays u <= 3650;
  sc_next : next = MkSettings (st_Name u) (st_PolicyVersion u + 1) (st_QueueLimit u) (st_AuditRetentionDays u);
  sc_commit : ∃ W W', workspaces d !! scope = Some W ∧ st_PolicyVersion u = ws_policy_version W ∧
    u ≠ settings_of W ∧ settings_of W' = next ∧ ws_closed_at W' = ws_closed_at W ∧
    workspaces d' = <[scope := W']> (workspaces d);
  sc_frame : memberships d' = memberships d ∧ users d' = users d ∧ connection_grants d' = connection_grants d;
}.

(** [WorkspaceSettings] reads, or changes by compare-and-set on the policy version. *)
Definition settings_outcome (actor scope : uuid) (update : option Settings) (d : db) (result : Settings)
  (d' : db) : Prop :=
  d' = d ∧ (∃ W, workspaces d !! scope = Some W ∧ result = settings_of W) ∧
    (update = None ∨ update = Some result) ∨
  ∃ u, update = Some u ∧ settings_changed actor scope u result d d'.

Lemma update_settings_Some scope s now d u d' :
  update_settings scope s now d = Some (u, d') →
  ∃ W, workspaces d !! scope = Some W ∧
    d' = d <| workspaces ::= <[scope := W <| ws_name := st_Name s |>
               <| ws_policy_version := st_PolicyVersion s |> <| ws_queue_limit := st_QueueLimit s |>
               <| ws_audit_retention_days := st_AuditRetentionDays s |>]> |>.
Proof. unfold update_settings. intros H. sql_inv H. eauto. Qed.

Lemma WorkspaceSettings_spec actor scope update request d w e :
  wp (WorkspaceSettings actor scope update request)
     (atomic WsErrStore (settings_outcome actor scope update) d) (Txs d w e).
Proof.
  unfold WorkspaceSettings. repeat wp_step. all: try solve [simpl; auto].
  all: destruct (workspaces d !! scope) as [W|] eqn:HW; simplify_eq/=.
  - left. split_and!; eauto.
  - right. exists s. split; [done|].
    destruct (update_settings_Some _ _ _ _ _ _ ltac:(eassumption)) as (W0 & HW0 & ->).
    guards. destruct a as [r v]; simplify_eq/=.
    split; try done.
    + by eauto.
    + exists W. eexists. do 3 (split; [done|]). split; [|split; [|simpl; reflexivity]]; done.
  - left. split_and!; eauto.
Qed.

(** Everything a committed [Create] did. *)
Record workspace_created (user : uuid) (name : string) (d : db) (v : WorkspaceView) (d' : db) : Prop := {
  wc_view : vw_Name v = name ∧ vw_Role v = "owner";
  wc_name : ValidName name = true;
  wc_admitted : enabled d user = true ∧ ∃ k m, memberships d !! k = Some m ∧ k.2 = user ∧ open_workspace d k.1 = true;
  wc_quota : count_where (λ k m, bool_decide (k.2 = user) && bool_decide (mb_role m = "owner"))
               (memberships d) < MaxOwnedWorkspaces;
  wc_fresh : workspaces d !! vw_ID v = None ∧ memberships d !! (vw_ID v, user) = None;
  wc_commit : workspaces d' = <[vw_ID v := Workspace name 1 None 1000 180]> (workspaces d) ∧
    memberships d' = <[(vw_ID v, user) := Membership "owner" 1]> (memberships d);
  wc_frame : users d' = users d ∧ connection_grants d' = connection_grants d;
}.

Lemma insert_workspace_Some id name now d u d' :
  insert_workspace id name now d = Some (u, d') →
  workspaces d !! id = None ∧
  d' = d <| workspaces ::= <[id := Workspace name 1 None 1000 180]> |>.
Proof. unfold insert_workspace. intros H. sql_inv H. done. Qed.

Lemma insert_membership_Some scope user m now d u d' :
  insert_membership scope user m now d = Some (u, d') →
  memberships d !! (scope, user) = None ∧ known_role (mb_role m) ∧ 0 < mb_version m ∧
  d' = d <| memberships ::= <[(scope, user) := m]> |>.
Proof.
  unfold insert_membership. intros H. sql_inv H. by apply membership_check_true in Hq0 as [? ?].
Qed.

Lemma Create_spec user name request d w e :
  wp (Create user name request) (atomic WsErrStore (workspace_created user name) d) (Txs d w e).
Proof.
  unfold Create. repeat wp_step. all: try solve [simpl; auto].
  destruct (insert_workspace_Some _ _ _ _ _ _ ltac:(eassumption)) as [Hw ->].
  destruct (insert_membership_Some _ _ _ _ _ _ _ ltac:(eassumption)) as (Hm & _ & _ & ->).
  match goal with H : require (admitted _ _ _) = Some _ |- _ =>
    apply require_Some in H; unfold admitted in H end.
  guards. split; simpl; try done.
  split; [done|].
  match goal with H : exists_where _ _ = true |- _ => apply exists_where_true in H as (k & m & Hk & Hp) end.
  guards. eauto.
Qed.

(** Everything a committed [Bootstrap] did. *)
Record bootstrapped (issuer subject name : string) (d : db) (workspace : uuid) (d' : db) : Prop := {
  bs_first : installation_bootstrap d = None ∧ workspaces d = ∅;
  bs_name : ValidName name = true;
  bs_users : ∃ user u, users d' !! user = Some u ∧ us_issuer u = issuer ∧ us_subject u = subject ∧
    us_disabled_at u = None ∧
    (∀ k v, users d !! k = Some v → users d' !! k = Some v) ∧
    installation_bootstrap d' = Some (user, workspace) ∧
    memberships d' = <[(workspace, user) := Membership "owner" 1]> (memberships d) ∧
    memberships d !! (workspace, user) = None;
  bs_commit : workspaces d' = <[workspace := Workspace name 1 None 1000 180]> ∅;
  bs_frame : connection_grants d' = connection_grants d;
}.

Lemma Bootstrap_spec locked configured issuer subject name d w e :
  wp (Bootstrap locked configured issuer subject name)
     (atomic WsErrStore (bootstrapped issuer subject name) d) (Txs d w e).
Proof.
  unfold Bootstrap. repeat wp_step. all: try solve [simpl; auto].
  destruct (insert_user_Some _ _ _ _ _ _ _ ltac:(eassumption)) as (t & -> & Hext).
  destruct (identity_row_Some _ _ _ _ _ ltac:(eassumption)) as (r & Hr & Hi & Hs & Hd).
  destruct (insert_workspace_Some _ _ _ _ _ _ ltac:(eassumption)) as [Hw ->].
  destruct (insert_membership_Some _ _ _ _ _ _ _ ltac:(eassumption)) as (Hm & _ & _ & ->).
  guards. simpl in *.
  assert (Hnb : installation_bootstrap d = None) by (by apply eq_None_not_Some).
  assert (Hnw : workspaces d = ∅) by (by apply dec_stable).
  match goal with H : match installation_bootstrap d with _ => _ end = _ |- _ => rewrite Hnb in H; simplify_eq/= end.
  split; simpl; try done.
  - exists a1, r. by split_and!.
  - by rewrite Hnw.
Qed.

(** ** Steps *)

(** One committed or failed call of a workspace operation, from any environment. *)
Inductive wstep (d : db) : db → Prop :=
| step_ChangeMember actor scope target role version request e :
    wstep d (tx_db (ChangeMember actor scope target role version request (Txs d d e)).2)
| step_Transfer actor scope target av tv demote request e :
    wstep d (tx_db (Transfer actor scope target av tv demote request (Txs d d e)).2)
| step_Settings actor scope update request e :
    wstep d (tx_db (WorkspaceSettings actor scope update request (Txs d d e)).2)
| step_Create user name request e : wstep d (tx_db (Create user name request (Txs d d e)).2)
| step_Bootstrap locked configured issuer subject name e :
    wstep d (tx_db (Bootstrap locked configured issuer subject name (Txs d d e)).2)
| step_SetGrant actor scope connection target actions request e :
    wstep d (tx_db (SetGrant actor scope connection target actions request (Txs d d e)).2)
| step_IssueInvitation actor scope issuer subject role request now e :
    wstep d (tx_db (IssueInvitation actor scope issuer subject role request now (Txs d d e)).2)
| step_callback policy supported acr token challenge previous request e :
    wstep d (tx_db (callback policy supported acr token challenge previous request (Txs d d e)).2).

(** The workspace has an owner who can sign in. *)
Definition owned (d : db) (scope : uuid) : Prop :=
  ∃ u m, memberships d !! (scope, u) = Some m ∧ mb_role m = "owner" ∧ enabled d u = true.

Definition policy (d : db) (scope : uuid) : option Z := ws_policy_version <$> workspaces d !! scope.

(** Memberships name existing workspaces and carry versions already issued. *)
Definition versioned (d : db) : Prop := ∀ scope u m, memberships d !! (scope, u) = Some m →
  ∃ W, workspaces d !! scope = Some W ∧ mb_version m <= ws_policy_version W.

(** How a step may move the tables authority is read from. *)
Record evolves (d d' : db) : Prop := {
  ev_users : ∀ u r, users d !! u = Some r → users d' !! u = Some r;
  ev_ws : ∀ scope W, workspaces d !! scope = Some W → ∃ W', workspaces d' !! scope = Some W' ∧
    ws_policy_version W <= ws_policy_version W' ∧ ws_closed_at W' = ws_closed_at W;
  ev_members : ∀ scope u m, memberships d' !! (scope, u) = Some m →
    memberships d !! (scope, u) = Some m ∨
    (∃ W', workspaces d' !! scope = Some W' ∧ mb_version m <= ws_policy_version W') ∧
    (∀ W, workspaces d !! scope = Some W → ws_policy_version W < mb_version m);
  ev_policy : ∀ scope W W', workspaces d !! scope = Some W → workspaces d' !! scope = Some W' →
    ws_policy_version W' = ws_policy_version W →
    (∀ u, memberships d' !! (scope, u) = memberships d !! (scope, u)) ∧
    (∀ c u, connection_grants d' !! (scope, c, u) = connection_grants d !! (scope, c, u));
  ev_owned : ∀ scope, owned d scope → owned d' scope;
}.

#[export] Instance evolves_preorder : PreOrder evolves.
Proof.
  split.
  - intros d. split; eauto with lia.
  - intros d1 d2 d3 [U1 W1 M1 P1 O1] [U2 W2 M2 P2 O2]. split; eauto.
    + intros scope W HW. destruct (W1 _ _ HW) as (W' & HW' & ? & ?).
      destruct (W2 _ _ HW') as (W'' & ? & ? & ?). exists W''. split_and!; [done|lia|congruence].
    + intros scope u m Hm. destruct (M2 _ _ _ Hm) as [Hm2|[Hb Hf]].
      * destruct (M1 _ _ _ Hm2) as [|[(W' & HW' & ?) ?]]; [by left|right; split; [|done]].
        destruct (W2 _ _ HW') as (W'' & ? & ? & ?). exists W''. split; [done|lia].
      * right. split; [done|]. intros W HW. destruct (W1 _ _ HW) as (W' & HW' & ? & ?).
        specialize (Hf _ HW'). lia.
    + intros scope W W'' HW HW'' Heq. destruct (W1 _ _ HW) as (W' & HW' & ? & ?).
      destruct (W2 _ _ HW') as (? & ? & ? & ?). simplify_eq.
      destruct (P1 _ _ _ HW HW') as [Pm Pg]; [lia|]. destruct (P2 _ _ _ HW' HW'') as [Pm' Pg']; [lia|].
      split; intros; by rewrite ?Pm', ?Pg'.
Qed.

Lemma evolves_versioned d d' : evolves d d' → versioned d → versioned d'.
Proof.
  intros [_ HW HM _ _] Hv scope u m Hm. destruct (HM _ _ _ Hm) as [Hm'|[? _]]; [|done].
  destruct (Hv _ _ _ Hm') as (W & HWs & ?). destruct (HW _ _ HWs) as (W' & ? & ? & ?).
  exists W'. split; [done|lia].
Qed.

(** A writer of one workspace: everything it changes it stamps with a new
    policy version. *)
Lemma evolves_bump d d' scope W W' :
  users d' = users d → workspaces d !! scope = Some W →
  workspaces d' = <[scope := W']> (workspaces d) →
  ws_policy_version W < ws_policy_version W' → ws_closed_at W' = ws_closed_at W →
  (∀ ws u, ws ≠ scope → memberships d' !! (ws, u) = memberships d !! (ws, u)) →
  (∀ u m, memberships d' !! (scope, u) = Some m →
     memberships d !! (scope, u) = Some m ∨ mb_version m = ws_policy_version W') →
  other_grants scope d d' → (owned d scope → owned d' scope) → evolves d d'.
Proof.
  intros Hus HW Hws Hlt Hcl Hother Hmem Hgr Hown. split.
  - by rewrite Hus.
  - intros ws W0 HW0. rewrite Hws. destruct (decide (ws = scope)) as [->|Hne].
    + rewrite lookup_insert_eq. simplify_eq. exists W'. split_and!; [done|lia|done].
    + rewrite lookup_insert_ne by done. exists W0. split_and!; [done|lia|done].
  - intros ws u m Hm. destruct (decide (ws = scope)) as [->|Hne].
    + destruct (Hmem _ _ Hm) as [|Hv]; [by left|right]. rewrite Hws, lookup_insert_eq.
      split; [exists W'; split; [done|lia]|]. intros W0 HW0. simplify_eq. lia.
    + left. by rewrite <-Hother.
  - intros ws W0 W1 HW0 HW1 Heq. rewrite Hws in HW1. destruct (decide (ws = scope)) as [->|Hne].
    + rewrite lookup_insert_eq in HW1. simplify_eq. lia.
    + split; intros; [by apply Hother|by apply Hgr].
  - intros ws (u & m & Hm & Hr & He). destruct (decide (ws = scope)) as [->|Hne].
    + apply Hown. by exists u, m.
    + exists u, m. unfold enabled in *. rewrite Hus, Hother by done. done.
Qed.

Lemma evolves_same d d' :
  memberships d' = memberships d → workspaces d' = workspaces d → users d' = users d →
  connection_grants d' = connection_grants d → evolves d d'.
Proof.
  intros Hm Hw Hu Hg. pose proof (reflexivity (R := evolves) d) as [? ? ? ? Ho].
  split; rewrite ?Hm, ?Hw, ?Hu, ?Hg; auto.
  intros scope (u & m & ? & ? & ?). exists u, m. unfold enabled in *. by rewrite Hm, Hu.
Qed.

Lemma audit_only_evolves d d' : audit_only d d' → evolves d d'.
Proof. intros (? & ? & ? & ?)%audit_only_frame. by apply evolves_same. Qed.

(** Two enabled owners: one of them is somebody else. *)
Lemma another_owner d scope target now : 1 < count_owners scope now d →
  ∃ u m, u ≠ target ∧ memberships d !! (scope, u) = Some m ∧ mb_role m = "owner" ∧ enabled d u = true.
Proof.
  unfold count_owners, count_where. intros Hlt.
  set (f := filter _ _) in Hlt.
  assert (Hd : delete (scope, target) f ≠ ∅).
  { intros Hemp. destruct (f !! (scope, target)) as [m|] eqn:Hf.
    - rewrite <-(insert_delete_id f (scope, target) m Hf), Hemp in Hlt.
      rewrite map_size_insert, lookup_empty, map_size_empty in Hlt. simpl in Hlt. lia.
    - rewrite delete_id in Hemp by done. rewrite Hemp, map_size_empty in Hlt. lia. }
  apply map_choose in Hd as ([ws u] & m & [Hne Hf]%lookup_delete_Some).
  apply map_lookup_filter_Some in Hf as [Hm Hp]. unfold enabled_owner in Hp. guards. simpl in *. subst.
  exists u, m. split_and!; try done. congruence.
Qed.

Lemma member_changed_evolves actor scope target role version d d' :
  member_changed actor scope target role version d d' → evolves d d'.
Proof.
  intros C. destruct C as [Ha Ho Hv Hp Hown Hr (W & HW & Hws & Hm) [Hus Hg]].
  eapply evolves_bump; eauto; simpl; [lia|..].
  - intros ws u Hne. rewrite Hm. unfold member_change.
    case_decide; [apply lookup_delete_ne|apply lookup_insert_ne]; congruence.
  - intros u m. rewrite Hm. unfold member_change. case_decide.
    + intros [? ?]%lookup_delete_Some. by left.
    + intros [[? <-]|[? ?]]%lookup_insert_Some; [by right|by left].
  - intros (u & m & Hu & Hro & He).
    destruct (decide (role = "owner")) as [->|Hnr].
    { destruct (decide (u = target)) as [->|Hne].
      - exists target, (Membership "owner" (ws_policy_version W + 1)). unfold enabled in *.
        rewrite Hm, Hus. unfold member_change. by rewrite decide_False, lookup_insert_eq.
      - exists u, m. unfold enabled in *. rewrite Hm, Hus. unfold member_change.
        rewrite decide_False by done. by rewrite lookup_insert_ne by congruence. }
    assert (∃ u m, u ≠ target ∧ memberships d !! (scope, u) = Some m ∧ mb_role m = "owner"
                   ∧ enabled d u = true) as (u' & m' & Hne & Hu' & Hro' & He').
    { destruct (decide (u = target)) as [->|Hne]; [|by eauto 10].
      eapply another_owner, Hown; [|done]. unfold current_member, member_row. rewrite Hu. simpl.
      by rewrite He. }
    exists u', m'. unfold enabled in *. rewrite Hm, Hus. unfold member_change.
    case_decide; [rewrite lookup_delete_ne by congruence|rewrite lookup_insert_ne by congruence]; done.
Qed.

Lemma transferred_evolves actor scope target av tv demote d d' :
  transferred actor scope target av tv demote d d' → evolves d d'.
Proof.
  intros [Hne Ha [r Ht] [Hea Het] Ho (W & HW & Hws & Hpos & Hm) [Hus Hg]].
  eapply evolves_bump; eauto; simpl; [lia|..].
  - intros ws u Hn. rewrite Hm. destruct demote; simpl; rewrite ?lookup_insert_ne by congruence; done.
  - intros u m. rewrite Hm. destruct demote; simpl.
    + intros [[? <-]|[? [[? <-]|[? ?]]%lookup_insert_Some]]%lookup_insert_Some; auto.
    + intros [[? <-]|[? ?]]%lookup_insert_Some; auto.
  - intros ws c u _. by rewrite Hg.
  - intros _. exists target, (Membership "owner" (ws_policy_version W + 1)). unfold enabled in *.
    rewrite Hm, Hus. destruct demote; simpl; rewrite ?lookup_insert_ne by congruence; by rewrite lookup_insert_eq.
Qed.

Lemma settings_outcome_evolves actor scope update d r d' :
  settings_outcome actor scope update d r d' → evolves d d'.
Proof.
  intros [(-> & _)|(u & _ & [Ho Hop Hv Hn (W & W' & HW & Hpv & Hne & Hset & Hcl & Hws) (Hm & Hus & Hg)])];
    [done|].
  eapply evolves_bump; eauto.
  - subst r. apply (f_equal st_PolicyVersion) in Hset. simpl in Hset. lia.
  - intros. by rewrite Hm.
  - intros u0 m. rewrite Hm. by left.
  - intros ws c u0 _. by rewrite Hg.
  - intros (u0 & m & ? & ? & He). exists u0, m. unfold enabled in *. by rewrite Hm, Hus.
Qed.

Lemma grant_changed_evolves actor scope connection target actions d d' :
  grant_changed actor scope connection target actions d d' → evolves d d'.
Proof.
  intros [Hc Ho Hcn Hac Hg (W & HW & Hws) [Hm Hus]].
  eapply evolves_bump; eauto; simpl; [lia|..].
  - intros. by rewrite Hm.
  - intros u0 m. rewrite Hm. by left.
  - intros ws c u Hne. rewrite Hg. rewrite lookup_insert_ne by congruence. done.
  - intros (u0 & m & ? & ? & He). exists u0, m. unfold enabled in *. by rewrite Hm, Hus.
Qed.

(** A new workspace with its first owner. *)
Lemma evolves_create d d' scope user name :
  (∀ u r, users d !! u = Some r → users d' !! u = Some r) →
  workspaces d !! scope = None → workspaces d' = <[scope := Workspace name 1 None 1000 180]> (workspaces d) →
  memberships d !! (scope, user) = None →
  memberships d' = <[(scope, user) := Membership "owner" 1]> (memberships d) →
  connection_grants d' = connection_grants d → evolves d d'.
Proof.
  intros Hus HW Hws Hn Hm Hg. split.
  - done.
  - intros ws W0 HW0. rewrite Hws, lookup_insert_ne by congruence. exists W0. split_and!; [done|lia|done].
  - intros ws u m. rewrite Hm. intros [[Hk <-]|[? ?]]%lookup_insert_Some; [|by left].
    simplify_eq. right. rewrite Hws, lookup_insert_eq. split; [by eexists|]. intros W0 HW0. congruence.
  - intros ws W0 W1 HW0 HW1 _. rewrite Hg, Hm. split; [|done].
    intros u. rewrite lookup_insert_ne by congruence. done.
  - intros ws (u & m & Hu & Hr & He). exists u, m.
    rewrite Hm, lookup_insert_ne by congruence. split_and!; [done|done|].
    unfold enabled in *. destruct (users d !! u) as [r|] eqn:Hr'; [|done]. by rewrite (Hus _ _ Hr').
Qed.

(** Every step evolves the authority tables, whatever faults it meets. *)
(** A new identity is nobody's authority. *)
Lemma evolves_users d t : (∀ k r, users d !! k = Some r → t !! k = Some r) → evolves d (d <| users := t |>).
Proof.
  intros Ht. split; simpl; auto.
  - intros scope W HW. exists W. split_and!; [done|lia|done].
  - intros scope (u & m & Hm & Hr & He). exists u, m. split_and!; [done..|]. revert He.
    unfold enabled; simpl. destruct (users d !! u) as [r|] eqn:Hu; [|done]. by rewrite (Ht _ _ Hu).
Qed.

Lemma redeemed_evolves digest issuer subject now d d' : redeemed digest issuer subject now d d' → evolves d d'.
Proof.
  intros [(i & _ & _ & _ & _ & _ & W & user & u & HW & Hws & _ & _ & _ & _ & Hn & Hm & _) _ (Hg & _ & Hus)].
  transitivity (d <| users := users d' |>); [by apply evolves_users|].
  eapply evolves_bump; simpl; [done|exact HW|exact Hws|simpl; lia|done|..].
  - intros ws v Hne. rewrite Hm. apply lookup_insert_ne. congruence.
  - intros v m. rewrite Hm. intros [[? <-]|[? ?]]%lookup_insert_Some; [by right|by left].
  - intros ws c v _. by rewrite Hg.
  - intros (v & m & ? & ? & ?). exists v, m. split_and!; [|done|done]. simpl in *. by rewrite Hm, lookup_insert_ne by congruence.
Qed.

Lemma signed_in_evolves policy supported acr token challenge previous request d c d' :
  signed_in policy supported acr token challenge previous request d c d' → evolves d d'.
Proof.
  intros [(d1 & d2 & user & w & authTime & until & id & now & Hi & _ & _ & _ & _ & Hs & ->)].
  transitivity d1.
  - unfold after_invitation in Hi. repeat case_match; subst; try done.
    all: destruct Hi as [? ?]; by eapply redeemed_evolves.
  - apply after_session_created in Hs as (at1 & r & kept & Hc).
    destruct (created_kept _ _ _ _ _ _ _ _ _ Hc) as [_ [t ->]]. by apply evolves_same.
Qed.

Lemma wstep_evolves d d' : wstep d d' → evolves d d'.
Proof.
  destruct 1 as [actor scope target role version request e|actor scope target av tv demote request e
    |actor scope update request e|user name request e|locked configured issuer subject name e
    |actor scope connection target actions request e|actor scope issuer subject role request now e
    |policy supported acr token challenge previous request e].
  - destruct (atomic_cases _ _ _ _ _ (ChangeMember_spec actor scope target role version request d d e))
      as [->|[_ ?]]; [done|by eapply member_changed_evolves].
  - destruct (atomic_cases _ _ _ _ _ (Transfer_spec actor scope target av tv demote request d d e))
      as [->|[_ ?]]; [done|by eapply transferred_evolves].
  - destruct (atomic_cases _ _ _ _ _ (WorkspaceSettings_spec actor scope update request d d e))
      as [->|[r ?]]; [done|by eapply settings_outcome_evolves].
  - destruct (atomic_cases _ _ _ _ _ (Create_spec user name request d d e)) as [->|[v C]]; [done|].
    destruct C as [_ _ _ _ [? ?] [? ?] [Hus ?]]. eapply evolves_create; eauto. by rewrite Hus.
  - destruct (atomic_cases _ _ _ _ _ (Bootstrap_spec locked configured issuer subject name d d e))
      as [->|[ws C]]; [done|].
    destruct C as [[_ He] _ (u & r & ? & ? & ? & ? & ? & ? & ? & ?) Hc Hg].
    eapply evolves_create; eauto; [by rewrite He|by rewrite Hc, He].
  - pose proof (SetGrant_spec actor scope connection target actions request d d e) as C.
    unfold wp, grant_outcome in C. destruct (_ .1) as [|err]; [by eapply grant_changed_evolves|].
    destruct C as [->|[?|[_ ?]]]; [done|by apply audit_only_evolves|by eapply grant_changed_evolves].
  - destruct (atomic_cases _ _ _ _ _ (IssueInvitation_spec actor scope issuer subject role request now d e))
      as [->|[proof [_ _ (ti & ta & ->)]]]; [done|by apply evolves_same].
  - destruct (atomic_cases _ _ _ _ _ (callback_spec policy supported acr token challenge previous request d e))
      as [->|[c ?]]; [done|by eapply signed_in_evolves].
Qed.

Lemma wsteps_evolve d d' : rtc wstep d d' → evolves d d'.
Proof. induction 1 as [|d1 d2 d3 H1 _ IH]; [done|]. etrans; [by apply wstep_evolves|done]. Qed.

(** ** What holds along every run *)

(** C23. A workspace that has an enabled owner keeps one: no sequence of
    membership, transfer, settings, grant or creation calls, failed or
    committed, leaves it without. *)
Theorem workspace_keeps_owner d d' scope :
  rtc wstep d d' → owned d scope → owned d' scope.
Proof. intros H. by apply ev_owned, wsteps_evolve. Qed.

(** C24. Versions identify memberships for good: if a membership has the same
    version at two moments of a run it is the same membership, even when it
    was removed and granted again in between. *)
Theorem membership_version_identifies d d1 d2 scope u m1 m2 :
  versioned d → rtc wstep d d1 → rtc wstep d1 d2 →
  memberships d1 !! (scope, u) = Some m1 → memberships d2 !! (scope, u) = Some m2 →
  mb_version m1 = mb_version m2 → m1 = m2.
Proof.
  intros Hv H1 H2 Hm1 Hm2 Heq. apply wsteps_evolve in H1, H2.
  destruct (evolves_versioned _ _ H1 Hv _ _ _ Hm1) as (W & HW & Hle).
  destruct (ev_members _ _ H2 _ _ _ Hm2) as [Hm|[_ Hf]]; [congruence|].
  specialize (Hf _ HW). lia.
Qed.

(** C25. The policy version covers authority: along a run that leaves a
    workspace's policy version as it was, no membership and no grant of the
    workspace changed. *)
Theorem policy_version_covers_authority d d' scope v :
  rtc wstep d d' → policy d scope = Some v → policy d' scope = Some v →
  (∀ u, memberships d' !! (scope, u) = memberships d !! (scope, u)) ∧
  (∀ c u, connection_grants d' !! (scope, c, u) = connection_grants d !! (scope, c, u)).
Proof.
  unfold policy. intros H HW HW'. apply wsteps_evolve in H.
  destruct (workspaces d !! scope) as [W|] eqn:E; [|done].
  destruct (workspaces d' !! scope) as [W'|] eqn:E'; [|done]. simplify_eq/=.
  eapply (ev_policy _ _ H); [done|done|congruence].
Qed.

(** [ChangeMember] is a compare-and-set under authority: on success the
    caller was an enabled admin or owner who may assign both the old and the
    new role, the version was the current one and an owner was not the last;
    exactly the target's row and the policy version changed.  Every error but
    the store's leaves the database as it was. *)
Theorem ChangeMember_correct actor scope target role version request s r s' :
  ChangeMember actor scope target role version request s = (r, s') →
  atomic WsErrStore (λ d _ d', member_changed actor scope target role version d d') (tx_db s) r s'.
Proof.
  destruct s as [d w e]. intros H. eapply (wp_elim _ _ _ _ _ (ChangeMember_spec _ _ _ _ _ _ d w e) H).
Qed.

(** C26. Nobody grants more than they may.  When [SetGrant] changes a grant,
    the caller is an enabled member, and either an owner, who may set the grant
    of any member, another owner and itself included, or an admin, and then the
    member is a viewer or an operator, ranked below the caller, and the caller
    holds every class of the new grant on that very connection; so no admin
    sets its own grant, another admin's or an owner's.  In both cases every
    class is one of the four and within the ceiling of the member's role, and
    nothing but that one grant changes among the grants. *)
Theorem SetGrant_no_escalation actor scope connection target actions request s r s' :
  SetGrant actor scope connection target actions request s = (r, s') →
  connection_grants (tx_db s') ≠ connection_grants (tx_db s) →
  ∃ m t, memberships (tx_db s) !! (scope, actor) = Some m ∧ enabled (tx_db s) actor = true ∧
    memberships (tx_db s) !! (scope, target) = Some t ∧ enabled (tx_db s) target = true ∧
    (mb_role m = "owner" ∨
     mb_role m = "admin" ∧ (mb_role t = "viewer" ∨ mb_role t = "operator") ∧ ranks (mb_role t) < ranks (mb_role m) ∧
       actor ≠ target ∧ actions ⊆ granted (tx_db s) scope connection actor) ∧
    (∀ a, a ∈ actions → a ∈ grant_classes ∧ WithinCeiling (mb_role t) a = true) ∧
    connection_grants (tx_db s') = <[(scope, connection, target) := actions]> (connection_grants (tx_db s)).
Proof.
  destruct s as [d w e]. intros H Hne.
  assert (C : grant_changed actor scope connection target actions d (tx_db s')).
  { apply (wp_elim _ _ _ _ _ (SetGrant_spec _ _ _ _ _ _ d w e)) in H. unfold grant_outcome in H.
    destruct r; [done|]. destruct H as [Heq|[Ha|[_ ?]]]; [|apply audit_only_frame in Ha|done].
    - by rewrite Heq in Hne.
    - naive_solver. }
  destruct C as [(m & t & Hm & He & Ht & Het & _ & Has & Hcl) _ _ _ Hg _ _].
  exists m, t. split_and!; try done; [|by intros a Ha; destruct (Hcl a Ha) as [Hw _]; split; [by eapply WithinCeiling_class|]].
  apply CanAssign_spec in Has as [_ [Ho|[Ha Hr]]]; [by left|right]. split_and!; [done|done| | |].
  - rewrite Ha. by destruct Hr as [-> | ->]; vm_compute.
  - intros ->. rewrite Hm in Ht. simplify_eq. destruct Hr; congruence.
  - intros a Ha'. by apply Hcl.
Qed.
End workspace.

(** ** Evaluation on the sample installation *)

#[local] Existing Instance rfc9562.

(** Bob's ownership is withdrawn while Alice keeps hers. *)
#[local] Abbreviation demotion :=
  (ChangeMember alice wid bob "viewer" 5 "req-1" (sample_txs sample_db 100)).
Definition demoted : db := tx_db demotion.2.

Lemma demoted_step : rtc wstep sample_db demoted.
Proof. apply rtc_once. exact (step_ChangeMember sample_db alice wid bob "viewer" 5 "req-1" (sample_env 100)). Qed.

Lemma workspace_keeps_owner_witness : owned demoted wid ∧ memberships demoted !! (wid, bob) = Some (Membership "viewer" 8).
Proof.
  split; [|vm_compute; reflexivity].
  apply (workspace_keeps_owner sample_db demoted wid demoted_step).
  exists alice, (Membership "owner" 1). split_and!; vm_compute; reflexivity.
Defined.

Lemma sample_versioned : versioned sample_db.
Proof.
  intros scope u m Hm. assert (Hall : map_Forall (λ k m, bool_decide (k.1 = wid) && (mb_version m <=? 7) = true)
    (memberships sample_db)) by (apply (bool_decide_unpack _); vm_compute; reflexivity).
  specialize (Hall _ _ Hm). simpl in Hall. guards. subst.
  eexists. split; [reflexivity|]. simpl. lia.
Qed.

Lemma membership_version_identifies_witness :
  ∃ m, memberships demoted !! (wid, dave) = Some m ∧ m = Membership "operator" 7.
Proof.
  exists (Membership "operator" 7). split; [vm_compute; reflexivity|].
  apply (membership_version_identifies sample_db sample_db demoted wid dave);
    [exact sample_versioned|reflexivity|exact demoted_step|..]; vm_compute; reflexivity.
Defined.

(** Reading the settings changes neither the version nor any authority. *)
Definition settings_read : db :=
  tx_db (WorkspaceSettings alice wid None "req-2" (sample_txs sample_db 100)).2.

Lemma policy_version_covers_authority_witness :
  memberships settings_read !! (wid, bob) = memberships sample_db !! (wid, bob).
Proof.
  assert (Hs : rtc wstep sample_db settings_read) by
    (apply rtc_once; exact (step_Settings sample_db alice wid None "req-2" (sample_env 100))).
  apply (policy_version_covers_authority sample_db settings_read wid 7 Hs); vm_compute; reflexivity.
Defined.

Lemma ChangeMember_correct_witness :
  member_changed alice wid bob "viewer" 5 (tx_db (sample_txs sample_db 100)) (tx_db demotion.2).
Proof.
  pose proof (ChangeMember_correct alice wid bob "viewer" 5 "req-1" (sample_txs sample_db 100)
    demotion.1 demotion.2 (surjective_pairing demotion)) as C.
  assert (E : demotion.1 = Ok tt) by (vm_compute; reflexivity). rewrite E in C. exact C.
Defined.

(** Carol delegates to Dave what she holds herself. *)
#[local] Abbreviation delegation :=
  (SetGrant carol wid cid dave ["read"; "operate"] "req-3" (sample_txs sample_db 100)).

Lemma SetGrant_no_escalation_witness :
  ∃ m t, memberships sample_db !! (wid, carol) = Some m ∧ mb_role m = "admin" ∧
    memberships sample_db !! (wid, dave) = Some t ∧ WithinCeiling (mb_role t) "operate" = true.
Proof.
  destruct (SetGrant_no_escalation carol wid cid dave ["read"; "operate"] "req-3" (sample_txs sample_db 100)
    delegation.1 delegation.2 (surjective_pairing delegation)) as (m & t & Hm & _ & Ht & _ & _ & Hcl & _).
  - intros H. apply (f_equal (lookup (wid, cid, dave))) in H. vm_compute in H. discriminate H.
  - exists m, t. split_and!; [done| |done|by apply Hcl; set_solver].
    vm_compute in Hm. by injection Hm as <-.
Defined.
