(* ===== verification/Enqueue.v ===== *)
(** [internal/inventory/enqueue.go]: admission of inventory refreshes.  The
    operation worker calls [Enqueue] in its own transaction. *)
From S2P Require Import Prelude GoBase Identifier Roles Schema Tx TxLogic Wp AuditLog Jobs.
From S2P Require Import Membership Grants.
Local Open Scope Z_scope.

Definition SnapshotType : string := "storage.snapshot".

(** [status IN ('pending','running')] *)
Definition sync_pending (s : sync_run) : bool :=
  bool_decide (sy_status s = "pending") || bool_decide (sy_status s = "running").

(** The run a request for this scope would repeat. *)
Definition same_scope (scope connection : uuid) (kind : string) (s : sync_run) : bool :=
  bool_decide (sy_workspace s = scope ∧ sy_connection s = connection ∧ sy_resource_type s = kind
               ∧ sy_scope s = "global").

Definition pending_sync (scope connection : uuid) (kind : string) : time → db → option uuid := λ _ d,
  fst <$> head (filter (λ '(_, s), same_scope scope connection kind s && sync_pending s = true)
                  (map_to_list (sync_runs d))).

(** [INSERT INTO sync_runs ...]: the connection's foreign key, the unique
    index on pending scopes and the identity column. *)
Definition insert_sync (id scope connection actor : uuid) (kind : string) : sql unit := λ _ d,
  require (bool_decide (is_Some (connection_in scope connection d))) ;;
  require (bool_decide (kind = "compute.server") || bool_decide (kind = SnapshotType)) ;;
  require (negb (exists_where (λ _ s, same_scope scope connection kind s && sync_pending s) (sync_runs d))) ;;
  let n := generation_sequence d + 1 in
  t ← insert_new id (SyncRun scope connection kind "global" id "pending" 0 None None (Some actor) false
                       None None n) (sync_runs d);
  Some (tt, d <| sync_runs := t |> <| generation_sequence := n |>).

(** [count( * ) FROM jobs WHERE workspace_id=$1 AND state IN ('queued','running')] *)
Definition live_job (j : job) : bool :=
  bool_decide (jb_state j = JQueued) || bool_decide (jb_state j = JRunning).
Definition count_live (scope : uuid) (d : db) : Z :=
  count_where (λ _ j, bool_decide (jb_workspace j = scope) && live_job j) (jobs d).

(** The connection's status, the caller's grant on it and whether its active
    credential is unrevoked. *)
Definition connection_authority (scope connection actor : uuid) : time → db → option (string * list string * bool) :=
  λ _ d,
  c ← connection_in scope connection d;
  Some (cn_status c, granted d scope connection actor,
        match cn_active_version c with
        | Some v => match credential_versions d !! (scope, connection, v) with
                    | Some cv => bool_decide (cv_revoked_at cv = None)
                    | None => false
                    end
        | None => false
        end).

Section enqueue.
Context `{U : UuidApi}.

Definition insert_refresh (jobID id scope connection : uuid) (deadline : time) : sql unit := λ now,
  insert_job jobID (Job scope connection "connection_refresh" 2 (Some id) None JQueued now None 0
                      deadline now None) now.

Definition enqueueLockedType (actor scope connection : uuid) (kind : string) : txm uuid :=
  existing ← exec WsErrStore (rd (pending_sync scope connection kind));
  match existing with
  | Some id => mret id
  | None =>
      limit ← query_row WsErrStore WsErrStore (rd (λ _ d, ws_queue_limit <$> workspaces d !! scope));
      count ← exec WsErrStore (rd (λ _ d, count_live scope d));
      reject_if (limit <=? count) InvErrQuota ;;
      id ← new_id WsErrStore;
      jobID ← new_id WsErrStore;
      exec WsErrStore (insert_sync id scope connection actor kind) ;;
      now ← go_now;
      exec WsErrStore (insert_refresh jobID id scope connection (now + 30 * Minute)) ;;
      mret id
  end.

Definition enqueueLocked (actor scope connection : uuid) : txm uuid :=
  enqueueLockedType actor scope connection "compute.server".

Definition enqueueType (actor scope connection : uuid) (kind : string) : txm uuid :=
  reject_if (negb (bool_decide (kind = "compute.server")) && negb (bool_decide (kind = SnapshotType)))
    WsErrInvalid ;;
  query_row WsErrNotFound WsErrStore (rd (lock_workspace scope)) ;;
  member ← query_row WsErrNotFound WsErrStore (rd (member_row scope actor));
  '(status, actions, active) ←
    query_row WsErrNotFound WsErrStore (rd (connection_authority scope connection actor));
  reject_if (negb (bool_decide ("read" ∈ actions))) WsErrNotFound ;;
  reject_if (negb (bool_decide ("refresh" ∈ actions)) || negb (WithinCeiling (mb_role member) "refresh")
             || negb (bool_decide (status = "active")) || negb active) WsErrDenied ;;
  enqueueLockedType actor scope connection kind.

Definition Enqueue (actor scope connection : uuid) : txm uuid :=
  enqueueType actor scope connection "compute.server".

Definition RefreshType (actor scope connection : uuid) (kind : string) : txm uuid :=
  begin_tx WsErrStore ;;
  id ← enqueueType actor scope connection kind;
  commit WsErrStore ;;
  mret id.

Definition Refresh (actor scope connection : uuid) : txm uuid :=
  RefreshType actor scope connection "compute.server".

Definition Initial (actor scope connection : uuid) : txm uuid :=
  LockAuthority actor scope ;;
  active ← query_row WsErrStore WsErrStore
             (rd (λ _ d, (λ c, bool_decide (cn_status c = "active")) <$> connection_in scope connection d));
  reject_if (negb active) WsErrDenied ;;
  enqueueLocked actor scope connection.
End enqueue.
