(* ===== verification/Connection.v ===== *)
(** [internal/connection]: the new-work guard, version fence and disabling
    ([disable.go], [rotate.go]), typed credentials ([credential.go]) and the
    preview's rate limit ([validation.go]). *)
From S2P Require Import Prelude GoBase Identifier Roles Schema Tx TxLogic Wp AuditLog Jobs.
From S2P Require Import Membership Grants Enqueue.
Local Open Scope Z_scope.

(** ** Guards *)

(** [c.status='active' AND v.revoked_at IS NULL AND v.version IS NOT NULL] over the
    left join with the active credential version. *)
Definition usable (scope id : uuid) : time → db → option bool := λ _ d,
  c ← connection_in scope id d;
  let v := n ← cn_active_version c; credential_versions d !! (scope, id, n) in
  Some (bool_decide (cn_status c = "active")
        && match v with Some cv => bool_decide (cv_revoked_at cv = None) | None => false end).

Definition RequireNewWork (scope id : uuid) : txm unit :=
  ok ← query_row WsErrNotFound WsErrStore (rd (usable scope id));
  reject_if (negb ok) ConnErrDisabled.

(** A NULL active version does not scan into an [int64]. *)
Definition RequireVersion (scope id : uuid) (version : Z) : txm unit :=
  RequireNewWork scope id ;;
  current ← query_row WsErrStore WsErrStore (rd (λ _ d, c ← connection_in scope id d; cn_active_version c));
  reject_if (negb (current =? version)) ConnErrVersion.

(** ** [Disable] *)

Definition set_status (scope id : uuid) (status : string) : sql unit := λ _ d,
  match connection_in scope id d with
  | Some c => Some (tt, d <| connections ::= <[id := c <| cn_status := status |>]> |>)
  | None => Some (tt, d)
  end.

Definition queued_on (scope connection : uuid) (j : job) : bool :=
  bool_decide (jb_workspace j = scope ∧ jb_connection j = connection ∧ jb_state j = JQueued).

(** [SET state='cancelled',completed_at=clock_timestamp()] *)
Definition disabled_job (now : time) (j : job) : job :=
  j <| jb_state := JCancelled |> <| jb_completed_at := Some now |>.

Section connection.
Context `{U : UuidApi}.

Definition connectionAudit (actor scope id : uuid) (kind request : string) : txm unit :=
  event ← NewID WsErrStore;
  or_fail WsErrStore
    (Append (MkEvent event scope ActorUser (Some actor) kind request
       {["connection_id" := uuid_String id]})).

Definition Disable (actor scope id : uuid) (request : string) : txm unit :=
  begin_tx WsErrStore ;;
  LockAuthority actor scope ;;
  status ← query_row WsErrNotFound WsErrStore (rd (λ _ d, cn_status <$> connection_in scope id d));
  if decide (status = "disabled") then mret tt
  else
    exec WsErrStore (set_status scope id "disabled") ;;
    exec WsErrStore (update_jobs (λ _ _ j, queued_on scope id j) disabled_job) ;;
    connectionAudit actor scope id "connection.disabled" request ;;
    commit WsErrStore ;;
    mret tt.
End connection.

(** ** Typed credentials *)

Record Credential := MkCredential {
  cr_Type : string; cr_Token : string; cr_ClientID : string; cr_ClientSecret : string;
  cr_Username : string; cr_Password : string; cr_CustomerNumber : string; cr_APIKey : string;
  cr_APIPassword : string }.

#[export] Instance Credential_eq_dec : EqDecision Credential.
Proof. solve_decision. Defined.

(** [len(value) > 0 && len(value) <= 4096 && !strings.ContainsAny(value, "\r\n\x00")] *)
Definition secret_forbidden : string :=
  String "013" (String "010" (String "000" EmptyString)).
Definition validSecret (value : string) : bool :=
  (0 <? len value) && (len value <=? 4096) && negb (ContainsAny value secret_forbidden).

(** [^[1-9][0-9]{0,19}$] *)
Definition customerNumber (s : string) : bool :=
  match s with
  | EmptyString => false
  | String c r => in_range "1" "9" c && string_forallb (in_range "0" "9") r && (String.length r <=? 19)%nat
  end.

Definition is_empty (s : string) : bool := bool_decide (s = "").

Definition Credential_Validate (c : Credential) : go unit :=
  let legacyFields := negb (is_empty (cr_CustomerNumber c)) || negb (is_empty (cr_APIKey c))
                      || negb (is_empty (cr_APIPassword c)) in
  if decide (cr_Type c = "bearer_v1") then
    fail_if (legacyFields || negb (validSecret (cr_Token c)) || negb (is_empty (cr_ClientID c))
             || negb (is_empty (cr_ClientSecret c)) || negb (is_empty (cr_Username c))
             || negb (is_empty (cr_Password c))) ConnErrCredential
  else if decide (cr_Type c = "contabo_v1") then
    fail_if (legacyFields || negb (is_empty (cr_Token c)) || negb (validSecret (cr_ClientID c))
             || negb (validSecret (cr_ClientSecret c)) || negb (validSecret (cr_Username c))
             || negb (validSecret (cr_Password c))) ConnErrCredential
  else if decide (cr_Type c = "netcup_legacy_v1") then
    fail_if (negb (customerNumber (cr_CustomerNumber c)) || negb (validSecret (cr_APIKey c))
             || negb (validSecret (cr_APIPassword c)) || negb (is_empty (cr_Token c))
             || negb (is_empty (cr_ClientID c)) || negb (is_empty (cr_ClientSecret c))
             || negb (is_empty (cr_Username c)) || negb (is_empty (cr_Password c))) ConnErrCredential
  else Err ConnErrCredential.

Definition secrets (c : Credential) : list string :=
  [cr_Token c; cr_ClientID c; cr_ClientSecret c; cr_Username c; cr_Password c; cr_APIKey c; cr_APIPassword c].

Definition ContainsSecret (c : Credential) (text : string) : bool :=
  existsb (λ value, negb (is_empty value) && Contains text value) (secrets c).

(** ** The preview's rate limit *)

(** [ValidationService.windows]; times as [s.now] gave them. *)
Abbreviation windows := (gmap uuid (list time)).

(** The suffix from the first instant after the cutoff. *)
Fixpoint expire_before (cutoff : time) (values : list time) : list time :=
  match values with
  | [] => []
  | v :: r => if After v cutoff then values else expire_before cutoff r
  end.

Definition swept (now : time) (w : windows) : windows :=
  omap (λ values, match expire_before (now - Minute) values with [] => None | l => Some l end) w.

Definition permit (actor : uuid) (now : time) (w : windows) : bool * windows :=
  let w := swept now w in
  let mine := default [] (w !! actor) in
  if (5 <=? length mine)%nat || (1000 <=? size w)%nat && bool_decide (w !! actor = None)
  then (false, w)
  else (true, <[actor := mine ++ [now]]> w).

(** The instants at which a sequence of calls was let through for one actor. *)
Fixpoint permitted (a : uuid) (w : windows) (calls : list (uuid * time)) : list time :=
  match calls with
  | [] => []
  | (actor, now) :: r =>
      let '(ok, w') := permit actor now w in
      (if ok && bool_decide (actor = a) then [now] else []) ++ permitted a w' r
  end.

(** The lock serialises the calls, and the clock does not run backwards. *)
Fixpoint ordered (from : time) (calls : list (uuid * time)) : Prop :=
  match calls with [] => True | (_, now) :: r => from <= now ∧ ordered now r end.

Lemma expire_before_split cutoff l :
  ∃ old, l = old ++ expire_before cutoff l ∧ Forall (λ v, v <= cutoff) old.
Proof.
  induction l as [|v l (old & IH & Hold)]; simpl; [by exists []|].
  unfold After. destruct (Z.ltb_spec cutoff v); [by exists []|].
  exists (v :: old). simpl. rewrite <-IH. split; [done|]. by constructor.
Qed.

Lemma lookup_swept now w a : default [] (swept now w !! a) = expire_before (now - Minute) (default [] (w !! a)).
Proof. unfold swept. rewrite lookup_omap. destruct (w !! a) as [l|]; simpl; [|done]. by destruct (expire_before _ l). Qed.

(** What has been let through splits into instants out of the window and the
    instants the window remembers. *)
Definition remembers (a : uuid) (now : time) (w : windows) (hist : list time) : Prop :=
  ∃ old, hist = old ++ default [] (w !! a) ∧ Forall (λ v, v <= now - Minute) old.

Lemma remembers_swept a now now' w hist :
  now <= now' → remembers a now w hist → remembers a now' (swept now' w) hist.
Proof.
  intros Hle (old & -> & Hold). destruct (expire_before_split (now' - Minute) (default [] (w !! a))) as (o & Ho & Hf).
  exists (old ++ o). rewrite lookup_swept, <-app_assoc, <-Ho. split; [done|].
  apply Forall_app. split; [|done]. eapply Forall_impl; [exact Hold|]. simpl. lia.
Qed.

(** Any six instants of the history span at least a minute. *)
Definition spaced (hist : list time) : Prop :=
  ∀ i s t, hist !! i = Some s → hist !! (i + 5)%nat = Some t → s + Minute <= t.

Lemma spaced_snoc a now w hist :
  remembers a now w hist → spaced hist → (length (default [] (w !! a)) < 5)%nat → spaced (hist ++ [now]).
Proof.
  intros (old & -> & Hold) Hs Hlen i s t Hi Ht.
  destruct (decide (i + 5 < length (old ++ default [] (w !! a)))%nat) as [Hlt|Hge].
  - rewrite lookup_app_l in Hi, Ht by lia. eauto.
  - apply lookup_lt_Some in Ht as Hlt. rewrite length_app in Hlt, Hge. simpl in Hlt. rewrite length_app in *.
    rewrite lookup_app_r in Ht by (rewrite length_app; lia). rewrite length_app in Ht.
    replace (i + 5 - (length old + length (default [] (w !! a))))%nat with 0%nat in Ht by lia. simplify_eq/=.
    rewrite lookup_app_l, lookup_app_l in Hi by (rewrite ?length_app; lia).
    rewrite Forall_lookup in Hold. specialize (Hold _ _ Hi). simpl in Hold. lia.
Qed.

Lemma permit_spec a actor now now0 w hist :
  now0 <= now → remembers a now0 w hist → spaced hist →
  let '(ok, w') := permit actor now w in
  let hist' := hist ++ (if ok && bool_decide (actor = a) then [now] else []) in
  remembers a now w' hist' ∧ spaced hist'.
Proof.
  intros Hle Hr Hs. unfold permit. apply (remembers_swept _ _ now) in Hr; [|done].
  destruct (_ || _) eqn:E; simpl; [by rewrite app_nil_r|].
  apply orb_false_iff in E as [E _].
  case_bool_decide as Ha; [subst a|].
  - split.
    + destruct Hr as (old & -> & Hold). exists old. rewrite lookup_insert_eq. simpl. by rewrite app_assoc.
    + eapply spaced_snoc; [done|done|]. by apply Nat.leb_gt.
  - rewrite app_nil_r. split; [|done]. destruct Hr as (old & -> & Hold). exists old.
    by rewrite lookup_insert_ne.
Qed.

Lemma permitted_spaced a calls w now hist :
  ordered now calls → remembers a now w hist → spaced hist → spaced (hist ++ permitted a w calls).
Proof.
  revert w now hist. induction calls as [|[actor t] calls IH]; intros w now hist; simpl.
  - intros. by rewrite app_nil_r.
  - intros [Hle Ho] Hr Hs. pose proof (permit_spec a actor t now w hist Hle Hr Hs) as H.
    destruct (permit actor t w) as [ok w']. destruct H as [? ?]. rewrite app_assoc. by eapply IH.
Qed.

(** The preview's limiter lets one member through at most five times in
    any minute, whoever else calls in between: a sixth passage comes a minute
    or more after the first. *)
Theorem permit_bounds a calls start i s t :
  ordered start calls →
  permitted a ∅ calls !! i = Some s → permitted a ∅ calls !! (i + 5)%nat = Some t → s + Minute <= t.
Proof.
  intros Ho. apply (permitted_spaced a calls ∅ start []); [done| |by intros ?].
  exists []. by rewrite lookup_empty.
Qed.

Lemma permit_bounds_witness : ∃ calls,
  permitted 1%N ∅ calls = [1; 2; 3; 4; 5; 61 * Second] ∧ 1 + Minute <= 61 * Second.
Proof.
  exists ((λ t, (1%N, t)) <$> [1; 2; 3; 4; 5; 6; 7; 61 * Second]).
  split; [by vm_compute|].
  apply (permit_bounds 1%N ((λ t, (1%N, t)) <$> [1; 2; 3; 4; 5; 6; 7; 61 * Second]) 0 0%nat);
    [simpl; unfold Second; lia|by vm_compute|by vm_compute].
Defined.

(** ** What the guards and [Disable] promise *)

(** An active connection with an unrevoked active credential. *)
Definition accepts_work (d : db) (scope id : uuid) (version : Z) : Prop :=
  ∃ c cv, connections d !! id = Some c ∧ cn_workspace c = scope ∧ cn_status c = "active" ∧
    cn_active_version c = Some version ∧ credential_versions d !! (scope, id, version) = Some cv ∧
    cv_revoked_at cv = None.

#[export] Instance RequireNewWork_spec scope id :
  TxSpec (RequireNewWork scope id) unchanged (λ w _ w' _, w' = w ∧ ∃ v, accepts_work w scope id v).
Proof.
  intros d w e. unfold RequireNewWork. wp_run by tx_done. guards. subst.
  match goal with H : usable _ _ _ _ = _ |- _ => unfold usable in H; sql_inv H end.
  match goal with H : connection_in _ _ _ = _ |- _ => apply connection_in_Some in H as [Hc Hw] end.
  simplify_eq. guards. destruct (cn_active_version v) as [n|] eqn:Hn; simpl in *; [|done].
  destruct (credential_versions w !! (_, id, n)) as [cv|] eqn:Hcv; [|done]. guards.
  simpl. split_and!; [done|env_solve|done|]. exists n, v, cv. by split_and!.
Qed.

#[export] Instance RequireVersion_spec scope id version :
  TxSpec (RequireVersion scope id version) unchanged (λ w _ w' _, w' = w ∧ accepts_work w scope id version).
Proof.
  intros d w e. unfold RequireVersion. wp_run by tx_done. guards. subst.
  match goal with H : connection_in _ _ _ ≫= _ = Some _ |- _ => apply bind_Some in H as (c' & [Hc' _]%connection_in_Some & Hv) end.
  simpl. split_and!; [done|env_solve|done|].
  match goal with H : accepts_work _ _ _ _ |- _ => destruct H as (c & cv & ? & ? & ? & ? & ? & ?) end.
  simplify_eq. exists c, cv. by split_and!.
Qed.

(** Everything a committed [Disable] did. *)
Record connection_disabled (actor scope id : uuid) (d d' : db) : Prop := {
  cdi_actor : ∃ m, memberships d !! (scope, actor) = Some m ∧ enabled d actor = true ∧
    Allows (mb_role m) "admin" = true;
  cdi_connection : ∃ c, connections d !! id = Some c ∧ cn_workspace c = scope ∧ cn_status c ≠ "disabled" ∧
    connections d' = <[id := c <| cn_status := "disabled" |>]> (connections d);
  cdi_jobs : ∃ t, jobs d' = (λ j, if queued_on scope id j then disabled_job t j else j) <$> jobs d;
  cdi_frame : operations d' = operations d ∧ resource_locks d' = resource_locks d ∧
    operation_events d' = operation_events d ∧ action_reviews d' = action_reviews d ∧
    credential_versions d' = credential_versions d ∧ memberships d' = memberships d ∧
    workspaces d' = workspaces d ∧ users d' = users d ∧ connection_grants d' = connection_grants d ∧
    resources d' = resources d ∧ dispatch_recovery_gate d' = dispatch_recovery_gate d;
}.

Lemma update_jobs_fmap p f now d n d' :
  update_jobs (λ _ _ j, p j) f now d = Some (n, d') →
  d' = d <| jobs := (λ j, if p j then f now j else j) <$> jobs d |>.
Proof.
  unfold update_jobs. destruct (exists_where _ _); [done|].
  destruct (update_where _ _ _) as [m t] eqn:Hu. intros [= _ <-]. unfold set_jobs.
  assert (Ht : t = (λ j, if p j then f now j else j) <$> jobs d); [|by rewrite Ht].
  apply (f_equal snd) in Hu. simpl in Hu. subst t. apply map_eq. intros k.
  rewrite map_lookup_imap, lookup_fmap. by destruct (jobs d !! k).
Qed.

Section disable.
Context `{U : UuidApi}.

#[export] Instance connectionAudit_spec actor scope id kind request :
  TxSpec (connectionAudit actor scope id kind request) rolled_back (λ w _ w' _, audit_only w w').
Proof. intros d w e. unfold connectionAudit. wp_run by tx_done. simpl. split_and!; [done|env_solve|]. by eexists. Qed.

Lemma Disable_spec actor scope id request d w e :
  wp (Disable actor scope id request)
     (atomic WsErrStore (λ d _ d',
        d' = d ∧ (∃ c, connections d !! id = Some c ∧ cn_status c = "disabled")
        ∨ connection_disabled actor scope id d d') d) (Txs d w e).
Proof.
  unfold Disable. repeat wp_step. all: try solve [simpl; auto].
  all: match goal with H : cn_status <$> _ = Some _ |- _ =>
         apply fmap_Some in H as (c & Hc & Hst) end.
  - apply connection_in_Some in Hc as [? ?]. left. split; [done|]. eauto.
  - right. match goal with H : set_status _ _ _ _ _ = Some _ |- _ =>
      unfold set_status in H; rewrite Hc in H; injection H as <- <- end.
    match goal with H : update_jobs _ _ _ _ = Some _ |- _ => apply update_jobs_fmap in H as -> end.
    match goal with H : audit_only _ _ |- _ => destruct H as [t ->] end.
    apply connection_in_Some in Hc as [? ?].
    split; simpl; [eauto|exists c; split_and!; congruence|eauto|by split_and!].
Qed.
End disable.
