(* ===== verification/Provider.v ===== *)
(** [internal/provider]: the values that cross the adapter ports
    ([capability.go], [snapshot.go], [mutation.go], [review.go]) and their pure checks. *)
From Stdlib Require Import Floats.SpecFloat.
From S2P Require Import Prelude GoBase Identifier.
Local Open Scope Z_scope.

Definition SnapshotCreate : string := "compute.server.snapshot_create".
Definition SnapshotDelete : string := "storage.snapshot.delete".

(** ** Bindings *)

Record Binding := MkBinding {
  bd_workspace : uuid; bd_connection : uuid; bd_family : string; bd_version : Z }.

#[export] Instance Binding_eq_dec : EqDecision Binding.
Proof. solve_decision. Defined.

(** ** What adapters return *)

Record Preconditions := MkPreconditions {
  pre_Fingerprint : bytes; pre_TargetName : string; pre_Allowed : bool; pre_HighImpact : bool }.

(** [[32]byte{}] *)
Definition zero_fingerprint : bytes := replicate 32 0%N.

Record Receipt := MkReceipt { rc_Outcome : string; rc_Reference : string }.
Record ActionObservation := MkActionObservation { ao_Outcome : string; ao_NativeEvidence : bool }.

#[export] Instance Preconditions_eq_dec : EqDecision Preconditions.
Proof. solve_decision. Defined.

Section provider.
Context `{U : UuidApi}.

Definition NewBinding (workspace connection : uuid) (family : string) (version : Z) : go Binding :=
  if negb (is_v7 workspace) || negb (is_v7 connection) || bool_decide (family = "")
     || (128 <? len family) || (version <? 1)
  then Err ProvErrBinding
  else Ok (MkBinding workspace connection family version).

Lemma NewBinding_Ok w c f v b : NewBinding w c f v = Ok b → b = MkBinding w c f v ∧ 1 <= v.
Proof. unfold NewBinding. intros H. destruct (_ || _) eqn:E; [done|]. guards. by simplify_eq. Qed.
End provider.

(** ** Observations

    A Go [float64] is its IEEE 754 value. *)

Record ServerDetails := MkServerDetails { pd_Region : string; pd_MachineType : string }.

Record Observation := MkObservation {
  ob_NativeID : string; ob_NativeStatus : string; ob_Status : string; ob_Name : string;
  ob_ObservedAt : time; ob_Details : ServerDetails }.

Record InventoryPage := MkInventoryPage { ip_Data : list Observation; ip_Next : string }.

(** A [time.Time] decoded from a provider keeps the offset it was written with. *)
Record stamp := MkStamp { sm_Time : time; sm_Offset : Z }.

(** [None] for the regions is the nil slice. *)
Record SnapshotObservation := MkSnapshotObservation {
  so_NativeID : string; so_Name : string; so_SourceNativeID : string; so_SourceType : string;
  so_Status : string; so_NativeStatus : string; so_StatusReason : string; so_CreatedAt : option stamp;
  so_NativeCreatedAt : string; so_CreationTimeReason : string; so_SizeBytes : option Z;
  so_SizeGB : option spec_float; so_MinimumDiskGB : option spec_float; so_Regions : option (list string);
  so_ObservedAt : time }.

Record SnapshotPage := MkSnapshotPage { sp_Data : list SnapshotObservation; sp_Next : string }.

Definition InvalidResponse : error := OutboundFailure "provider_response_invalid".

Definition CheckedObservation (o : Observation) : go Observation :=
  fail_if ((len (ob_NativeID o) =? 0) || (512 <? len (ob_NativeID o)) || (128 <? len (ob_NativeStatus o))
           || (200 <? RuneCountInString (ob_Name o)) || negb (ValidString (ob_Name o))
           || (128 <? len (pd_Region (ob_Details o))) || (128 <? len (pd_MachineType (ob_Details o))))
    InvalidResponse ;;
  Ok o.

(** [math.IsNaN(f) || math.IsInf(f, 0) || f < 0] *)
Definition bad_size (f : spec_float) : bool :=
  match f with
  | S754_nan | S754_infinity _ => true
  | S754_finite negative _ _ => negative
  | S754_zero _ => false
  end.

Definition CheckedSnapshot (o : SnapshotObservation) : go SnapshotObservation :=
  fail_if ((len (so_NativeID o) =? 0) || (512 <? len (so_NativeID o)) || (512 <? len (so_SourceNativeID o))
           || negb (ValidString (so_Name o)) || (200 <? RuneCountInString (so_Name o))
           || (128 <? len (so_NativeStatus o)) || (100 <? Z.of_nat (length (default [] (so_Regions o))))
           || (so_ObservedAt o =? zero_time)) InvalidResponse ;;
  fail_if (negb (bool_decide (so_SourceType o = "")) && negb (bool_decide (so_SourceType o = "compute.server"))
           && negb (bool_decide (so_SourceType o = "storage.volume"))
           || negb (Bool.eqb (bool_decide (so_SourceType o = "")) (bool_decide (so_SourceNativeID o = ""))))
    InvalidResponse ;;
  fail_if (existsb (λ size, match size with Some f => bad_size f | None => false end)
             [so_SizeGB o; so_MinimumDiskGB o]) InvalidResponse ;;
  fail_if (existsb (λ region, bool_decide (region = "") || (128 <? len region) || negb (ValidString region))
             (default [] (so_Regions o))) InvalidResponse ;;
  fail_if (match so_SizeBytes o with Some n => n <? 0 | None => false end || (64 <? len (so_NativeCreatedAt o))
           || negb (ValidString (so_NativeCreatedAt o))) InvalidResponse ;;
  fail_if (match so_CreatedAt o with Some t => sm_Time t =? zero_time | None => false end) InvalidResponse ;;
  Ok o.

(** ** Capability projections *)

Record Support := MkSupport { su_Action : string; su_Class : string }.
Record Capability := MkCapability { cp_Action : string; cp_Available : bool; cp_Reason : string }.

Definition capability_reason (implemented verified granted stateAllowed : list string) (c : Support) : string :=
  if negb (bool_decide (su_Action c ∈ implemented)) then "unsupported"
  else if negb (bool_decide (su_Action c ∈ verified)) then "unverified"
  else if negb (bool_decide (su_Class c ∈ granted)) then "denied"
  else if negb (bool_decide (su_Action c ∈ stateAllowed)) then "state_restricted"
  else "available".

Definition Effective (catalog : list Support) (implemented verified granted stateAllowed : list string)
  : list Capability :=
  (λ c, let reason := capability_reason implemented verified granted stateAllowed c in
        MkCapability (su_Action c) (bool_decide (reason = "available")) reason) <$> catalog.

Definition NormalizeStatus (native : string) (known : gmap string string) : string :=
  let s := default "" (known !! native) in
  if decide (s ∈ ["running"; "stopped"; "pending"; "failed"]) then s else "unknown".

Definition ServerCatalog : list Support := [
  MkSupport "compute.server.read" "read";
  MkSupport "compute.server.power_on" "operate";
  MkSupport "compute.server.shutdown" "operate";
  MkSupport "compute.server.power_off" "operate";
  MkSupport "compute.server.reboot" "operate";
  MkSupport SnapshotCreate "high_impact"].

Definition SnapshotCatalog : list Support := [
  MkSupport "storage.snapshot.read" "read";
  MkSupport SnapshotDelete "high_impact"].

(** A capability is available exactly when it is implemented, verified,
    granted and allowed by the resource's state: the projection never shows
    an action that one of the four sources withholds. *)
Theorem Effective_intersection catalog implemented verified granted stateAllowed c :
  c ∈ Effective catalog implemented verified granted stateAllowed →
  cp_Available c = true ↔
  ∃ s, s ∈ catalog ∧ su_Action s = cp_Action c ∧ cp_Reason c = "available" ∧
    su_Action s ∈ implemented ∧ su_Action s ∈ verified ∧ su_Class s ∈ granted ∧ su_Action s ∈ stateAllowed.
Proof.
  unfold Effective. intros (s & -> & Hs)%list_elem_of_fmap. simpl. rewrite bool_decide_eq_true.
  unfold capability_reason. split.
  - intros Hr. exists s. repeat (case_bool_decide; simpl in *; [|done]). done.
  - by intros (? & _ & _ & Hr & _).
Qed.

Lemma Effective_intersection_witness :
  cp_Available (MkCapability "compute.server.read" true "available") = true ∧
  ∃ s, s ∈ ServerCatalog ∧ su_Action s = "compute.server.read" ∧ su_Class s ∈ ["read"].
Proof.
  split; [reflexivity|].
  destruct (proj1 (Effective_intersection ServerCatalog ["compute.server.read"] ["compute.server.read"]
    ["read"] ["compute.server.read"] (MkCapability "compute.server.read" true "available")
    ltac:(vm_compute; constructor)) eq_refl) as (s & ? & ? & _ & _ & _ & ? & _).
  exists s. split_and!; done.
Defined.
