(* ===== verification/Reads.v ===== *)
(** The read projections of [internal/workspace] ([list.go], [members.go],
    [grant_view.go], [overview.go]) and [internal/connection] ([read.go],
    [metadata.go]), with the freshness of [inventory/status.go] they show.

    Each is one statement of PostgreSQL outside any transaction, so what it
    returns is a function of one committed database.  [ListMembers] reads the
    caller's membership in a statement of its own first; its query reads it
    again. *)
From S2P Require Import Prelude GoBase Identifier Roles Schema Tx TxLogic Wp AuditLog Membership Grants Provider Paging Sample.
Local Open Scope Z_scope.

(** ** Freshness *)

Record Freshness := MkFreshness { fr_LastSuccessAt : option time; fr_FailureCode : option string; fr_State : string }.

(** [time.Since] is the process clock; the last success is the database's. *)
Definition NewFreshness (now : time) (last : option time) (failure : option string) : Freshness :=
  let state := match last with
               | None => "never_observed"
               | Some last =>
                   let age := now - last in
                   if bool_decide (failure = None) && (0 <=? age) && (age <=? 5 * Minute) then "fresh" else "stale"
               end in
  MkFreshness last failure state.

(** [SELECT max(completed_at) ... WHERE p AND status='succeeded'] *)
Definition latest (a b : option time) : option time := union_with (λ x y, Some (Z.max x y)) a b.
Definition last_success (p : sync_run → bool) (d : db) : option time :=
  foldr latest None
    ((λ kv, if p kv.2 && bool_decide (sy_status kv.2 = "succeeded") then sy_completed_at kv.2 else None)
       <$> map_to_list (sync_runs d)).

(** [SELECT failure_code ... WHERE p ORDER BY generation_number DESC LIMIT 1] *)
Definition newest : relation Z := λ a b, b < a.
#[export] Instance newest_dec : RelDecision newest.
Proof. intros a b. unfold newest. apply _. Defined.
Definition latest_failure (p : sync_run → bool) (d : db) : option string :=
  head (order_by newest sy_generation_number (filter (λ y, p y = true) (map_to_list (sync_runs d)).*2))
  ≫= sy_failure_code.

(** ** Authority to read *)

(** The joins every connection-scoped reader repeats: an open workspace, the
    enabled caller's membership, and a grant with [read] on the connection. *)
Definition read_authority (d : db) (actor scope connection : uuid) : option (membership * list string) :=
  require (open_workspace d scope) ;;
  m ← memberships d !! (scope, actor);
  require (enabled d actor) ;;
  g ← connection_grants d !! (scope, connection, actor);
  require (bool_decide ("read" ∈ g)) ;;
  Some (m, g).

Lemma read_authority_Some d actor scope connection m g :
  read_authority d actor scope connection = Some (m, g) ↔
  open_workspace d scope = true ∧ enabled d actor = true ∧ memberships d !! (scope, actor) = Some m ∧
  connection_grants d !! (scope, connection, actor) = Some g ∧ "read" ∈ g.
Proof.
  unfold read_authority. split.
  - intros (? & ?%require_Some & (m' & Hm & (? & ?%require_Some & (g' & Hg & (? & Hr%require_Some & [= <- <-])
      %bind_Some)%bind_Some)%bind_Some)%bind_Some)%bind_Some. apply bool_decide_eq_true in Hr. done.
  - intros (-> & -> & -> & -> & Hr). simpl. rewrite bool_decide_true by done. done.
Qed.

(** [slices.DeleteFunc(grants, !WithinCeiling)] *)
Definition within_ceiling (role : string) (grants : list string) : list string :=
  filter (λ class, WithinCeiling role class = true) grants.

(** The rows of a table that become rows of a query, in no order. *)
Definition selected {K V A} `{Countable K} (f : K → V → option A) (m : gmap K V) : list A :=
  omap (λ kv, f kv.1 kv.2) (map_to_list m).

Lemma elem_of_selected {K V A} `{Countable K} (f : K → V → option A) (m : gmap K V) x :
  x ∈ selected f m ↔ ∃ k v, m !! k = Some v ∧ f k v = Some x.
Proof.
  unfold selected. rewrite list_elem_of_omap. split.
  - intros ([k v] & Hin%elem_of_map_to_list & Hf). eauto.
  - intros (k & v & Hm & Hf). exists (k, v). by rewrite elem_of_map_to_list.
Qed.

Lemma selected_keys {K V A I} `{Countable K} (f : K → V → option A) (key : A → I) (m : gmap K V) :
  (∀ k v k' v' x x', m !! k = Some v → m !! k' = Some v' → f k v = Some x → f k' v' = Some x' →
    key x = key x' → k = k') →
  NoDup (key <$> selected f m).
Proof.
  intros Hinj. unfold selected. pose proof (NoDup_fst_map_to_list m) as Hnd.
  assert (∀ k v, (k, v) ∈ map_to_list m → m !! k = Some v) as Hm by (intros ? ? ?; by apply elem_of_map_to_list).
  revert Hnd Hm. generalize (map_to_list m) as l. induction l as [|[k v] l IH]; simpl; [constructor|].
  intros [Hk Hnd]%NoDup_cons Hm. assert (∀ k v, (k, v) ∈ l → m !! k = Some v) as Hl
    by (intros; apply Hm; by apply elem_of_cons; right).
  destruct (f k v) as [x|] eqn:Hf; simpl; [|by apply IH]. constructor; [|by apply IH].
  intros (x' & Hx & Hin)%list_elem_of_fmap. apply list_elem_of_omap in Hin as ([k' v'] & Hin & Hf'). simpl in *.
  assert (k = k') as -> by (eapply (Hinj k v k' v'); eauto; apply Hm, elem_of_cons; by left).
  apply Hk. change k' with (fst (k', v')). by apply list_elem_of_fmap_2.
Qed.

(** ** [list.go] *)

(** Identifiers in PostgreSQL's order. *)
Abbreviation ascending := N.lt (only parsing).
#[export] Instance N_lt_trichotomy : Trichotomy N.lt.
Proof. intros x y. destruct (N.lt_trichotomy x y) as [|[|]]; auto. Qed.

Definition workspaces_of (user : uuid) (d : db) : list WorkspaceView :=
  selected (λ '(w, u) m,
    require (bool_decide (u = user)) ;;
    r ← workspaces d !! w;
    require (bool_decide (ws_closed_at r = None)) ;;
    Some (MkWorkspaceView w (ws_name r) (mb_role m))) (memberships d).

Definition List_workspaces (limit : Z) (user cursor : uuid) : txm (list WorkspaceView * option uuid) :=
  reject_if ((limit <? 1) || (100 <? limit)) WsErrInvalid ;;
  rows ← pool_exec WsErrStore (rd (λ _ d,
    take (S (Z.to_nat limit)) (order_by ascending vw_ID (beyond ascending vw_ID cursor (workspaces_of user d)))));
  let '(data, last) := cut (Z.to_nat limit) rows in
  mret (data, vw_ID <$> last).

(** ** [members.go] *)

Record Member := MkMember { me_UserID : uuid; me_DisplayName : string; me_Role : string; me_Version : Z }.

Definition members_of (actor scope : uuid) (d : db) : list Member :=
  selected (λ '(w, u) m,
    require (bool_decide (w = scope)) ;;
    r ← users d !! u;
    require (open_workspace d scope) ;;
    a ← memberships d !! (scope, actor);
    require (bool_decide (mb_role a ∈ ["owner"; "admin"])) ;;
    require (bool_decide (mb_role a = "owner") || bool_decide (mb_role m ∈ ["viewer"; "operator"])) ;;
    Some (MkMember u (us_display_name r) (mb_role m) (mb_version m))) (memberships d).

Definition ListMembers (actor scope : uuid) (limit : Z) (cursor : uuid) : txm (list Member * option uuid) :=
  reject_if ((limit <? 1) || (200 <? limit)) WsErrInvalid ;;
  ResolveMembership actor scope "admin" ;;
  rows ← pool_exec WsErrStore (rd (λ _ d,
    take (S (Z.to_nat limit)) (order_by ascending me_UserID (beyond ascending me_UserID cursor (members_of actor scope d)))));
  let '(data, last) := cut (Z.to_nat limit) rows in
  mret (data, me_UserID <$> last).

(** ** [grant_view.go] *)

Record GrantView := MkGrantView {
  gv_UserID : uuid; gv_Actions : list string; gv_AllowedActions : list string; gv_Editable : bool }.

Definition grant_view_row (actor scope connection target : uuid) (d : db)
  : option (string * string * list string * list string) :=
  m ← memberships d !! (scope, actor);
  require (enabled d actor) ;;
  c ← connection_in scope connection d;
  t ← memberships d !! (scope, target);
  require (enabled d target) ;;
  require (open_workspace d scope) ;;
  require (bool_decide (mb_role m ∈ ["owner"; "admin"])) ;;
  Some (mb_role m, mb_role t, granted d scope connection target, granted d scope connection actor).

Definition ReadGrantView (actor scope connection target : uuid) : txm GrantView :=
  '(role, targetRole, actions, own) ←
    pool_row WsErrNotFound WsErrStore (rd (λ _ d, grant_view_row actor scope connection target d));
  let editable := CanAssign role targetRole in
  mret (MkGrantView target actions
          (filter (λ action, editable && WithinCeiling targetRole action
                             && (bool_decide (role = "owner") || bool_decide (action ∈ own)) = true)
             ["read"; "refresh"; "operate"; "high_impact"])
          editable).

(** ** [metadata.go] *)

Record Metadata := MkMetadata {
  md_ID : uuid; md_WorkspaceID : uuid; md_Provider : string; md_APIFamily : string; md_AccountIdentity : string;
  md_RegionPolicy : list string; md_Label : string; md_Status : string; md_ActiveCredentialVersion : option Z;
  md_PermissionsVerifiedAt : option time }.

Definition metadata_row (id : uuid) (c : connection) : Metadata :=
  MkMetadata id (cn_workspace c) (cn_provider c) (cn_api_family c) (cn_account_identity c) (cn_region_policy c)
    (cn_label c) (cn_status c) (cn_active_version c) (cn_permissions_verified_at c).

Definition ReadMetadata (workspaceID connectionID : uuid) : txm Metadata :=
  pool_row ConnErrNotFound ConnErrStore (rd (λ _ d,
    c ← connection_in workspaceID connectionID d; Some (metadata_row connectionID c))).

(** ** [connection/read.go] *)

Record ConnectionView := MkConnectionView {
  cw_Metadata : Metadata; cw_Capabilities : list Capability; cw_Inventory : Freshness }.

(** A row as PostgreSQL returns it. *)
Record ConnectionRow := MkConnectionRow {
  cx_Metadata : Metadata; cx_verified : list string; cx_role : string; cx_grants : list string;
  cx_last : option time; cx_failure : option string }.

(** The refreshes of a connection's only scope, of whatever resource type. *)
Definition global_runs (scope connection : uuid) (y : sync_run) : bool :=
  bool_decide (sy_workspace y = scope) && bool_decide (sy_connection y = connection)
  && bool_decide (sy_scope y = "global").

Definition connection_row (actor scope target : uuid) (d : db) (id : uuid) (c : connection) : option ConnectionRow :=
  require (bool_decide (cn_workspace c = scope)) ;;
  '(m, g) ← read_authority d actor scope id;
  require (bool_decide (target = Nil) || bool_decide (id = target)) ;;
  Some (MkConnectionRow (metadata_row id c) (cn_verified_capabilities c) (mb_role m) g
          (last_success (global_runs scope id) d) (latest_failure (global_runs scope id) d)).

Definition connection_view (implemented : gmap string (list string)) (now : time) (x : ConnectionRow) : ConnectionView :=
  let m := cx_Metadata x in
  let verified := match md_PermissionsVerifiedAt m with Some _ => cx_verified x | None => [] end in
  let grants := within_ceiling (cx_role x) (cx_grants x) in
  MkConnectionView m
    (Effective ServerCatalog (default [] (implemented !! (md_Provider m +:+ "/" +:+ md_APIFamily m))) verified grants
       ["compute.server.read"])
    (NewFreshness now (cx_last x) (cx_failure x)).

Definition ReadAuthorized (actor scope target : uuid) (implemented : gmap string (list string)) (limit : Z) (cursor : uuid)
  : txm (list ConnectionView * option uuid) :=
  reject_if ((limit <? 1) || (200 <? limit)) WsErrInvalid ;;
  rows ← pool_exec WsErrStore (rd (λ _ d,
    take (S (Z.to_nat limit)) (order_by ascending (md_ID ∘ cx_Metadata) (beyond ascending (md_ID ∘ cx_Metadata) cursor
      (selected (connection_row actor scope target d) (connections d))))));
  now ← go_now;
  let '(data, last) := cut (Z.to_nat limit) (connection_view implemented now <$> rows) in
  reject_if (negb (bool_decide (target = Nil)) && bool_decide (data = [])) WsErrNotFound ;;
  mret (data, md_ID ∘ cw_Metadata <$> last).

(** ** [overview.go] *)

Record ConnectionHealth := MkConnectionHealth {
  ch_ID : uuid; ch_Label : string; ch_Provider : string; ch_AccountIdentity : string; ch_Status : string;
  ch_PermissionsVerifiedAt : option time; ch_Inventory : Freshness }.

Record Overview := MkOverview {
  ov_ConnectionCount : Z; ov_ResourceCount : Z; ov_PendingOperations : Z; ov_UnknownOperations : Z;
  ov_StaleConnections : Z; ov_Connections : list ConnectionHealth; ov_ConnectionsTruncated : bool }.

(** [WITH authority ..., allowed ...] *)
Definition allowed (actor scope : uuid) (d : db) : list (uuid * connection) :=
  selected (λ id c,
    require (bool_decide (cn_workspace c = scope)) ;;
    read_authority d actor scope id ;;
    Some (id, c)) (connections d).

(** [health.inventory_state], by the database's clock. *)
Definition inventory_state (now : time) (last : option time) (failure : option string) : string :=
  match last with
  | None => "never_observed"
  | Some last =>
      if bool_decide (failure = None) && (now - 5 * Minute <=? last) && (last <=? now) then "fresh" else "stale"
  end.

Definition health (now : time) (scope : uuid) (d : db) (x : uuid * connection) : ConnectionHealth :=
  let '(id, c) := x in
  let last := last_success (global_runs scope id) d in
  let failure := latest_failure (global_runs scope id) d in
  MkConnectionHealth id (cn_label c) (cn_provider c) (cn_account_identity c) (cn_status c) (cn_permissions_verified_at c)
    (MkFreshness last failure (inventory_state now last failure)).

(** [JOIN sync_runs s ON (...)=(...) WHERE s.status='succeeded']: at most one
    run has a resource's connection, type, scope and generation. *)
Definition published (d : db) (r : resource) : bool :=
  exists_where (λ _ y,
    bool_decide (sy_workspace y = rs_workspace r) && bool_decide (sy_connection y = rs_connection r)
    && bool_decide (sy_generation y = rs_generation r) && bool_decide (sy_resource_type y = rs_resource_type r)
    && bool_decide (sy_scope y = rs_scope r) && bool_decide (sy_status y = "succeeded")) (sync_runs d).

Definition overview_row (actor scope : uuid) (now : time) (d : db) : option Overview :=
  require (open_workspace d scope && bool_decide (is_Some (memberships d !! (scope, actor))) && enabled d actor) ;;
  let rows := order_by ascending fst (allowed actor scope d) in
  let readable (w c : uuid) := bool_decide (w = scope) && bool_decide (c ∈ rows.*1) in
  let checked := health now scope d <$> rows in
  let count := Z.of_nat (length rows) in
  Some (MkOverview count
    (count_where (λ _ r, readable (rs_workspace r) (rs_connection r) && bool_decide (rs_tombstoned_at r = None)
                         && published d r) (resources d))
    (count_where (λ _ o, readable (op_workspace o) (op_connection o)
                         && bool_decide (op_st o ∈ [Queued; Dispatching; WaitingProvider; Reconciling])) (operations d))
    (count_where (λ _ o, readable (op_workspace o) (op_connection o) && bool_decide (op_st o = Unknown)) (operations d))
    (Z.of_nat (length (filter (λ h, fr_State (ch_Inventory h) ≠ "fresh") checked)))
    (take 50 checked)
    (50 <? count)).

Definition ReadOverview (actor scope : uuid) : txm Overview :=
  pool_row WsErrNotFound WsErrStore (rd (overview_row actor scope)).

(** ** The paged readers *)

(** Identifiers of rows are not the nil one. *)
Definition members_named (d : db) : Prop :=
  ∀ w u, is_Some (memberships d !! (w, u)) → w ≠ Nil ∧ u ≠ Nil.
Definition connections_named (d : db) : Prop := connections d !! Nil = None.

(** The caller may list members at all. *)
Definition administers (actor scope : uuid) (d : db) : Prop :=
  open_workspace d scope = true ∧ ∃ m, memberships d !! (scope, actor) = Some m ∧ Allows (mb_role m) "admin" = true.

Lemma limit_ok lo hi n : lo <= n <= hi → (n <? lo) || (hi <? n) = false.
Proof. intros ?. apply orb_false_iff. rewrite !Z.ltb_ge. lia. Qed.

Section readers.
Variable limit : Z.
#[local] Abbreviation size := (Z.to_nat limit).

Lemma List_workspaces_reader user : 1 <= limit <= 100 →
  KeysetReader ascending vw_ID size members_named (λ _, True) (workspaces_of user) id
    (List_workspaces limit user) Nil Some.
Proof.
  intros Hl. split; [lia|..].
  - intros d _. apply selected_keys. intros [w u] m [w' u'] m' x x' _ _ Hx Hx' Hkey.
    sql_inv Hx. sql_inv Hx'. guards; by simplify_eq/=.
  - intros d Hok. exists Nil. split; [done|]. apply Forall_forall. intros x ([w u] & m & Hm & Hx)%elem_of_selected.
    sql_inv Hx. simpl. destruct (Hok w u); [by eexists|]. unfold Nil in *. lia.
  - intros pos d w e _. unfold List_workspaces. repeat read_prim; try done.
    exists pos, o. rewrite list_fmap_id. split; [done|]. split; [assumption|]. by destruct o.
  - intros pos k d w e _ _ _ He. unfold List_workspaces.
    erewrite run_bind by (by apply run_reject_if, limit_ok).
    erewrite run_bind by (by apply run_pool_exec). by destruct (cut _ _).
Qed.

Lemma ListMembers_reader actor scope : 1 <= limit <= 200 →
  KeysetReader ascending me_UserID size members_named (administers actor scope) (members_of actor scope) id
    (ListMembers actor scope limit) Nil Some.
Proof.
  intros Hl. split; [lia|..].
  - intros d _. apply selected_keys. intros [w u] m [w' u'] m' x x' _ _ Hx Hx' Hkey.
    sql_inv Hx. sql_inv Hx'. guards; by simplify_eq/=.
  - intros d Hok. exists Nil. split; [done|]. apply Forall_forall. intros x ([w u] & m & Hm & Hx)%elem_of_selected.
    sql_inv Hx. simpl. destruct (Hok w u); [by eexists|]. unfold Nil in *. lia.
  - intros pos d w e _. unfold ListMembers, ResolveMembership. repeat read_prim; try done.
    exists pos, o. rewrite list_fmap_id. split; [done|]. split; [assumption|]. by destruct o.
  - intros pos k d w e _ (Ho & m & Hm & Hr) _ He. unfold ListMembers, ResolveMembership.
    erewrite run_bind by (by apply run_reject_if, limit_ok).
    erewrite run_bind; [|erewrite run_bind; [by rewrite Hr|apply run_pool_row; [done|]; by rewrite Hm, Ho]].
    erewrite run_bind by (by apply run_pool_exec). by destruct (cut _ _).
Qed.

(** A view without what depends on the reader's clock. *)
Definition undated (v : ConnectionView) : ConnectionView :=
  MkConnectionView (cw_Metadata v) (cw_Capabilities v)
    (MkFreshness (fr_LastSuccessAt (cw_Inventory v)) (fr_FailureCode (cw_Inventory v)) "").

Definition connections_of (actor scope target : uuid) (implemented : gmap string (list string)) (d : db)
  : list ConnectionView :=
  undated ∘ connection_view implemented 0 <$> selected (connection_row actor scope target d) (connections d).

Lemma undated_view implemented now x : undated (connection_view implemented now x) = undated (connection_view implemented 0 x).
Proof. done. Qed.

Lemma connection_row_Some actor scope target d id c x : connection_row actor scope target d id c = Some x →
  cx_Metadata x = metadata_row id c ∧ cn_workspace c = scope ∧ (target = Nil ∨ id = target) ∧
  ∃ m, read_authority d actor scope id = Some (m, cx_grants x) ∧ cx_role x = mb_role m.
Proof. intros Hx. unfold connection_row in Hx. sql_inv Hx. guards; naive_solver. Qed.

Lemma connection_rows_keys actor scope target d :
  NoDup (md_ID ∘ cx_Metadata <$> selected (connection_row actor scope target d) (connections d)).
Proof.
  apply selected_keys. intros k v k' v' x x' _ _ (Hx & _)%connection_row_Some (Hx' & _)%connection_row_Some.
  simpl. by rewrite Hx, Hx'.
Qed.

Lemma ReadAuthorized_reader actor scope implemented : 1 <= limit <= 200 →
  KeysetReader ascending (md_ID ∘ cw_Metadata) size connections_named (λ _, True)
    (connections_of actor scope Nil implemented) undated (ReadAuthorized actor scope Nil implemented limit) Nil Some.
Proof.
  intros Hl. pose proof (connection_rows_keys actor scope Nil) as Hkeys. split; [lia|..].
  - intros d _. unfold connections_of. rewrite <-list_fmap_compose. apply Hkeys.
  - intros d Hok. exists Nil. split; [done|]. apply Forall_forall.
    intros v (x & -> & (id & c & Hc & Hx)%elem_of_selected)%list_elem_of_fmap.
    apply connection_row_Some in Hx as (Hx & _). simpl. rewrite Hx. simpl.
    assert (id ≠ Nil) by (intros ->; unfold connections_named in Hok; congruence). unfold Nil in *. lia.
  - intros pos d w e _. unfold ReadAuthorized. repeat read_prim; try done. simpl in *.
    rewrite cut_fmap in Heqp. exists pos, (undated <$> o). split; [done|].
    unfold connections_of. rewrite (page_fmap _ (md_ID ∘ cx_Metadata)) by done.
    fold (page ascending (md_ID ∘ cx_Metadata) size pos (selected (connection_row actor scope Nil d) (connections d))) in Heqp.
    injection Heqp as <- <-. rewrite <-list_fmap_compose, <-option_fmap_compose. split; [done|].
    by destruct (page _ _ _ _ _).2.
  - intros pos k d w e _ _ _ He. unfold ReadAuthorized.
    erewrite run_bind by (by apply run_reject_if, limit_ok).
    erewrite run_bind by (by apply run_pool_exec). erewrite run_bind by done. by destruct (cut _ _).
Qed.
End readers.

(** ** The overview *)

Lemma inventory_state_agrees now last failure :
  inventory_state now last failure = fr_State (NewFreshness now last failure).
Proof.
  unfold inventory_state, NewFreshness. destruct last as [t|]; simpl; [|done].
  replace (now - 5 * Minute <=? t) with (now - t <=? 5 * Minute).
  - replace (t <=? now) with (0 <=? now - t); [by rewrite <-!andb_assoc, (andb_comm (0 <=? now - t))|].
    apply eq_true_iff_eq. rewrite !Z.leb_le. lia.
  - apply eq_true_iff_eq. rewrite !Z.leb_le. lia.
Qed.

Lemma selected_fmap {K V A B C} `{Countable K} (f : K → V → option A) (g : K → V → option B) (p : A → C) (q : B → C)
    (m : gmap K V) :
  (∀ k v, m !! k = Some v → p <$> f k v = q <$> g k v) → p <$> selected f m = q <$> selected g m.
Proof.
  intros Hfg. unfold selected.
  assert (∀ k v, (k, v) ∈ map_to_list m → p <$> f k v = q <$> g k v) as Hl
    by (intros k v ?%elem_of_map_to_list; by apply Hfg).
  revert Hl. generalize (map_to_list m) as l. induction l as [|[k v] l IH]; intros Hl; simpl; [done|].
  specialize (Hl k v) as Hkv. rewrite elem_of_cons in Hkv. specialize (Hkv (or_introl eq_refl)).
  assert (p <$> omap (λ kv, f kv.1 kv.2) l = q <$> omap (λ kv, g kv.1 kv.2) l) as Hrest
    by (apply IH; intros; apply Hl, elem_of_cons; by right).
  destruct (f k v), (g k v); simpl in *; try discriminate Hkv; [|exact Hrest].
  injection Hkv as ->. f_equal. exact Hrest.
Qed.

(** A row of the connection list as the overview shows it. *)
Definition health_of (now : time) (x : ConnectionRow) : ConnectionHealth :=
  let m := cx_Metadata x in
  MkConnectionHealth (md_ID m) (md_Label m) (md_Provider m) (md_AccountIdentity m) (md_Status m)
    (md_PermissionsVerifiedAt m) (NewFreshness now (cx_last x) (cx_failure x)).

Lemma allowed_keys actor scope d : NoDup (allowed actor scope d).*1.
Proof. apply selected_keys. intros k v k' v' x x' _ _ Hx Hx' Hk. sql_inv Hx. sql_inv Hx'. exact Hk. Qed.

(** What the overview's rows are, in their order. *)
Lemma overview_rows actor scope now d :
  health now scope d <$> order_by ascending fst (allowed actor scope d) =
  health_of now <$> order_by ascending (md_ID ∘ cx_Metadata) (selected (connection_row actor scope Nil d) (connections d)).
Proof.
  rewrite <-(order_by_fmap ascending fst ch_ID), <-(order_by_fmap ascending (md_ID ∘ cx_Metadata) ch_ID);
    [|done|apply connection_rows_keys|by intros [? ?]|apply allowed_keys].
  f_equal. apply selected_fmap. intros id c _. unfold connection_row.
  destruct (bool_decide (cn_workspace c = scope)); simpl; [|done].
  destruct (read_authority d actor scope id) as [[m g]|]; simpl; [|done].
  unfold health_of. simpl. do 2 f_equal. unfold NewFreshness. f_equal. rewrite inventory_state_agrees. done.
Qed.

(** The overview summarises exactly the connections [ReadAuthorized] lists:
    their number, those whose inventory is not fresh, and the first fifty with
    the freshness the list itself would show at that instant; it says so when
    it leaves some out. *)
Lemma overview_summarises actor scope now d v : overview_row actor scope now d = Some v →
  let rows := health_of now <$> order_by ascending (md_ID ∘ cx_Metadata)
                (selected (connection_row actor scope Nil d) (connections d)) in
  ov_ConnectionCount v = Z.of_nat (length rows) ∧ ov_Connections v = take 50 rows ∧
  (ov_ConnectionsTruncated v = true ↔ ov_Connections v ≠ rows) ∧
  ov_StaleConnections v = Z.of_nat (length (filter (λ h, fr_State (ch_Inventory h) ≠ "fresh") rows)).
Proof.
  intros H rows. unfold overview_row in H. sql_inv H. simpl. rewrite overview_rows. fold rows.
  assert (length (order_by ascending fst (allowed actor scope d)) = length rows) as ->.
  { unfold rows. by rewrite <-overview_rows, length_fmap. }
  split_and!; [done|done| |done]. rewrite Z.ltb_lt. split.
  - intros Hlt Heq%(f_equal length). rewrite length_take in Heq. lia.
  - intros Hne. destruct (decide (50 < Z.of_nat (length rows))); [done|]. by rewrite take_ge in Hne by lia.
Qed.

(** ** The grant editor *)

(** The classes a view allows are exactly the ones [SetGrant] accepts. *)
Lemma grant_denied_true current target own actions :
  grant_denied current target own actions = true →
  CanAssign current target = false ∨
  ∃ a, a ∈ actions ∧ (WithinCeiling target a = false ∨ current = "admin" ∧ a ∉ own).
Proof.
  unfold grant_denied. intros H. destruct (CanAssign current target); [right|by left]. simpl in H.
  apply existsb_exists in H as (a & Ha%list_elem_of_In & H). exists a. split; [done|]. guards; auto.
Qed.

Lemma grant_view_row_Some actor scope connection target d role targetRole actions own :
  grant_view_row actor scope connection target d = Some (role, targetRole, actions, own) →
  ∃ m t, memberships d !! (scope, actor) = Some m ∧ memberships d !! (scope, target) = Some t ∧
    role = mb_role m ∧ targetRole = mb_role t ∧ (role = "owner" ∨ role = "admin") ∧
    enabled d actor = true ∧ enabled d target = true ∧ open_workspace d scope = true ∧
    is_Some (connection_in scope connection d) ∧ actions = granted d scope connection target ∧ own = granted d scope connection actor.
Proof.
  unfold grant_view_row. intros H. sql_inv H. guards.
  eexists _, _. split_and!; eauto. rewrite !elem_of_cons, elem_of_nil in *. naive_solver.
Qed.

Section editor.
Context `{U : UuidApi}.

(** What an offered set of classes means to [grant_denied]. *)
Lemma offered role targetRole own own' actions : role = "owner" ∨ role = "admin" → actions ⊆ grant_classes →
  (role = "admin" → own' = own) →
  let editable := CanAssign role targetRole in
  let allowed := filter (λ action, editable && WithinCeiling targetRole action
                             && (bool_decide (role = "owner") || bool_decide (action ∈ own)) = true)
             ["read"; "refresh"; "operate"; "high_impact"] in
  grant_denied role targetRole own' actions = false ↔
  editable = true ∧ actions ⊆ allowed.
Proof.
  intros Hrole Hsub Hown editable allowed. split.
  - intros [He Ha]%grant_denied_false. split; [done|]. intros a Hin. specialize (Ha a Hin) as [Hc Hin'].
    apply list_elem_of_filter. split; [|by apply Hsub]. unfold editable. rewrite He, Hc. simpl.
    destruct Hrole as [-> | ->]; [done|]. rewrite Hown in Hin' by done.
    by rewrite (bool_decide_true (a ∈ own)) by auto.
  - intros [He Ha]. destruct (grant_denied _ _ _ _) eqn:Hd; [|done]. exfalso.
    apply grant_denied_true in Hd as [Hd|(a & Hin & Hd)]; [unfold editable in He; congruence|].
    apply Ha, list_elem_of_filter in Hin as [Hb _]. unfold editable in *. destruct Hd as [Hc|[-> Hno]].
    + rewrite Hc, andb_false_r in Hb. done.
    + rewrite Hown in Hno by done. rewrite (bool_decide_false (a ∈ own)), andb_false_r in Hb by done. done.
Qed.

(** Authority that is there is found, unless the store fails. *)
Lemma memberInTx_present scope user d e m Q : member_row scope user 0 d = Some m →
  (∀ e', Q (Err WsErrStore) (Txs d d e')) → (∀ e', Q (Ok m) (Txs d d e')) → wp (memberInTx scope user) Q (Txs d d e).
Proof.
  intros Hm Hf Hok. unfold memberInTx. apply wp_query_row_rd; [auto|..].
  - intros e' _ Hn. change (member_row scope user 0 d = None) in Hn. congruence.
  - intros a e' _ Ha. change (member_row scope user 0 d = Some a) in Ha. assert (a = m) as -> by congruence. apply Hok.
Qed.

Lemma LockAuthority_present scope user d e m Q : member_row scope user 0 d = Some m → open_workspace d scope = true →
  Allows (mb_role m) "admin" = true →
  (∀ e', Q (Err WsErrStore) (Txs d d e')) → (∀ e', Q (Ok m) (Txs d d e')) → wp (LockAuthority user scope) Q (Txs d d e).
Proof.
  intros Hm Ho Ha Hf Hok. unfold LockAuthority. wp_step. wp_step; [auto|..].
  - match goal with H : lock_workspace _ _ _ = None |- _ => unfold lock_workspace in H; by rewrite Ho in H end.
  - apply wp_bind, (memberInTx_present _ _ _ _ m); [done|auto|]. intros e2.
    rewrite Ha. wp_step. wp_step; [done|]. apply wp_ret, Hok.
Qed.

(** [deny] reports its cause or that the store failed. *)
Lemma deny_answer actor scope connection target request cause Q d e :
  Q (Err WsErrStore) → Q (Err cause) →
  wp (deny actor scope connection target request cause) (λ r _, Q r) (Txs d d e).
Proof. intros. unfold deny. wp_run by done. Qed.

(** What [SetGrant] answers when the view [v] is right about [actions]. *)
Definition decided (v : GrantView) (actions : list string) (r : go unit) : Prop :=
  match r with
  | Ok _ => gv_Editable v = true ∧ actions ⊆ gv_AllowedActions v
  | Err err => err = WsErrStore ∨ err = WsErrDenied ∧ ¬ (gv_Editable v = true ∧ actions ⊆ gv_AllowedActions v)
  end.

(** The grant editor and its enforcement agree: on the database
    [ReadGrantView] was read from, [SetGrant] grants a well-formed set of
    classes exactly when the view calls the member editable and allows every
    class of the set; it denies it otherwise, and its only other answer is
    that the store failed. *)
Theorem grant_view_exact actor scope connection target actions request d w e s1 v w' e' r s2 :
  ReadGrantView actor scope connection target (Txs d w e) = (Ok v, s1) →
  actions ⊆ grant_classes → NoDup actions → (actions ≠ [] → "read" ∈ actions) →
  SetGrant actor scope connection target actions request (Txs d w' e') = (r, s2) →
  decided v actions r.
Proof.
  intros Hview Hsub Hnd Hread. revert r s2.
  assert (wp (ReadGrantView actor scope connection target) (λ r _, match r with
    | Ok v => ∃ role targetRole actions own, grant_view_row actor scope connection target d = Some (role, targetRole, actions, own) ∧
        v = MkGrantView target actions
          (filter (λ action, CanAssign role targetRole && WithinCeiling targetRole action
                             && (bool_decide (role = "owner") || bool_decide (action ∈ own)) = true)
             ["read"; "refresh"; "operate"; "high_impact"]) (CanAssign role targetRole)
    | Err _ => True end) (Txs d w e)) as Hwp by (unfold ReadGrantView; repeat read_prim; naive_solver).
  apply (wp_elim _ _ _ _ _ Hwp) in Hview as (role & targetRole & held & own & Hrow & ->).
  apply grant_view_row_Some in Hrow as (m & t & Hm & Ht & -> & -> & Hrole & He & Het & Ho & [c Hc] & -> & ->).
  pose proof (λ own, offered (mb_role m) (mb_role t) (granted d scope connection actor) own actions Hrole Hsub) as Hoffer.
  simpl in *. intros r s2. apply (wp_elim _ (λ r _, decided _ actions r)).
  clear Hwp. set (v := MkGrantView _ _ _ _).
  assert (decided v actions (Err WsErrStore)) as Hstore by (by left).
  assert (length actions ≤ 4)%nat by (change 4%nat with (length grant_classes); by apply submseteq_length, NoDup_submseteq).
  assert (forallb (WithinCeiling "owner") actions = true) as Hceil.
  { apply forallb_forall. intros a Ha%list_elem_of_In%Hsub. unfold grant_classes in Ha.
    rewrite !elem_of_cons, elem_of_nil in Ha. naive_solver. }
  assert (member_row scope actor 0 d = Some m) by (by apply member_row_Some).
  assert (member_row scope target 0 d = Some t) by (by apply member_row_Some).
  assert (Allows (mb_role m) "admin" = true) as Hadm by (by destruct Hrole as [-> | ->]). clear Hrole.
  assert ((4 <? length actions)%nat = false) as Hlen by (by apply Nat.ltb_ge).
  assert ((0 <? length actions)%nat && negb (bool_decide ("read" ∈ actions)) = false) as Hread'.
  { destruct actions; [done|]. by rewrite (bool_decide_true ("read" ∈ _)) by auto. }
  unfold SetGrant, authority_failed. rewrite Hlen, Hceil, (bool_decide_true (NoDup actions)), Hread' by done.
  repeat lazymatch goal with
  | |- wp (deny _ _ _ _ _ _) _ _ => apply deny_answer
  | |- wp (LockAuthority _ _) _ _ => eapply LockAuthority_present; [done..|intros ?|intros ?]
  | |- wp (memberInTx _ _) _ _ => eapply memberInTx_present; [done..|intros ?|intros ?]
  | _ => wp_step
  end; try done.
  - rewrite Hc, bool_decide_true in * by (by eexists). done.
  - right. split; [done|]. intros Hv. simpl in Hv. rewrite <-Hoffer in Hv by eassumption. congruence.
  - by eapply Hoffer.
Qed.
End editor.

Lemma grant_view_exact_witness :
  let view := ReadGrantView carol wid cid dave (sample_txs sample_db 50) in
  let set := @SetGrant rfc9562 carol wid cid dave ["read"; "operate"] "request-1" (sample_txs sample_db 50) in
  is_ok view.1 = true ∧ is_ok set.1 = true ∧
  match view.1 with Ok v => decided v ["read"; "operate"] set.1 | Err _ => False end.
Proof.
  split; [vm_compute; reflexivity|]. split; [vm_compute; reflexivity|].
  destruct (ReadGrantView carol wid cid dave (sample_txs sample_db 50)) as [[v|err] s1] eqn:Hv;
    [|vm_compute in Hv; discriminate Hv].
  destruct (@SetGrant rfc9562 carol wid cid dave ["read"; "operate"] "request-1" (sample_txs sample_db 50)) as [r s2] eqn:Hs.
  refine (@grant_view_exact rfc9562 carol wid cid dave ["read"; "operate"] "request-1" _ _ _ _ v _ _ r s2 Hv _ _ _ Hs).
  - apply (bool_decide_unpack (["read"; "operate"] ⊆ grant_classes)). vm_compute. exact I.
  - apply (bool_decide_unpack (NoDup ["read"; "operate"])). vm_compute. exact I.
  - intros _. left.
Defined.
