(* ===== verification/Intent.v ===== *)
(** [internal/operation]: the pure decisions of the package ([intent.go],
    [state.go], [idempotency.go], [policy.go], [snapshot.go], [budget.go],
    [receipt.go]). *)
From S2P Require Import Prelude GoBase Sha256 Identifier Schema Provider.
Local Open Scope Z_scope.

(** ** The state machine ([state.go]) *)

Definition Allowed (from to : op_state) : bool :=
  match from, to with
  | Queued, (Dispatching | Cancelled | Failed) => true
  | Dispatching, (WaitingProvider | Reconciling | Succeeded | Failed) => true
  | WaitingProvider, (WaitingProvider | Reconciling | Succeeded | Failed) => true
  | Reconciling, (WaitingProvider | Reconciling | Succeeded | Failed | Unknown) => true
  | Unknown, Reconciling => true
  | _, _ => false
  end.

Definition terminal (s : op_state) : bool :=
  match s with Succeeded | Failed | Cancelled => true | _ => false end.

(** The provider may have been asked: the marker was written and no outcome is known. *)
Definition in_flight (s : op_state) : bool :=
  match s with Dispatching | WaitingProvider | Reconciling => true | _ => false end.

(** ** Actions ([snapshot.go]) *)

Definition snapshotAction (action : string) : bool :=
  bool_decide (action = SnapshotCreate) || bool_decide (action = SnapshotDelete).

Definition targetType (action : string) : string :=
  if decide (action = SnapshotDelete) then "storage.snapshot" else "compute.server".

Definition factoryKey (family action : string) : string :=
  if snapshotAction action then (family ++ ":" ++ action)%string else family.

(** ** Intents ([intent.go]) *)

(** [Parameters] is a pointer to an empty struct. *)
Record Intent := MkIntent { it_Action : string; it_Parameters : option unit }.

Definition actions : list string :=
  ["compute.server.power_on"; "compute.server.shutdown"; "compute.server.power_off";
   "compute.server.reboot"; "compute.server.snapshot_create"; "storage.snapshot.delete"].

Definition Validate (i : Intent) : go unit :=
  match it_Parameters i with
  | None => Err OpErrInvalid
  | Some _ => if decide (it_Action i ∈ actions) then Ok tt else Err OpErrInvalid
  end.

(** The intent column of a review, by its CHECK the object
    [{"action": action, "parameters": {}}], as [DecodeIntent] reads it. *)
Definition stored_intent (action : string) : Intent := MkIntent action (Some tt).
Definition DecodeStored (action : string) : go Intent :=
  Validate (stored_intent action) ;; Ok (stored_intent action).

Section digest.
Context `{U : UuidApi}.

(** [json.Marshal] of the digest's struct: field names and values need no escape. *)
Definition member (name value : string) : string :=
  (String "034" name ++ String "034" (String ":" (String "034" value)) ++ String "034" "")%string.

Definition digest_data (i : Intent) (workspace actor connection target review : uuid) : string :=
  ("{" ++ member "Workspace" (uuid_String workspace)
   ++ "," ++ member "Actor" (uuid_String actor)
   ++ "," ++ member "Connection" (uuid_String connection)
   ++ "," ++ member "Target" (uuid_String target)
   ++ "," ++ member "Review" (uuid_String review)
   ++ "," ++ String "034" "Intent" ++ String "034" ":{" ++ member "action" (it_Action i)
   ++ "," ++ String "034" "parameters" ++ String "034" ":{}}}")%string.

Definition Digest (i : Intent) (workspace actor connection target review : uuid) : go bytes :=
  Validate i ;;
  fail_if (negb (forallb is_v7 [workspace; actor; connection; target; review])) OpErrInvalid ;;
  Ok (Sum256 (string_bytes (digest_data i workspace actor connection target review))).
End digest.

(** ** Idempotency keys ([idempotency.go]) *)

Definition key_char (c : ascii) : bool := is_alnum c || is_one_of "._:-" c.

(** The loop ranges over runes; a byte above 127 is in no accepted class. *)
Definition ValidKey (key : string) : bool :=
  negb (len key =? 0) && negb (128 <? len key) && string_forallb key_char key.

(** ** Installation policy ([policy.go]) *)

Record Policy := MkPolicy { po_allowed : list string; po_version : Z }.

(** [binary.BigEndian.Uint64(h[:8])] *)
Definition be_uint64 (h : bytes) : Z := Z.of_N (foldl (λ acc b, acc * 256 + b)%N 0%N (take 8 h)).

Definition string_le (a b : string) : Prop := String.leb a b = true.
#[export] Instance string_le_dec : RelDecision string_le.
Proof. intros a b. unfold string_le. apply _. Defined.

Fixpoint join (sep : string) (l : list string) : string :=
  match l with
  | [] => ""
  | [x] => x
  | x :: r => (x ++ sep ++ join sep r)%string
  end.

Definition NewPolicy (switches qualified : list string) : Policy :=
  let keys := merge_sort string_le switches in
  MkPolicy (filter (λ k, k ∈ qualified) keys)
    (Z.land (be_uint64 (Sum256 (string_bytes (join (String "010" "") keys)))) 9223372036854775807).

Definition permits (p : Policy) (family action : string) : bool :=
  bool_decide ((family ++ ":" ++ action)%string ∈ po_allowed p).

Definition policyVersion (p : option Policy) (workspace : Z) : Z :=
  match p with
  | None => workspace
  | Some p =>
      Z.land (be_uint64 (Sum256 (string_bytes
        (FormatInt workspace ++ ":" ++ FormatInt (po_version p))%string))) 4611686018427387903 + 1
  end.

(** ** Budget keys ([budget.go]) *)

Definition quotaKey (brand family account : string) : string :=
  hex (Sum256 (string_bytes (brand ++ String "000" (family ++ String "000" account))%string)).

(** ** Receipts ([receipt.go]) *)

Definition nativeReference (s : string) : bool := match_code "._:-" 127 s.

Fixpoint split_on (c : ascii) (s : string) : list string :=
  match s with
  | EmptyString => [EmptyString]
  | String d r =>
      if decide (d = c) then EmptyString :: split_on c r
      else match split_on c r with x :: l => String d x :: l | [] => [String d EmptyString] end
  end.

(** One to three native references separated by slashes. *)
Definition snapshotReference (s : string) : bool :=
  let parts := split_on "/" s in forallb nativeReference parts && (length parts <=? 3)%nat.

(** A submission: the receipt, or the error of the call. *)
Definition classifyReceipt (r : go Receipt) : op_state * option string :=
  match r with
  | Err _ => (Reconciling, None)
  | Ok r =>
      if bool_decide (rc_Outcome r = "rejected") && bool_decide (rc_Reference r = "") then (Failed, None)
      else if bool_decide (rc_Outcome r = "accepted") && nativeReference (rc_Reference r)
      then (WaitingProvider, Some (rc_Reference r))
      else (Reconciling, None)
  end.

Definition classifyActionReceipt (action : string) (r : go Receipt) : op_state * option string :=
  match r with
  | Ok rc =>
      if snapshotAction action && bool_decide (rc_Outcome rc = "accepted") && snapshotReference (rc_Reference rc)
      then (WaitingProvider, Some (rc_Reference rc))
      else classifyReceipt r
  | Err _ => classifyReceipt r
  end.

(** The outcome [observe] derives from an observation. *)
Definition observed_state (referenced : bool) (o : go ActionObservation) : op_state :=
  match o with
  | Err _ => Reconciling
  | Ok o =>
      if decide (ao_Outcome o = "pending") then if referenced then WaitingProvider else Reconciling
      else if decide (ao_Outcome o = "succeeded") then if ao_NativeEvidence o then Succeeded else Reconciling
      else if decide (ao_Outcome o = "failed") then if ao_NativeEvidence o then Failed else Reconciling
      else if decide (ao_Outcome o = "unknown") then Unknown
      else Reconciling
  end.

(** ** Properties *)

Lemma app_inj_length (a a' b b' : string) :
  String.length a = String.length a' → (a ++ b)%string = (a' ++ b')%string → a = a' ∧ b = b'.
Proof.
  revert a'; induction a as [|c a IH]; intros [|c' a']; simpl; try done.
  intros [= Hl] [= -> H]. by destruct (IH _ Hl H) as [-> ->].
Qed.

Lemma app_tail_inj (a a' t : string) : (a ++ t)%string = (a' ++ t)%string → a = a'.
Proof.
  intros H. eapply (app_inj_length a a' t t); [|done].
  apply (f_equal String.length) in H. rewrite !length_app_string in H. lia.
Qed.

Section properties.
Context `{U : UuidApi}.

(** One field of the preimage: values of one length are equal, and so are the rests. *)
Lemma member_inj name a b s t :
  String.length a = String.length b →
  (member name a ++ s)%string = (member name b ++ t)%string → a = b ∧ s = t.
Proof.
  intros Hl H. apply app_inj_length in H as [H ->].
  - split; [|done]. unfold member in H. apply app_inj_length in H as [_ H]; [|done].
    injection H as H. by apply app_tail_inj in H.
  - unfold member. repeat (simpl; rewrite ?length_app_string). by rewrite Hl.
Qed.

Lemma field_inj name u v s t :
  (u < uuid_limit)%N → (v < uuid_limit)%N →
  ("," ++ member name (uuid_String u) ++ s)%string = ("," ++ member name (uuid_String v) ++ t)%string →
  u = v ∧ s = t.
Proof.
  intros Hu Hv [_ H]%app_inj_length; [|done].
  apply member_inj in H as [H ->]; [|by rewrite !uuid_String_length]. by apply uuid_String_inj in H.
Qed.

Lemma digest_data_inj i i' w a c t r w' a' c' t' r' :
  Forall (λ u, u < uuid_limit)%N [w; a; c; t; r; w'; a'; c'; t'; r'] →
  digest_data i w a c t r = digest_data i' w' a' c' t' r' →
  it_Action i = it_Action i' ∧ [w; a; c; t; r] = [w'; a'; c'; t'; r'].
Proof.
  intros Hb H. rewrite !Forall_cons in Hb. unfold digest_data in H.
  apply app_inj_length in H as [_ H]; [|done].
  apply member_inj in H as [Hw H]; [|by rewrite !uuid_String_length].
  apply uuid_String_inj in Hw as <-; [|naive_solver..].
  do 4 (apply field_inj in H as [<- H]; [|naive_solver..]).
  split; [|done]. do 3 (apply app_inj_length in H as [_ H]; [|done]).
  apply member_inj in H as [H _]; [done|].
  apply (f_equal String.length) in H. rewrite !length_app_string in H. unfold member in H.
  repeat (simpl in H; rewrite ?length_app_string in H). lia.
Qed.

(** The digest binds the reviewed intent to its workspace, actor,
    connection, target and review: two calls that agree on the digest agree on
    all of them, unless their two preimages are a SHA-256 collision. *)
Theorem Digest_binds i i' w a c t r w' a' c' t' r' h :
  Forall (λ u, u < uuid_limit)%N [w; a; c; t; r; w'; a'; c'; t'; r'] →
  Digest i w a c t r = Ok h → Digest i' w' a' c' t' r' = Ok h →
  i = i' ∧ [w; a; c; t; r] = [w'; a'; c'; t'; r'] ∨
  (digest_data i w a c t r ≠ digest_data i' w' a' c' t' r' ∧
   Sum256 (string_bytes (digest_data i w a c t r)) = Sum256 (string_bytes (digest_data i' w' a' c' t' r'))).
Proof.
  intros Hb. unfold Digest, mbind, result_bind, Validate, fail_if.
  destruct i as [x [[]|]], i' as [x' [[]|]]; simpl; try done.
  case_decide; [|done]. case_decide; [|done]. destruct (negb _); [done|]. destruct (negb _); [done|].
  intros Hh Hh'. apply (inj Ok) in Hh, Hh'. rewrite <-Hh' in Hh. destruct (decide (digest_data (MkIntent x (Some tt)) w a c t r =
    digest_data (MkIntent x' (Some tt)) w' a' c' t' r')) as [He|Hn]; [left|right; exact (conj Hn Hh)].
  clear Hh Hh'.
  apply digest_data_inj in He as [Hx ?]; [|done]. simpl in Hx. by subst.
Qed.
End properties.

(** When a receipt fails an operation, and when it is awaited. *)
Lemma classified action r to ref : classifyActionReceipt action r = (to, ref) →
  (to = Failed ↔ ∃ rc, r = Ok rc ∧ rc_Outcome rc = "rejected" ∧ rc_Reference rc = "") ∧
  (to = WaitingProvider → ∃ rc, r = Ok rc ∧ rc_Outcome rc = "accepted").
Proof.
  unfold classifyActionReceipt, classifyReceipt. destruct r as [[o x]|err]; simpl.
  - intros Hc. repeat case_match; simplify_eq/=; guards; subst; split; naive_solver.
  - intros Hc. simplify_eq. split; naive_solver.
Qed.

(** Only proof of no effect fails an operation, and only an acceptance
    with a well-formed native reference is awaited; every other answer to a
    submission, errors included, is left for reconciliation.  Whatever the
    answer, the next state is one the machine allows from [dispatching]. *)
Theorem classifyActionReceipt_conservative action r to ref :
  classifyActionReceipt action r = (to, ref) →
  Allowed Dispatching to = true ∧
  (to = Failed ↔ ∃ rc, r = Ok rc ∧ rc_Outcome rc = "rejected" ∧ rc_Reference rc = "") ∧
  (to = WaitingProvider ↔ is_Some ref) ∧
  (∀ x, ref = Some x → ∃ rc, r = Ok rc ∧ rc_Outcome rc = "accepted" ∧ x = rc_Reference rc ∧
     (nativeReference x = true ∨ snapshotAction action = true ∧ snapshotReference x = true)).
Proof.
  unfold classifyActionReceipt, classifyReceipt. destruct r as [[o x]|err]; simpl.
  - intros Hc. repeat case_match; simplify_eq/=; guards; subst; split_and!; naive_solver.
  - intros Hc. simplify_eq. split_and!; naive_solver.
Qed.

Lemma classifyActionReceipt_conservative_witness :
  classifyActionReceipt "compute.server.reboot" (Ok (MkReceipt "accepted" "action-17"))
    = (WaitingProvider, Some "action-17") ∧ Allowed Dispatching WaitingProvider = true.
Proof.
  split; [vm_compute; reflexivity|].
  apply (classifyActionReceipt_conservative "compute.server.reboot" (Ok (MkReceipt "accepted" "action-17"))
           WaitingProvider (Some "action-17")). vm_compute. reflexivity.
Defined.

Lemma Digest_binds_witness :
  let i := stored_intent "compute.server.reboot" in
  let ids := [sample_id 1; sample_id 2; sample_id 3; sample_id 4; sample_id 5] in
  let data := digest_data (U := rfc9562) i (sample_id 1) (sample_id 2) (sample_id 3) (sample_id 4) (sample_id 5) in
  i = i ∧ ids = ids ∨ data ≠ data ∧ Sum256 (string_bytes data) = Sum256 (string_bytes data).
Proof.
  apply (Digest_binds (U := rfc9562) _ _ _ _ _ _ _ _ _ _ _ _
    (Sum256 (string_bytes (digest_data (U := rfc9562) (stored_intent "compute.server.reboot")
       (sample_id 1) (sample_id 2) (sample_id 3) (sample_id 4) (sample_id 5)))));
    [repeat constructor|vm_compute; reflexivity|vm_compute; reflexivity].
Defined.
