(* ===== verification/Prog.v ===== *)
(** Programs that leave the process: transactions and calls to provider
    adapters in the order the code makes them.

    A [prog A] is what one goroutine does.  Between two of its steps other
    processes may commit anything; an adapter may answer anything.  The calls
    are the ports of [internal/provider]; [CSubmit] also carries, as a ghost,
    the operation it is made for.  The outbound budget that wraps each call
    ([internal/platform/outbound/budget.go]) can only turn it into an error
    before it leaves, so it is part of the answer. *)
From S2P Require Import Prelude GoBase Identifier Schema Tx Connection Provider.
Local Open Scope Z_scope.

Inductive call :=
| CReviewer (key : string) (b : Binding)
| CInspect (b : Binding) (quota action native : string)
| CMutation (key : string) (b : Binding)
| CSubmit (op : uuid) (b : Binding) (quota action native : string) (fingerprint : bytes)
| CObserve (b : Binding) (quota action native : string) (reference : option string)
| CCtxErr
| CCause
| CReader (b : Binding)
| CSnapshots (b : Binding)
| CPage (b : Binding) (cursor : string)
| CSnapshotPage (b : Binding) (cursor : string)
| CPermit (actor : uuid)
| CValidate (family : string) (credential : Credential)
| CNow.

#[export] Instance call_eq_dec : EqDecision call.
Proof. solve_decision. Defined.

(** A factory yields an adapter or not; [ctx.Err()] is nil or not;
    [context.Cause(ctx)] is nil or the error that ended the context.
    [CPermit] is the preview limiter's decision ([Connection.permit] is its
    state), [CValidate] a validator's account and verified actions, [CNow] the
    process clock. *)
Definition resp (c : call) : Type :=
  match c with
  | CReviewer _ _ | CMutation _ _ | CCtxErr | CReader _ | CSnapshots _ | CPermit _ => bool
  | CValidate _ _ => go (string * list string)
  | CNow => time
  | CCause => option error
  | CPage _ _ => go InventoryPage
  | CSnapshotPage _ _ => go SnapshotPage
  | CInspect _ _ _ _ => go Preconditions
  | CSubmit _ _ _ _ _ _ => go Receipt
  | CObserve _ _ _ _ _ => go ActionObservation
  end.

Inductive prog (A : Type) : Type :=
| Done (r : go A)
| Txn {B : Type} (t : txm B) (k : go B → prog A)
| Call (c : call) (k : resp c → prog A).
Arguments Done {A} r.
Arguments Txn {A B} t k.
Arguments Call {A} c k.

#[export] Instance prog_ret : MRet prog := λ A a, Done (Ok a).

Fixpoint prog_bind_ {A B} (k : A → prog B) (p : prog A) : prog B :=
  match p with
  | Done (Ok a) => k a
  | Done (Err e) => Done (Err e)
  | Txn t h => Txn t (λ r, prog_bind_ k (h r))
  | Call c h => Call c (λ r, prog_bind_ k (h r))
  end.
#[export] Instance prog_bind : MBind prog := @prog_bind_.

(** A transaction whose error ends the program, and one whose error is inspected. *)
Definition tx {A} (t : txm A) : prog A := Txn t Done.
Definition tx_try {A} (t : txm A) : prog (go A) := Txn t (λ r, Done (Ok r)).
Definition ask (c : call) : prog (resp c) := Call c (λ r, Done (Ok r)).
Definition pthrow {A} (e : error) : prog A := Done (Err e).
Definition preject (b : bool) (e : error) : prog unit := if b then pthrow e else mret tt.

(** ** One run of a program among others *)

(** What the outside does at step [i]: the environment of a transaction, the
    answer to a call, and the commits of other processes before the step. *)
Record world := World {
  wo_env : nat → env;
  wo_answer : nat → ∀ c, resp c;
  wo_meddle : nat → db → db }.

Record run_result (A : Type) := RunResult { rr_result : go A; rr_db : db; rr_calls : list call }.
Arguments RunResult {A} _ _ _.
Arguments rr_result {A} _.
Arguments rr_db {A} _.
Arguments rr_calls {A} _.

Fixpoint run {A} (w : world) (i : nat) (p : prog A) (d : db) : run_result A :=
  match p with
  | Done r => RunResult r d []
  | Txn t k =>
      let d := wo_meddle w i d in
      let '(r, s) := t (Txs d d (wo_env w i)) in
      run w (S i) (k r) (tx_db s)
  | Call c k =>
      let o := run w (S i) (k (wo_answer w i c)) (wo_meddle w i d) in
      RunResult (rr_result o) (rr_db o) (c :: rr_calls o)
  end.

(** [x, err := p] where the caller inspects [err] itself. *)
Fixpoint pattempt {A} (p : prog A) : prog (go A) :=
  match p with
  | Done r => Done (Ok r)
  | Txn t k => Txn t (λ r, pattempt (k r))
  | Call c k => Call c (λ r, pattempt (k r))
  end.

(** ** What every step of a program satisfies, whatever is answered *)

Fixpoint each {A} (P : ∀ B, txm B → Prop) (C : call → Prop) (p : prog A) : Prop :=
  match p with
  | Done _ => True
  | Txn t k => P _ t ∧ ∀ r, each P C (k r)
  | Call c k => C c ∧ ∀ r, each P C (k r)
  end.

Lemma each_bind {A B} P C (p : prog A) (k : A → prog B) :
  each P C p → (∀ a, each P C (k a)) → each P C (p ≫= k).
Proof.
  intros Hp Hk. induction p as [[a|e]|D t h IH|c h IH]; simpl in *; [auto|done| |]; intuition auto.
Qed.

Lemma each_attempt {A} P C (p : prog A) : each P C p → each P C (pattempt p).
Proof. intros Hp. induction p as [r|D t h IH|c h IH]; simpl in *; [done| |]; intuition auto. Qed.

Lemma each_tx {A} (P : ∀ B, txm B → Prop) C (t : txm A) : P A t → each P C (tx t).
Proof. done. Qed.

Ltac each_rule :=
  cbv beta iota;
  lazymatch goal with
  | |- each _ _ (mbind _ _) => apply each_bind; [|intros ?]
  | |- each _ _ (pattempt _) => apply each_attempt
  | |- each _ _ (tx _) => apply each_tx
  | |- each _ _ (tx_try _) => split; [|done]
  | |- each _ _ (ask _) => done
  | |- each _ _ (preject ?b _) => by destruct b
  | |- each _ _ (pthrow _) => done
  | |- each _ _ (mret _) => done
  | |- each _ _ (match ?x with _ => _ end) => destruct x
  end.

(** The calls that only read. *)
Definition reads (c : call) : Prop :=
  match c with CMutation _ _ | CSubmit _ _ _ _ _ _ => False | _ => True end.

(** ** A program among the steps of a system

    [among p Q d]: run from [d] with steps of [others] in between and in
    environments that are [allowed], every transaction of [p] is a [step], and
    [Q] holds of its result and the database it leaves. *)
Section among.
Context (others step : db → db → Prop) (allowed : db → env → Prop).

Fixpoint among {A} (p : prog A) (Q : go A → db → Prop) (d : db) : Prop :=
  match p with
  | Done r => Q r d
  | Txn t k => ∀ d1 e, others d d1 → allowed d1 e →
      let o := t (Txs d1 d1 e) in step d1 (tx_db o.2) ∧ among (k o.1) Q (tx_db o.2)
  | Call c k => ∀ r d1, others d d1 → among (k r) Q d1
  end.

Lemma among_mono {A} (p : prog A) (Q Q' : go A → db → Prop) d :
  among p Q d → (∀ r d', Q r d' → Q' r d') → among p Q' d.
Proof. revert d. induction p; simpl; naive_solver. Qed.

Lemma among_bind {A B} (p : prog A) (k : A → prog B) Q d :
  among p (λ r d', match r with Ok a => among (k a) Q d' | Err e => Q (Err e) d' end) d → among (p ≫= k) Q d.
Proof. revert d. induction p as [[a|e]|C t h IH|c h IH]; simpl; naive_solver. Qed.

Lemma among_attempt {A} (p : prog A) (Q : go (go A) → db → Prop) d :
  among p (λ r, Q (Ok r)) d → among (pattempt p) Q d.
Proof. revert d. induction p; simpl; naive_solver. Qed.

Lemma among_ask c Q d : (∀ r d1, others d d1 → Q (Ok r) d1) → among (ask c) Q d.
Proof. done. Qed.

Lemma among_reject b e (Q : go unit → db → Prop) d :
  (b = true → Q (Err e) d) → (b = false → Q (Ok tt) d) → among (preject b e) Q d.
Proof. destruct b; simpl; auto. Qed.
End among.

(** Such a program, run in a world that behaves so: the database moves by
    [R] as a whole, and [Q] holds at its end. *)
Lemma among_run (R others step : db → db → Prop) (allowed : db → env → Prop) `{!PreOrder R} {A} (p : prog A) Q w i d :
  (∀ d d', others d d' → R d d') → (∀ d d', step d d' → R d d') →
  (∀ i d, others d (wo_meddle w i d)) → (∀ i d, allowed d (wo_env w i)) →
  among others step allowed p Q d → R d (rr_db (run w i p d)) ∧ Q (rr_result (run w i p d)) (rr_db (run w i p d)).
Proof.
  intros Ho Hs Hm He. revert i d. induction p as [r|B t k IH|c k IH]; intros i d H; simpl in *.
  - split; [reflexivity|done].
  - specialize (H (wo_meddle w i d) (wo_env w i) (Hm i d) (He i _)) as [Hst Hk].
    destruct (t _) as [r s] eqn:Ht. simpl in *. destruct (IH r (S i) _ Hk) as [HR HQ]. split; [|done].
    etrans; [apply Ho, Hm|]. etrans; [by apply Hs|done].
  - destruct (IH _ (S i) _ (H (wo_answer w i c) (wo_meddle w i d) (Hm i d))) as [HR HQ]. split; [|done].
    etrans; [apply Ho, Hm|done].
Qed.

Ltac among_rule :=
  cbv beta iota;
  lazymatch goal with
  | |- among _ _ _ (mbind _ _) _ _ => apply among_bind
  | |- among _ _ _ (pattempt _) _ _ => apply among_attempt
  | |- among _ _ _ (ask _) _ _ => apply among_ask; intros ? ? ?
  | |- among _ _ _ (preject _ _) _ _ => apply among_reject; intros ?
  | |- among _ _ _ (pthrow _) _ _ => cbn [among pthrow]
  | |- among _ _ _ (mret _) _ _ => unfold mret, prog_ret; cbn [among]
  | |- among _ _ _ (match ?x with _ => _ end) _ _ => destruct x eqn:?
  end; cbv beta iota.
