(* ===== verification/AesGcm.v ===== *)
(** AES-256-GCM of the Go library ([crypto/aes], [cipher.NewGCM]: FIPS 197 and
    NIST SP 800-38D with a 12-byte nonce and a 16-byte tag), which
    [internal/platform/credentials/envelope.go] seals and opens with.

    Blocks are lists of 16 bytes; GHASH works on 128-bit numbers, the first
    bit of a block being the most significant. *)
From S2P Require Import Prelude GoBase Base64.
Local Open Scope N_scope.

(** ** AES *)

Definition sbox : list N := [
  99; 124; 119; 123; 242; 107; 111; 197; 48; 1; 103; 43; 254; 215; 171; 118;
  202; 130; 201; 125; 250; 89; 71; 240; 173; 212; 162; 175; 156; 164; 114; 192;
  183; 253; 147; 38; 54; 63; 247; 204; 52; 165; 229; 241; 113; 216; 49; 21;
  4; 199; 35; 195; 24; 150; 5; 154; 7; 18; 128; 226; 235; 39; 178; 117;
  9; 131; 44; 26; 27; 110; 90; 160; 82; 59; 214; 179; 41; 227; 47; 132;
  83; 209; 0; 237; 32; 252; 177; 91; 106; 203; 190; 57; 74; 76; 88; 207;
  208; 239; 170; 251; 67; 77; 51; 133; 69; 249; 2; 127; 80; 60; 159; 168;
  81; 163; 64; 143; 146; 157; 56; 245; 188; 182; 218; 33; 16; 255; 243; 210;
  205; 12; 19; 236; 95; 151; 68; 23; 196; 167; 126; 61; 100; 93; 25; 115;
  96; 129; 79; 220; 34; 42; 144; 136; 70; 238; 184; 20; 222; 94; 11; 219;
  224; 50; 58; 10; 73; 6; 36; 92; 194; 211; 172; 98; 145; 149; 228; 121;
  231; 200; 55; 109; 141; 213; 78; 169; 108; 86; 244; 234; 101; 122; 174; 8;
  186; 120; 37; 46; 28; 166; 180; 198; 232; 221; 116; 31; 75; 189; 139; 138;
  112; 62; 181; 102; 72; 3; 246; 14; 97; 53; 87; 185; 134; 193; 29; 158;
  225; 248; 152; 17; 105; 217; 142; 148; 155; 30; 135; 233; 206; 85; 40; 223;
  140; 161; 137; 13; 191; 230; 66; 104; 65; 153; 45; 15; 176; 84; 187; 22].

Definition SubByte (b : byte) : byte := nth (N.to_nat b) sbox 0.
Definition xtime (b : byte) : byte := N.lxor (N.land (2 * b) 255) (if b <? 128 then 0 else 27).
Definition xor (a b : bytes) : bytes := zip_with N.lxor a b.

(** [AddRoundKey], [SubBytes], [ShiftRows] and [MixColumns] on a block, column
    by column as the standard stores it. *)
Definition ShiftRows (s : bytes) : bytes :=
  (λ i, nth i s 0) <$> [0; 5; 10; 15; 4; 9; 14; 3; 8; 13; 2; 7; 12; 1; 6; 11]%nat.

Fixpoint MixColumns (s : bytes) : bytes :=
  match s with
  | a :: b :: c :: d :: r =>
      let x := N.lxor (N.lxor a b) (N.lxor c d) in
      let mix u v := N.lxor u (N.lxor x (xtime (N.lxor u v))) in
      mix a b :: mix b c :: mix c d :: mix d a :: MixColumns r
  | _ => s
  end.

(** The key schedule of a 32-byte key: the words after the first eight, newest
    first. *)
Fixpoint expand (n : nat) (i : N) (rcon : N) (w : list bytes) : list bytes :=
  match n with
  | O => w
  | S n =>
      let last := nth 0 w [] in
      let t :=
        if i mod 8 =? 0 then
          match SubByte <$> last with
          | a :: b :: c :: [d] => [N.lxor b rcon; c; d; a]
          | _ => []
          end
        else if i mod 8 =? 4 then SubByte <$> last
        else last in
      expand n (i + 1) (if i mod 8 =? 0 then xtime rcon else rcon) (xor (nth 7 w []) t :: w)
  end.

Fixpoint chunks (n : nat) (size : nat) (l : bytes) : list bytes :=
  match n with O => [] | S n => take size l :: chunks n size (drop size l) end.

Definition round_keys (key : bytes) : list bytes :=
  let words := reverse (expand 52 8 1 (reverse (chunks 8 4 key))) in
  chunks 15 16 (concat words).

Definition aes_round (s k : bytes) : bytes := xor (MixColumns (ShiftRows (SubByte <$> s))) k.
Definition encrypt_with (keys : list bytes) (block : bytes) : bytes :=
  match keys with
  | [] => block
  | k :: ks =>
      let s := foldl aes_round (xor block k) (take 13 ks) in
      xor (ShiftRows (SubByte <$> s)) (nth 13 ks [])
  end.

(** ** GCM *)

Definition block_number (b : bytes) : N := foldl (λ acc x, acc * 256 + x) 0 b.

(** Multiplication in GF(2^128): [v] runs through the multiples of [y] by
    powers of x. *)
Fixpoint gf_mul (n : nat) (x v z : N) : N :=
  match n with
  | O => z
  | S n =>
      gf_mul n x (N.lxor (N.shiftr v 1) (if N.testbit v 0 then N.shiftl 225 120 else 0))
        (if N.testbit x (N.of_nat n) then N.lxor z v else z)
  end.

Definition pad16 (b : bytes) : bytes := b ++ replicate ((16 - length b mod 16) mod 16) 0.
Definition blocks (b : bytes) : list bytes := chunks ((length b + 15) / 16) 16 b.

Definition ghash (h : N) (data : bytes) : N :=
  foldl (λ y b, gf_mul 128 (N.lxor y (block_number b)) h 0) 0 (blocks data).

(** The bytes of the counter mode, from the block after the nonce's first. *)
Definition counter (nonce : bytes) (i : N) : bytes := nonce ++ be_bytes 4 i.
Definition keystream (keys : list bytes) (nonce : bytes) (n : nat) : bytes :=
  concat ((λ i, encrypt_with keys (counter nonce (N.of_nat i + 2))) <$> seq 0 ((n + 15) / 16)).

Definition crypt (keys : list bytes) (nonce data : bytes) : bytes :=
  zip_with N.lxor data (keystream keys nonce (length data) ++ replicate (length data) 0).

Definition tag (keys : list bytes) (nonce ciphertext aad : bytes) : bytes :=
  let h := block_number (encrypt_with keys (replicate 16 0)) in
  let lengths := be_bytes 8 (8 * N.of_nat (length aad)) ++ be_bytes 8 (8 * N.of_nat (length ciphertext)) in
  let s := ghash h (pad16 aad ++ pad16 ciphertext ++ lengths) in
  be_bytes 16 (N.lxor s (block_number (encrypt_with keys (counter nonce 1)))).

Definition NonceSize : nat := 12.

(** [AEAD.Seal(nil, nonce, plaintext, aad)] and [AEAD.Open] *)
Definition Seal (key nonce plaintext aad : bytes) : bytes :=
  let keys := round_keys key in
  let ciphertext := crypt keys nonce plaintext in
  ciphertext ++ tag keys nonce ciphertext aad.

Definition Open (key nonce sealed aad : bytes) : option bytes :=
  if (length sealed <? 16)%nat then None
  else
    let keys := round_keys key in
    let ciphertext := take (length sealed - 16) sealed in
    if decide (drop (length sealed - 16) sealed = tag keys nonce ciphertext aad)
    then Some (crypt keys nonce ciphertext) else None.

(** The published vectors: FIPS 197 appendix C.3, and test cases 13, 14 and
    16 of the GCM specification. *)
Definition from_hex (s : string) : bytes :=
  let digit c := let n := N_of_ascii c in if n <? 58 then n - 48 else n - 87 in
  (fix go l := match l with a :: b :: r => digit a * 16 + digit b :: go r | _ => [] end) (String.list_ascii_of_string s).

Example aes_vector :
  hex (encrypt_with (round_keys (from_hex "000102030405060708090a0b0c0d0e0f101112131415161718191a1b1c1d1e1f"))
         (from_hex "00112233445566778899aabbccddeeff")) = "8ea2b7ca516745bfeafc49904b496089".
Proof. vm_compute. reflexivity. Qed.

Example gcm_vectors :
  hex (Seal (replicate 32 0) (replicate 12 0) [] []) = "530f8afbc74536b9a963b4f1c4cb738b" ∧
  hex (Seal (replicate 32 0) (replicate 12 0) (replicate 16 0) [])
    = "cea7403d4d606b6e074ec5d3baf39d18d0d1c8a799996bf0265b98b5d48ab919" ∧
  hex (Seal (from_hex "feffe9928665731c6d6a8f9467308308feffe9928665731c6d6a8f9467308308")
         (from_hex "cafebabefacedbaddecaf888")
         (from_hex ("d9313225f88406e5a55909c5aff5269a86a7a9531534f7da2e4c303d8a318a72" +:+
                    "1c3c0c95956809532fcf0e2449a6b525b16aedf5aa0de657ba637b39"))
         (from_hex "feedfacedeadbeeffeedfacedeadbeefabaddad2"))
    = "522dc1f099567d07f47f37a32a84427d643a8cdcbfe5c0c97598a2bd2555d1aa" +:+
      "8cb08e48590dbb3da7b08b1056828838c5f61e6393ba7a0abcc9f66276fc6ece0f4e1768cddf8853bb2d551b".
Proof. vm_compute. repeat split; reflexivity. Qed.

(** ** Opening what was sealed *)

Lemma xor_xor (a b : bytes) : (length a ≤ length b)%nat → zip_with N.lxor (zip_with N.lxor a b) b = a.
Proof.
  revert b. induction a as [|x a IH]; intros [|y b] Hl; simpl in *; try done; [lia|].
  rewrite IH by lia. f_equal. by rewrite N.lxor_assoc, N.lxor_nilpotent, N.lxor_0_r.
Qed.

Lemma crypt_length keys nonce data : length (crypt keys nonce data) = length data.
Proof. unfold crypt. rewrite length_zip_with, length_app, length_replicate. lia. Qed.

Lemma crypt_crypt keys nonce data : crypt keys nonce (crypt keys nonce data) = data.
Proof.
  unfold crypt at 1. rewrite crypt_length. apply xor_xor. rewrite length_app, length_replicate. lia.
Qed.

Lemma tag_length keys nonce ciphertext aad : length (tag keys nonce ciphertext aad) = 16%nat.
Proof. apply be_bytes_length. Qed.

Lemma Seal_length key nonce plaintext aad : length (Seal key nonce plaintext aad) = (length plaintext + 16)%nat.
Proof. unfold Seal. by rewrite length_app, crypt_length, tag_length. Qed.

Lemma Open_Seal key nonce plaintext aad : Open key nonce (Seal key nonce plaintext aad) aad = Some plaintext.
Proof.
  unfold Open. rewrite Seal_length. destruct (Nat.ltb_spec (length plaintext + 16) 16); [lia|].
  replace (length plaintext + 16 - 16)%nat with (length plaintext) by lia.
  unfold Seal. rewrite drop_app_length', take_app_length' by by rewrite crypt_length.
  by rewrite decide_True, crypt_crypt.
Qed.

(** Only what was sealed opens. *)
Lemma Open_Some key nonce sealed aad plaintext :
  Open key nonce sealed aad = Some plaintext ↔ sealed = Seal key nonce plaintext aad.
Proof.
  split; [|intros ->; apply Open_Seal]. unfold Open. destruct (Nat.ltb_spec (length sealed) 16) as [|Hl]; [done|].
  case_decide as Htag; [|done]. intros [= <-]. unfold Seal. rewrite crypt_crypt, <-Htag. by rewrite take_drop.
Qed.

(** ** The interface

    What [cipher.AEAD] promises to [internal/platform/credentials]: a message
    opens exactly when it was sealed with the same key, nonce and data. *)
Class AEAD := {
  Aead_Seal : bytes → bytes → bytes → bytes → bytes;
  Aead_Open : bytes → bytes → bytes → bytes → option bytes;
  Aead_Open_Some key nonce sealed aad plaintext :
    Aead_Open key nonce sealed aad = Some plaintext ↔ sealed = Aead_Seal key nonce plaintext aad;
  Aead_overhead key nonce plaintext aad :
    length (Aead_Seal key nonce plaintext aad) = (length plaintext + 16)%nat;
}.

#[export] Instance aes256gcm : AEAD := {|
  Aead_Seal := Seal; Aead_Open := Open; Aead_Open_Some := Open_Some; Aead_overhead := Seal_length |}.
