(* ===== verification/Envelope.v ===== *)
(** [internal/platform/credentials]: authenticated envelopes ([envelope.go]),
    the mounted keyring ([keyring.go]) and the change of master key
    ([rewrap.go]).

    The cipher is any [AEAD] ([AesGcm] is the program's); [crypto/rand] is a sequence of reads that may
    fail.  Clearing plain key material changes no result and has no model. *)
From S2P Require Import Prelude GoBase Json Base64 AesGcm Identifier.
Local Open Scope Z_scope.

(** The [i]-th [rand.Read] of a call: it fails, or fills the whole buffer. *)
Abbreviation Rand := (nat → option (nat → byte)).
Definition Read (rand : Rand) (i n : nat) : option bytes := (λ f, f <$> seq 0 n) <$> rand i.

Lemma Read_length rand i n b : Read rand i n = Some b → length b = n.
Proof.
  unfold Read. destruct (rand i); [|done]. intros [= <-]. by rewrite length_fmap, length_seq.
Qed.

(** ** Bindings and their authenticated text *)

Record Binding := MkBinding {
  eb_Workspace : uuid; eb_Connection : uuid; eb_Family : string; eb_Version : Z }.

Record Envelope := MkEnvelope {
  en_Ciphertext : bytes; en_Nonce : bytes; en_WrappedKey : bytes; en_WrappingNonce : bytes;
  en_KeyID : string; en_Format : Z }.

Section envelope.
Context `{U : UuidApi, C : AEAD}.

Definition aad (b : Binding) (purpose : string) : go bytes :=
  fail_if (negb (is_v7 (eb_Workspace b)) || negb (is_v7 (eb_Connection b)) || (eb_Version b <? 1)
           || (len (eb_Family b) =? 0) || (128 <? len (eb_Family b))) CredErrEnvelope ;;
  Ok (string_bytes (object [
        field "Format" "1"; field "Purpose" (json_string purpose);
        field "Binding" (object [
          field "Workspace" (json_string (uuid_String (eb_Workspace b)));
          field "Connection" (json_string (uuid_String (eb_Connection b)));
          field "Family" (json_string (eb_Family b)); field "Version" (FormatInt (eb_Version b))])])).

(** [text, _ := binding.aad(purpose)] *)
Definition ignoring (r : go bytes) : bytes := match r with Ok text => text | Err _ => [] end.

(** ** Sealing *)

Definition gcm (key : bytes) : go unit := fail_if (negb (Z.of_nat (length key) =? 32)) CredErrEnvelope.

Definition seal (rand : Rand) (i : nat) (key plaintext aad : bytes) : go (bytes * bytes) :=
  gcm key ;;
  match Read rand i NonceSize with
  | Some nonce => Ok (Aead_Seal key nonce plaintext aad, nonce)
  | None => Err CredErrEnvelope
  end.

Definition open (key ciphertext nonce aad : bytes) : go bytes :=
  gcm key ;;
  fail_if (negb (bool_decide (length nonce = NonceSize))) CredErrEnvelope ;;
  match Aead_Open key nonce ciphertext aad with Some plain => Ok plain | None => Err CredErrEnvelope end.

Definition key_rune (r : N * bool * bytes) : bool :=
  let '(c, _, _) := r in
  ((97 <=? c) && (c <=? 122) || (65 <=? c) && (c <=? 90) || (48 <=? c) && (c <=? 57) || (c =? 45) || (c =? 95))%N.
Definition validKeyID (id : string) : bool :=
  if (len id =? 0) || (128 <? len id) then false else forallb key_rune (string_runes id).

Definition Encrypt (rand : Rand) (binding : Binding) (payload : bytes) (keyID : string) (master : bytes) : go Envelope :=
  match aad binding "payload" with
  | Err _ => Err CredErrEnvelope
  | Ok text =>
      fail_if ((Z.of_nat (length payload) =? 0) || (65520 <? Z.of_nat (length payload)) || negb (validKeyID keyID))
        CredErrEnvelope ;;
      match Read rand 0 32 with
      | None => Err CredErrEnvelope
      | Some dataKey =>
          '(ciphertext, nonce) ← seal rand 1 dataKey payload text ;
          let wrapAAD := ignoring (aad binding "data-key") in
          '(wrapped, wrappingNonce) ← seal rand 2 master dataKey wrapAAD ;
          Ok (MkEnvelope ciphertext nonce wrapped wrappingNonce keyID 1)
      end
  end.

Definition Decrypt (binding : Binding) (envelope : Envelope) (keys : gmap string bytes) : go bytes :=
  match aad binding "payload" with
  | Err _ => Err CredErrEnvelope
  | Ok text =>
      fail_if (negb (en_Format envelope =? 1) || (65536 <? Z.of_nat (length (en_Ciphertext envelope)))
               || negb (Z.of_nat (length (en_WrappedKey envelope)) =? 48)) CredErrEnvelope ;;
      let wrapAAD := ignoring (aad binding "data-key") in
      dataKey ← open (default [] (keys !! en_KeyID envelope)) (en_WrappedKey envelope) (en_WrappingNonce envelope) wrapAAD ;
      open dataKey (en_Ciphertext envelope) (en_Nonce envelope) text
  end.

(** ** The keyring *)

Record Keyring := MkKeyring { kr_active : string; kr_keys : gmap string bytes }.

Definition Require (k : option Keyring) (ids : list string) : go Keyring :=
  match k with
  | None => Err CredErrKeyring
  | Some k =>
      fail_if (bool_decide (kr_keys k !! kr_active k = None)) CredErrKeyring ;;
      fail_if (existsb (λ id, bool_decide (kr_keys k !! id = None)) ids) CredErrKeyring ;;
      Ok k
  end.

Definition Keyring_Encrypt (k : option Keyring) (rand : Rand) (binding : Binding) (payload : bytes) : go Envelope :=
  match Require k [] with
  | Err _ => Err CredErrKeyring
  | Ok k => Encrypt rand binding payload (kr_active k) (default [] (kr_keys k !! kr_active k))
  end.

Definition Keyring_Decrypt (k : option Keyring) (binding : Binding) (envelope : Envelope) : go bytes :=
  match Require k [en_KeyID envelope] with
  | Err _ => Err CredErrKeyring
  | Ok k => Decrypt binding envelope (kr_keys k)
  end.

Definition Rewrap (k : option Keyring) (rand : Rand) (binding : Binding) (envelope : Envelope) (target : string)
  : go Envelope :=
  match Require k [en_KeyID envelope; target] with
  | Err _ => Err CredErrKeyring
  | Ok k =>
      match aad binding "data-key" with
      | Err _ => Err CredErrEnvelope
      | Ok text =>
          fail_if (negb (en_Format envelope =? 1) || negb (Z.of_nat (length (en_WrappedKey envelope)) =? 48))
            CredErrEnvelope ;;
          match open (default [] (kr_keys k !! en_KeyID envelope)) (en_WrappedKey envelope) (en_WrappingNonce envelope) text with
          | Err _ => Err CredErrEnvelope
          | Ok dataKey =>
              match seal rand 0 (default [] (kr_keys k !! target)) dataKey text with
              | Err _ => Err CredErrEnvelope
              | Ok (wrapped, nonce) =>
                  Ok (MkEnvelope (en_Ciphertext envelope) (en_Nonce envelope) wrapped nonce target (en_Format envelope))
              end
          end
      end
  end.
End envelope.

(** ** Loading the keyring *)

(** The mounted file as the loader meets it: [os.Lstat]'s mode, [os.Open] and
    [Stat]'s, and the bytes. *)
Record KeyFile := MkKeyFile {
  kf_lstat : option (bool * Z);           (* regular, permission bits *)
  kf_opened : option (bool * Z);          (* the same file, permission bits *)
  kf_data : option bytes }.

(** A text's tokens, as [json.Decoder.Token] yields them until it fails or ends. *)
Inductive token := Delim (c : ascii) | Str (s : string) | Scalar.

Definition is_close (t : token) : bool :=
  match t with Delim c => bool_decide (c = "]"%char) || bool_decide (c = "}"%char) | _ => false end.
Definition More (l : list token) : bool := match l with t :: _ => negb (is_close t) | [] => false end.
Definition close (c : ascii) (l : list token) : option (list token) :=
  match l with Delim d :: r => if decide (d = c) then Some r else None | _ => None end.

(** [uniqueJSONProperties]: [value] and its two loops; each step takes a
    token, so the fuel is never short of the tokens left. *)
Fixpoint value (fuel : nat) (l : list token) : option (list token) :=
  match fuel, l with
  | O, _ | _, [] => None
  | S fuel, Delim c :: r =>
      if decide (c = "{"%char) then properties fuel [] r
      else if decide (c = "["%char) then elements fuel r
      else Some r
  | S _, _ :: r => Some r
  end
with properties (fuel : nat) (seen : list string) (l : list token) : option (list token) :=
  match fuel with
  | O => None
  | S fuel =>
      if More l then
        match l with
        | Str name :: r =>
            if decide (name ∈ seen) then None
            else r ← value fuel r; properties fuel (name :: seen) r
        | _ => None
        end
      else close "}" l
  end
with elements (fuel : nat) (l : list token) : option (list token) :=
  match fuel with
  | O => None
  | S fuel => if More l then r ← value fuel l; elements fuel r else close "]" l
  end.

Definition uniqueJSONProperties (l : list token) : bool :=
  match value (2 * length l + 1) l with Some _ => true | None => false end.

Definition strict_base64 (DecodeString : string → option bytes) (entry : string * string) : go bytes :=
  match DecodeString entry.2 with
  | Some key => fail_if (negb (Z.of_nat (length key) =? 32) || negb (validKeyID entry.1)) CredErrKeyring ;; Ok key
  | None => Err CredErrKeyring
  end.

(** The entries in turn, each under a new identifier. *)
Fixpoint load_entries (DecodeString : string → option bytes) (entries : list (string * string)) (keys : gmap string bytes)
  : go (gmap string bytes) :=
  match entries with
  | [] => Ok keys
  | entry :: r =>
      key ← strict_base64 DecodeString entry ;
      fail_if (negb (bool_decide (keys !! entry.1 = None))) CredErrKeyring ;;
      load_entries DecodeString r (<[entry.1 := key]> keys)
  end.

(** [Decode] is the strict decoding of the whole text, [Tokens] its tokens and
    [DecodeString] that of [base64.StdEncoding.Strict()]. *)
Definition LoadKeyring (Decode : bytes → option (string * list (string * string))) (Tokens : bytes → list token)
  (DecodeString : string → option bytes) (file : KeyFile) : go Keyring :=
  match kf_lstat file with
  | Some (regular, mode) =>
      fail_if (negb regular || negb (mode =? 384)) CredErrKeyring ;;
      match kf_opened file with
      | Some (same, mode) =>
          fail_if (negb same || negb (mode =? 384)) CredErrKeyring ;;
          match kf_data file with
          | Some data =>
              fail_if (65536 <? Z.of_nat (length data)) CredErrKeyring ;;
              match Decode data with
              | Some (active, entries) =>
                  fail_if ((Z.of_nat (length entries) =? 0) || (64 <? Z.of_nat (length entries))) CredErrKeyring ;;
                  fail_if (negb (uniqueJSONProperties (Tokens data))) CredErrKeyring ;;
                  keys ← load_entries DecodeString entries ∅ ;
                  fail_if (bool_decide (keys !! active = None)) CredErrKeyring ;;
                  Ok (MkKeyring active keys)
              | None => Err CredErrKeyring
              end
          | None => Err CredErrKeyring
          end
      | None => Err CredErrKeyring
      end
  | None => Err CredErrKeyring
  end.

(** ** What an envelope holds *)

Section contents.
Context `{U : UuidApi, C : AEAD}.

Definition bindable (b : Binding) : Prop :=
  is_v7 (eb_Workspace b) = true ∧ is_v7 (eb_Connection b) = true ∧ 1 <= eb_Version b ∧ 0 < len (eb_Family b) <= 128.

Lemma Aead_Open_Seal key nonce plaintext text : Aead_Open key nonce (Aead_Seal key nonce plaintext text) text = Some plaintext.
Proof. by apply Aead_Open_Some. Qed.

Lemma len_nonneg s : 0 <= len s.
Proof. unfold len. lia. Qed.

Lemma aad_Ok b purpose text : aad b purpose = Ok text → bindable b ∧ aad b purpose = Ok (ignoring (aad b purpose)).
Proof.
  intros H. split; [|by rewrite H]. unfold aad in H. apply fail_if_bind in H as [H _]. pose proof (len_nonneg (eb_Family b)).
  guards. split_and!; [done|done|lia|lia|lia].
Qed.

Lemma aad_bindable b purpose : bindable b → aad b purpose = Ok (ignoring (aad b purpose)).
Proof.
  intros (Hw & Hc & Hv & Hl). unfold aad. rewrite Hw, Hc. cbn [negb orb].
  destruct (Z.ltb_spec (eb_Version b) 1); [lia|]. destruct (Z.eqb_spec (len (eb_Family b)) 0); [lia|].
  destruct (Z.ltb_spec 128 (len (eb_Family b))); [lia|]. done.
Qed.

#[local] Opaque aad.

(** [dataKey] is wrapped under [master] for the binding. *)
Definition wraps (b : Binding) (master dataKey : bytes) (e : Envelope) : Prop :=
  length master = 32%nat ∧ length (en_WrappingNonce e) = NonceSize ∧
  en_WrappedKey e = Aead_Seal master (en_WrappingNonce e) dataKey (ignoring (aad b "data-key")).

(** The envelope is [payload] sealed for the binding under a data key. *)
Definition seals (b : Binding) (dataKey payload : bytes) (e : Envelope) : Prop :=
  length dataKey = 32%nat ∧ length (en_Nonce e) = NonceSize ∧
  en_Ciphertext e = Aead_Seal dataKey (en_Nonce e) payload (ignoring (aad b "payload")).

Lemma open_Ok key ciphertext nonce text plain : open key ciphertext nonce text = Ok plain ↔
  length key = 32%nat ∧ length nonce = NonceSize ∧ ciphertext = Aead_Seal key nonce plain text.
Proof.
  unfold open, gcm. rewrite <-Aead_Open_Some. split.
  - intros [Hk [Hn H]%fail_if_bind]%fail_if_bind. guards. destruct (Aead_Open _ _ _ _) eqn:E; [|done].
    split_and!; [lia|done|congruence].
  - intros (Hk & Hn & ->). rewrite Hk, Hn. done.
Qed.

Lemma seal_Ok rand i key plain text ciphertext nonce : seal rand i key plain text = Ok (ciphertext, nonce) →
  length key = 32%nat ∧ length nonce = NonceSize ∧ ciphertext = Aead_Seal key nonce plain text.
Proof.
  unfold seal, gcm. intros [Hk H]%fail_if_bind. guards. destruct (Read rand i NonceSize) as [n|] eqn:Hr; [|done].
  apply Read_length in Hr. injection H as <- <-. split_and!; [lia|done|done].
Qed.

(** An envelope opens to [payload] exactly when it was sealed so. *)
Lemma Decrypt_Ok b e keys payload : Decrypt b e keys = Ok payload ↔
  bindable b ∧ en_Format e = 1 ∧ Z.of_nat (length payload) <= 65520 ∧
  ∃ dataKey, wraps b (default [] (keys !! en_KeyID e)) dataKey e ∧ seals b dataKey payload e.
Proof.
  unfold Decrypt. split.
  - destruct (aad b "payload") as [text|] eqn:Ht; [|done]. destruct (aad_Ok _ _ _ Ht) as [Hb _].
    intros [Hg H]%fail_if_bind.
    destruct (open _ (en_WrappedKey e) _ _) as [dataKey|] eqn:Hk; [|done]. cbn in H.
    apply open_Ok in Hk as (? & ? & Hwrap). apply open_Ok in H as (? & ? & Hc). guards.
    rewrite Hc, Aead_overhead in *. split_and!; [done|done|lia|]. exists dataKey. split; [done|].
    unfold seals. by rewrite Ht.
  - intros (Hb & Hf & Hl & dataKey & (Hm & Hwn & Hw) & (Hk & Hn & Hc)).
    rewrite (aad_bindable b "payload" Hb), Hf, Hw, Hc, !Aead_overhead, Hk.
    destruct (Z.ltb_spec 65536 (Z.of_nat (length payload + 16))); [lia|]. cbn [Z.eqb negb orb].
    change (fail_if (negb (Z.of_nat (32 + 16) =? 48)) CredErrEnvelope) with (Ok (E := error) tt).
    unfold mbind, result_bind. cbv beta iota.
    rewrite (proj2 (open_Ok _ _ _ _ dataKey)) by (split_and!; [assumption|assumption|reflexivity]).
    apply open_Ok. split_and!; [assumption|assumption|reflexivity].
Qed.

Lemma Encrypt_Ok rand b payload keyID master e : Encrypt rand b payload keyID master = Ok e →
  bindable b ∧ 1 <= Z.of_nat (length payload) <= 65520 ∧ validKeyID keyID = true ∧ en_KeyID e = keyID ∧ en_Format e = 1 ∧
  ∃ dataKey, wraps b master dataKey e ∧ seals b dataKey payload e.
Proof.
  unfold Encrypt. destruct (aad b "payload") as [text|] eqn:Ht; [|done]. destruct (aad_Ok _ _ _ Ht) as [Hb _].
  intros [Hg H]%fail_if_bind. destruct (Read rand 0 32) as [dataKey|] eqn:Hd; [|done].
  destruct (seal rand 1 _ _ _) as [[c n]|] eqn:Hs; [|done]. cbn in H.
  destruct (seal rand 2 _ _ _) as [[w wn]|] eqn:Hw; [|done]. cbn in H. injection H as <-.
  apply seal_Ok in Hs as (? & ? & ?). apply seal_Ok in Hw as (? & ? & ?). guards.
  split_and!; try done; try lia. exists dataKey. unfold wraps, seals. rewrite Ht. by split_and!.
Qed.

Lemma Require_Ok k ids r : Require k ids = Ok r →
  k = Some r ∧ is_Some (kr_keys r !! kr_active r) ∧ Forall (λ id, is_Some (kr_keys r !! id)) ids.
Proof.
  unfold Require. destruct k as [k|]; [|done]. intros [Ha [Hi H]%fail_if_bind]%fail_if_bind. injection H as <-.
  guards. split_and!; [done|by apply not_eq_None_Some|]. apply Forall_forall. intros id Hid.
  apply not_eq_None_Some. intros Hn. apply not_true_iff_false in Hi. apply Hi, existsb_exists.
  exists id. split; [by apply list_elem_of_In|by apply bool_decide_eq_true].
Qed.

(** Rewrapping keeps the sealed payload and wraps the same data key anew. *)
Lemma Rewrap_Ok k rand b e target e' : Rewrap k rand b e target = Ok e' →
  ∃ ring, k = Some ring ∧ is_Some (kr_keys ring !! kr_active ring) ∧
    is_Some (kr_keys ring !! en_KeyID e) ∧ is_Some (kr_keys ring !! target) ∧
    en_Ciphertext e' = en_Ciphertext e ∧ en_Nonce e' = en_Nonce e ∧ en_Format e' = en_Format e ∧ en_KeyID e' = target ∧
    bindable b ∧ en_Format e = 1 ∧
    ∃ dataKey, wraps b (default [] (kr_keys ring !! en_KeyID e)) dataKey e ∧
      wraps b (default [] (kr_keys ring !! target)) dataKey e'.
Proof.
  unfold Rewrap. destruct (Require k _) as [ring|] eqn:Hr; [|done].
  apply Require_Ok in Hr as (-> & Ha & Hids). apply Forall_cons in Hids as [H1 Hids]. apply Forall_cons in Hids as [H2 _].
  destruct (aad b "data-key") as [text|] eqn:Ht; [|done]. destruct (aad_Ok _ _ _ Ht) as [Hb _].
  intros [Hg H]%fail_if_bind. destruct (open _ _ _ _) as [dataKey|] eqn:Ho; [|done].
  destruct (seal _ _ _ _ _) as [[w n]|] eqn:Hs; [|done]. injection H as <-.
  apply open_Ok in Ho as (? & ? & ?). apply seal_Ok in Hs as (? & ? & ?). guards.
  exists ring. split_and!; try done. exists dataKey. unfold wraps. rewrite Ht. by split_and!.
Qed.

Lemma Keyring_Decrypt_Ok k b e payload : Keyring_Decrypt k b e = Ok payload ↔
  ∃ ring, k = Some ring ∧ is_Some (kr_keys ring !! kr_active ring) ∧ is_Some (kr_keys ring !! en_KeyID e) ∧
    Decrypt b e (kr_keys ring) = Ok payload.
Proof.
  unfold Keyring_Decrypt. split.
  - destruct (Require k _) as [ring|] eqn:Hr; [|done]. apply Require_Ok in Hr as (-> & Ha & Hids).
    apply Forall_cons in Hids as [H1 _]. by exists ring.
  - intros (ring & -> & [a Ha] & [m Hm] & Hd). unfold Require. by rewrite Ha; cbn; rewrite Hm; cbn.
Qed.

(** What a keyring seals it opens. *)
Lemma Keyring_Decrypt_Encrypt k rand b payload e :
  Keyring_Encrypt k rand b payload = Ok e → Keyring_Decrypt k b e = Ok payload.
Proof.
  unfold Keyring_Encrypt. destruct (Require k []) as [r|] eqn:Hr; [|done].
  apply Require_Ok in Hr as (-> & Ha & _). intros (? & ? & ? & Hk & ? & dk & Hdw & Hds)%Encrypt_Ok.
  apply Keyring_Decrypt_Ok. exists r. rewrite Hk. split_and!; [done..|]. apply Decrypt_Ok. rewrite Hk.
  split_and!; [done|done|lia|]. exists dk. split; [exact Hdw|exact Hds].
Qed.

(** Every key of [r] is on [ring], and a working [r] makes a working [ring]. *)
Definition sub_ring (r ring : Keyring) : Prop :=
  kr_keys r ⊆ kr_keys ring ∧ (is_Some (kr_keys r !! kr_active r) → is_Some (kr_keys ring !! kr_active ring)).

Lemma sub_ring_refl r : sub_ring r r.
Proof. by split. Qed.

Lemma Decrypt_key b e keys keys' : keys !! en_KeyID e = keys' !! en_KeyID e → Decrypt b e keys = Decrypt b e keys'.
Proof. intros Hk. unfold Decrypt. by rewrite Hk. Qed.

(** What a keyring opens, one with more keys opens. *)
Lemma Keyring_Decrypt_sub r ring b e payload : sub_ring r ring →
  Keyring_Decrypt (Some r) b e = Ok payload → Keyring_Decrypt (Some ring) b e = Ok payload.
Proof.
  intros [Hk Ha] (x & [= <-] & Hx & [m Hm] & Hd)%Keyring_Decrypt_Ok. apply Keyring_Decrypt_Ok. exists ring.
  pose proof (lookup_weaken _ _ _ _ Hm Hk) as Hm'. split_and!; [done|auto|by exists m|].
  rewrite <-Hd. apply Decrypt_key. congruence.
Qed.

(** One that has the envelope's key opens it as a larger one does. *)
Lemma Keyring_Decrypt_super r ring b e payload : sub_ring r ring → is_Some (kr_keys r !! kr_active r) →
  is_Some (kr_keys r !! en_KeyID e) → Keyring_Decrypt (Some ring) b e = Ok payload → Keyring_Decrypt (Some r) b e = Ok payload.
Proof.
  intros [Hk _] Ha [m Hm] (x & [= <-] & Hx & _ & Hd)%Keyring_Decrypt_Ok. apply Keyring_Decrypt_Ok. exists r.
  pose proof (lookup_weaken _ _ _ _ Hm Hk) as Hm'. split_and!; [done|done|by exists m|].
  rewrite <-Hd. apply Decrypt_key. congruence.
Qed.

Lemma Rewrap_Decrypt k rand b e target e' : Rewrap k rand b e target = Ok e' →
  ∀ payload, Keyring_Decrypt k b e' = Ok payload ↔ Keyring_Decrypt k b e = Ok payload.
Proof.
  intros (ring & -> & Ha & H1 & H2 & Hc & Hn & Hf & Hk & Hb & Hf1 & dataKey & Hw & Hw')%Rewrap_Ok payload.
  rewrite !Keyring_Decrypt_Ok.
  assert (Hu : ∀ master dk dk' x, wraps b master dk x → wraps b master dk' x → dk = dk').
  { intros master dk dk' x (_ & _ & E) (_ & _ & E'). rewrite E in E'.
    apply (f_equal (λ c, Aead_Open master (en_WrappingNonce x) c (ignoring (aad b "data-key")))) in E'.
    rewrite !Aead_Open_Seal in E'. by injection E'. }
  assert (Hiff : Decrypt b e' (kr_keys ring) = Ok payload ↔ Decrypt b e (kr_keys ring) = Ok payload).
  { rewrite !Decrypt_Ok, Hf, Hk. unfold seals. rewrite Hc, Hn. split; intros (? & ? & ? & dk & Hx & Hs); (split; [assumption|split; [assumption|split; [assumption|]]]).
    - exists dataKey. split; [exact Hw|]. rewrite (Hu _ _ _ _ Hw' Hx). exact Hs.
    - exists dataKey. split; [exact Hw'|]. rewrite (Hu _ _ _ _ Hw Hx). exact Hs. }
  split; intros (r & [= <-] & _ & _ & Hd); exists ring; (split; [reflexivity|split; [exact Ha|split]]).
  - exact H1.
  - by apply Hiff.
  - by rewrite Hk.
  - by apply Hiff.
Qed.

(** C36. Whatever is sealed for a binding opens to the same payload, and still
    does after any number of changes of master key along the keyring: each
    change leaves the sealed payload alone and only moves the data key. *)
Theorem envelope_roundtrip ring rand binding payload envelope steps final :
  Keyring_Encrypt ring rand binding payload = Ok envelope →
  foldl (λ r '(rand, target), e ← r; Rewrap ring rand binding e target) (Ok envelope) steps = Ok final →
  Keyring_Decrypt ring binding final = Ok payload ∧
  en_Ciphertext final = en_Ciphertext envelope ∧ en_Nonce final = en_Nonce envelope ∧
  en_KeyID final = default (en_KeyID envelope) (last (snd <$> steps)).
Proof.
  intros He. pose proof (Keyring_Decrypt_Encrypt _ _ _ _ _ He) as Hopen.
  clear He. revert final. induction steps as [|[rand' target] steps IH] using rev_ind; intros final Hf.
  { injection Hf as <-. done. }
  rewrite foldl_snoc in Hf. destruct (foldl _ _ steps) as [e|] eqn:Hs; [|done]. cbn in Hf.
  destruct (IH e eq_refl) as (Hd & Hc & Hn & _). rewrite fmap_app. cbn [fmap list_fmap snd]. rewrite last_snoc.
  split; [by apply (Rewrap_Decrypt _ _ _ _ _ _ Hf)|].
  apply Rewrap_Ok in Hf as (r & _ & _ & _ & _ & Hc' & Hn' & _ & Hk & _). simpl. split_and!; congruence.
Qed.
End contents.

(** ** Which texts have unique properties *)

#[local] Set Warnings "-register-all".

Inductive json := JScalar | JString (s : string) | JArray (l : list json) | JObject (l : list (string * json)).

Fixpoint tokens (j : json) : list token :=
  match j with
  | JScalar => [Scalar]
  | JString s => [Str s]
  | JArray l => Delim "[" :: flat_map tokens l ++ [Delim "]"]
  | JObject l => Delim "{" :: flat_map (λ '(n, v), Str n :: tokens v) l ++ [Delim "}"]
  end.

(** No object of the tree, at any depth, names a property twice. *)
Fixpoint unique (j : json) : bool :=
  match j with
  | JArray l => forallb unique l
  | JObject l => bool_decide (NoDup (fst <$> l)) && forallb (λ '(_, v), unique v) l
  | _ => true
  end.

Section json_induction.
Context (P : json → Prop).
Hypothesis Hscalar : P JScalar.
Hypothesis Hstring : ∀ s, P (JString s).
Hypothesis Harray : ∀ l, Forall P l → P (JArray l).
Hypothesis Hobject : ∀ l, Forall (λ p, P p.2) l → P (JObject l).

Fixpoint json_tree_ind (j : json) : P j :=
  match j with
  | JScalar => Hscalar
  | JString s => Hstring s
  | JArray l => Harray l ((fix all l : Forall P l := match l with [] => Forall_nil_2 P | x :: r => Forall_cons_2 P x r (json_tree_ind x) (all r) end) l)
  | JObject l => Hobject l ((fix all l : Forall (λ p, P p.2) l := match l with [] => Forall_nil_2 _ | x :: r => Forall_cons_2 _ x r (json_tree_ind x.2) (all r) end) l)
  end.
End json_induction.

Lemma tokens_open j : ∃ t r, tokens j = t :: r ∧ is_close t = false.
Proof. destruct j; simpl; eauto. Qed.

Lemma More_tokens j rest : More (tokens j ++ rest) = true.
Proof. destruct (tokens_open j) as (t & r & -> & Ht). simpl. by rewrite Ht. Qed.

Definition reads (j : json) : Prop := ∀ fuel rest, (2 * length (tokens j) ≤ fuel)%nat →
  value fuel (tokens j ++ rest) = if unique j then Some rest else None.

Lemma elements_reads l : Forall reads l → ∀ fuel rest,
  (2 * S (length (flat_map tokens l)) ≤ fuel)%nat →
  elements fuel (flat_map tokens l ++ Delim "]" :: rest) = if forallb unique l then Some rest else None.
Proof.
  induction 1 as [|j l Hj _ IH]; intros fuel rest Hf; (destruct fuel as [|fuel]; [simpl in Hf; lia|]); [done|].
  cbn [flat_map] in *. rewrite length_app in Hf. rewrite <-app_assoc. cbn [elements]. rewrite More_tokens.
  rewrite Hj by lia. cbn [forallb]. destruct (unique j); [|done]. cbn [mbind option_bind].
  apply IH. destruct (tokens_open j) as (t & r & E & _). rewrite E in Hf. simpl in Hf. lia.
Qed.

Lemma properties_reads l : Forall (λ p, reads p.2) l → ∀ fuel seen rest,
  (2 * S (length (flat_map (λ '(n, v), Str n :: tokens v) l)) ≤ fuel)%nat →
  properties fuel seen (flat_map (λ '(n, v), Str n :: tokens v) l ++ Delim "}" :: rest) =
  if bool_decide (NoDup (fst <$> l) ∧ Forall (λ n, n ∉ seen) (fst <$> l)) && forallb (λ '(_, v), unique v) l
  then Some rest else None.
Proof.
  induction 1 as [|[n v] l Hj _ IH]; intros fuel seen rest Hf; (destruct fuel as [|fuel]; [simpl in Hf; lia|]).
  { rewrite bool_decide_true by (split; constructor). done. }
  cbn [flat_map app length] in *. rewrite length_app in Hf. cbn [properties More is_close negb].
  rewrite <-app_assoc. destruct (decide (n ∈ seen)) as [Hs|Hs].
  { rewrite bool_decide_false; [done|]. intros [_ [Hn _]%Forall_cons]. by apply Hn. }
  rewrite Hj by (simpl; lia). simpl in Hj |- *. destruct (unique v); [|by rewrite andb_false_r]. cbn [mbind option_bind].
  rewrite IH by lia. cbn [andb].
  assert (bool_decide (NoDup l.*1 ∧ Forall (λ m, m ∉ n :: seen) l.*1)
          = bool_decide (NoDup (n :: l.*1) ∧ Forall (λ m, m ∉ seen) (n :: l.*1))) as ->; [|done].
  apply bool_decide_ext.
  rewrite NoDup_cons, !Forall_cons, !Forall_forall. set_solver.
Qed.

(** The scan of a keyring file for repeated properties, by hand over the
    decoder's tokens, accepts exactly the texts in which no object at any
    depth names a property twice, and it always comes to an end. *)
Theorem uniqueJSONProperties_unique j : uniqueJSONProperties (tokens j) = unique j.
Proof.
  assert (reads j) as Hj.
  { induction j as [| |l IH|l IH] using json_tree_ind; intros fuel rest Hf;
      (destruct fuel as [|fuel]; [simpl in Hf; lia|]); [done|done| |].
    - cbn [tokens app value]. rewrite <-app_assoc. apply (elements_reads l IH). simpl in Hf. rewrite length_app in Hf. simpl in Hf. lia.
    - cbn [tokens app value]. rewrite <-app_assoc. cbn [app]. rewrite decide_True by done.
      rewrite (properties_reads l IH).
      + cbn [unique]. rewrite (bool_decide_ext _ (NoDup l.*1)); [done|]. rewrite Forall_forall. set_solver.
      + simpl in Hf. rewrite length_app in Hf. simpl in Hf. lia. }
  unfold uniqueJSONProperties. rewrite <-(app_nil_r (tokens j)) at 2. rewrite Hj by lia. by destruct (unique j).
Qed.

(** ** What loading gives *)

Record ring_ok (r : Keyring) : Prop := {
  ri_active : is_Some (kr_keys r !! kr_active r);
  ri_keys : map_Forall (λ id key, length key = 32%nat ∧ validKeyID id = true) (kr_keys r);
}.

Lemma load_entries_Ok decode entries keys keys' : load_entries decode entries keys = Ok keys' →
  map_Forall (λ id key, length key = 32%nat ∧ validKeyID id = true) keys →
  map_Forall (λ id key, length key = 32%nat ∧ validKeyID id = true) keys' ∧
  NoDup (fst <$> entries) ∧ (∀ id, id ∈ fst <$> entries → keys !! id = None).
Proof.
  revert keys. induction entries as [|[id text] entries IH]; intros keys H Hk.
  { injection H as <-. split_and!; [done|constructor|by intros id ?%elem_of_nil]. }
  cbn [load_entries] in H. destruct (strict_base64 decode (id, text)) as [key|] eqn:Hb; [|done]. cbn in H.
  apply fail_if_bind in H as [Hn H]. guards. unfold strict_base64 in Hb. cbn in Hb.
  destruct (decode text) as [key'|]; [|done]. apply fail_if_bind in Hb as [Hg Hb]. injection Hb as ->. guards.
  destruct (IH _ H) as (Hall & Hnd & H3); [apply map_Forall_insert_2; [split; [lia|done]|done]|].
  assert (∀ i, i ∈ fst <$> entries → i ≠ id ∧ keys !! i = None) as Hne.
  { intros i Hi. specialize (H3 i Hi). by apply lookup_insert_None in H3 as [? ?]. }
  split_and!; [done| |].
  - cbn. constructor; [|done]. intros Hi. by destruct (Hne id Hi).
  - cbn. intros i [->|Hi]%elem_of_cons; [done|]. by apply Hne.
Qed.

(** A loaded keyring has its active key, and only keys of the right size. *)
Theorem LoadKeyring_ok Decode Tokens DecodeString file ring :
  LoadKeyring Decode Tokens DecodeString file = Ok ring → ring_ok ring.
Proof.
  unfold LoadKeyring. intros H. destruct (kf_lstat file) as [[regular mode]|]; [|done].
  apply fail_if_bind in H as [_ H]. destruct (kf_opened file) as [[same mode']|]; [|done].
  apply fail_if_bind in H as [_ H]. destruct (kf_data file) as [data|]; [|done].
  apply fail_if_bind in H as [_ H]. destruct (Decode data) as [[active entries]|]; [|done].
  apply fail_if_bind in H as [_ H]. apply fail_if_bind in H as [_ H].
  destruct (load_entries _ _ _) as [keys|] eqn:Hl; [|done]. cbn in H. apply fail_if_bind in H as [Ha H].
  injection H as <-. apply load_entries_Ok in Hl as (Hk & _); [|apply map_Forall_empty].
  split; [|done]. simpl. guards. by apply not_eq_None_Some.
Qed.

(** With such a keyring every payload of a legal size is sealed. *)
Theorem Keyring_Encrypt_total `{UuidApi, AEAD} ring rand binding payload :
  ring_ok ring → bindable binding → 1 <= Z.of_nat (length payload) <= 65520 → (∀ i, is_Some (rand i)) →
  ∃ e, Keyring_Encrypt (Some ring) rand binding payload = Ok e.
Proof.
  intros [[master Ha] Hk] Hb Hl Hr. destruct (Hk _ _ Ha) as [Hm Hid].
  assert (Hread : ∀ i n, ∃ b, Read rand i n = Some b) by (intros i n; unfold Read; destruct (Hr i) as [f ->]; by eexists).
  unfold Keyring_Encrypt, Require. rewrite Ha. cbn [bool_decide decide fail_if existsb mbind result_bind].
  rewrite bool_decide_false by done. cbn [fail_if mbind result_bind default].
  unfold Encrypt. rewrite (aad_bindable _ "payload" Hb), Hid.
  destruct (Z.eqb_spec (Z.of_nat (length payload)) 0); [lia|]. destruct (Z.ltb_spec 65520 (Z.of_nat (length payload))); [lia|].
  cbn [orb negb fail_if mbind result_bind]. destruct (Hread 0%nat 32%nat) as [dk Hdk]. rewrite Hdk. apply Read_length in Hdk.
  destruct (Hread 1%nat NonceSize) as [n1 Hn1]. destruct (Hread 2%nat NonceSize) as [n2 Hn2].
  assert (default [] (kr_keys ring !! kr_active ring) = master) as Hd by by rewrite Ha.
  unfold seal, gcm. rewrite Hd, Hdk, Hm, Hn1, Hn2.
  change (fail_if (negb (Z.of_nat 32 =? 32)) CredErrEnvelope) with (Ok (E := error) tt).
  unfold mbind, result_bind. by eexists.
Qed.

(** Two keys, and a source of random bytes. *)
Definition sample_ring : Keyring := MkKeyring "old" {["old" := replicate 32 1%N; "new" := replicate 32 2%N]}.
Definition sample_rand (seed : N) : Rand := λ i, Some (λ k, (seed + 17 * N.of_nat i + N.of_nat k) mod 256)%N.
Definition sample_binding : Binding := MkBinding (sample_id 10) (sample_id 20) "hetzner/cloud" 1.
Definition sample_payload : bytes := string_bytes "a token".
Definition sample_envelope : go Envelope :=
  Keyring_Encrypt (U := rfc9562) (Some sample_ring) (sample_rand 5) sample_binding sample_payload.
Definition sample_rewrapped : go Envelope :=
  e ← sample_envelope; Rewrap (U := rfc9562) (Some sample_ring) (sample_rand 90) sample_binding e "new".

Lemma envelope_roundtrip_witness : ∃ e e', sample_envelope = Ok e ∧ sample_rewrapped = Ok e' ∧
  en_WrappedKey e ≠ en_WrappedKey e' ∧ en_KeyID e' = "new" ∧
  Keyring_Decrypt (U := rfc9562) (Some sample_ring) sample_binding e' = Ok sample_payload.
Proof.
  destruct sample_envelope as [e|] eqn:He; [|by vm_compute in He].
  destruct sample_rewrapped as [e'|] eqn:He'; [|by vm_compute in He'].
  exists e, e'. split; [reflexivity|]. split; [reflexivity|].
  destruct (envelope_roundtrip (U := rfc9562) (Some sample_ring) (sample_rand 5) sample_binding sample_payload e
    [(sample_rand 90, "new")] e' He) as (Hd & _ & _ & Hk).
  { simpl. unfold sample_rewrapped in He'. by rewrite He in He'. }
  split; [|split; [exact Hk|exact Hd]].
  clear Hd Hk. vm_compute in He, He'. injection He as <-. injection He' as <-. by vm_compute.
Defined.
