(* ===== verification/Custody.v ===== *)
(** [internal/connection]: validation of a typed credential with its provider
    ([validation.go]), saving and rotating it ([save.go], [rotate.go]), moving
    stored versions to another master key ([rewrap.go]), and the encryption of
    the typed value ([credential.go]).

    A request runs as a [prog]: its reads, the provider's answer and its final
    transaction are steps between which anything may be committed. *)
From S2P Require Import Prelude GoBase Json Identifier Roles Schema Tx TxLogic Wp Sample AuditLog Jobs.
From S2P Require Import Membership Grants Enqueue Connection Provider Prog AesGcm Envelope.
Local Open Scope Z_scope.

(** ** Stored envelopes *)

Definition stored_envelope (cv : credential_version) : Envelope :=
  MkEnvelope (cv_ciphertext cv) (cv_nonce cv) (cv_wrapped_key cv) (cv_wrapping_nonce cv) (cv_master_key_id cv) (cv_format cv).
Definition version_row (e : Envelope) : credential_version :=
  CredentialVersion (en_Ciphertext e) (en_Nonce e) (en_WrappedKey e) (en_WrappingNonce e) (en_Format e) (en_KeyID e) None.

(** The CHECKs of [credential_versions] on lengths. *)
Definition octets_within (n : Z) (b : bytes) : bool := (1 <=? Z.of_nat (length b)) && (Z.of_nat (length b) <=? n).
Definition version_check (version : Z) (cv : credential_version) : bool :=
  (0 <? version) && octets_within 65536 (cv_ciphertext cv) && octets_within 64 (cv_nonce cv)
  && octets_within 1024 (cv_wrapped_key cv) && octets_within 64 (cv_wrapping_nonce cv) && (0 <? cv_format cv)
  && (1 <=? RuneCountInString (cv_master_key_id cv)) && (RuneCountInString (cv_master_key_id cv) <=? 128).

Definition insert_version (scope id : uuid) (version : Z) (cv : credential_version) : sql unit := λ _ d,
  require (bool_decide (is_Some (connection_in scope id d))) ;;
  require (version_check version cv) ;;
  t ← insert_new (scope, id, version) cv (credential_versions d);
  Some (tt, d <| credential_versions := t |>).

(** [btrim(label)] *)
Fixpoint drop_blanks (l : list ascii) : list ascii :=
  match l with " "%char :: r => drop_blanks r | _ => l end.
Definition btrim (s : string) : string :=
  String.string_of_list_ascii (reverse (drop_blanks (reverse (drop_blanks (String.list_ascii_of_string s))))).

Definition verifiable : list string := [
  "compute.server.read"; "compute.server.power_on"; "compute.server.shutdown"; "compute.server.power_off";
  "compute.server.reboot"; SnapshotCreate; "storage.snapshot.read"; SnapshotDelete].

Definition runes_within (n : Z) (s : string) : bool := (1 <=? RuneCountInString s) && (RuneCountInString s <=? n).

(** [INSERT INTO connections]: the workspace's foreign key and the CHECKs; the
    foreign key to the active version is deferred to the COMMIT. *)
Definition insert_connection (id scope : uuid) (c : connection) : sql unit := λ _ d,
  require (bool_decide (is_Some (workspaces d !! scope))) ;;
  require (runes_within 64 (cn_provider c) && runes_within 64 (cn_api_family c) && runes_within 512 (cn_account_identity c)
           && runes_within 100 (btrim (cn_label c)) && (Z.of_nat (length (cn_region_policy c)) <=? 100)) ;;
  require (forallb (λ a, bool_decide (a ∈ verifiable)) (cn_verified_capabilities c)
           && (Z.of_nat (length (cn_verified_capabilities c)) <=? 8)) ;;
  t ← insert_new id c (connections d);
  Some (tt, d <| connections := t |>).

(** The rotation's update of the row: its CHECKs on the columns it sets. *)
Definition activate (scope id : uuid) (version : Z) (verified_at : time) (verified : list string) : sql unit := λ _ d,
  match connection_in scope id d with
  | Some c =>
      require ((0 <? version) && forallb (λ a, bool_decide (a ∈ verifiable)) verified
               && (Z.of_nat (length verified) <=? 8)) ;;
      Some (tt, d <| connections ::= <[id := c <| cn_active_version := Some version |>
        <| cn_permissions_verified_at := Some verified_at |> <| cn_verified_capabilities := verified |>]> |>)
  | None => Some (tt, d)
  end.

(** ** Typed credentials in envelopes *)

(** [json.Marshal] of the credential: empty fields but the type are omitted. *)
Definition optional (name value : string) : list string :=
  if decide (value = "") then [] else [field name (json_string value)].
Definition MarshalCredential (c : Credential) : bytes :=
  string_bytes (object (field "type" (json_string (cr_Type c))
    :: optional "token" (cr_Token c) ++ optional "client_id" (cr_ClientID c)
    ++ optional "client_secret" (cr_ClientSecret c) ++ optional "username" (cr_Username c)
    ++ optional "password" (cr_Password c) ++ optional "customer_number" (cr_CustomerNumber c)
    ++ optional "api_key" (cr_APIKey c) ++ optional "api_password" (cr_APIPassword c))).

Example marshal_example :
  bytes_string (MarshalCredential (MkCredential "bearer_v1" "t" "" "" "" "" "" "" ""))
  = "{" +:+ quote +:+ "type" +:+ quote +:+ ":" +:+ quote +:+ "bearer_v1" +:+ quote +:+ ","
    +:+ quote +:+ "token" +:+ quote +:+ ":" +:+ quote +:+ "t" +:+ quote +:+ "}".
Proof. vm_compute. reflexivity. Qed.

(** ** The service *)

Record ValidationService := MkValidationService {
  vs_keyring : option Keyring; vs_enabled : bool; vs_readers : list string }.

Record preview := MkPreview {
  pw_AccountIdentity : string; pw_VerifiedAt : time; pw_Capabilities : list Capability }.

(** [^[A-Za-z0-9][A-Za-z0-9._:/-]{0,511}$] *)
Definition safeAccount (s : string) : bool := match_code "._:/-" 511 s.

(** The authority a preview needs: an administrator of an open workspace. *)
Definition may_preview (actor scope : uuid) : time → db → bool := λ _ d,
  match memberships d !! (scope, actor) with
  | Some m => (bool_decide (mb_role m = "admin") || bool_decide (mb_role m = "owner"))
              && open_workspace d scope && enabled d actor
  | None => false
  end.

Definition read_catalog : list Support := [MkSupport "compute.server.read" "read"].

Definition Preview (s : option ValidationService) (actor scope : uuid) (family : string) (input : Credential) : prog preview :=
  match s with
  | None => pthrow ConnErrValidation
  | Some s =>
      preject (negb (vs_enabled s) || negb (is_ok (Require (vs_keyring s) []))) ConnErrValidation ;;
      allowed ← tx (pool_exec ConnErrValidation (rd (may_preview actor scope)));
      preject (negb allowed) WsErrDenied ;;
      preject (negb (is_ok (Credential_Validate input))) ConnErrCredential ;;
      preject (negb (bool_decide (family ∈ vs_readers s))) ConnErrUnsupported ;;
      permitted ← ask (CPermit actor);
      preject (negb permitted) ConnErrValidationLimit ;;
      answer ← ask (CValidate family input);
      match answer with
      | Err _ => pthrow ConnErrValidation
      | Ok (account, verified) =>
          preject (negb (safeAccount account) || ContainsSecret input account) ConnErrValidation ;;
          now ← ask CNow;
          mret (MkPreview account now
                  (Effective read_catalog ["compute.server.read"] verified ["read"] ["compute.server.read"]))
      end
  end.

(** The loop over [preview.Capabilities]. *)
Definition available_actions (l : list Capability) : list string :=
  cp_Action <$> filter (λ c, cp_Available c = true) l.

(** The order of [RewrapBatch]: workspace, connection, version. *)
Definition version_le (a b : uuid * uuid * Z * credential_version) : Prop :=
  let '(w, c, v, _) := a in
  let '(w', c', v', _) := b in
  (w < w')%N ∨ w = w' ∧ ((c < c')%N ∨ c = c' ∧ v <= v').
#[export] Instance version_le_dec : RelDecision version_le.
Proof. intros [[[w c] v] x] [[[w' c'] v'] x']. unfold Decision, version_le. solve_decision. Defined.

Section custody.
Context `{U : UuidApi, C : AEAD}.

Definition EncryptCredential (ring : option Keyring) (rand : Rand) (binding : Envelope.Binding) (input : Credential)
  : go Envelope :=
  Credential_Validate input ;;
  Keyring_Encrypt ring rand binding (MarshalCredential input).

(** [Decode]: the strict decoding of the whole payload. *)
Definition DecryptCredential (Decode : bytes → option Credential) (ring : option Keyring) (binding : Envelope.Binding)
  (envelope : Envelope) : go Credential :=
  match Keyring_Decrypt ring binding envelope with
  | Err _ => Err ConnErrCredential
  | Ok payload =>
      match Decode payload with
      | None => Err ConnErrCredential
      | Some result =>
          match Credential_Validate result with Err _ => Err ConnErrCredential | Ok _ => Ok result end
      end
  end.

Definition storeEnvelope (scope id : uuid) (version : Z) (envelope : Envelope) : txm unit :=
  exec WsErrStore (insert_version scope id version (version_row envelope)).

(** ** [Save] *)

Definition save_commit (actor scope id : uuid) (family label : string) (p : preview) (envelope : Envelope) (request : string)
  : txm uuid :=
  begin_tx WsErrStore ;;
  LockAuthority actor scope ;;
  let verified := available_actions (pw_Capabilities p) in
  exec WsErrStore (insert_connection id scope
    (Connection scope family family (pw_AccountIdentity p) [] label "active" (Some 1) (Some (pw_VerifiedAt p)) verified)) ;;
  storeEnvelope scope id 1 envelope ;;
  connectionAudit actor scope id "connection.created" request ;;
  syncID ← Initial actor scope id;
  commit WsErrStore ;;
  mret syncID.

Definition encrypted (r : go Envelope) : prog Envelope :=
  match r with Ok envelope => mret envelope | Err _ => pthrow ConnErrCredential end.

Definition ring_of (s : option ValidationService) : option Keyring := s ≫= vs_keyring.

Definition Save (s : option ValidationService) (rand : Rand) (actor scope : uuid) (family input_label : string)
  (credential : Credential) (request : string) : prog (uuid * uuid * preview) :=
  let label := TrimSpace input_label in
  preject (bool_decide (label = "") || (100 <? len label)) WsErrInvalid ;;
  p ← Preview s actor scope family credential;
  id ← tx (new_id WsErrStore);
  envelope ← encrypted (EncryptCredential (ring_of s) rand (Envelope.MkBinding scope id family 1) credential);
  syncID ← tx (save_commit actor scope id family label p envelope request);
  mret (id, syncID, p).

(** ** [Rotate] *)

Definition rotation_row (scope id : uuid) : time → db → option (string * string * Z) := λ _ d,
  c ← connection_in scope id d; v ← cn_active_version c; Some (cn_api_family c, cn_account_identity c, v).

Definition rotate_commit (actor scope id : uuid) (oldVersion : Z) (p : preview) (envelope : Envelope) (request : string)
  : txm unit :=
  let version := oldVersion + 1 in
  begin_tx WsErrStore ;;
  LockAuthority actor scope ;;
  current ← query_row WsErrStore WsErrStore (rd (λ _ d, c ← connection_in scope id d; cn_active_version c));
  reject_if (negb (current =? oldVersion)) ConnErrVersion ;;
  storeEnvelope scope id version envelope ;;
  exec WsErrStore (activate scope id version (pw_VerifiedAt p) (available_actions (pw_Capabilities p))) ;;
  connectionAudit actor scope id "connection.credential_rotated" request ;;
  commit WsErrStore ;;
  mret tt.

Definition Rotate (s : option ValidationService) (rand : Rand) (actor scope id : uuid) (input : Credential) (request : string)
  : prog Z :=
  match s with
  | None => pthrow ConnErrValidation
  | Some _ =>
      tx (ConnectionAuthority actor scope id "manage") ;;
      '(family, account, oldVersion) ← tx (pool_row WsErrStore WsErrStore (rd (rotation_row scope id)));
      preject (oldVersion =? bigint_max) ConnErrVersion ;;
      p ← Preview s actor scope family input;
      preject (negb (bool_decide (pw_AccountIdentity p = account))) ConnErrCredential ;;
      let version := oldVersion + 1 in
      envelope ← encrypted (EncryptCredential (ring_of s) rand (Envelope.MkBinding scope id family version) input);
      tx (rotate_commit actor scope id oldVersion p envelope request) ;;
      mret version
  end.

(** ** [RewrapBatch] *)

(** The versions under [oldID], with their connections' families. *)
Definition rewrap_rows (oldID : string) (limit : Z) : time → db → list (uuid * uuid * Z * credential_version * string) := λ _ d,
  omap (λ '(w, c, v, cv), (λ x, (w, c, v, cv, cn_api_family x)) <$> connection_in w c d)
    (take (Z.to_nat limit) (merge_sort version_le
      (filter (λ '(w, c, v, cv), cv_master_key_id cv = oldID ∧ is_Some (connection_in w c d))
        ((λ '(k, cv), (k.1.1, k.1.2, k.2, cv)) <$> map_to_list (credential_versions d))))).

Definition rewrap_row (w c : uuid) (v : Z) (next : Envelope) (newID oldID : string) : sql nat := λ _ d,
  match credential_versions d !! (w, c, v) with
  | Some cv =>
      if decide (cv_master_key_id cv = oldID) then
        let cv' := cv <| cv_wrapped_key := en_WrappedKey next |> <| cv_wrapping_nonce := en_WrappingNonce next |>
                      <| cv_master_key_id := newID |> in
        require (version_check v cv') ;;
        Some (1%nat, d <| credential_versions ::= <[(w, c, v) := cv']> |>)
      else Some (O, d)
  | None => Some (O, d)
  end.

Fixpoint rewrap_each (ring : option Keyring) (rand : nat → Rand) (oldID newID : string) (i : nat)
  (l : list (uuid * uuid * Z * credential_version * string)) : txm unit :=
  match l with
  | [] => mret tt
  | (w, c, v, cv, family) :: r =>
      next ← or_fail ConnErrRewrap
        (lift (Rewrap ring (rand i) (Envelope.MkBinding w c family v) (stored_envelope cv) newID));
      n ← exec ConnErrRewrap (rewrap_row w c v next newID oldID);
      reject_if (negb (bool_decide (n = 1%nat))) ConnErrRewrap ;;
      rewrap_each ring rand oldID newID (S i) r
  end.

Definition RewrapBatch (ring : option Keyring) (rand : nat → Rand) (oldID newID : string) (limit : Z) : txm Z :=
  reject_if (bool_decide (oldID = newID) || (limit <? 1) || (200 <? limit) || negb (is_ok (Require ring [oldID; newID])))
    ConnErrRewrap ;;
  begin_tx ConnErrRewrap ;;
  pending ← exec ConnErrRewrap (rd (rewrap_rows oldID limit));
  rewrap_each ring rand oldID newID 0 pending ;;
  commit ConnErrRewrap ;;
  mret (Z.of_nat (length pending)).

Definition key_count (id : string) (d : db) : Z :=
  count_where (λ _ cv, bool_decide (cv_master_key_id cv = id)) (credential_versions d).
Definition KeyReferences (id : string) : txm Z := pool_exec ConnErrRewrap (rd (λ _, key_count id)).
End custody.

(** ** Custody

    Every stored version belongs to a connection of its workspace and opens,
    with the keyring, to the text of a valid credential; every active version
    is stored. *)
Section invariant.
Context `{U : UuidApi, C : AEAD} (ring : Keyring).

Definition opens (family : string) (scope id : uuid) (v : Z) (cv : credential_version) (payload : bytes) : Prop :=
  Keyring_Decrypt (Some ring) (Envelope.MkBinding scope id family v) (stored_envelope cv) = Ok payload.

Record custody (d : db) : Prop := {
  cu_versions : ∀ scope id v cv, credential_versions d !! (scope, id, v) = Some cv →
    ∃ c credential, connections d !! id = Some c ∧ cn_workspace c = scope ∧ Credential_Validate credential = Ok tt ∧
      opens (cn_api_family c) scope id v cv (MarshalCredential credential);
  cu_active : ∀ id c v, connections d !! id = Some c → cn_active_version c = Some v →
    is_Some (credential_versions d !! (cn_workspace c, id, v));
}.

(** A connection keeps its workspace, provider and family. *)
Definition identity_kept (d d' : db) : Prop := ∀ id c, connections d !! id = Some c →
  ∃ c', connections d' !! id = Some c' ∧ cn_workspace c' = cn_workspace c ∧ cn_provider c' = cn_provider c ∧
    cn_api_family c' = cn_api_family c ∧ cn_account_identity c' = cn_account_identity c.

(** A stored version stays, and opens as it did. *)
Definition retained (d d' : db) : Prop := ∀ w c v cv cn payload,
  credential_versions d !! (w, c, v) = Some cv → connections d !! c = Some cn → opens (cn_api_family cn) w c v cv payload →
  ∃ cv', credential_versions d' !! (w, c, v) = Some cv' ∧ opens (cn_api_family cn) w c v cv' payload.

Definition safekept (d d' : db) : Prop := (custody d → custody d') ∧ identity_kept d d' ∧ retained d d'.

Lemma retained_same d d' : (∀ k cv, credential_versions d !! k = Some cv → credential_versions d' !! k = Some cv) → retained d d'.
Proof. intros H w c v cv cn payload Hv _ Ho. eauto. Qed.

#[export] Instance safekept_preorder : PreOrder safekept.
Proof.
  split.
  - intros d. split; [done|]. split; [|by apply retained_same]. intros id c Hc. by exists c.
  - intros d1 d2 d3 (H1 & I1 & R1) (H2 & I2 & R2). split; [auto|]. split.
    + intros id c (c' & Hc' & ? & ? & ? & ?)%I1.
      destruct (I2 _ _ Hc') as (c'' & Hc'' & ? & ? & ? & ?). exists c''. split_and!; congruence.
    + intros w c v cv cn payload Hv Hcn Ho. destruct (R1 _ _ _ _ _ _ Hv Hcn Ho) as (cv1 & Hv1 & Ho1).
      destruct (I1 _ _ Hcn) as (cn1 & Hcn1 & _ & _ & Hf & _). rewrite <-Hf in Ho1.
      destruct (R2 _ _ _ _ _ _ Hv1 Hcn1 Ho1) as (cv2 & Hv2 & Ho2). exists cv2. by rewrite <-Hf.
Qed.

Lemma safekept_same d d' : connections d' = connections d → credential_versions d' = credential_versions d → safekept d d'.
Proof.
  intros Hc Hv. split; [|split].
  - intros [H1 H2]. split; [|by rewrite Hc, Hv]. intros scope id v cv. rewrite Hv, Hc. apply H1.
  - intros id c. rewrite Hc. eauto 7.
  - apply retained_same. by rewrite Hv.
Qed.

(** A process may use a part of the keyring. *)
Context (kr : Keyring) (Hpart : sub_ring kr ring).

Lemma EncryptCredential_opens rand b input e : EncryptCredential (Some kr) rand b input = Ok e →
  Credential_Validate input = Ok tt ∧ Keyring_Decrypt (Some ring) b e = Ok (MarshalCredential input).
Proof using Hpart.
  unfold EncryptCredential. destruct (Credential_Validate input) as [[]|]; [|done]. cbn.
  intros H%Keyring_Decrypt_Encrypt. split; [done|]. by eapply Keyring_Decrypt_sub.
Qed.

Lemma stored_version_row e : stored_envelope (version_row e) = e.
Proof. by destruct e. Qed.

(** *** What the transactions commit *)

Record connection_saved (actor scope id : uuid) (family label : string) (p : preview) (envelope : Envelope) (d d' : db)
  : Prop := {
  cs_actor : ∃ m, memberships d !! (scope, actor) = Some m ∧ enabled d actor = true ∧ Allows (mb_role m) "admin" = true;
  cs_fresh : connections d !! id = None;
  cs_connections : connections d' = <[id := Connection scope family family (pw_AccountIdentity p) [] label "active"
    (Some 1) (Some (pw_VerifiedAt p)) (available_actions (pw_Capabilities p))]> (connections d);
  cs_versions : credential_versions d' = <[(scope, id, 1) := version_row envelope]> (credential_versions d);
  cs_version_fresh : credential_versions d !! (scope, id, 1) = None;
}.

Record credential_rotated (actor scope id : uuid) (old : Z) (p : preview) (envelope : Envelope) (d d' : db) : Prop := {
  cr_actor : ∃ m, memberships d !! (scope, actor) = Some m ∧ enabled d actor = true ∧ Allows (mb_role m) "admin" = true;
  cr_connection : ∃ c, connections d !! id = Some c ∧ cn_workspace c = scope ∧ cn_active_version c = Some old ∧
    connections d' = <[id := c <| cn_active_version := Some (old + 1) |>
      <| cn_permissions_verified_at := Some (pw_VerifiedAt p) |>
      <| cn_verified_capabilities := available_actions (pw_Capabilities p) |>]> (connections d);
  cr_versions : credential_versions d' = <[(scope, id, old + 1) := version_row envelope]> (credential_versions d);
  cr_fresh : credential_versions d !! (scope, id, old + 1) = None;
}.

Lemma storeEnvelope_spec scope id v envelope :
  TxSpec (storeEnvelope scope id v envelope) rolled_back (λ w _ w' _,
    credential_versions w !! (scope, id, v) = None ∧
    w' = w <| credential_versions ::= <[(scope, id, v) := version_row envelope]> |>).
Proof.
  intros d w e. unfold storeEnvelope. wp_run by tx_done. simpl. split_and!; [done|env_solve| |];
    match goal with H : insert_version _ _ _ _ _ _ = _ |- _ => unfold insert_version in H; sql_inv H end; done.
Qed.
#[local] Existing Instance storeEnvelope_spec.

(** [inventory.Initial] queues a refresh, and touches neither table. *)
Lemma Initial_spec actor scope id :
  TxSpec (Initial actor scope id) rolled_back (λ w _ w' _,
    connections w' = connections w ∧ credential_versions w' = credential_versions w).
Proof.
  intros d w e. unfold Initial, enqueueLocked, enqueueLockedType. wp_run by tx_done.
  simpl. split_and!; [done|env_solve|..].
  all: repeat match goal with
       | H : insert_sync _ _ _ _ _ _ _ = _ |- _ => unfold insert_sync in H; sql_inv H
       | H : insert_refresh _ _ _ _ _ _ _ = _ |- _ => unfold insert_refresh in H; apply insert_job_Some in H as (_ & -> & _)
       end; done.
Qed.
#[local] Existing Instance Initial_spec.

Lemma save_commit_spec actor scope id family label p envelope request d w e :
  wp (save_commit actor scope id family label p envelope request)
    (atomic WsErrStore (λ d _ d', connection_saved actor scope id family label p envelope d d') d) (Txs d w e).
Proof.
  unfold save_commit. repeat wp_step. all: try solve [simpl; auto].
  match goal with H : insert_connection _ _ _ _ _ = _ |- _ => unfold insert_connection in H; sql_inv H end.
  match goal with H : audit_only _ _ |- _ => destruct H as [t ->] end. simpl in *.
  split; simpl; [eauto|done|congruence|congruence|done].
Qed.

Lemma rotate_commit_spec actor scope id old p envelope request d w e :
  wp (rotate_commit actor scope id old p envelope request)
    (atomic WsErrStore (λ d _ d', credential_rotated actor scope id old p envelope d d') d) (Txs d w e).
Proof.
  unfold rotate_commit. repeat wp_step. all: try solve [simpl; auto].
  match goal with H : connection_in _ _ _ ≫= _ = Some _ |- _ => apply bind_Some in H as (c & Hc & Hv) end.
  match goal with H : activate _ _ _ _ _ _ _ = _ |- _ => unfold activate in H; cbn in H end.
  match goal with H : match connection_in ?s ?i ?x with _ => _ end = _ |- _ =>
    assert (connection_in s i x = Some c) as E by exact Hc; rewrite E in H; sql_inv H end.
  match goal with H : audit_only _ _ |- _ => destruct H as [t ->] end. guards. subst.
  apply connection_in_Some in Hc as [? ?]. split; simpl; [eauto|exists c; by split_and!|done|done].
Qed.

(** *** What they keep *)

Lemma saved_kept actor scope id family label p envelope d d' input rand :
  EncryptCredential (Some kr) rand (Envelope.MkBinding scope id family 1) input = Ok envelope →
  connection_saved actor scope id family label p envelope d d' → safekept d d'.
Proof using Hpart.
  intros [Hv Ho]%EncryptCredential_opens [_ Hf Hc Hcv Hn]. split; [|split].
  - intros [H1 H2]. split.
    + intros s i v cv. rewrite Hcv, Hc. intros [[[= <- <- <-] <-]|[_ Hi]]%lookup_insert_Some.
      * rewrite lookup_insert_eq. do 2 eexists. split_and!; [done|done|exact Hv|]. unfold opens. by rewrite stored_version_row.
      * destruct (H1 _ _ _ _ Hi) as (c & cred & Hci & ?). exists c, cred. split; [|done].
        rewrite lookup_insert_ne; [done|]. intros <-. congruence.
    + intros i c v. rewrite Hc, Hcv. intros [[<- <-]|[Hne Hi]]%lookup_insert_Some Ha; simpl in *.
      * injection Ha as <-. by rewrite lookup_insert_eq.
      * rewrite lookup_insert_ne by congruence. eauto.
  - intros i c Hi. exists c. rewrite Hc, lookup_insert_ne by (intros <-; congruence). done.
  - apply retained_same. intros k cv Hk. rewrite Hcv, lookup_insert_ne; [done|]. intros <-. congruence.
Qed.

Lemma rotated_kept actor scope id old p envelope d d' input rand family :
  (∃ c, connections d !! id = Some c ∧ cn_api_family c = family) →
  EncryptCredential (Some kr) rand (Envelope.MkBinding scope id family (old + 1)) input = Ok envelope →
  credential_rotated actor scope id old p envelope d d' → safekept d d'.
Proof using Hpart.
  intros (c0 & Hc0 & Hfam) [Hv Ho]%EncryptCredential_opens [_ (c & Hc & Hw & Hold & Hcs) Hcv Hn]. simplify_eq.
  assert (identity_kept d d') as Hid.
  { intros i x Hi. rewrite Hcs. destruct (decide (i = id)) as [->|Hne].
    - simplify_eq. rewrite lookup_insert_eq. by eexists.
    - rewrite lookup_insert_ne by done. by exists x. }
  split; [|split; [done|]]; cycle 1.
  { apply retained_same. intros k cv Hk. rewrite Hcv, lookup_insert_ne; [done|]. intros <-. congruence. }
  intros [H1 H2]. split.
  - intros s i v cv. rewrite Hcv. intros [[[= <- <- <-] <-]|[_ Hi]]%lookup_insert_Some.
    + rewrite Hcs, lookup_insert_eq. do 2 eexists. split_and!; [done|done|exact Hv|]. unfold opens. by rewrite stored_version_row.
    + destruct (H1 _ _ _ _ Hi) as (x & cred & Hx & Hxw & ? & Hop). destruct (Hid _ _ Hx) as (x' & Hx' & Hw' & _ & Hf' & _).
      exists x', cred. split_and!; [done|congruence|done|]. by rewrite Hf'.
  - intros i x v. rewrite Hcs, Hcv. intros [[<- <-]|[Hne Hi]]%lookup_insert_Some Ha; simpl in *.
    + injection Ha as <-. by rewrite lookup_insert_eq.
    + rewrite lookup_insert_ne by congruence. eauto.
Qed.

(** *** Rewrapping *)

(** One row moved to [newID]: its payload and every other row are as they were. *)
Definition moved (oldID newID : string) (k : uuid * uuid * Z) (d d' : db) : Prop :=
  ∃ cv cv', credential_versions d !! k = Some cv ∧ cv_master_key_id cv = oldID ∧
    d' = d <| credential_versions ::= <[k := cv']> |> ∧
    cv_ciphertext cv' = cv_ciphertext cv ∧ cv_nonce cv' = cv_nonce cv ∧ cv_format cv' = cv_format cv ∧
    cv_revoked_at cv' = cv_revoked_at cv ∧ cv_master_key_id cv' = newID ∧
    ∀ family payload, (∃ c, connections d !! k.1.2 = Some c ∧ cn_api_family c = family) →
      opens family k.1.1 k.1.2 k.2 cv payload → opens family k.1.1 k.1.2 k.2 cv' payload.

Inductive all_moved (oldID newID : string) : list (uuid * uuid * Z) → db → db → Prop :=
| all_moved_nil d : all_moved oldID newID [] d d
| all_moved_cons k l d d1 d2 : moved oldID newID k d d1 → all_moved oldID newID l d1 d2 →
    all_moved oldID newID (k :: l) d d2.

Definition row_key (x : uuid * uuid * Z * credential_version * string) : uuid * uuid * Z :=
  let '(w, c, v, _, _) := x in (w, c, v).

(** A row as the SELECT read it. *)
Definition fresh_row (d : db) (x : uuid * uuid * Z * credential_version * string) : Prop :=
  let '(w, c, v, cv, family) := x in
  credential_versions d !! (w, c, v) = Some cv ∧ ∃ cn, connections d !! c = Some cn ∧ cn_api_family cn = family.

Lemma moved_fresh oldID newID k d d' x : moved oldID newID k d d' → row_key x ≠ k → fresh_row d x → fresh_row d' x.
Proof.
  destruct x as [[[[w c] v] cv] family]. intros (? & ? & _ & _ & -> & _) Hk [Hl Hc]. simpl in *.
  split; [|done]. by rewrite lookup_insert_ne.
Qed.

Lemma rewrap_each_spec rand oldID newID l i d w e : Forall (fresh_row w) l → NoDup (row_key <$> l) →
  wp (rewrap_each (Some kr) rand oldID newID i l) (λ r s', tx_db s' = d ∧ env_le e (tx_env s') ∧
    match r with Ok _ => all_moved oldID newID (row_key <$> l) w (tx_work s') | Err err => err = ConnErrRewrap end) (Txs d w e).
Proof.
  revert i w e. induction l as [|[[[[wk c] v] cv] family] l IH]; intros i w e Hf Hn.
  { apply wp_ret. simpl. split_and!; [done|env_solve|constructor]. }
  apply Forall_cons in Hf as [[Hcv (cn & Hcn & Hfam)] Hf]. cbn in Hn. apply NoDup_cons in Hn as [Hk Hn].
  cbn [rewrap_each]. apply wp_bind, wp_or_fail, wp_lift.
  destruct (Rewrap _ _ _ _ _) as [next|] eqn:Hr; [|simpl; split_and!; [done|env_solve|done]].
  repeat wp_step. 1, 2: simpl; split_and!; [done|env_solve|done].
  match goal with H : rewrap_row _ _ _ _ _ _ _ _ = _ |- _ => rename H into Hq end.
  unfold rewrap_row in Hq. rewrite Hcv in Hq. destruct (decide (cv_master_key_id cv = oldID)) as [Hold|]; cycle 1.
  { by injection Hq as <- <-. }
  apply bind_Some in Hq as (u & _ & Hq). injection Hq as <- <-.
  set (cv' := cv <| cv_wrapped_key := en_WrappedKey next |> <| cv_wrapping_nonce := en_WrappingNonce next |>
                 <| cv_master_key_id := newID |>) in *.
  match goal with |- wp _ _ (Txs _ ?x _) => set (w1 := x) end.
  assert (moved oldID newID (wk, c, v) w w1) as Hm.
  { exists cv, cv'. split_and!; try done. intros fam payload (cn' & Hcn' & <-) Ho. simpl in *. simplify_eq.
    unfold opens in *. pose proof Hr as (x & [= <-] & Ha & Hkey & _ & Hc1 & Hc2 & Hc3 & Hc4 & _)%Rewrap_Ok.
    apply (Keyring_Decrypt_super kr ring) in Ho; [|exact Hpart|exact Ha|exact Hkey].
    apply (Rewrap_Decrypt _ _ _ _ _ _ Hr payload), (Keyring_Decrypt_sub kr ring) in Ho; [|exact Hpart].
    assert (stored_envelope cv' = next) as ->; [|done]. destruct next. unfold stored_envelope, cv'. simpl in *. congruence. }
  eapply wp_mono; [apply (IH (S i) w1)|].
  - apply Forall_forall. intros x Hx. eapply (moved_fresh _ _ _ _ _ _ Hm); [|by eapply Forall_forall].
    intros E. apply Hk. rewrite <-E. by apply list_elem_of_fmap_2.
  - done.
  - intros r [d2 w2 e2] (? & ? & Hrest). simpl in *. split_and!; [done|env_solve|]. destruct r; [by econstructor|done].
Qed.

Lemma moved_counts oldID newID k d d' : oldID ≠ newID → moved oldID newID k d d' →
  key_count oldID d' = key_count oldID d - 1 ∧ key_count newID d' = key_count newID d + 1.
Proof.
  intros Hne (cv & cv' & Hk & Hold & -> & _ & _ & _ & _ & Hnew & _). simpl.
  set (p := λ id v, bool_decide (cv_master_key_id v = id)).
  pose proof (tally_update (p oldID) _ _ _ cv' Hk) as H1. pose proof (tally_update (p newID) _ _ _ cv' Hk) as H2.
  unfold p in H1, H2. rewrite Hold, Hnew, bool_decide_true, (bool_decide_false (newID = oldID)) in H1 by done.
  rewrite Hold, Hnew, (bool_decide_false (oldID = newID)), bool_decide_true in H2 by done. simpl in H1, H2.
  unfold key_count, count_where. unfold tally in H1, H2. simpl. lia.
Qed.

Lemma moved_kept oldID newID k d d' : moved oldID newID k d d' → safekept d d'.
Proof.
  intros (cv & cv' & Hk & _ & -> & _ & _ & _ & _ & _ & Ho). split; [|split; [intros i c Hc; by exists c|]]; cycle 1.
  { intros w c v x cn payload Hx Hcn Hop. simpl. destruct (decide (k = (w, c, v))) as [->|]; [|rewrite lookup_insert_ne by done; eauto].
    simplify_eq. exists cv'. rewrite lookup_insert_eq. split; [done|]. eapply Ho; [by exists cn|exact Hop]. }
  intros [H1 H2]. split; simpl.
  - intros s i v x [[-> <-]|[_ Hi]]%lookup_insert_Some; [|by eapply H1].
    destruct (H1 _ _ _ _ Hk) as (c & cred & Hc & Hw & Hv & Hop). exists c, cred. split_and!; [done..|].
    eapply Ho; [by exists c|]. exact Hop.
  - intros i c v Hi Ha. destruct (decide ((cn_workspace c, i, v) = k)) as [<-|]; [by rewrite lookup_insert_eq|].
    rewrite lookup_insert_ne by done. eauto.
Qed.

Lemma all_moved_spec oldID newID l d d' : oldID ≠ newID → all_moved oldID newID l d d' →
  safekept d d' ∧ key_count oldID d' = key_count oldID d - Z.of_nat (length l) ∧
  key_count newID d' = key_count newID d + Z.of_nat (length l) ∧
  connections d' = connections d ∧ dom (credential_versions d') = dom (credential_versions d).
Proof using Type.
  clear kr Hpart. intros Hne. induction 1 as [d|k l d d1 d2 Hm _ (Hk & H1 & H2 & Hc & Hd)]; [split_and!; [done|simpl; lia|simpl; lia|done|done]|].
  destruct (moved_counts _ _ _ _ _ Hne Hm) as [? ?].
  split_and!; [by etrans; [eapply moved_kept|]|simpl length; lia|simpl length; lia| |].
  - destruct Hm as (? & ? & _ & _ & -> & _). done.
  - rewrite Hd. destruct Hm as (? & ? & Hl & _ & -> & _). simpl. rewrite dom_insert_L.
    apply elem_of_dom_2 in Hl. set_solver.
Qed.

(** The SELECT: distinct rows under [oldID], at most [limit], all of them when fewer. *)
Definition row_of (d : db) (x : uuid * uuid * Z * credential_version) : option (uuid * uuid * Z * credential_version * string) :=
  let '(w, c, v, cv) := x in (λ y, (w, c, v, cv, cn_api_family y)) <$> connection_in w c d.

Lemma row_of_key d x y : row_of d x = Some y → row_key y = x.1.
Proof. destruct x as [[[w c] v] cv]. simpl. by intros (? & ? & ->)%fmap_Some. Qed.

Lemma omap_keys d l : row_key <$> omap (row_of d) l `sublist_of` l.*1.
Proof.
  induction l as [|x l IH]; [constructor|]. cbn [omap list_omap]. destruct (row_of d x) as [y|] eqn:Hy.
  - cbn. rewrite (row_of_key _ _ _ Hy). by constructor.
  - cbn. by constructor.
Qed.

Lemma rewrap_rows_spec oldID limit now d : 0 <= limit →
  Forall (fresh_row d) (rewrap_rows oldID limit now d) ∧ NoDup (row_key <$> rewrap_rows oldID limit now d) ∧
  Z.of_nat (length (rewrap_rows oldID limit now d)) <= limit ∧
  (Z.of_nat (length (rewrap_rows oldID limit now d)) < limit → ∀ w c v cv,
    credential_versions d !! (w, c, v) = Some cv → cv_master_key_id cv = oldID → is_Some (connection_in w c d) →
    (w, c, v) ∈ row_key <$> rewrap_rows oldID limit now d).
Proof.
  intros Hlim. unfold rewrap_rows.
  set (P := λ '(w, c, v, cv), cv_master_key_id cv = oldID ∧ is_Some (connection_in w c d)).
  set (rows := (λ '(k, cv), (k.1.1, k.1.2, k.2, cv)) <$> map_to_list (credential_versions d)).
  change (λ '(w, c, v, cv), (λ x, (w, c, v, cv, cn_api_family x)) <$> connection_in w c d) with (row_of d).
  match goal with |- context [filter ?p rows] => change (filter p rows) with (filter P rows) end.
  set (sorted := merge_sort version_le (filter P rows)).
  assert (Hperm : sorted ≡ₚ filter P rows) by apply merge_sort_Permutation.
  assert (Hrows : ∀ w c v cv, (w, c, v, cv) ∈ rows ↔ credential_versions d !! (w, c, v) = Some cv).
  { intros w c v cv. unfold rows. rewrite list_elem_of_fmap. split.
    - intros ([[[w' c'] v'] cv'] & [= -> -> -> ->] & Hin). by apply elem_of_map_to_list in Hin.
    - intros Hl. exists ((w, c, v), cv). split; [done|]. by apply elem_of_map_to_list. }
  assert (Hkeys : NoDup (sorted.*1)).
  { rewrite Hperm. apply (sublist_NoDup _ (rows.*1)).
    2: { apply (fmap_sublist fst), sublist_filter. }
    unfold rows. rewrite <-list_fmap_compose.
    rewrite (list_fmap_ext _ fst _); [apply NoDup_fst_map_to_list|]. by intros i [[[w c] v] cv] _. }
  assert (Hsome : ∀ x, x ∈ sorted → P x ∧ x ∈ rows) by (intros x; rewrite Hperm; apply list_elem_of_filter).
  assert (Hlen : ∀ l, (∀ x, x ∈ l → x ∈ sorted) → length (omap (row_of d) l) = length l).
  { induction l as [|x l IH]; intros Hl; [done|]. cbn [omap list_omap].
    destruct (Hsome x (Hl x ltac:(by constructor))) as [HP _]. destruct x as [[[w c] v] cv].
    destruct HP as [_ [y Hy]]. cbn. rewrite Hy. cbn. rewrite <-IH; [done|]. intros x Hx. apply Hl. by constructor. }
  set (n := Z.to_nat limit). assert (Hsub : ∀ x, x ∈ take n sorted → x ∈ sorted) by (intros x; intros (i & Hi & _)%elem_of_take; by eapply list_elem_of_lookup_2).
  split_and!.
  - apply Forall_forall. intros y (x & Hx & Hy)%list_elem_of_omap. destruct (Hsome x (Hsub x Hx)) as [_ Hin].
    destruct x as [[[w c] v] cv]. apply Hrows in Hin. simpl in Hy. apply fmap_Some in Hy as (cn & Hcn & ->).
    apply connection_in_Some in Hcn as [? _]. split; [done|]. by exists cn.
  - eapply sublist_NoDup; [|apply omap_keys]. eapply sublist_NoDup; [exact Hkeys|]. apply (fmap_sublist fst), sublist_take.
  - rewrite (Hlen _ Hsub), length_take. lia.
  - rewrite (Hlen _ Hsub), length_take. intros Hlt w c v cv Hl Hold [cn Hcn].
    assert (take n sorted = sorted) as -> by (apply take_ge; lia).
    apply list_elem_of_fmap. exists (w, c, v, cv, cn_api_family cn). split; [done|].
    apply list_elem_of_omap. exists (w, c, v, cv). split; [|simpl; by rewrite Hcn].
    rewrite Hperm. apply list_elem_of_filter. split; [split; [done|by eexists]|by apply Hrows].
Qed.

(** What became of a stored version: the same sealed payload, which opens as before. *)
Definition carried (d d' : db) : Prop := ∀ w c v cv, credential_versions d !! (w, c, v) = Some cv →
  ∃ cv', credential_versions d' !! (w, c, v) = Some cv' ∧ cv_ciphertext cv' = cv_ciphertext cv ∧
    cv_nonce cv' = cv_nonce cv ∧ cv_revoked_at cv' = cv_revoked_at cv ∧
    ∀ cn payload, connections d !! c = Some cn → opens (cn_api_family cn) w c v cv payload →
      opens (cn_api_family cn) w c v cv' payload.

Lemma moved_carried oldID newID k d d' : moved oldID newID k d d' → carried d d'.
Proof.
  intros (cv & cv' & Hk & _ & -> & H1 & H2 & _ & H4 & _ & Ho) w c v x Hx. simpl.
  destruct (decide (k = (w, c, v))) as [->|]; [|rewrite lookup_insert_ne by done; eauto 8].
  simplify_eq. exists cv'. rewrite lookup_insert_eq. split_and!; [done..|]. intros cn payload Hcn Hop.
  eapply Ho; [by exists cn|exact Hop].
Qed.

Lemma all_moved_carried oldID newID l d d' : all_moved oldID newID l d d' → carried d d'.
Proof.
  induction 1 as [d|k l d d1 d2 Hm _ IH]; [intros w c v cv Hv; eauto 8|].
  intros w c v cv Hv. destruct (moved_carried _ _ _ _ _ Hm _ _ _ _ Hv) as (cv1 & Hv1 & ? & ? & ? & Ho1).
  destruct (IH _ _ _ _ Hv1) as (cv2 & Hv2 & ? & ? & ? & Ho2). exists cv2. split_and!; [done|congruence..|].
  intros cn payload Hcn Hop. apply Ho2; [|by apply Ho1].
  destruct Hm as (? & ? & _ & _ & -> & _). done.
Qed.

Lemma RewrapBatch_spec rand oldID newID limit d w e :
  wp (RewrapBatch (Some kr) rand oldID newID limit) (atomic ConnErrRewrap (λ d n d',
    oldID ≠ newID ∧ n <= limit ∧ ∃ l, n = Z.of_nat (length l) ∧ NoDup l ∧ all_moved oldID newID l d d' ∧
      (n < limit → ∀ w c v cv, credential_versions d !! (w, c, v) = Some cv → cv_master_key_id cv = oldID →
         is_Some (connection_in w c d) → (w, c, v) ∈ l)) d) (Txs d w e).
Proof.
  unfold RewrapBatch. do 2 wp_step; [simpl; by left|].
  apply orb_false_iff in H as [[[H1 H2]%orb_false_iff _]%orb_false_iff _]. guards.
  repeat lazymatch goal with |- wp (rewrap_each _ _ _ _ _ _ ≫= _) _ _ => fail | _ => wp_step end; [simpl; by left..|].
  match goal with |- context [rewrap_rows oldID limit ?now ?x] =>
    destruct (rewrap_rows_spec oldID limit now x ltac:(lia)) as (Hf & Hn & Hl & Hall); set (rows := rewrap_rows oldID limit now x) in * end.
  apply wp_bind. eapply wp_mono; [by apply rewrap_each_spec|]. intros r [d1 w1 e1] (Hd1 & _ & Hr). simpl in Hd1, Hr. subst d1.
  destruct r as [[]|err]; [|subst; by left]. apply wp_commit_atomic.
  split; [done|]. split; [done|]. exists (row_key <$> rows). rewrite length_fmap. by split_and!.
Qed.

(** *** The requests, among everything else

    Other processes keep custody and the identity of connections between any
    two steps; each step of a request does too. *)
#[local] Abbreviation custodial := (among safekept safekept (λ _ _, True)).

Lemma custodial_tx {A} (t : txm A) (Q : go A → db → Prop) d :
  (∀ d1 e, safekept d d1 → wp t (λ r s', safekept d1 (tx_db s') ∧ Q r (tx_db s')) (Txs d1 d1 e)) → custodial (tx t) Q d.
Proof. intros H d1 e Hk _ o. exact (H d1 e Hk). Qed.

Lemma custodial_read {A} none fail (q : time → db → option A) (Q : go A → db → Prop) d :
  (∀ d1, safekept d d1 → (∀ e, Q (Err e) d1) ∧ (∀ now a, q now d1 = Some a → Q (Ok a) d1)) →
  custodial (tx (pool_row none fail (rd q))) Q d.
Proof.
  intros H. apply custodial_tx. intros d1 e Hk. destruct (H d1 Hk) as [He Ho].
  apply wp_pool_row.
  - intros e'. done.
  - intros a d' e' _ [= _ <-]. done.
  - intros d' e' _ [= _ <-]. done.
  - intros a d' e' _ [= Hq <-]. split; [done|]. by eapply Ho.
Qed.

Lemma custodial_Preview s actor scope family input (Q : go preview → db → Prop) d :
  (∀ d1 r, safekept d d1 → (∀ p, r = Ok p → ∃ sv, s = Some sv ∧ vs_enabled sv = true ∧ family ∈ vs_readers sv ∧
     Credential_Validate input = Ok tt ∧ safeAccount (pw_AccountIdentity p) = true ∧
     ContainsSecret input (pw_AccountIdentity p) = false) → Q r d1) →
  custodial (Preview s actor scope family input) Q d.
Proof.
  intros H. unfold Preview. destruct s as [sv|]; [|by apply H].
  repeat among_rule; [by apply H|]. apply custodial_tx. intros d1 e Hk1. apply wp_pool_exec.
  { intros e' _. split; [done|]. by apply H. }
  { intros a d' e' _ [= _ <-]. split; [done|]. by apply H. }
  intros a d' e' _ [= _ <-]. split; [done|]. repeat among_rule; try (by apply H; [repeat (etrans; [eassumption|])|]).
  all: apply H; [repeat (etrans; [eassumption|]); done|done||(intros p [= <-])].
  exists sv. guards. destruct (Credential_Validate input) as [[]|]; [|done]. by split_and!.
Qed.

(** What a caller that got an answer may rely on: the connection's active
    version is stored and opens to the text of the credential it sent, and no
    secret is part of the account it shows. *)
Definition in_custody (scope id : uuid) (version : Z) (credential : Credential) (d : db) : Prop :=
  Credential_Validate credential = Ok tt ∧
  ∃ c cv, connections d !! id = Some c ∧ cn_workspace c = scope ∧ cn_active_version c = Some version ∧
    ContainsSecret credential (cn_account_identity c) = false ∧
    credential_versions d !! (scope, id, version) = Some cv ∧
    opens (cn_api_family c) scope id version cv (MarshalCredential credential).

(** A committing transaction after which [R] holds when it succeeds. *)
Lemma custodial_commit {A} (t : txm A) fail (P : db → A → db → Prop) (Q : go A → db → Prop) d :
  (∀ d1 e, wp t (atomic fail P d1) (Txs d1 d1 e)) →
  (∀ d1 a d2, safekept d d1 → P d1 a d2 → safekept d1 d2 ∧ Q (Ok a) d2) →
  (∀ err d2, Q (Err err) d2) →
  custodial (tx t) Q d.
Proof.
  intros Ht Hok Herr. apply custodial_tx. intros d1 e Hk. eapply wp_mono; [apply Ht|].
  intros [a|err] s' H; simpl in H.
  - by apply Hok.
  - split; [|done]. destruct H as [->|(_ & a & HP)]; [done|]. by eapply Hok.
Qed.

Lemma Save_custodial s rand actor scope family label credential request d : ring_of s = Some kr →
  custodial (Save s rand actor scope family label credential request)
    (λ r d', ∀ id sync p, r = Ok (id, sync, p) → in_custody scope id 1 credential d') d.
Proof.
  intros Hring. unfold Save. rewrite Hring. repeat among_rule; [done|]. apply custodial_Preview.
  intros d1 r Hk1 Hp. destruct r as [p|]; [|done].
  destruct (Hp p eq_refl) as (sv & -> & _ & _ & Hv & _ & Hsec). repeat among_rule.
  apply custodial_tx. intros d2 e2 _. apply wp_new_id; [done|]. intros id e3 _ _. split; [done|].
  repeat among_rule. unfold encrypted.
  destruct (EncryptCredential (Some kr) rand _ credential) as [envelope|] eqn:He; [|done]. repeat among_rule.
  eapply custodial_commit; [intros; apply save_commit_spec| |done].
  intros d4 sync d5 _ Hs. split; [exact (saved_kept _ _ _ _ _ _ _ _ _ _ _ He Hs)|].
  repeat among_rule. intros ? ? ? [= <- _ _]. split; [done|]. destruct Hs as [_ _ Hc Hcv _].
  apply EncryptCredential_opens in He as [_ Ho]. do 2 eexists. rewrite Hc, Hcv, !lookup_insert_eq.
  split_and!; [done|done|done|done|done|]. unfold opens. rewrite stored_version_row. exact Ho.
Qed.

Lemma custodial_authority actor scope id action (Q : go unit → db → Prop) d :
  (∀ d1 r, safekept d d1 → Q r d1) → custodial (tx (ConnectionAuthority actor scope id action)) Q d.
Proof.
  intros H. apply custodial_tx. intros d1 e Hk. unfold ConnectionAuthority.
  repeat wp_step; repeat match goal with H : rd _ _ _ = Some _ |- _ => injection H as ? <- end; split; try done; by apply H.
Qed.

Lemma Rotate_custodial s rand actor scope id credential request d : ring_of s = Some kr →
  custodial (Rotate s rand actor scope id credential request)
    (λ r d', ∀ version, r = Ok version → in_custody scope id version credential d') d.
Proof.
  intros Hring. unfold Rotate. destruct s as [sv|]; [|done]. rewrite Hring. repeat among_rule.
  apply custodial_authority. intros d1 r1 Hk1. destruct r1; [|done]. repeat among_rule.
  apply custodial_read. intros d2 Hk2. split; [done|]. intros now [[family account] old] Hrow.
  unfold rotation_row in Hrow. apply bind_Some in Hrow as (c0 & Hc0 & Hrow). apply bind_Some in Hrow as (v0 & Hv0 & [= <- <- <-]).
  apply connection_in_Some in Hc0 as [Hc0 Hw0]. repeat among_rule; [done|].
  apply custodial_Preview. intros d3 r3 Hk3 Hp. destruct r3 as [p|]; [|done].
  destruct (Hp p eq_refl) as (sv' & _ & _ & _ & Hv & _ & Hsec). repeat among_rule; [done|]. unfold encrypted.
  destruct (EncryptCredential (Some kr) rand _ credential) as [envelope|] eqn:He; [|done]. repeat among_rule.
  eapply custodial_commit; [intros; apply rotate_commit_spec| |done].
  intros d4 [] d5 Hk4 Hr. guards.
  destruct (proj1 (proj2 (transitivity Hk3 Hk4)) _ _ Hc0) as (c4 & Hc4 & _ & _ & Hf4 & Ha4).
  split; [eapply rotated_kept; [by exists c4|exact He|exact Hr]|].
  repeat among_rule. intros ? [= <-]. split; [done|]. destruct Hr as [_ (c & Hc & Hcw & _ & Hcs) Hcv _]. simplify_eq.
  apply EncryptCredential_opens in He as [_ Ho]. do 2 eexists. rewrite Hcs, Hcv, !lookup_insert_eq.
  split_and!; [done|done|done|simpl; congruence|done|]. unfold opens. rewrite stored_version_row. simpl. rewrite Hf4. exact Ho.
Qed.
End invariant.

Section properties.
Context `{U : UuidApi, C : AEAD}.

(** A batch of rewrapping moves at most [limit] versions, all or none of
    them: the references to the old key fall by the number it reports and
    those to the new key rise by as many; every stored version keeps its
    sealed payload and opens exactly as before; and a batch smaller than its
    limit leaves no reference to the old key. *)
Theorem RewrapBatch_correct ring rand oldID newID limit :
  contract ConnErrRewrap (RewrapBatch (Some ring) rand oldID newID limit) (λ d n d',
    0 <= n <= limit ∧ key_count oldID d' = key_count oldID d - n ∧ key_count newID d' = key_count newID d + n ∧
    connections d' = connections d ∧ dom (credential_versions d') = dom (credential_versions d) ∧
    carried ring d d' ∧ (custody ring d → custody ring d' ∧ (n < limit → key_count oldID d' = 0))).
Proof.
  apply contract_wp with (P := λ d n d', oldID ≠ newID ∧ n <= limit ∧ ∃ l, n = Z.of_nat (length l) ∧ NoDup l ∧
    all_moved ring oldID newID l d d' ∧
    (n < limit → ∀ w c v cv, credential_versions d !! (w, c, v) = Some cv → cv_master_key_id cv = oldID →
       is_Some (connection_in w c d) → (w, c, v) ∈ l)); [intros; apply RewrapBatch_spec, sub_ring_refl|].
  intros d n d' (Hne & Hlim & l & -> & Hn & Hm & Hall).
  destruct (all_moved_spec _ _ _ _ _ _ Hne Hm) as ([Hk _] & H1 & H2 & H3 & H4).
  split_and!; [lia|done|done|done|done|done|by eapply all_moved_carried|]. intros Hcu. split; [auto|]. intros Hlt.
  assert (key_count oldID d <= Z.of_nat (length l)); [|unfold key_count, count_where in *; lia].
  unfold key_count, count_where. apply inj_le. rewrite <-size_dom, <-(size_list_to_set (C := gset (uuid * uuid * Z)) l Hn).
  apply subseteq_size. intros [[w c] v] (cv & [Hcv Hp]%map_lookup_filter_Some)%elem_of_dom. apply elem_of_list_to_set.
  guards. eapply Hall; [done|exact Hcv|done|].
  destruct (cu_versions _ _ Hcu _ _ _ _ Hcv) as (x & _ & Hx & <- & _). exists x. by apply connection_in_Some.
Qed.
End properties.

(** What is in custody decrypts to the credential, when the decoder reads back
    what [json.Marshal] wrote. *)
Theorem DecryptCredential_in_custody `{U : UuidApi, C : AEAD} (Decode : bytes → option Credential) ring scope id version credential d :
  Decode (MarshalCredential credential) = Some credential → in_custody ring scope id version credential d →
  ∃ c cv, connections d !! id = Some c ∧ credential_versions d !! (scope, id, version) = Some cv ∧
    DecryptCredential Decode (Some ring) (Envelope.MkBinding scope id (cn_api_family c) version) (stored_envelope cv) = Ok credential.
Proof.
  intros Hdec (Hv & c & cv & Hc & _ & _ & _ & Hcv & Ho). exists c, cv. split; [done|]. split; [done|].
  unfold DecryptCredential, opens in *. by rewrite Ho, Hdec, Hv.
Qed.

(** ** A sample connection

    Saved, given a second credential, and moved to the new master key. *)
#[local] Existing Instance rfc9562.

Definition sample_validation : option ValidationService :=
  Some (MkValidationService (Some sample_ring) true ["hetzner-cloud"]).
Definition sample_credential : Credential := MkCredential "bearer_v1" "a-token" "" "" "" "" "" "" "".
Definition next_credential : Credential := MkCredential "bearer_v1" "another" "" "" "" "" "" "" "".

(** An installation without connections, and an undisturbed run in it. *)
Definition bare_db : db := sample_db <| connections := ∅ |> <| credential_versions := ∅ |> <| connection_grants := ∅ |>.
Definition quiet (base : nat) : world :=
  World (λ i, Env (sample_now + Z.of_nat i) 0 [] ((λ i, Some (sample_id (N.of_nat i))) <$> seq (base + 40 * i) 40) [])
    (λ _ c, match c with
            | CValidate _ _ => Ok ("account-1", ["compute.server.read"])
            | CPermit _ | CReviewer _ _ | CMutation _ _ | CCtxErr | CReader _ | CSnapshots _ => true
            | CNow => sample_now
            | CCause => None
            | CInspect _ _ _ _ | CSubmit _ _ _ _ _ _ | CObserve _ _ _ _ _ | CPage _ _ | CSnapshotPage _ _ => Err ContextErr
            end)
    (λ _ d, d).

Definition sample_save := Save sample_validation (sample_rand 5) alice wid "hetzner-cloud" " main " sample_credential "req".
Definition saved_db : db := rr_db (run (quiet 400) 0 sample_save bare_db).
Definition saved_id : uuid := sample_id 560.
Definition sample_rotate := Rotate sample_validation (sample_rand 9) alice wid saved_id next_credential "req".
Definition rotated_db : db := rr_db (run (quiet 900) 0 sample_rotate saved_db).

Example sample_saved : is_ok (rr_result (run (quiet 400) 0 sample_save bare_db)) = true ∧ is_Some (connections saved_db !! saved_id).
Proof. vm_compute. split; [reflexivity|by eexists]. Qed.
Example sample_rotated : rr_result (run (quiet 900) 0 sample_rotate saved_db) = Ok 2.
Proof. vm_compute. reflexivity. Qed.

Lemma bare_custody : custody sample_ring bare_db.
Proof.
  assert (connections bare_db = ∅ ∧ credential_versions bare_db = ∅) as [Hc Hv] by (vm_compute; done).
  split; intros *; rewrite ?Hc, ?Hv, lookup_empty; discriminate.
Qed.

Definition sample_rewrap : txm Z := RewrapBatch (Some sample_ring) (λ i, sample_rand (N.of_nat i)) "old" "new" 200.

(** Both versions of the sample connection move; the old key is free. *)
Lemma RewrapBatch_correct_witness : (sample_rewrap (sample_txs rotated_db 700)).1 = Ok 2 ∧
  carried sample_ring rotated_db (tx_db (sample_rewrap (sample_txs rotated_db 700)).2) ∧
  key_count "old" (tx_db (sample_rewrap (sample_txs rotated_db 700)).2) = key_count "old" rotated_db - 2 ∧
  key_count "old" rotated_db = 2.
Proof.
  pose proof (RewrapBatch_correct sample_ring (λ i, sample_rand (N.of_nat i)) "old" "new" 200 rotated_db (sample_env 700)) as H.
  fold sample_rewrap in H. change (Txs rotated_db rotated_db (sample_env 700)) with (sample_txs rotated_db 700) in H.
  destruct (sample_rewrap (sample_txs rotated_db 700)) as [r s] eqn:E.
  assert (r = Ok 2) as ->; [|destruct H as (_ & H1 & _ & _ & _ & H2 & _); split; [reflexivity|split; [exact H2|split; [exact H1|]]]; vm_compute; reflexivity].
  transitivity (sample_rewrap (sample_txs rotated_db 700)).1; [by rewrite E|]. vm_compute. reflexivity.
Defined.
