(* ===== verification/Vault.v ===== *)
(** Custody of credentials while everything runs at once: any number of
    requests that save or rotate a credential, batches of rewrapping and
    disabled connections, each step of theirs interleaved with the others',
    in processes whose keyrings are parts of one. *)
From S2P Require Import Prelude GoBase Identifier Schema Tx TxLogic Wp Sample AuditLog Jobs.
From S2P Require Import Membership Grants Enqueue Connection Provider Prog AesGcm Envelope Custody.
Local Open Scope Z_scope.

(** ** Programs that write credentials *)

(** What a request that succeeded has stored: a version of a connection's
    credential. *)
Record storage := Storage { sr_scope : uuid; sr_id : uuid; sr_version : Z; sr_credential : Credential }.

Section vault.
Context `{U : UuidApi, C : AEAD} (ring : Keyring).

Inductive keeper : prog (option storage) → Prop :=
| k_Save s kr rand actor scope family label credential request : ring_of s = Some kr → sub_ring kr ring →
    keeper (saved ← Save s rand actor scope family label credential request; mret (Some (Storage scope saved.1.1 1 credential)))
| k_Rotate s kr rand actor scope id credential request : ring_of s = Some kr → sub_ring kr ring →
    keeper (version ← Rotate s rand actor scope id credential request; mret (Some (Storage scope id version credential)))
| k_RewrapBatch kr rand oldID newID limit : sub_ring kr ring →
    keeper (tx (RewrapBatch (Some kr) rand oldID newID limit) ;; mret None)
| k_Disable actor scope id request : keeper (tx (Disable actor scope id request) ;; mret None).

Record vault := Vault { va_db : db; va_threads : gmap nat (prog (option storage)) }.

(** What the rest of the program does to both tables: nothing. *)
Definition elsewhere (d d' : db) : Prop :=
  connections d' = connections d ∧ credential_versions d' = credential_versions d.

(** A thread begins, commits or fails a transaction in any environment, is
    answered a call, or is lost; or something else is committed. *)
Inductive vstep (s : vault) : vault → Prop :=
| vs_begin i p : keeper p → va_threads s !! i = None → vstep s (Vault (va_db s) (<[i := p]> (va_threads s)))
| vs_txn i B (t : txm B) k e : va_threads s !! i = Some (Txn t k) →
    let o := t (Txs (va_db s) (va_db s) e) in vstep s (Vault (tx_db o.2) (<[i := k o.1]> (va_threads s)))
| vs_call i c k r : va_threads s !! i = Some (Call c k) → vstep s (Vault (va_db s) (<[i := k r]> (va_threads s)))
| vs_crash i : vstep s (Vault (va_db s) (delete i (va_threads s)))
| vs_other d' : elsewhere (va_db s) d' → vstep s (Vault d' (va_threads s)).

(** ** Their steps keep custody *)

#[local] Abbreviation custodial := (among (safekept ring) (safekept ring) (λ _ _, True)).

(** A version that is stored and opens to the credential. *)
Definition stored (x : storage) (d : db) : Prop :=
  ∃ c cv, connections d !! sr_id x = Some c ∧ cn_workspace c = sr_scope x ∧
    ContainsSecret (sr_credential x) (cn_account_identity c) = false ∧
    credential_versions d !! (sr_scope x, sr_id x, sr_version x) = Some cv ∧
    opens ring (cn_api_family c) (sr_scope x) (sr_id x) (sr_version x) cv (MarshalCredential (sr_credential x)).

Lemma in_custody_stored x d :
  in_custody ring (sr_scope x) (sr_id x) (sr_version x) (sr_credential x) d → stored x d.
Proof. intros (_ & c & cv & ? & ? & _ & ? & ? & ?). exists c, cv. by split_and!. Qed.

Lemma stored_kept x d d' : safekept ring d d' → stored x d → stored x d'.
Proof.
  intros (_ & Hid & Hr) (c & cv & Hc & Hw & Hsec & Hv & Ho). destruct (Hid _ _ Hc) as (c' & Hc' & Hw' & _ & Hf & Ha).
  destruct (Hr _ _ _ _ _ _ Hv Hc Ho) as (cv' & Hv' & Ho'). exists c', cv'.
  split; [done|]. split; [congruence|]. split; [by rewrite Ha|]. split; [done|]. by rewrite Hf.
Qed.

Lemma elsewhere_kept d d' : elsewhere d d' → safekept ring d d'.
Proof. intros [? ?]. by apply safekept_same. Qed.

(** Disabling a connection changes its status and no credential. *)
Lemma set_status_kept scope id status : respects (safekept ring) (set_status scope id status).
Proof.
  intros now d u d' H. unfold set_status in H. destruct (connection_in scope id d) as [c|] eqn:Hc; [|by injection H as _ <-].
  apply connection_in_Some in Hc as [Hc _]. injection H as _ <-.
  assert (identity_kept d (d <| connections ::= <[id := c <| cn_status := status |>]> |>)) as Hid.
  { intros i x Hx. simpl. destruct (decide (i = id)) as [->|Hne].
    - rewrite lookup_insert_eq. simplify_eq. by eexists.
    - rewrite lookup_insert_ne by done. by exists x. }
  split; [|split; [exact Hid|by apply retained_same]]. intros [H1 H2]. split; simpl.
  - intros s i v cv Hcv. destruct (H1 _ _ _ _ Hcv) as (x & cred & Hx & Hw & Hv & Ho).
    destruct (Hid _ _ Hx) as (x' & Hx' & Hw' & _ & Hf & _). exists x', cred. split_and!; [done|congruence|done|]. by rewrite Hf.
  - intros i x v [[<- <-]|[_ Hx]]%lookup_insert_Some; [apply (H2 _ c v Hc)|by apply H2].
Qed.

Lemma cancel_jobs_kept p f : respects (safekept ring) (update_jobs p f).
Proof. intros now d n d' (_ & -> & _)%update_jobs_Some. by apply safekept_same. Qed.

Lemma keeps_Disable actor scope id request : keeps (safekept ring) (Disable actor scope id request).
Proof.
  pose proof (set_status_kept scope id "disabled") as H1. pose proof (cancel_jobs_kept (λ _ _ j, queued_on scope id j) disabled_job) as H2.
  assert (∀ e, keeps (safekept ring) (Append e)) as H3
    by (intros e; apply keeps_Append; [apply _|intros d t; by apply safekept_same]).
  unfold Disable, connectionAudit, NewID, LockAuthority, memberInTx. tx_auto.
Qed.

(** What a finished thread leaves. *)
Definition finished (r : go (option storage)) (d : db) : Prop :=
  ∀ x, r = Ok (Some x) → in_custody ring (sr_scope x) (sr_id x) (sr_version x) (sr_credential x) d.

Lemma keeper_custodial p d : keeper p → custodial p finished d.
Proof.
  destruct 1 as [s kr rand actor scope family label credential request Hring Hsub
    |s kr rand actor scope id credential request Hring Hsub|kr rand oldID newID limit Hsub|actor scope id request].
  - apply among_bind. eapply among_mono; [by apply (Save_custodial ring kr)|]. intros [[[id sync] q]|e] d' H; [|done].
    intros x [= <-]. by eapply H.
  - apply among_bind. eapply among_mono; [by apply (Rotate_custodial ring kr)|]. intros [version|e] d' H; [|done].
    intros x [= <-]. by apply H.
  - apply among_bind. eapply custodial_commit; [intros; by apply (RewrapBatch_spec ring kr)| |done].
    intros d1 n d2 _ (Hne & _ & l & _ & _ & Hm & _). split; [by eapply all_moved_spec|done].
  - apply among_bind, custodial_tx. intros d1 e _.
    destruct (keeps_Disable actor scope id request d1 (Txs d1 d1 e)) as [Hk _]; [by split|].
    unfold wp. destruct (Disable actor scope id request (Txs d1 d1 e)) as [[u|err] s']; by split.
Qed.

(** ** The invariant *)

(** A running thread will keep custody from here on; a finished one has what it
    stored. *)
Definition thread_ok (p : prog (option storage)) (d : db) : Prop :=
  match p with
  | Done r => ∀ x, r = Ok (Some x) → Credential_Validate (sr_credential x) = Ok tt ∧ stored x d
  | _ => custodial p finished d
  end.

Lemma custodial_ok p d : custodial p finished d → thread_ok p d.
Proof.
  destruct p; [|done..]. intros H x ->. specialize (H x eq_refl). split; [apply H|by apply in_custody_stored].
Qed.

Lemma thread_ok_later p d d' : safekept ring d d' → thread_ok p d → thread_ok p d'.
Proof.
  intros Hk. destruct p as [r|B t k|c k]; simpl.
  - intros H x ->. destruct (H x eq_refl) as [? ?]. split; [done|by eapply stored_kept].
  - intros H d1 e H1 _. apply H; [by etrans|done].
  - intros H r d1 H1. apply H. by etrans.
Qed.

Record vault_inv (s : vault) : Prop := {
  vi_custody : custody ring (va_db s);
  vi_threads : ∀ i p, va_threads s !! i = Some p → thread_ok p (va_db s) }.

(** What a step does to the database, and what the thread that took it is then. *)
Lemma vstep_kept s s' : vault_inv s → vstep s s' → safekept ring (va_db s) (va_db s') ∧
  ∀ i p, va_threads s' !! i = Some p → va_threads s !! i = Some p ∨ custodial p finished (va_db s').
Proof.
  intros [_ Ht] H. destruct H as [i p Hp Hi|i B t k e Hi o|i c k r Hi|i|d' Hd]; cbn [va_db va_threads].
  - split; [done|]. intros j q [[<- <-]|[_ Hq]]%lookup_insert_Some; [right; by apply keeper_custodial|by left].
  - destruct (Ht _ _ Hi (va_db s) e ltac:(done) I) as [Hs Hk]. split; [exact Hs|].
    intros j q [[<- <-]|[_ Hq]]%lookup_insert_Some; [by right|by left].
  - split; [done|]. intros j q [[<- <-]|[_ Hq]]%lookup_insert_Some; [right; by apply (Ht _ _ Hi r)|by left].
  - split; [done|]. intros j q [_ Hq]%lookup_delete_Some. by left.
  - split; [by apply elsewhere_kept|by left].
Qed.

Lemma vstep_inv s s' : vault_inv s → vstep s s' → vault_inv s'.
Proof.
  intros Hi Hs. pose proof (vstep_kept _ _ Hi Hs) as [Hk Ht]. destruct Hi as [Hc Hth]. split; [by apply Hk|].
  intros i p [Hp|Hp]%Ht; [|by apply custodial_ok]. eapply thread_ok_later; [exact Hk|by eapply Hth].
Qed.

Lemma reach_inv s s' : vault_inv s → rtc vstep s s' → vault_inv s'.
Proof. intros Hi H. revert Hi. induction H as [|s1 s2 s3 Hs _ IH]; [done|]. intros Hi. by apply IH, (vstep_inv s1). Qed.

Lemma initial_vault d : custody ring d → vault_inv (Vault d ∅).
Proof. intros Hd. split; [done|]. intros i p. simpl. by rewrite lookup_empty. Qed.
End vault.

(** C8. Custody of credentials.  Let any number of requests save and rotate
    credentials while versions are rewrapped to other keys and connections are
    disabled, each commit of theirs among those of the others, whatever the
    validators answer, whatever fails and whichever process is lost; the
    processes may have different keyrings, but every key any of them uses is on
    [ring].  Then in every state reached, every stored version of every
    connection opens with [ring] under its own binding to the text of a valid
    credential.  A request that succeeds ends in a state where the version it
    activated is stored, active and opens to exactly the credential that was
    sent, no secret of which shows in the account; and however often that
    version is rewrapped, with whatever keys of [ring], it stays stored and
    opens to it for ever after. *)
Theorem credential_custody `{U : UuidApi, C : AEAD} ring d s :
  custody ring d → rtc (vstep ring) (Vault d ∅) s →
  custody ring (va_db s) ∧
  (∀ s' i x, vstep ring s s' → va_threads s' !! i ≠ va_threads s !! i → va_threads s' !! i = Some (Done (Ok (Some x))) →
     in_custody ring (sr_scope x) (sr_id x) (sr_version x) (sr_credential x) (va_db s')) ∧
  (∀ i x, va_threads s !! i = Some (Done (Ok (Some x))) →
     Credential_Validate (sr_credential x) = Ok tt ∧ stored ring x (va_db s)).
Proof.
  intros Hd Hr. pose proof (reach_inv ring _ _ (initial_vault ring d Hd) Hr) as Hi. split_and!.
  - apply Hi.
  - intros s' i x Hs Hne Hx. destruct (vstep_kept ring _ _ Hi Hs) as [_ Ht].
    destruct (Ht _ _ Hx) as [Hold|Hk]; [by rewrite Hx, Hold in Hne|]. by apply Hk.
  - intros i x Hx. by apply (vi_threads _ _ Hi i _ Hx).
Qed.

(** ** A save, then a rewrapping its own process could not read *)

#[local] Existing Instance rfc9562.

(** An undisturbed run of one thread. *)
Lemma run_vault `{C : AEAD} ring w n i p d ts : (∀ i d, wo_meddle w i d = d) →
  rtc (vstep ring) (Vault d (<[i := p]> ts)) (Vault (rr_db (run w n p d)) (<[i := Done (rr_result (run w n p d))]> ts)).
Proof.
  intros Hw. revert n d. induction p as [r|B t k IH|c k IH]; intros n d; simpl.
  - done.
  - rewrite Hw. destruct (t (Txs d d (wo_env w n))) as [r s1] eqn:E. eapply rtc_l; [|apply (IH r (S n))].
    pose proof (vs_txn ring (Vault d (<[i := Txn t k]> ts)) i B t k (wo_env w n)) as H. simpl in H.
    rewrite lookup_insert_eq, E, insert_insert_eq in H. by apply H.
  - rewrite Hw. eapply rtc_l; [|apply (IH (wo_answer w n c) (S n))].
    pose proof (vs_call ring (Vault d (<[i := Call c k]> ts)) i c k (wo_answer w n c)) as H. simpl in H.
    rewrite lookup_insert_eq, insert_insert_eq in H. by apply H.
Qed.

Definition old_ring : Keyring := MkKeyring "old" (filter (λ '(id, _), id = "old") (kr_keys sample_ring)).
Definition old_validation : option ValidationService := Some (MkValidationService (Some old_ring) true ["hetzner-cloud"]).
Definition saving : prog (option storage) :=
  saved ← Save old_validation (sample_rand 5) alice wid "hetzner-cloud" " main " sample_credential "req";
  mret (Some (Storage wid saved.1.1 1 sample_credential)).
Definition rewrapping : prog (option storage) := tx sample_rewrap ;; mret None.
Definition stored_db : db := rr_db (run (quiet 400) 0 saving bare_db).
Definition rewrapped_db : db := rr_db (run (quiet 900) 0 rewrapping stored_db).
Definition sample_storage : storage := Storage wid saved_id 1 sample_credential.

Lemma credential_custody_witness :
  custody sample_ring rewrapped_db ∧ stored sample_ring sample_storage rewrapped_db ∧
  (cv_master_key_id <$> credential_versions rewrapped_db !! (wid, saved_id, 1)) = Some "new" ∧
  kr_keys old_ring !! "new" = None.
Proof.
  set (ts := <[0%nat := Done (rr_result (run (quiet 400) 0 saving bare_db))]> (∅ : gmap nat (prog (option storage)))).
  assert (Hr : rtc (vstep sample_ring) (Vault bare_db ∅)
    (Vault rewrapped_db (<[1%nat := Done (rr_result (run (quiet 900) 0 rewrapping stored_db))]> ts))).
  { eapply rtc_l; [|etrans; [apply (run_vault sample_ring (quiet 400) 0 0 saving bare_db ∅); done|
      eapply rtc_l; [|apply (run_vault sample_ring (quiet 900) 0 1 rewrapping stored_db ts); done]]].
    - apply (vs_begin sample_ring (Vault bare_db ∅) 0 saving); [|done].
      apply k_Save with (kr := old_ring); [done|]. split; [apply map_filter_subseteq|]. intros _. vm_compute. by eexists.
    - apply (vs_begin sample_ring (Vault stored_db ts) 1 rewrapping); [|done]. apply k_RewrapBatch, sub_ring_refl. }
  destruct (credential_custody sample_ring bare_db _ bare_custody Hr) as (H1 & _ & H3). split; [exact H1|]. split.
  - apply (H3 0%nat sample_storage). cbn [va_threads]. rewrite lookup_insert_ne by done. unfold ts. rewrite lookup_insert_eq.
    assert (E : rr_result (run (quiet 400) 0 saving bare_db) = Ok (Some sample_storage)) by (vm_compute; reflexivity).
    by rewrite E.
  - split; vm_compute; reflexivity.
Defined.
