(* ===== verification/Scan.v ===== *)
(** [internal/inventory]: the scan of a leased refresh ([scan.go],
    [scan_page.go]), the metadata of snapshots ([snapshot.go]), and
    [job.Scheduler.Run] around it.  A scan stages pages; it changes no public
    resource.

    The JSON texts it makes are not modelled: [encoded_len] is the length of
    the page's JSON, absent when [json.Marshal] fails, and a failure to encode
    one row's details, which a date outside the years 0 to 9999 or a size that
    is no number brings about, is a failure to draw its identifier, which has
    the same effect.  [jsonb_octets] is the length PostgreSQL gives the stored
    details as text. *)
From Stdlib Require Import Floats.SpecFloat.
From S2P Require Import Prelude GoBase Identifier Roles Schema Tx TxLogic Wp AuditLog Jobs.
From S2P Require Import Membership Grants Enqueue Provider Prog.
Local Open Scope Z_scope.

Definition ScanFailure (code : string) : error := ScanFailureCode code.

(** ** Observations as they are staged *)

Record scanObservation := MkScanObservation {
  sn_NativeID : string; sn_NativeStatus : string; sn_Status : string; sn_Name : string;
  sn_ObservedAt : time; sn_Details : details }.

Record scanPage := MkScanPage { pg_Data : list scanObservation; pg_Next : string }.

Definition SnapshotMetadata (o : SnapshotObservation) : go details :=
  match CheckedSnapshot o with
  | Err _ => Err InvErrObservation
  | Ok _ =>
      if decide (so_Status o ∈ ["unknown"; "available"; "pending"; "failed"; "deleted"])
      then Ok (Details "" "" (Some (SnapshotDetails (so_SourceNativeID o) (so_SourceType o) (so_StatusReason o)
             (sm_Time <$> so_CreatedAt o) (so_NativeCreatedAt o) (so_CreationTimeReason o) (so_SizeBytes o)
             (so_SizeGB o) (so_MinimumDiskGB o) (default [] (so_Regions o)))))
      else Err InvErrObservation
  end.

Definition server_row (o : Observation) : scanObservation :=
  MkScanObservation (ob_NativeID o) (ob_NativeStatus o) (ob_Status o) (ob_Name o) (ob_ObservedAt o)
    (Details (pd_Region (ob_Details o)) (pd_MachineType (ob_Details o)) None).

Definition snapshot_row (o : SnapshotObservation) : go scanObservation :=
  match SnapshotMetadata o with
  | Ok d => Ok (MkScanObservation (so_NativeID o) (so_NativeStatus o) (so_Status o) (so_Name o) (so_ObservedAt o) d)
  | Err _ => Err InvalidResponse
  end.

Fixpoint snapshot_rows (l : list SnapshotObservation) : go (list scanObservation) :=
  match l with
  | [] => Ok []
  | o :: r => row ← snapshot_row o; rows ← snapshot_rows r; Ok (row :: rows)
  end.

(** ** Failure codes *)

Definition normal_code (code : string) : string :=
  if decide (code = "permission_denied" ∨ code = "provider_permission_denied") then "permission_denied"
  else if decide (code ∈ ["provider_rate_limited"; "provider_response_invalid"; "sync_limit_reached"]) then code
  else "provider_unavailable".

Definition failureCode (err : error) : string :=
  match err with
  | ScanFailureCode code | OutboundFailure code => normal_code code
  | _ => normal_code "provider_unavailable"
  end.

(** ** Statements *)

(** The run of a version 2 job, its actor and its resource type. *)
Definition scan_target (lease : Lease) : time → db → option (uuid * option uuid * string) := λ _ d,
  j ← jobs d !! ls_ID lease;
  require (bool_decide (jb_workspace j = ls_Workspace lease ∧ jb_connection j = ls_Connection lease
                        ∧ jb_payload_version j = 2)) ;;
  run ← jb_sync j;
  s ← sync_runs d !! run;
  require (bool_decide (sy_workspace s = jb_workspace j ∧ sy_connection s = jb_connection j)) ;;
  Some (run, sy_actor s, sy_resource_type s).

(** Family, credential version, role and whether the connection, its credential
    and the actor's grant allow the refresh. *)
Definition scan_row (lease : Lease) (actor : uuid) : time → db → option (string * Z * string * bool) := λ _ d,
  c ← connection_in (ls_Workspace lease) (ls_Connection lease) d;
  m ← memberships d !! (ls_Workspace lease, actor);
  require (enabled d actor) ;;
  actions ← connection_grants d !! (ls_Workspace lease, ls_Connection lease, actor);
  v ← cn_active_version c;
  cv ← credential_versions d !! (ls_Workspace lease, ls_Connection lease, v);
  Some (cn_api_family c, v, mb_role m,
        bool_decide (cn_status c = "active") && bool_decide (cv_revoked_at cv = None)
        && bool_decide ("read" ∈ actions) && bool_decide ("refresh" ∈ actions)).

(** The job is leased to this lease and its run is still open. *)
Definition scan_job (lease : Lease) (run actor : uuid) : time → db → option unit := λ now d,
  j ← jobs d !! ls_ID lease;
  s ← sync_runs d !! run;
  require (bool_decide (jb_workspace j = ls_Workspace lease ∧ jb_connection j = ls_Connection lease
                        ∧ jb_sync j = Some run ∧ sy_workspace s = jb_workspace j
                        ∧ sy_connection s = jb_connection j ∧ sy_actor s = Some actor)
           && holds now lease (ls_ID lease) j && sync_pending s).

(** [DELETE FROM inventory_staging ... generation=(SELECT generation FROM sync_runs WHERE id=$3)] *)
Definition clear_staging (workspace connection run : uuid) : sql unit := λ _ d,
  match sync_runs d !! run with
  | Some s => Some (tt, d <| inventory_staging ::=
                filter (λ '(((w, c, g), _), _), ¬ (w = workspace ∧ c = connection ∧ g = sy_generation s)) |>)
  | None => Some (tt, d)
  end.

(** A generation rows refer to: the foreign keys of resources and staging. *)
Definition generation_used (d : db) (s : sync_run) : bool :=
  exists_where (λ _ r, bool_decide (rs_workspace r = sy_workspace s ∧ rs_connection r = sy_connection s
                       ∧ rs_resource_type r = sy_resource_type s ∧ rs_scope r = sy_scope s
                       ∧ rs_generation r = sy_generation s)) (resources d)
  || exists_where (λ '((w, c, g), _) sg, bool_decide (w = sy_workspace s ∧ c = sy_connection s
                       ∧ g = sy_generation s ∧ sg_resource_type sg = sy_resource_type s
                       ∧ sg_scope sg = sy_scope s)) (inventory_staging d).

(** The unique index on the generations of a scope. *)
Definition generation_taken (d : db) (run : uuid) (s : sync_run) : bool :=
  exists_where (λ k s', negb (bool_decide (k = run))
                        && bool_decide (sy_workspace s' = sy_workspace s ∧ sy_connection s' = sy_connection s
                             ∧ sy_resource_type s' = sy_resource_type s ∧ sy_scope s' = sy_scope s
                             ∧ sy_generation s' = sy_generation s)) (sync_runs d).

Definition started_run (version : Z) (generation : uuid) (now : time) (s : sync_run) : sync_run :=
  (match sy_started_at s with None => s | Some _ => s <| sy_generation := generation |> end)
    <| sy_status := "running" |> <| sy_page_count := 0 |> <| sy_scan_complete := false |>
    <| sy_started_at := Some now |> <| sy_credential_version := Some version |>.

Definition start_run (run : uuid) (version : Z) (generation : uuid) : sql unit := λ now d,
  match sync_runs d !! run with
  | None => Some (tt, d)
  | Some s =>
      let s' := started_run version generation now s in
      require (bool_decide (sy_generation s' = sy_generation s) || negb (generation_used d s)) ;;
      require (negb (generation_taken d run s')) ;;
      Some (tt, d <| sync_runs ::= <[run := s']> |>)
  end.

(** [octet_length(details::text)] of the stored JSON. *)
Class JsonbText := { jsonb_octets : details → Z }.

(** No U+0000: neither [text] nor [jsonb] can hold it. *)
Definition no_nul (s : string) : bool := forallb (λ b, negb (b =? 0)%N) (string_bytes s).
(** What a [text] column can hold. *)
Definition storable_text (s : string) : bool := ValidString s && no_nul s.

(** [value<0] of a number in the JSON. *)
Definition negative_size (f : option spec_float) : bool :=
  match f with Some (S754_finite negative _ _) => negative | _ => false end.

(** [valid_inventory_details] of migration 29 on a snapshot's metadata.  Its
    test of [created_at] holds of every text [json.Marshal] makes of a time. *)
Definition valid_snapshot_details (s : snapshot_details) : bool :=
  forallb (λ v, RuneCountInString v <=? 512)
    [sd_source_native_id s; sd_source_type s; sd_status_reason s; sd_native_created_at s; sd_creation_time_reason s]
  && match sd_size_bytes s with Some n => (0 <=? n) && (n <=? 9223372036854775807) | None => true end
  && negb (negative_size (sd_size_gb s)) && negb (negative_size (sd_minimum_disk_gb s))
  && (Z.of_nat (length (sd_regions s)) <=? 100)
  && forallb (λ r, (1 <=? RuneCountInString r) && (RuneCountInString r <=? 128)) (sd_regions s)
  && bool_decide (sd_source_type s ∈ [""; "compute.server"; "storage.volume"])
  && Bool.eqb (bool_decide (sd_source_type s = "")) (bool_decide (sd_source_native_id s = "")).

(** The strings of the details. *)
Definition detail_texts (dt : details) : list string :=
  dt_region dt :: dt_machine_type dt ::
  match dt_snapshot dt with
  | Some s => sd_source_native_id s :: sd_source_type s :: sd_status_reason s :: sd_native_created_at s
                :: sd_creation_time_reason s :: sd_regions s
  | None => []
  end.

Definition valid_inventory_details `{J : JsonbText} (kind : string) (dt : details) : bool :=
  (jsonb_octets dt <=? 65536)
  && (if decide (kind = "compute.server") then bool_decide (dt_snapshot dt = None)
      else bool_decide (kind = SnapshotType) && bool_decide (dt_region dt = "" ∧ dt_machine_type dt = "")
           && match dt_snapshot dt with Some s => valid_snapshot_details s | None => false end).

(** What a row's texts have to be for its columns, and the CHECK constraints
    [resources] and [inventory_staging] share (migrations 17, 20 and 29). *)
Definition storable (native nativeStatus name : string) (dt : details) : bool :=
  forallb storable_text [native; nativeStatus; name] && forallb no_nul (detail_texts dt).

Definition resource_check `{J : JsonbText} (family kind scope native nativeStatus status name : string) (dt : details) : bool :=
  let within lo hi s := (lo <=? RuneCountInString s) && (RuneCountInString s <=? hi) in
  within 1 64 family && within 1 128 scope && within 1 512 native && within 0 128 nativeStatus && within 0 200 name
  && (bool_decide (kind = "compute.server")
        && bool_decide (status ∈ ["unknown"; "running"; "stopped"; "pending"; "failed"])
      || bool_decide (kind = SnapshotType)
        && bool_decide (status ∈ ["unknown"; "available"; "pending"; "failed"; "deleted"]))
  && valid_inventory_details kind dt && storable native nativeStatus name dt.

(** The primary key is the workspace, the connection, the generation and the
    native id: a row whose native id is staged already is refused. *)
Definition insert_staged `{J : JsonbText} (lease : Lease) (id : uuid) (family : string) (run : uuid) (o : scanObservation) : sql unit :=
  λ _ d,
  match sync_runs d !! run with
  | None => Some (tt, d)
  | Some s =>
      require (resource_check family (sy_resource_type s) (sy_scope s) (sn_NativeID o) (sn_NativeStatus o)
                 (sn_Status o) (sn_Name o) (sn_Details o)) ;;
      require (bool_decide (sy_workspace s = ls_Workspace lease ∧ sy_connection s = ls_Connection lease)) ;;
      t ← insert_new (ls_Workspace lease, ls_Connection lease, sy_generation s, sn_NativeID o)
            (Staged id family (sy_resource_type s) (sy_scope s) (sn_NativeStatus o) (sn_Status o) (sn_Name o)
               (sn_Details o) (sn_ObservedAt o)) (inventory_staging d);
      Some (tt, d <| inventory_staging := t |>)
  end.

(** [UPDATE sync_runs SET page_count=$2,scan_complete=$3 WHERE id=$1] *)
Definition page_progress (run : uuid) (number : Z) (complete : bool) : sql unit := λ _ d,
  Some (tt, d <| sync_runs ::= alter (λ s, s <| sy_page_count := number |> <| sy_scan_complete := complete |>) run |>).

(** ** The scanner *)

(** Which page readers are configured. *)
Record Scanner := MkScanner { sr_Reader : bool; sr_Snapshots : bool }.

Section scan.
Context `{U : UuidApi} `{J : JsonbText} (encoded_len : list scanObservation → option Z).

Definition scanAuthority (lease : Lease) (run actor : uuid) (version : Z) : txm Binding :=
  query_row InvErrScan InvErrScan (rd (lock_workspace (ls_Workspace lease))) ;;
  '(family, current, role, allowed) ←
    query_row (ScanFailure "permission_denied") (ScanFailure "permission_denied") (rd (scan_row lease actor));
  reject_if (negb allowed || negb (WithinCeiling role "refresh")
             || negb (version =? 0) && negb (version =? current)) (ScanFailure "permission_denied") ;;
  query_row JobErrLease JobErrLease (rd (scan_job lease run actor)) ;;
  lift (NewBinding (ls_Workspace lease) (ls_Connection lease) family current).

Definition guard (lease : Lease) (run actor : uuid) (version : Z) (start : bool) : txm Binding :=
  begin_tx InvErrScan ;;
  binding ← scanAuthority lease run actor version;
  (if start then
     exec InvErrScan (clear_staging (ls_Workspace lease) (ls_Connection lease) run) ;;
     generation ← new_id InvErrScan;
     exec InvErrScan (start_run run (bd_version binding) generation)
   else mret tt) ;;
  commit InvErrScan ;;
  mret binding.

Definition stage_row (lease : Lease) (run : uuid) (family : string) (o : scanObservation) : txm unit :=
  reject_if (sn_ObservedAt o =? zero_time) (ScanFailure "provider_response_invalid") ;;
  id ← new_id InvErrScan;
  exec (ScanFailure "provider_response_invalid") (insert_staged lease id family run o).

Definition stage (lease : Lease) (run actor : uuid) (binding : Binding) (page : scanPage) (number : Z) : txm unit :=
  begin_tx InvErrScan ;;
  scanAuthority lease run actor (bd_version binding) ;;
  for_each (pg_Data page) (stage_row lease run (bd_family binding)) ;;
  exec InvErrScan (page_progress run number (bool_decide (pg_Next page = ""))) ;;
  commit InvErrScan ;;
  mret tt.

(** [pageReader]: the factory of the kind's port, if one is configured. *)
Definition pageReader (s : Scanner) (b : Binding) (kind : string) : prog unit :=
  if bool_decide (kind = "compute.server") && sr_Reader s then
    reader ← ask (CReader b); preject (negb reader) InvErrScan
  else if bool_decide (kind = SnapshotType) && sr_Snapshots s then
    reader ← ask (CSnapshots b); preject (negb reader) InvErrScan
  else pthrow InvErrScan.

(** The function it returns. *)
Definition readPage (b : Binding) (kind cursor : string) : prog (go scanPage) :=
  if decide (kind = "compute.server") then
    page ← ask (CPage b cursor);
    mret (match page with Ok p => Ok (MkScanPage (server_row <$> ip_Data p) (ip_Next p)) | Err e => Err e end)
  else
    page ← ask (CSnapshotPage b cursor);
    mret (match page with
          | Ok p => rows ← snapshot_rows (sp_Data p); Ok (MkScanPage rows (sp_Next p))
          | Err e => Err e
          end).

(** The bounds of a scan that has read [count] rows and [bytes] bytes in all,
    this page's [encoded] included. *)
Definition over_limit (seen : list string) (page : scanPage) (encoded : option Z) (count bytes : Z) : bool :=
  match encoded with None => true | Some n => (8388608 <? n) || (33554432 <? bytes + n) end
  || (10000 <? count) || (200 <? Z.of_nat (length (pg_Data page))) || (512 <? len (pg_Next page))
  || negb (bool_decide (pg_Next page = "")) && bool_decide (pg_Next page ∈ seen).

(** The loop of [Scan] from page [number] on, with [pages] pages left. *)
Fixpoint scan_pages (pages : nat) (lease : Lease) (run actor : uuid) (b : Binding) (kind : string)
  (number : Z) (cursor : string) (count bytes : Z) (seen : list string) : prog unit :=
  match pages with
  | O => pthrow (ScanFailure "sync_limit_reached")
  | S pages =>
      tx (guard lease run actor (bd_version b) false) ;;
      page ← readPage b kind cursor;
      match page with
      | Err e => pthrow (ScanFailure (failureCode e))
      | Ok page =>
          let encoded := encoded_len (pg_Data page) in
          let count := count + Z.of_nat (length (pg_Data page)) in
          preject (over_limit seen page encoded count bytes) (ScanFailure "sync_limit_reached") ;;
          tx (stage lease run actor b page number) ;;
          if decide (pg_Next page = "") then mret tt
          else scan_pages pages lease run actor b kind (number + 1) (pg_Next page) count
                 (bytes + default 0 encoded) (pg_Next page :: seen)
      end
  end.

(** [job.Scheduler.Run]: the lease is renewed before the work, and an ended
    context outranks the work's result.  The renewals every 15 seconds are
    steps of other processes here. *)
Definition run_leased (lease : Lease) (work : prog unit) : prog unit :=
  now ← tx go_now;
  preject (ls_Deadline lease <=? now) JobErrLease ;;
  renewed ← tx_try (renew lease);
  match renewed with
  | Err _ => pthrow JobErrLease
  | Ok expires =>
      now ← tx go_now;
      cancelled ← ask CCtxErr;
      preject (cancelled || (expires <=? now)) JobErrLease ;;
      result ← pattempt work;
      cause ← ask CCause;
      match cause with
      | Some e => pthrow e
      | None => match result with Ok _ => mret tt | Err e => pthrow e end
      end
  end.

Definition max_pages : nat := 100.

Definition Scan (s : Scanner) (lease : Lease) : prog unit :=
  '(run, actor, kind) ← tx (pool_row InvErrScan InvErrScan (rd (scan_target lease)));
  match actor with
  | None => pthrow InvErrScan
  | Some actor =>
      run_leased lease (
        b ← tx (guard lease run actor 0 true);
        pageReader s b kind ;;
        scan_pages max_pages lease run actor b kind 1 "" 0 0 [])
  end.
End scan.

(** A text without escapes, for the examples. *)
Definition plain_jsonb : JsonbText := {| jsonb_octets dt := 200 + foldr (λ v n, len v + 4 + n) 0 (detail_texts dt) |}.
