(* ===== verification/Publish.v ===== *)
(** [internal/inventory]: publication of a finished scan ([publish.go]), the
    pruning of staged rows ([prune.go]) and the single-row [Upsert]
    ([observation.go]). *)
From S2P Require Import Prelude GoBase Identifier Roles Schema Tx TxLogic Wp AuditLog Jobs.
From S2P Require Import Membership Grants Enqueue Provider Prog Scan.
Local Open Scope Z_scope.

(** ** Statements *)

(** [SELECT id FROM workspaces WHERE id=$1 FOR UPDATE] *)
Definition lock_any_workspace (scope : uuid) : time → db → option unit := λ _ d,
  require (bool_decide (is_Some (workspaces d !! scope))).

(** The open run of the job this lease holds. *)
Definition completing (lease : Lease) : time → db → option (uuid * sync_run) := λ now d,
  j ← jobs d !! ls_ID lease;
  require (bool_decide (jb_workspace j = ls_Workspace lease ∧ jb_connection j = ls_Connection lease)) ;;
  run ← jb_sync j;
  s ← sync_runs d !! run;
  require (bool_decide (sy_workspace s = jb_workspace j ∧ sy_connection s = jb_connection j)
           && holds now lease (ls_ID lease) j && sync_pending s) ;;
  Some (run, s).

(** A run of the same scope, later in the order the database assigned, that was published. *)
Definition newer_published (lease : Lease) (s : sync_run) : time → db → bool := λ _ d,
  exists_where (λ _ s', bool_decide (sy_workspace s' = ls_Workspace lease ∧ sy_connection s' = ls_Connection lease
      ∧ sy_resource_type s' = sy_resource_type s ∧ sy_scope s' = sy_scope s ∧ sy_status s' = "succeeded")
      && (sy_generation_number s <? sy_generation_number s')) (sync_runs d).

(** [EXISTS(SELECT 1 FROM sync_runs old WHERE ... old.generation_number<=$4)] *)
Definition not_newer (d : db) (number : Z) (r : resource) : bool :=
  exists_where (λ _ s, bool_decide (sy_workspace s = rs_workspace r ∧ sy_connection s = rs_connection r
      ∧ sy_scope s = rs_scope r ∧ sy_resource_type s = rs_resource_type r ∧ sy_generation s = rs_generation r)
      && (sy_generation_number s <=? number)) (sync_runs d).

(** The unique key of [resources]. *)
Definition native_key (r : resource) : uuid * uuid * string * string * string * string :=
  (rs_workspace r, rs_connection r, rs_api_family r, rs_resource_type r, rs_scope r, rs_native_id r).

Definition resource_at (t : gmap uuid resource) (key : uuid * uuid * string * string * string * string)
  : option (uuid * resource) :=
  head (filter (λ '(_, r), native_key r = key) (map_to_list t)).

(** A staged row as a new resource, and over the one that exists. *)
Definition new_resource (w c g : uuid) (native : string) (sg : staged) : resource :=
  Resource w c (sg_api_family sg) (sg_resource_type sg) (sg_scope sg) native (sg_native_status sg) (sg_status sg)
    (sg_name sg) (sg_details sg) (sg_observed_at sg) g None 1.

Definition observed_again (g : uuid) (sg : staged) (r : resource) : resource :=
  r <| rs_native_status := sg_native_status sg |> <| rs_status := sg_status sg |> <| rs_name := sg_name sg |>
    <| rs_details := sg_details sg |> <| rs_observed_at := sg_observed_at sg |> <| rs_generation := g |>
    <| rs_tombstoned_at := None |> <| rs_version ::= Z.succ |>.

(** The rows staged for a generation, by native id. *)
Definition staged_rows (d : db) (w c g : uuid) : list (string * staged) :=
  omap (λ '(((w', c', g'), native), sg), if decide (w' = w ∧ c' = c ∧ g' = g) then Some (native, sg) else None)
    (map_to_list (inventory_staging d)).

(** What one staged row writes: nothing when a newer generation owns its resource. *)
Definition published_row (d : db) (w c g : uuid) (number : Z) (row : string * staged) : option (uuid * resource) :=
  let '(native, sg) := row in
  let fresh := new_resource w c g native sg in
  match resource_at (resources d) (native_key fresh) with
  | Some (id, r) => if not_newer d number r then Some (id, observed_again g sg r) else None
  | None => Some (sg_id sg, fresh)
  end.

(** The identifiers of the rows to insert. *)
Definition inserted_ids (d : db) (w c g : uuid) (rows : list (string * staged)) : list uuid :=
  omap (λ '(native, sg), match resource_at (resources d) (native_key (new_resource w c g native sg)) with
                         | Some _ => None | None => Some (sg_id sg) end) rows.

(** [INSERT INTO resources ... SELECT ... FROM inventory_staging ... ON CONFLICT ... DO UPDATE ... WHERE ...] *)
Definition publish_sql (w c g : uuid) (number : Z) : sql unit := λ _ d,
  let rows := staged_rows d w c g in
  let written := omap (published_row d w c g number) rows in
  let ids := inserted_ids d w c g rows in
  require (bool_decide (NoDup ids) && forallb (λ id, bool_decide (resources d !! id = None)) ids
           && forallb (λ '(_, r), rs_version r <=? bigint_max) written) ;;
  Some (tt, d <| resources ::= λ t, list_to_map written ∪ t |>).

(** [UPDATE resources r SET tombstoned_at=clock_timestamp(),version=version+1 WHERE ...] *)
Definition missing (d : db) (w c : uuid) (family scope kind : string) (g : uuid) (number : Z) (r : resource) : bool :=
  bool_decide (rs_workspace r = w ∧ rs_connection r = c ∧ rs_api_family r = family ∧ rs_resource_type r = kind
               ∧ rs_scope r = scope ∧ rs_tombstoned_at r = None)
  && not_newer d number r
  && negb (bool_decide (is_Some (inventory_staging d !! (w, c, g, rs_native_id r)))).

Definition tombstoned (now : time) (r : resource) : resource :=
  r <| rs_tombstoned_at := Some now |> <| rs_version ::= Z.succ |>.

Definition tombstone_sql (w c : uuid) (family scope kind : string) (g : uuid) (number : Z) : sql unit := λ now d,
  let p (_ : uuid) r := missing d w c family scope kind g number r in
  require (negb (exists_where (λ k r, p k r && (bigint_max <=? rs_version r)) (resources d))) ;;
  Some (tt, d <| resources ::= λ t, (update_where p (tombstoned now) t).2 |>).

Definition finish_run (run : uuid) (state : string) (code : option string) : sql unit := λ now d,
  Some (tt, d <| sync_runs ::=
    alter (λ s, s <| sy_status := state |> <| sy_failure_code := code |> <| sy_completed_at := Some now |>) run |>).

Definition finish_job (lease : Lease) (state : job_state) : sql unit := λ now d,
  n ← update_jobs (λ _ k _, bool_decide (k = ls_ID lease)) (finish_row state) now d;
  Some (tt, n.2).

(** ** [publish.go] *)

Section publish.
Context `{U : UuidApi} `{J : JsonbText} (encoded_len : list scanObservation → option Z).

(** [state] and [code] of the run, and what a successful scan publishes. *)
Definition publish (lease : Lease) (run : uuid) (s : sync_run) : txm string :=
  match sy_scan_complete s, sy_actor s, sy_credential_version s with
  | true, Some actor, Some version =>
      binding ← scanAuthority lease run actor version;
      newer ← exec InvErrScan (rd (newer_published lease s));
      if (newer : bool) then mret "cancelled"
      else
        exec InvErrScan (publish_sql (ls_Workspace lease) (ls_Connection lease) (sy_generation s) (sy_generation_number s)) ;;
        exec InvErrScan (tombstone_sql (ls_Workspace lease) (ls_Connection lease) (bd_family binding) (sy_scope s)
                           (sy_resource_type s) (sy_generation s) (sy_generation_number s)) ;;
        mret "succeeded"
  | _, _, _ => throw InvErrScan
  end.

Definition state_of (state : string) : job_state :=
  if decide (state = "succeeded") then JSucceeded else if decide (state = "failed") then JFailed else JCancelled.

Definition Complete (lease : Lease) (scanErr : option error) : txm unit :=
  begin_tx InvErrScan ;;
  query_row InvErrScan InvErrScan (rd (lock_any_workspace (ls_Workspace lease))) ;;
  '(run, s) ← query_row JobErrLease JobErrLease (rd (completing lease));
  state ← match scanErr with Some _ => mret "failed" | None => publish lease run s end;
  exec InvErrScan (finish_run run state (failureCode <$> scanErr)) ;;
  exec InvErrScan (finish_job lease (state_of state)) ;;
  commit InvErrScan ;;
  mret tt.

Definition Execute (s : Scanner) (lease : Lease) : prog unit :=
  result ← pattempt (Scan encoded_len s lease);
  cancelled ← ask CCtxErr;
  preject cancelled ContextErr ;;
  tx (Complete lease (match result with Ok _ => None | Err e => Some e end)) ;;
  match result with Ok _ => mret tt | Err e => pthrow e end.

(** ** [observation.go] *)

Record Sighting := MkSighting {
  sg_ID : uuid; sg_Workspace : uuid; sg_Connection : uuid; sg_ResourceType : string; sg_Family : string;
  sg_Scope : string; sg_NativeID : string; sg_NativeStatus : string; sg_Status : string; sg_Name : string;
  sg_Generation : uuid; sg_ObservedAt : time; sg_Details : details }.

Definition upsert_sql (o : Sighting) (kind : string) : sql (option uuid) := λ _ d,
  match connection_in (sg_Workspace o) (sg_Connection o) d with
  | Some c =>
      if decide (cn_api_family c = sg_Family o) then
        require (resource_check (sg_Family o) kind (sg_Scope o) (sg_NativeID o) (sg_NativeStatus o) (sg_Status o)
                   (sg_Name o) (sg_Details o)) ;;
        require (exists_where (λ _ s, bool_decide (sy_workspace s = sg_Workspace o ∧ sy_connection s = sg_Connection o
                   ∧ sy_resource_type s = kind ∧ sy_scope s = sg_Scope o ∧ sy_generation s = sg_Generation o))
                   (sync_runs d)) ;;
        let sg := Staged (sg_ID o) (sg_Family o) kind (sg_Scope o) (sg_NativeStatus o) (sg_Status o) (sg_Name o)
                    (sg_Details o) (sg_ObservedAt o) in
        let fresh := new_resource (sg_Workspace o) (sg_Connection o) (sg_Generation o) (sg_NativeID o) sg in
        match resource_at (resources d) (native_key fresh) with
        | Some (id, r) =>
            v ← bigint (rs_version r + 1);
            Some (Some id, d <| resources ::= <[id := observed_again (sg_Generation o) sg r]> |>)
        | None => t ← insert_new (sg_ID o) fresh (resources d); Some (Some (sg_ID o), d <| resources := t |>)
        end
      else Some (None, d)
  | None => Some (None, d)
  end.

(** [Upsert], in the caller's transaction; [encoded] is the length of the JSON details. *)
Definition Upsert (o : Sighting) (encoded : option Z) : txm uuid :=
  reject_if (negb (is_v7 (sg_ID o)) || negb (is_v7 (sg_Generation o))) InvErrObservation ;;
  let kind := if decide (sg_ResourceType o = "") then "compute.server" else sg_ResourceType o in
  reject_if (negb (bool_decide (kind = "compute.server")) && negb (bool_decide (kind = "storage.snapshot"))
             || negb (Bool.eqb (bool_decide (kind = "storage.snapshot")) (bool_decide (is_Some (dt_snapshot (sg_Details o))))))
    InvErrObservation ;;
  reject_if (match encoded with None => true | Some n => 65536 <? n end) InvErrObservation ;;
  query_row InvErrObservation InvErrObservation (upsert_sql o kind).
End publish.

(** ** [prune.go] *)

Abbreviation staging_key := (uuid * uuid * uuid * string)%type.

(** The rows of [expired], before its order and limit: completion of the run,
    identifier and key of the staged row. *)
Definition expired_staging (now : time) (d : db) : list (time * uuid * staging_key) :=
  '(((w, c, g, native) as k), sg) ← map_to_list (inventory_staging d);
  '(_, s) ← map_to_list (sync_runs d);
  match sy_completed_at s with
  | Some t =>
      if decide (sy_workspace s = w ∧ sy_connection s = c ∧ sy_scope s = sg_scope sg ∧ sy_generation s = g
                 ∧ sy_status s ∈ ["succeeded"; "failed"; "cancelled"] ∧ t < now - 7 * Day)
      then [(t, sg_id sg, k)] else []
  | None => []
  end.

Definition expired_order (x y : time * uuid * staging_key) : Prop :=
  x.1.1 < y.1.1 ∨ x.1.1 = y.1.1 ∧ (x.1.2 <= y.1.2)%N.
#[export] Instance expired_order_dec : RelDecision expired_order.
Proof. intros x y. unfold expired_order. apply _. Defined.

Definition PruneStaging (locked : staging_key → bool) : txm Z :=
  pool_exec InvErrScan (λ now d,
    let keys := snd <$> take 100 (merge_sort expired_order
                  (filter (λ '(_, k), locked k = false) (expired_staging now d))) in
    let t := filter (λ '(k, _), k ∉ keys) (inventory_staging d) in
    Some (Z.of_nat (size (inventory_staging d)) - Z.of_nat (size t), d <| inventory_staging := t |>)).
