(* ===== verification/Inventory.v ===== *)
(** The contracts of [internal/inventory]: a scan only stages, publication is
    atomic and replaces the live inventory of one scope by what was staged, and
    an older scan never overwrites a newer one. *)
From S2P Require Import Prelude GoBase Identifier Roles Schema Tx TxLogic Wp Sample AuditLog Jobs.
From S2P Require Import Membership Grants Enqueue Provider Prog Scan Publish.
Local Open Scope Z_scope.

Section inventory.
Context `{U : UuidApi}.

(** ** Authority *)

(** What [scanAuthority] found, at a time: the refresh is allowed to its actor
    and the job is this lease's. *)
Record may_scan (lease : Lease) (run actor : uuid) (version : Z) (d : db) (b : Binding) (now : time) : Prop := {
  ms_open : open_workspace d (ls_Workspace lease) = true;
  ms_row : ∃ role, scan_row lease actor now d = Some (bd_family b, bd_version b, role, true) ∧
    WithinCeiling role "refresh" = true;
  ms_version : version = 0 ∨ version = bd_version b;
  ms_job : is_Some (scan_job lease run actor now d);
  ms_binding : bd_workspace b = ls_Workspace lease ∧ bd_connection b = ls_Connection lease;
}.

Lemma scan_row_now lease actor now now' d : scan_row lease actor now d = scan_row lease actor now' d.
Proof. done. Qed.

#[export] Instance scanAuthority_spec lease run actor version :
  TxSpec (scanAuthority lease run actor version)
    (λ w err w', w' = w ∧ err ∈ [InvErrScan; ScanFailure "permission_denied"; JobErrLease; ProvErrBinding])
    (λ w b w' e', w' = w ∧ may_scan lease run actor version w b (en_clock e')).
Proof.
  intros d w e. unfold scanAuthority. wp_run by tx_done; simpl.
  - apply NewBinding_Ok in Heqr as [-> _]. unfold lock_workspace in H0. apply require_Some in H0.
    apply orb_false_iff in H3 as [[Hb Hw]%orb_false_iff Hv].
    apply negb_false_iff in Hb as ->. apply negb_false_iff in Hw.
    split_and!; [done|env_solve|done|]. split; simpl; [done| |..|by eexists|done].
    + by eexists.
    + apply andb_false_iff in Hv. guards; auto.
  - unfold NewBinding in Heqr. case_match; simplify_eq. tx_done.
Qed.
End inventory.

(** ** Publication as a function of the tables *)

Lemma omap_NoDup_inj {A B} (f : A → option B) l x y b :
  NoDup (omap f l) → x ∈ l → y ∈ l → f x = Some b → f y = Some b → x = y.
Proof.
  intros Hn. induction l as [|z l IH]; [by intros ?%not_elem_of_nil|].
  assert (∀ u, u ∈ l → f u = Some b → b ∈ omap f l) as Hin by (intros; apply list_elem_of_omap; eauto).
  simpl in Hn. rewrite !elem_of_cons. intros [->|Hx] [->|Hy] Hfx Hfy; try done.
  - rewrite Hfx in Hn. apply NoDup_cons in Hn as [[] _]. eauto.
  - rewrite Hfy in Hn. apply NoDup_cons in Hn as [[] _]. eauto.
  - destruct (f z); [apply NoDup_cons in Hn as [_ Hn]|]; eauto.
Qed.

Lemma resource_at_Some t key id r : resource_at t key = Some (id, r) → t !! id = Some r ∧ native_key r = key.
Proof. unfold resource_at. apply head_filter_Some. Qed.

Lemma resource_at_None t key id r : resource_at t key = None → t !! id = Some r → native_key r ≠ key.
Proof.
  unfold resource_at. intros Hn Ht Hk. destruct (filter _ _) as [|? ?] eqn:Hf; [|done].
  assert ((id, r) ∈ filter (λ '(_, r), native_key r = key) (map_to_list t)) as Hin
    by (apply list_elem_of_filter; split; [done|by apply elem_of_map_to_list]).
  rewrite Hf in Hin. by apply not_elem_of_nil in Hin.
Qed.

Lemma elem_of_staged_rows d w c g native sg :
  (native, sg) ∈ staged_rows d w c g ↔ inventory_staging d !! (w, c, g, native) = Some sg.
Proof.
  unfold staged_rows. rewrite list_elem_of_omap. split.
  - intros ([[[[w' c'] g'] n'] sg'] & Hin & H). case_decide; simplify_eq.
    destruct_and?. subst. by apply elem_of_map_to_list in Hin.
  - intros H. exists (w, c, g, native, sg). split; [by apply elem_of_map_to_list|]. by rewrite decide_True.
Qed.

Section publication.
Context (d : db) (w c g : uuid) (number : Z).
Let rows := staged_rows d w c g.
Let written := omap (published_row d w c g number) rows.

Definition publication : gmap uuid resource := list_to_map written ∪ resources d.

Hypothesis Hdup : NoDup (inserted_ids d w c g rows).
Hypothesis Hnew : ∀ id, id ∈ inserted_ids d w c g rows → resources d !! id = None.

(** A row that is written goes to the resource it names, or to a new one. *)
Lemma published_row_Some native sg id r' : published_row d w c g number (native, sg) = Some (id, r') →
  (∃ r, resources d !! id = Some r ∧ native_key r = native_key (new_resource w c g native sg) ∧
        not_newer d number r = true ∧ r' = observed_again g sg r) ∨
  (id = sg_id sg ∧ r' = new_resource w c g native sg ∧
   resource_at (resources d) (native_key (new_resource w c g native sg)) = None).
Proof.
  unfold published_row. destruct (resource_at _ _) as [[i r]|] eqn:Hr; [|intros; simplify_eq; by right].
  destruct (not_newer d number r) eqn:Hn; [|done]. intros; simplify_eq.
  apply resource_at_Some in Hr as [? ?]. left. eauto 10.
Qed.

Lemma inserted_new native sg : (native, sg) ∈ rows →
  resource_at (resources d) (native_key (new_resource w c g native sg)) = None → sg_id sg ∈ inserted_ids d w c g rows.
Proof. intros Hin Hn. unfold inserted_ids. apply list_elem_of_omap. exists (native, sg). by rewrite Hn. Qed.

Lemma written_functional id r1 r2 : (id, r1) ∈ written → (id, r2) ∈ written → r1 = r2.
Proof.
  intros [[n1 s1] [H1 P1]]%list_elem_of_omap [[n2 s2] [H2 P2]]%list_elem_of_omap.
  destruct (published_row_Some _ _ _ _ P1) as [(x1 & X1 & K1 & _ & E1)|(E1 & R1 & N1)],
    (published_row_Some _ _ _ _ P2) as [(x2 & X2 & K2 & _ & E2)|(E2 & R2 & N2)].
  - simplify_eq. unfold native_key in *; simpl in *. simplify_eq.
    apply elem_of_staged_rows in H1, H2. simplify_eq. congruence.
  - subst id. rewrite (Hnew _ (inserted_new _ _ H2 N2)) in X1. done.
  - subst id. rewrite (Hnew _ (inserted_new _ _ H1 N1)) in X2. done.
  - assert ((n1, s1) = (n2, s2)) as [= -> ->]; [|congruence].
    eapply (omap_NoDup_inj _ _ _ _ id Hdup); [done..| |]; [by rewrite N1, E1|by rewrite N2, E2].
Qed.

Lemma publication_Some id r' : publication !! id = Some r' ↔
  (∃ native sg, (native, sg) ∈ rows ∧ published_row d w c g number (native, sg) = Some (id, r')) ∨
  resources d !! id = Some r' ∧
    ∀ native sg x, (native, sg) ∈ rows → published_row d w c g number (native, sg) ≠ Some (id, x).
Proof.
  unfold publication. rewrite lookup_union_Some_raw. split.
  - intros [H|[Hn H]].
    + left. apply elem_of_list_to_map_2, list_elem_of_omap in H as [[n s] ?]. eauto.
    + right. split; [done|]. intros n s x Hin Hp. apply not_elem_of_list_to_map in Hn. apply Hn.
      apply list_elem_of_fmap. exists (id, x). split; [done|]. apply list_elem_of_omap. eauto.
  - intros [(n & s & Hin & Hp)|[H Hno]].
    + left. apply elem_of_list_to_map_1'.
      * intros y Hy. eapply written_functional; [|exact Hy]. apply list_elem_of_omap. eauto.
      * apply list_elem_of_omap. eauto.
    + right. split; [|done]. apply not_elem_of_list_to_map.
      intros ([i x] & -> & [[n s] [? ?]]%list_elem_of_omap)%list_elem_of_fmap. by eapply Hno.
Qed.
(** A resource that is published again keeps its key. *)
Lemma publication_keeps id r : resources d !! id = Some r →
  ∃ r', publication !! id = Some r' ∧ native_key r' = native_key r ∧
    (r' = r ∨ ∃ native sg, (native, sg) ∈ rows ∧ native_key (new_resource w c g native sg) = native_key r).
Proof.
  intros Hr. destruct (publication !! id) as [r1|] eqn:Hp.
  - exists r1. split; [done|]. apply publication_Some in Hp as [(n & sg & Hin & Hp)|[Hr1 _]].
    + destruct (published_row_Some _ _ _ _ Hp) as [(x & Hx & Hxk & _ & ->)|(-> & _ & Hn)].
      * assert (x = r) as -> by congruence. split; [done|]. right. eauto.
      * rewrite (Hnew _ (inserted_new _ _ Hin Hn)) in Hr. done.
    + simplify_eq. split; [done|by left].
  - exfalso. unfold publication in Hp. apply lookup_union_None in Hp as [_ Hp]. congruence.
Qed.
End publication.

(** ** The live inventory of a scope *)

(** What the public inventory says of one native resource. *)
Record seen := Seen {
  se_NativeStatus : string; se_Status : string; se_Name : string; se_Details : details; se_ObservedAt : time }.

Definition seen_of (r : resource) : seen :=
  Seen (rs_native_status r) (rs_status r) (rs_name r) (rs_details r) (rs_observed_at r).
Definition seen_staged (sg : staged) : seen :=
  Seen (sg_native_status sg) (sg_status sg) (sg_name sg) (sg_details sg) (sg_observed_at sg).

Definition live (t : gmap uuid resource) (w c : uuid) (family kind scope native : string) (o : seen) : Prop :=
  ∃ id r, t !! id = Some r ∧ native_key r = (w, c, family, kind, scope, native) ∧
    rs_tombstoned_at r = None ∧ seen_of r = o.

(** The tables as both statements of the publication leave them. *)
Definition replaced (d : db) (w c : uuid) (family scope kind : string) (g : uuid) (number : Z) (now : time)
  : gmap uuid resource :=
  let d1 := d <| resources := publication d w c g number |> in
  (update_where (λ _, missing d1 w c family scope kind g number) (tombstoned now) (resources d1)).2.

Section refinement.
Context (d : db) (w c : uuid) (family kind scope : string) (g : uuid) (number : Z) (now : time).
Let rows := staged_rows d w c g.

Hypothesis Hdup : NoDup (inserted_ids d w c g rows).
Hypothesis Hnew : ∀ id, id ∈ inserted_ids d w c g rows → resources d !! id = None.
Hypothesis Hkeys : ∀ i j r r', resources d !! i = Some r → resources d !! j = Some r' →
  native_key r = native_key r' → i = j.
Hypothesis Hstaged : ∀ native sg, inventory_staging d !! (w, c, g, native) = Some sg →
  sg_api_family sg = family ∧ sg_resource_type sg = kind ∧ sg_scope sg = scope.
Hypothesis Holder : ∀ id r native, resources d !! id = Some r →
  native_key r = (w, c, family, kind, scope, native) → not_newer d number r = true.

Lemma staged_key native sg : inventory_staging d !! (w, c, g, native) = Some sg →
  native_key (new_resource w c g native sg) = (w, c, family, kind, scope, native).
Proof. intros (E1 & E2 & E3)%Hstaged. unfold native_key, new_resource; simpl. congruence. Qed.

(** The resource a staged row is published to. *)
Lemma published_total native sg : inventory_staging d !! (w, c, g, native) = Some sg →
  ∃ id r, published_row d w c g number (native, sg) = Some (id, r) ∧ rs_tombstoned_at r = None ∧
    seen_of r = seen_staged sg ∧ native_key r = (w, c, family, kind, scope, native) ∧
    ∀ i x, resources d !! i = Some x → native_key x = (w, c, family, kind, scope, native) → i = id.
Proof.
  intros Hs. pose proof (staged_key _ _ Hs) as Hk. unfold published_row. rewrite Hk.
  destruct (resource_at _ _) as [[id r]|] eqn:Hr.
  - apply resource_at_Some in Hr as [Hr Hrk]. rewrite (Holder _ _ _ Hr Hrk).
    eexists id, _. split_and!; [done..|]. intros i x Hi Hx. eapply Hkeys; [done..|]. congruence.
  - eexists (sg_id sg), _. split_and!; [done..|]. intros i x Hi Hx. exfalso. by eapply resource_at_None.
Qed.

Lemma replaced_lookup id : replaced d w c family scope kind g number now !! id =
  (λ r, if missing d w c family scope kind g number r then tombstoned now r else r)
    <$> publication d w c g number !! id.
Proof. unfold replaced. by rewrite lookup_update_where. Qed.

(** The live inventory of the scope is what was staged, no more and no less. *)
Lemma live_replaced native o :
  live (replaced d w c family scope kind g number now) w c family kind scope native o ↔
  ∃ sg, inventory_staging d !! (w, c, g, native) = Some sg ∧ seen_staged sg = o.
Proof.
  split.
  - intros (id & r & Hr & Hk & Ht & Ho). rewrite replaced_lookup in Hr.
    apply fmap_Some in Hr as (r0 & Hp & ->). destruct (missing _ _ _ _ _ _ _ _ r0) eqn:Hm; [done|].
    apply publication_Some in Hp as [(n & sg & Hin & Hp)|[Hr Hno]]; [| |done..].
    + apply elem_of_staged_rows in Hin. destruct (published_total _ _ Hin) as (id' & r' & Hp' & _ & Hsn & Hk' & _).
      assert (r' = r0) as -> by congruence. rewrite Hk in Hk'. simplify_eq. eauto.
    + assert (is_Some (inventory_staging d !! (w, c, g, native))) as [sg Hsg].
      { apply dec_stable. intros Hn. unfold missing in Hm. rewrite (Holder _ _ _ Hr Hk) in Hm.
        unfold native_key in Hk. injection Hk as E1 E2 E3 E4 E5 E6. rewrite E6 in Hm.
        rewrite (bool_decide_eq_false_2 (is_Some _)) in Hm by done.
        rewrite bool_decide_eq_true_2 in Hm by done. done. }
      destruct (published_total _ _ Hsg) as (id' & r' & Hp' & _ & _ & _ & Hid). exfalso.
      rewrite (Hid _ _ Hr Hk) in Hno. eapply Hno; [|exact Hp']. by apply elem_of_staged_rows.
  - intros (sg & Hsg & <-). destruct (published_total _ _ Hsg) as (id & r & Hp & Ht & Hsn & Hk & _).
    exists id, r. split_and!; [|done..]. rewrite replaced_lookup.
    assert (publication d w c g number !! id = Some r) as ->.
    { apply publication_Some; [done..|]. left. eexists _, _. split; [|exact Hp]. by apply elem_of_staged_rows. }
    simpl. f_equal. replace (missing _ _ _ _ _ _ _ _ r) with false; [done|].
    unfold missing. injection Hk as E1 E2 E3 E4 E5 E6. rewrite E6, (bool_decide_eq_true_2 (is_Some _)) by done.
    by rewrite andb_false_r.
Qed.

(** Identities survive, and other scopes are untouched. *)
Lemma replaced_keeps id r : resources d !! id = Some r →
  ∃ r', replaced d w c family scope kind g number now !! id = Some r' ∧ native_key r' = native_key r ∧
    ((∀ native, native_key r ≠ (w, c, family, kind, scope, native)) → r' = r).
Proof.
  intros Hr. destruct (publication_keeps d w c g number Hdup Hnew id r Hr) as (r1 & Hp & Hk & Hs).
  assert ((∀ native, native_key r ≠ (w, c, family, kind, scope, native)) → r1 = r) as Hsame.
  { intros Hne. destruct Hs as [|(n & sg & Hin & Hnk)]; [done|]. exfalso. apply (Hne n). rewrite <-Hnk.
    apply staged_key. by apply elem_of_staged_rows. }
  rewrite replaced_lookup, Hp. simpl. destruct (missing _ _ _ _ _ _ _ _ r1) eqn:Hm; [|by eexists].
  eexists. split_and!; [done|by rewrite <-Hk|]. intros Hne. exfalso.
  unfold missing in Hm. guards. apply (Hne (rs_native_id r1)). rewrite <-Hk. unfold native_key. destruct_and?. congruence.
Qed.
End refinement.

(** ** [Complete] *)

Definition run_scope (s : sync_run) : uuid * uuid * string * string :=
  (sy_workspace s, sy_connection s, sy_resource_type s, sy_scope s).

(** The unique index and the foreign keys of the inventory tables, with what
    the code adds: a resource carries the generation of a run that was
    published, a staged row the family of its connection, and generations, which
    are fresh UUIDs, name one run of a connection. *)
Record inventory_ok (d : db) : Prop := {
  ok_keys : ∀ i j r r', resources d !! i = Some r → resources d !! j = Some r' → native_key r = native_key r' → i = j;
  ok_generation : ∀ i r, resources d !! i = Some r → ∃ k s, sync_runs d !! k = Some s ∧
    run_scope s = (rs_workspace r, rs_connection r, rs_resource_type r, rs_scope r) ∧
    sy_generation s = rs_generation r ∧ sy_status s = "succeeded";
  ok_staged : ∀ w c g n sg, inventory_staging d !! (w, c, g, n) = Some sg → ∃ k s, sync_runs d !! k = Some s ∧
    run_scope s = (w, c, sg_resource_type sg, sg_scope sg) ∧ sy_generation s = g;
  ok_family : ∀ w c g n sg cn, inventory_staging d !! (w, c, g, n) = Some sg → connection_in w c d = Some cn →
    cn_api_family cn = sg_api_family sg;
  ok_generations : ∀ i j s s', sync_runs d !! i = Some s → sync_runs d !! j = Some s' →
    sy_workspace s = sy_workspace s' → sy_connection s = sy_connection s' → sy_generation s = sy_generation s' → i = j;
}.

Section complete.
Context `{U : UuidApi}.

(** What became of the resources, and the state and code the run ends in. *)
Definition concluded (lease : Lease) (run : uuid) (s : sync_run) (scanErr : option error) (d : db)
  (state : string) (t : gmap uuid resource) : Prop :=
  match scanErr with
  | Some e => state = "failed" ∧ t = resources d
  | None => sy_scan_complete s = true ∧ ∃ actor version b now,
      sy_actor s = Some actor ∧ sy_credential_version s = Some version ∧ may_scan lease run actor version d b now ∧
      (newer_published lease s now d = true ∧ state = "cancelled" ∧ t = resources d ∨
       newer_published lease s now d = false ∧ state = "succeeded" ∧ ∃ now',
         let w := ls_Workspace lease in
         let c := ls_Connection lease in
         let rows := staged_rows d w c (sy_generation s) in
         NoDup (inserted_ids d w c (sy_generation s) rows) ∧
         (∀ id, id ∈ inserted_ids d w c (sy_generation s) rows → resources d !! id = None) ∧
         t = replaced d w c (bd_family b) (sy_scope s) (sy_resource_type s) (sy_generation s)
               (sy_generation_number s) now')
  end.

Lemma publish_sql_Some w c g number now d u d' : publish_sql w c g number now d = Some (u, d') →
  NoDup (inserted_ids d w c g (staged_rows d w c g)) ∧
  (∀ id, id ∈ inserted_ids d w c g (staged_rows d w c g) → resources d !! id = None) ∧
  d' = d <| resources := publication d w c g number |>.
Proof.
  unfold publish_sql. intros H. apply bind_Some in H as (? & Hq & H). apply require_Some in Hq. guards.
  split_and!; [done| |by simplify_eq].
  intros id Hin. match goal with H : forallb _ (inserted_ids _ _ _ _ _) = true |- _ => rewrite forallb_forall in H;
    apply list_elem_of_In in Hin; apply H in Hin end. by apply bool_decide_eq_true in Hin.
Qed.

#[export] Instance publish_spec lease run s :
  TxSpec (publish lease run s) rolled_back
    (λ w state w' _, concluded lease run s None w state (resources w') ∧ ∃ t, w' = w <| resources := t |>).
Proof.
  intros d w e. unfold publish. wp_run by tx_done.
  - simpl. split; [done|]. split; [env_solve|]. split; [split; [done|]|by exists (resources w); destruct w].
    do 4 eexists. split_and!; [done..|eassumption|]. left. split_and!; [eassumption|done|done].
  - destruct (publish_sql_Some _ _ _ _ _ _ _ _ ltac:(eassumption)) as (Hd & Hn & ->).
    match goal with H : tombstone_sql _ _ _ _ _ _ _ _ _ = _ |- _ => unfold tombstone_sql in H; sql_inv H end.
    simpl. split; [done|]. split; [env_solve|]. split; [split; [done|]|by eexists].
    do 4 eexists. split_and!; [done..|eassumption|]. right. split_and!; [eassumption|done|].
    eexists. split_and!; [done..|]. reflexivity.
Qed.

(** Everything a committed [Complete] found and did. *)
Record completed (lease : Lease) (scanErr : option error) (d d' : db) : Prop := {
  cp_steps : ∃ run s j state now now', jobs d !! ls_ID lease = Some j ∧ jb_sync j = Some run ∧
    jb_state j = JRunning ∧ (∃ t, holds t lease (ls_ID lease) j = true) ∧
    sync_runs d !! run = Some s ∧ sync_pending s = true ∧
    sy_workspace s = ls_Workspace lease ∧ sy_connection s = ls_Connection lease ∧
    concluded lease run s scanErr d state (resources d') ∧
    sync_runs d' = <[run := s <| sy_status := state |> <| sy_failure_code := failureCode <$> scanErr |>
                              <| sy_completed_at := Some now |>]> (sync_runs d) ∧
    jobs d' !! ls_ID lease = Some (finish_row (state_of state) now' j);
  cp_jobs : ∀ k, k ≠ ls_ID lease → jobs d' !! k = jobs d !! k;
  cp_frame : ∃ t1 t2 t3, d' = d <| resources := t1 |> <| sync_runs := t2 |> <| jobs := t3 |>;
}.

Lemma completing_Some lease now d run s : completing lease now d = Some (run, s) →
  ∃ j, jobs d !! ls_ID lease = Some j ∧ jb_sync j = Some run ∧ holds now lease (ls_ID lease) j = true ∧
    sync_runs d !! run = Some s ∧ sync_pending s = true ∧
    sy_workspace s = ls_Workspace lease ∧ sy_connection s = ls_Connection lease.
Proof. unfold completing. intros H. sql_inv H. guards. destruct_and?. eexists. split_and!; try done; congruence. Qed.

Lemma completed_intro lease scanErr d t state at_ run s now1 u1 d1 now2 u2 d2 :
  completing lease at_ d = Some (run, s) → concluded lease run s scanErr d state t →
  finish_run run state (failureCode <$> scanErr) now1 (d <| resources := t |>) = Some (u1, d1) →
  finish_job lease (state_of state) now2 d1 = Some (u2, d2) → completed lease scanErr d d2.
Proof.
  intros (j & Hj & Hsy & Hh & Hs & Hp & Hw & Hc)%completing_Some Hcon H1 H2.
  unfold finish_run in H1. unfold finish_job in H2. apply bind_Some in H2 as ([nj dj] & Hu & H2). simplify_eq/=.
  pose proof (λ k, update_jobs_lookup _ _ _ _ _ _ k Hu) as Hl. apply update_jobs_Some in Hu as (_ & -> & _).
  assert (jb_state j = JRunning) by (unfold holds in Hh; by guards). simpl in Hl.
  split; [|intros k Hk; simpl; rewrite Hl, bool_decide_eq_false_2 by done; by destruct (jobs d !! k)|by eexists _, _, _].
  exists run, s, j, state, now1, now2. do 3 (split; [done|]). split; [by eexists|].
  do 5 (split; [done|]). simpl. rewrite Hl, Hj, bool_decide_eq_true_2, (alter_lookup _ _ _ _ Hs) by done. done.
Qed.

Lemma Complete_spec lease scanErr d e :
  wp (Complete lease scanErr) (atomic InvErrScan (λ d _ d', completed lease scanErr d d') d) (Txs d d e).
Proof.
  unfold Complete. repeat wp_step. all: try solve [simpl; auto].
  - eapply (completed_intro _ (Some _) d (resources d) "failed"); [eassumption|done| |eassumption].
    replace (d <| resources := resources d |>) with d by (by destruct d). eassumption.
  - eapply (completed_intro _ None d _ _); [eassumption|eassumption|eassumption|eassumption].
Qed.

(** ** Refinement *)

Lemma may_scan_family lease run actor version d b now : may_scan lease run actor version d b now →
  ∃ cn, connection_in (ls_Workspace lease) (ls_Connection lease) d = Some cn ∧ cn_api_family cn = bd_family b.
Proof. intros [_ (role & H & _) _ _ _]. unfold scan_row in H. sql_inv H. eauto. Qed.

(** With no newer run published, every resource of the scope may be replaced. *)
Lemma none_newer lease s now d id r family native : inventory_ok d →
  newer_published lease s now d = false → resources d !! id = Some r →
  native_key r = (ls_Workspace lease, ls_Connection lease, family, sy_resource_type s, sy_scope s, native) →
  not_newer d (sy_generation_number s) r = true.
Proof.
  intros Hok Hn Hr Hk. destruct (ok_generation _ Hok _ _ Hr) as (k & s' & Hs' & Hsc & Hg & Hst).
  unfold native_key in Hk. injection Hk as E1 E2 E3 E4 E5 E6. unfold run_scope in Hsc. injection Hsc as F1 F2 F3 F4.
  apply exists_where_true. exists k, s'. split; [done|].
  apply andb_true_iff. split; [apply bool_decide_eq_true; split_and!; congruence|].
  destruct (Z.leb_spec (sy_generation_number s') (sy_generation_number s)) as [|Hlt]; [done|]. exfalso.
  assert (newer_published lease s now d = true); [|congruence].
  apply exists_where_true. exists k, s'. split; [done|]. apply andb_true_iff.
  split; [apply bool_decide_eq_true; split_and!; congruence|by apply Z.ltb_lt].
Qed.

(** The scope of what a run staged. *)
Lemma staged_scope lease run s d b actor version now native sg : inventory_ok d →
  sync_runs d !! run = Some s → sy_workspace s = ls_Workspace lease → sy_connection s = ls_Connection lease →
  may_scan lease run actor version d b now →
  inventory_staging d !! (ls_Workspace lease, ls_Connection lease, sy_generation s, native) = Some sg →
  sg_api_family sg = bd_family b ∧ sg_resource_type sg = sy_resource_type s ∧ sg_scope sg = sy_scope s.
Proof.
  intros Hok Hs Hw Hc (cn & Hcn & Hf)%may_scan_family Hsg.
  rewrite <-(ok_family _ Hok _ _ _ _ _ _ Hsg Hcn), Hf. split; [done|].
  destruct (ok_staged _ Hok _ _ _ _ _ Hsg) as (k & s' & Hs' & Hsc & Hg).
  unfold run_scope in Hsc. injection Hsc as F1 F2 F3 F4.
  assert (k = run) as -> by (eapply (ok_generations _ Hok); [done|done|congruence..]). by simplify_eq.
Qed.

(** The abstract inventory a committed publication leaves. *)
Record published (lease : Lease) (s : sync_run) (family : string) (d d' : db) : Prop := {
  pb_live : ∀ native o,
    live (resources d') (ls_Workspace lease) (ls_Connection lease) family (sy_resource_type s) (sy_scope s) native o ↔
    ∃ sg, inventory_staging d !! (ls_Workspace lease, ls_Connection lease, sy_generation s, native) = Some sg ∧
      seen_staged sg = o;
  pb_others : ∀ id r, resources d !! id = Some r →
    (∀ native, native_key r ≠
       (ls_Workspace lease, ls_Connection lease, family, sy_resource_type s, sy_scope s, native)) →
    resources d' !! id = Some r;
}.

Lemma completed_refines lease scanErr d d' : completed lease scanErr d d' → inventory_ok d →
  (∀ id r, resources d !! id = Some r → ∃ r', resources d' !! id = Some r' ∧ native_key r' = native_key r) ∧
  (resources d' = resources d ∨
   ∃ run s family, scanErr = None ∧ sync_runs d !! run = Some s ∧ sy_scan_complete s = true ∧
     newer_published lease s 0 d = false ∧ published lease s family d d').
Proof.
  intros [(run & s & j & state & now & now' & _ & _ & _ & _ & Hs & _ & Hw & Hc & Hcon & _ & _) _ _] Hok.
  unfold concluded in Hcon. destruct scanErr as [err|].
  { destruct Hcon as [_ ->]. split; [eauto|by left]. }
  destruct Hcon as [Hsc (actor & version & b & t & _ & _ & Hm & [(_ & _ & ->)|(Hn & _ & at_ & Hd & Hi & Heq)])].
  { split; [eauto|by left]. }
  assert (Hst : ∀ native sg, inventory_staging d !! (ls_Workspace lease, ls_Connection lease, sy_generation s, native) = Some sg →
    sg_api_family sg = bd_family b ∧ sg_resource_type sg = sy_resource_type s ∧ sg_scope sg = sy_scope s)
    by (intros; by eapply staged_scope).
  assert (Hol : ∀ id r native, resources d !! id = Some r → native_key r =
    (ls_Workspace lease, ls_Connection lease, bd_family b, sy_resource_type s, sy_scope s, native) →
    not_newer d (sy_generation_number s) r = true) by (intros; by eapply none_newer).
  split.
  - rewrite Heq. intros id r Hr. edestruct replaced_keeps as (r' & H1 & H2 & _); [exact Hd|exact Hi|exact Hst|exact Hr|]. eauto.
  - right. exists run, s, (bd_family b). do 4 (split; [done|]). split.
    + intros native o. rewrite Heq. apply live_replaced; [done|done|apply (ok_keys _ Hok)|done|done].
    + rewrite Heq. intros id r Hr Hne. edestruct replaced_keeps as (r' & H1 & _ & H2); [exact Hd|exact Hi|exact Hst|exact Hr|].
      rewrite <-(H2 Hne). exact H1.
Qed.

(** C28. Publication refines the replacement of an inventory: [Complete] commits
    the end of the run and of its job together under the live lease; a failed
    scan, or one overtaken by a newer published run, leaves every resource as it
    was; a complete scan still authorised makes the live inventory of its scope
    exactly what it staged, keeps the identity of every resource it replaces
    or tombstones, and touches no other scope; on an error nothing is written,
    unless the COMMIT itself failed. *)
Theorem Complete_refines lease scanErr :
  contract InvErrScan (Complete lease scanErr) (λ d _ d', completed lease scanErr d d' ∧
    (inventory_ok d →
      (∀ id r, resources d !! id = Some r → ∃ r', resources d' !! id = Some r' ∧ native_key r' = native_key r) ∧
      (resources d' = resources d ∨
       ∃ run s family, scanErr = None ∧ sync_runs d !! run = Some s ∧ sy_scan_complete s = true ∧
         newer_published lease s 0 d = false ∧ published lease s family d d'))).
Proof.
  eapply contract_wp; [intros; apply Complete_spec|]. intros d a d1 H. split; [done|]. by apply completed_refines.
Qed.
End complete.

(** ** The bounds of a scan *)

(** The cursor a page is asked for with. *)
Definition cursor_of (c : call) : option string :=
  match c with CPage _ cursor | CSnapshotPage _ cursor => Some cursor | _ => None end.

(** [asking l p Q]: whatever is answered, if pages were asked for with the
    cursors [l] before [p], then [Q] holds of the cursors and the result after it. *)
Fixpoint asking {A} (l : list string) (p : prog A) (Q : list string → go A → Prop) : Prop :=
  match p with
  | Done r => Q l r
  | Txn t k => ∀ r, asking l (k r) Q
  | Call c k => ∀ r, asking (l ++ option_list (cursor_of c)) (k r) Q
  end.

Lemma asking_mono {A} l (p : prog A) (Q Q' : list string → go A → Prop) :
  asking l p Q → (∀ l r, Q l r → Q' l r) → asking l p Q'.
Proof. revert l. induction p; simpl; eauto. Qed.

Lemma asking_bind {A B} l (p : prog A) (k : A → prog B) (Q : list string → go B → Prop) :
  asking l p (λ l r, match r with Ok a => asking l (k a) Q | Err e => Q l (Err e) end) → asking l (p ≫= k) Q.
Proof. revert l. induction p as [[a|e]|C t h IH|c h IH]; intros l H; simpl in *; eauto. Qed.

Lemma asking_attempt {A} l (p : prog A) (Q : list string → go (go A) → Prop) :
  asking l p (λ l r, Q l (Ok r)) → asking l (pattempt p) Q.
Proof. revert l. induction p as [r|C t h IH|c h IH]; intros l H; simpl in *; eauto. Qed.

Lemma asking_tx {A} l (t : txm A) (Q : list string → go A → Prop) : (∀ r, Q l r) → asking l (tx t) Q.
Proof. simpl. auto. Qed.

Lemma asking_tx_try {A} l (t : txm A) (Q : list string → go (go A) → Prop) :
  (∀ r, Q l (Ok r)) → asking l (tx_try t) Q.
Proof. simpl. auto. Qed.

Lemma asking_reject l b e (Q : list string → go unit → Prop) :
  (b = true → Q l (Err e)) → (b = false → Q l (Ok tt)) → asking l (preject b e) Q.
Proof. destruct b; simpl; auto. Qed.

Lemma asking_ask l c (Q : list string → go (resp c) → Prop) :
  (∀ r, Q (l ++ option_list (cursor_of c)) (Ok r)) → asking l (ask c) Q.
Proof. simpl. auto. Qed.

Lemma asking_run {A} l (p : prog A) (Q : list string → go A → Prop) w i d : asking l p Q →
  Q (l ++ omap cursor_of (rr_calls (run w i p d))) (rr_result (run w i p d)).
Proof.
  revert l i d. induction p as [r|C t h IH|c h IH]; intros l i d H; simpl in *.
  - by rewrite app_nil_r.
  - destruct (t _) as [r s]. by apply IH.
  - specialize (IH (wo_answer w i c) _ (S i) (wo_meddle w i d) (H _)). simpl.
    destruct (cursor_of c); simpl in IH; [by rewrite <-app_assoc in IH|by rewrite app_nil_r in IH].
Qed.

Ltac asking_step :=
  cbv beta iota;
  lazymatch goal with
  | |- asking _ (mbind _ _) _ => apply asking_bind
  | |- asking _ (preject _ _) _ => apply asking_reject; intros ?
  | |- asking _ (pattempt _) _ => apply asking_attempt
  | |- asking _ (tx _) _ => apply asking_tx; intros []
  | |- asking _ (tx_try _) _ => apply asking_tx_try; intros []
  | |- asking _ (ask _) _ => apply asking_ask; intros ?; cbn [option_list cursor_of]; rewrite ?app_nil_r
  | |- asking _ (pthrow _) _ => unfold pthrow; cbn [asking]
  | |- asking _ (mret _) _ => unfold mret, prog_ret; cbn [asking]
  | |- asking _ (match ?x with _ => _ end) _ => destruct x eqn:?
  end; cbv beta iota.

Section bounds.
Context `{U : UuidApi} `{J : JsonbText} (encoded_len : list scanObservation → option Z).

(** At most [n] pages, no cursor twice. *)
Definition bounded (n : nat) (l : list string) : Prop := NoDup l ∧ (length l <= n)%nat.

Lemma asking_readPage l b kind cursor (Q : list string → go (go scanPage) → Prop) :
  (∀ r, Q (l ++ [cursor]) (Ok r)) → asking l (readPage b kind cursor) Q.
Proof. intros HQ. unfold readPage. repeat asking_step; auto. Qed.

Lemma asking_pages pages n lease run actor b kind number cursor count bytes seen l :
  NoDup (l ++ [cursor]) → (∀ x, x ∈ l ++ [cursor] → x = "" ∨ x ∈ seen) → (length l + pages <= n)%nat →
  asking l (scan_pages encoded_len pages lease run actor b kind number cursor count bytes seen)
    (λ l _, bounded n l).
Proof.
  revert number cursor count bytes seen l.
  induction pages as [|pages IH]; intros number cursor count bytes seen l Hd Hs Hn; cbn [scan_pages].
  { split; [by apply NoDup_app in Hd as [? _]|lia]. }
  assert (bounded n (l ++ [cursor])) as Hb by (split; [done|rewrite length_app; simpl; lia]).
  assert (bounded n l) by (split; [by apply NoDup_app in Hd as [? _]|lia]).
  repeat asking_step; try done. apply asking_readPage. intros [page|e]; cbv beta iota; [|done].
  repeat asking_step; try done.
  match goal with H : over_limit _ _ _ _ _ = false |- _ => unfold over_limit in H; guards end; [done|].
  match goal with H : pg_Next page ∉ seen |- _ => rename H into Hnext end.
  apply IH.
  - apply NoDup_app. split_and!; [done| |by apply NoDup_singleton].
    intros x Hx ->%list_elem_of_singleton. by destruct (Hs _ Hx).
  - intros x [Hx| ->%list_elem_of_singleton]%elem_of_app; [|right; by left].
    destruct (Hs _ Hx); [by left|right; by right].
  - rewrite length_app. simpl. lia.
Qed.

(** C29. A scan ends: whatever the adapter answers, it asks for at most 100 pages
    and never asks twice with one cursor, so an adapter that pages in a circle
    or without end is cut off. *)
Theorem Scan_bounded s lease w i d :
  let cursors := omap cursor_of (rr_calls (run w i (Scan encoded_len s lease) d)) in
  NoDup cursors ∧ (length cursors <= 100)%nat.
Proof.
  intros cursors. cut (asking [] (Scan encoded_len s lease) (λ l _, bounded 100 l)).
  { intros H. apply (asking_run _ _ _ w i d) in H. exact H. }
  assert (bounded 100 []) by (split; [constructor|simpl; lia]).
  unfold Scan, run_leased, pageReader. assert (Hm : (max_pages <= 100)%nat) by (unfold max_pages; lia).
  revert Hm. generalize max_pages. intros m Hm. repeat asking_step; try lazymatch goal with |- bounded _ _ => done end.
  1,2: eapply asking_mono;
    [apply (asking_pages _ 100);
      [by apply NoDup_singleton|intros x ->%list_elem_of_singleton; by left|simpl; lia]
    |intros l res Hl; repeat asking_step; done].
  all: done.
Qed.
End bounds.
