(* ===== verification/Generations.v ===== *)
(** [internal/inventory]: the invariant behind publication.  Whatever refreshes
    are admitted, scanned, published, pruned, in whatever order and with
    whatever faults, the inventory tables stay consistent, and a resource keeps
    its identity and never goes back to an older scan. *)
From S2P Require Import Prelude GoBase Identifier Roles Schema Tx TxLogic Wp Sample AuditLog Jobs.
From S2P Require Import Membership Grants Enqueue Provider Prog Scan Publish Inventory.
Local Open Scope Z_scope.

(** ** The tables of the invariant *)

Lemma inventory_ok_same d d' : resources d' = resources d → sync_runs d' = sync_runs d →
  inventory_staging d' = inventory_staging d → connections d' = connections d → inventory_ok d → inventory_ok d'.
Proof.
  intros E1 E2 E3 E4 [H1 H2 H3 H4 H5]. unfold connection_in in *. by split; unfold connection_in; rewrite ?E1, ?E2, ?E3, ?E4.
Qed.

Lemma ok_staging_subset d t : inventory_ok d → t ⊆ inventory_staging d →
  inventory_ok (d <| inventory_staging := t |>).
Proof.
  intros [H1 H2 H3 H4 H5] Ht. split; simpl; try done; intros until 1; match goal with H : t !! _ = _ |- _ =>
    eapply lookup_weaken in H; [|exact Ht] end; eauto.
Qed.

(** A run that keeps its scope and generation, and its publication. *)
Lemma ok_run_update d run s s' : inventory_ok d → sync_runs d !! run = Some s → run_scope s' = run_scope s →
  sy_generation s' = sy_generation s → (sy_status s = "succeeded" → sy_status s' = "succeeded") →
  inventory_ok (d <| sync_runs ::= <[run := s']> |>).
Proof.
  intros [H1 H2 H3 H4 H5] Hs Hsc Hg Hst.
  assert (∀ k x, sync_runs d !! k = Some x → ∃ x', <[run:=s']> (sync_runs d) !! k = Some x' ∧
    run_scope x' = run_scope x ∧ sy_generation x' = sy_generation x ∧
    (sy_status x = "succeeded" → sy_status x' = "succeeded")) as Hup.
  { intros k x Hk. destruct (decide (k = run)) as [->|].
    - assert (x = s) as -> by congruence. exists s'. by rewrite lookup_insert_eq.
    - exists x. by rewrite lookup_insert_ne. }
  assert (∀ k x', <[run:=s']> (sync_runs d) !! k = Some x' → ∃ x, sync_runs d !! k = Some x ∧
    run_scope x' = run_scope x ∧ sy_generation x' = sy_generation x) as Hdown.
  { intros k x' [[<- <-]|[? Hk]]%lookup_insert_Some; eauto. }
  split; simpl; try done.
  - intros i r (k & x & Hx & E1 & E2 & E3)%H2. destruct (Hup _ _ Hx) as (x' & ? & F1 & F2 & F3).
    exists k, x'. split_and!; [done|congruence..|auto].
  - intros w c g n sg (k & x & Hx & E1 & E2)%H3. destruct (Hup _ _ Hx) as (x' & ? & F1 & F2 & F3).
    exists k, x'. split_and!; [done|congruence..].
  - intros i j x y (x0 & Hx & Ex & Gx)%Hdown (y0 & Hy & Ey & Gy)%Hdown Ew Ec Eg.
    unfold run_scope in *. eapply (H5 i j x0 y0); [done|done|congruence..].
Qed.

(** A run with a new generation that nothing refers to. *)
Lemma ok_run_new d run s' : inventory_ok d →
  (∀ s, sync_runs d !! run = Some s → generation_used d s = false ∧ sy_status s ≠ "succeeded") →
  (∀ k s, sync_runs d !! k = Some s → sy_generation s ≠ sy_generation s') →
  inventory_ok (d <| sync_runs ::= <[run := s']> |>).
Proof.
  intros [H1 H2 H3 H4 H5] Hs Hg. split; simpl; try done.
  - intros i r (k & x & Hx & E1 & E2 & E3)%H2. exists k, x. rewrite lookup_insert_ne; [done|].
    intros <-. by destruct (Hs _ Hx).
  - intros w c g n sg Hsg. destruct (H3 _ _ _ _ _ Hsg) as (k & x & Hx & E1 & E2). exists k, x.
    rewrite lookup_insert_ne; [done|]. intros <-. destruct (Hs _ Hx) as [Hu _].
    unfold generation_used in Hu. apply orb_false_iff in Hu as [_ Hu].
    apply not_true_iff_false in Hu. apply Hu. apply exists_where_true. exists (w, c, g, n), sg. split; [done|].
    unfold run_scope in E1. apply bool_decide_eq_true. split_and!; congruence.
  - intros i j x y [[<- <-]|[? Hi]]%lookup_insert_Some [[<- <-]|[? Hj]]%lookup_insert_Some Ew Ec Eg; [done|..].
    + by destruct (Hg _ _ Hj).
    + by destruct (Hg _ _ Hi).
    + eauto.
Qed.

(** ** Statements *)

(** The identifiers a step draws are not the generation of a run: they are new UUIDs. *)
Definition fresh_ids (d : db) (e : env) : Prop :=
  ∀ u k s, Some u ∈ en_ids e → sync_runs d !! k = Some s → sy_generation s ≠ u.

Lemma ok_insert_sync id w c actor kind now d u d' :
  insert_sync id w c actor kind now d = Some (u, d') → inventory_ok d →
  (∀ k s, sync_runs d !! k = Some s → sy_generation s ≠ id) → inventory_ok d'.
Proof.
  unfold insert_sync. intros H Hok Hg. sql_inv H.
  eapply (inventory_ok_same (d <| sync_runs ::= <[id := _]> |>)); [done..|].
  apply ok_run_new; [done| |done]. intros s Hs. congruence.
Qed.

Lemma ok_clear_staging w c run now d u d' :
  clear_staging w c run now d = Some (u, d') → inventory_ok d → inventory_ok d'.
Proof.
  unfold clear_staging. intros H Hok. case_match; simplify_eq; [|done].
  apply (ok_staging_subset d); [done|]. apply map_filter_subseteq.
Qed.

Lemma ok_start_run run version generation now d u d' :
  start_run run version generation now d = Some (u, d') → inventory_ok d →
  (∀ s, sync_runs d !! run = Some s → sy_status s ≠ "succeeded") →
  (∀ k s, sync_runs d !! k = Some s → sy_generation s ≠ generation) → inventory_ok d'.
Proof.
  unfold start_run. intros H Hok Hst Hg. destruct (sync_runs d !! run) as [s|] eqn:Hs; [|by simplify_eq].
  sql_inv H. unfold started_run in *. destruct (sy_started_at s) as [t|] eqn:Ht; simpl in *.
  - apply ok_run_new; [done| |done]. intros s0 Hs0. assert (s0 = s) as -> by congruence.
    split; [|by apply Hst]. guards; [|done]. exfalso. by eapply Hg.
  - eapply ok_run_update; [done|done|done|done|]. intros E. exfalso. by eapply Hst.
Qed.

(** The family of a connection, as the scan's binding has it. *)
Definition bound (w c : uuid) (family : string) (d : db) : Prop :=
  ∀ cn, connection_in w c d = Some cn → cn_api_family cn = family.

Lemma ok_insert_staged `{J : JsonbText} lease id family run o now d u d' :
  insert_staged lease id family run o now d = Some (u, d') → inventory_ok d →
  bound (ls_Workspace lease) (ls_Connection lease) family d → inventory_ok d'.
Proof.
  unfold insert_staged. intros H [H1 H2 H3 H4 H5] Hb.
  destruct (sync_runs d !! run) as [s|] eqn:Hs; [|by simplify_eq]. sql_inv H. guards. destruct_and?.
  split; simpl; try done.
  - intros w c g n sg [[[= <- <- <- <-] <-]|[_ Hsg]]%lookup_insert_Some; [|eauto].
    exists run, s. split_and!; [done| |done]. unfold run_scope. simpl. congruence.
  - intros w c g n sg cn [[[= <- <- <- <-] <-]|[_ Hsg]]%lookup_insert_Some Hcn; [|eauto]. by apply Hb.
Qed.

Lemma ok_page_progress run number complete now d u d' :
  page_progress run number complete now d = Some (u, d') → inventory_ok d → inventory_ok d'.
Proof.
  unfold page_progress. intros [= _ <-] Hok. destruct (sync_runs d !! run) as [s|] eqn:Hs.
  - eapply (inventory_ok_same (d <| sync_runs ::= <[run := _]> |>)); [done| |done..|].
    + simpl. by apply alter_lookup.
    + by eapply ok_run_update.
  - eapply inventory_ok_same; [..|exact Hok]; try done. simpl. apply map_eq. intros k.
    destruct (decide (k = run)) as [->|]; [by rewrite lookup_alter_eq, Hs|by rewrite lookup_alter_ne].
Qed.

(** A step that publishes nothing: the resources stand, and so do the runs that
    published them. *)
Definition quiet (d d' : db) : Prop := resources d' = resources d ∧
  ∀ k s, sync_runs d !! k = Some s → sy_status s = "succeeded" → ∃ s', sync_runs d' !! k = Some s' ∧
    run_scope s' = run_scope s ∧ sy_generation s' = sy_generation s ∧
    sy_generation_number s' = sy_generation_number s ∧ sy_status s' = "succeeded".

#[export] Instance quiet_preorder : PreOrder quiet.
Proof.
  split; [intros d; split; [done|eauto 10]|]. intros d1 d2 d3 [E1 H1] [E2 H2]. split; [congruence|].
  intros k s Hs Hst. destruct (H1 _ _ Hs Hst) as (s' & Hs' & ? & ? & ? & Hst').
  destruct (H2 _ _ Hs' Hst') as (s'' & Hs'' & ? & ? & ? & ?). exists s''. split_and!; [done|congruence..|done].
Qed.

Lemma quiet_same d d' : resources d' = resources d → sync_runs d' = sync_runs d → quiet d d'.
Proof. intros E1 E2. split; [done|]. rewrite E2. eauto 10. Qed.

Lemma quiet_insert_sync id w c actor kind now d u d' : insert_sync id w c actor kind now d = Some (u, d') → quiet d d'.
Proof.
  unfold insert_sync. intros H. sql_inv H. split; [done|]. intros k s Hk Hst. exists s. simpl.
  rewrite lookup_insert_ne by congruence. done.
Qed.

Lemma quiet_clear_staging w c run now d u d' : clear_staging w c run now d = Some (u, d') → quiet d d'.
Proof. unfold clear_staging. intros H. by case_match; simplify_eq; apply quiet_same. Qed.

Lemma quiet_start_run run version generation now d u d' : start_run run version generation now d = Some (u, d') →
  (∀ s, sync_runs d !! run = Some s → sy_status s ≠ "succeeded") → quiet d d'.
Proof.
  unfold start_run. intros H Hn. destruct (sync_runs d !! run) as [s|] eqn:Hs; [|by simplify_eq].
  sql_inv H. split; [done|]. intros k x Hk Hst. exists x. simpl. rewrite lookup_insert_ne; [done|].
  intros <-. simplify_eq. by eapply Hn.
Qed.

Lemma quiet_insert_staged `{J : JsonbText} lease id family run o now d u d' :
  insert_staged lease id family run o now d = Some (u, d') → quiet d d'.
Proof. unfold insert_staged. intros H. case_match; [|by simplify_eq]. sql_inv H. by apply quiet_same. Qed.

Lemma quiet_page_progress run number complete now d u d' :
  page_progress run number complete now d = Some (u, d') → quiet d d'.
Proof.
  unfold page_progress. intros [= _ <-]. split; [done|]. intros k s Hk Hst. simpl.
  destruct (decide (k = run)) as [->|]; [rewrite lookup_alter_eq, Hk; simpl; eauto 10|].
  rewrite lookup_alter_ne by done. eauto 10.
Qed.

(** ** Transactions *)

Section transactions.
Context `{U : UuidApi}.

(** Consistent after, with nothing published. *)
Definition scanned (d d' : db) : Prop := inventory_ok d' ∧ quiet d d'.

(** What a whole transaction does to the inventory is done to the committed tables. *)
Definition scans {A} (t : txm A) (d : db) (e : env) : Prop := wp t (λ _ s', scanned d (tx_db s')) (Txs d d e).

Lemma scanned_refl d : inventory_ok d → scanned d d.
Proof. done. Qed.

Lemma may_scan_pending lease run actor version d b now s : may_scan lease run actor version d b now →
  sync_runs d !! run = Some s → sy_status s ≠ "succeeded".
Proof.
  intros [_ _ _ [u Hj] _] Hs. unfold scan_job in Hj. sql_inv Hj. unfold sync_pending in *. guards.
  all: congruence.
Qed.

Lemma clear_staging_runs w c run now d u d' : clear_staging w c run now d = Some (u, d') → sync_runs d' = sync_runs d.
Proof. unfold clear_staging. intros H. by case_match; simplify_eq. Qed.

Lemma scans_guard lease run actor version start d e : inventory_ok d → fresh_ids d e →
  scans (Scan.guard lease run actor version start) d e.
Proof.
  intros Hok Hf. unfold scans, Scan.guard.
  assert (∀ b now now1 u1 d1 now2 id u2 d2, may_scan lease run actor version d b now → Some id ∈ en_ids e →
    clear_staging (ls_Workspace lease) (ls_Connection lease) run now1 d = Some (u1, d1) →
    start_run run (bd_version b) id now2 d1 = Some (u2, d2) → scanned d d2) as Hstart.
  { intros b now now1 u1 d1 now2 id u2 d2 Hm Hid H1 H2. pose proof (clear_staging_runs _ _ _ _ _ _ _ H1) as Hr.
    assert (∀ s, sync_runs d1 !! run = Some s → sy_status s ≠ "succeeded")
      by (rewrite Hr; intros s; by eapply may_scan_pending).
    split; [|etrans; [by eapply quiet_clear_staging|by eapply quiet_start_run]].
    eapply ok_start_run; [exact H2|by eapply ok_clear_staging|done|]. rewrite Hr. intros k s. by apply Hf. }
  repeat wp_step; simpl; try by apply scanned_refl.
  all: eapply Hstart; [eassumption|eapply env_le_id; [|eassumption]; env_solve|eassumption..].
Qed.

(** A stage, with the family its binding names. *)
Definition stages (w c : uuid) (family : string) (d d' : db) : Prop :=
  connections d' = connections d ∧ quiet d d' ∧ (bound w c family d → inventory_ok d → inventory_ok d').

#[export] Instance stages_preorder w c family : PreOrder (stages w c family).
Proof.
  split; [done|]. intros d1 d2 d3 (E1 & Q1 & H1) (E2 & Q2 & H2). split; [congruence|]. split; [by etrans|].
  intros Hb Hok. apply H2; [|auto]. unfold bound, connection_in in *. by rewrite E1.
Qed.

Lemma stages_insert_staged `{J : JsonbText} lease id family run o :
  respects (stages (ls_Workspace lease) (ls_Connection lease) family) (insert_staged lease id family run o).
Proof.
  intros now d u d' H. split; [|split; [by eapply quiet_insert_staged|intros; by eapply ok_insert_staged]].
  unfold insert_staged in H. case_match; [|by simplify_eq]. by sql_inv H.
Qed.
Lemma stages_page_progress w c family run number complete :
  respects (stages w c family) (page_progress run number complete).
Proof.
  intros now d u d' H. split; [|split; [by eapply quiet_page_progress|intros; by eapply ok_page_progress]].
  unfold page_progress in H. by simplify_eq.
Qed.
#[local] Hint Resolve stages_insert_staged stages_page_progress : tx.

Lemma keeps_stage `{J : JsonbText} lease run actor b page number :
  keeps (stages (ls_Workspace lease) (ls_Connection lease) (bd_family b)) (stage lease run actor b page number).
Proof. unfold stage, stage_row, scanAuthority. tx_auto. Qed.

Lemma scans_stage `{J : JsonbText} lease run actor b page number d e : inventory_ok d →
  bound (ls_Workspace lease) (ls_Connection lease) (bd_family b) d →
  scans (stage lease run actor b page number) d e.
Proof.
  intros Hok Hb. destruct (keeps_stage lease run actor b page number d (Txs d d e)) as [(_ & Q & H) _]; [done|].
  split; [by apply H|done].
Qed.

Lemma scans_PruneStaging locked d e : inventory_ok d → scans (PruneStaging locked) d e.
Proof.
  intros Hok. unfold scans, PruneStaging. repeat wp_step; simpl; try done.
  all: simplify_eq; split; [apply ok_staging_subset; [done|apply map_filter_subseteq]|by apply quiet_same].
Qed.

Lemma scanned_enqueued id w c actor kind jobID deadline now1 u1 d1 now2 u2 d2 d e :
  insert_sync id w c actor kind now1 d = Some (u1, d1) → insert_refresh jobID id w c deadline now2 d1 = Some (u2, d2) →
  Some id ∈ en_ids e → inventory_ok d → fresh_ids d e → scanned d d2.
Proof.
  intros H1 H2 Hid Hok Hf. unfold insert_refresh in H2. apply insert_job_Some in H2 as (_ & -> & _). split.
  - apply (inventory_ok_same d1); [done..|]. eapply ok_insert_sync; [exact H1|done|]. intros k s. by apply Hf.
  - etrans; [by eapply quiet_insert_sync|by apply quiet_same].
Qed.

Lemma scans_RefreshType actor w c kind d e : inventory_ok d → fresh_ids d e →
  scans (RefreshType actor w c kind) d e.
Proof.
  intros Hok Hf. unfold scans, RefreshType, enqueueType, enqueueLockedType. repeat wp_step; simpl; try done.
  all: eapply scanned_enqueued; [eassumption..| |done|done]; eapply env_le_id; [|eassumption]; env_solve.
Qed.

(** ** Publication *)

(** The number of the run that published a resource. *)
Definition numbered (d : db) (r : resource) (n : Z) : Prop := ∃ k s, sync_runs d !! k = Some s ∧
  run_scope s = (rs_workspace r, rs_connection r, rs_resource_type r, rs_scope r) ∧
  sy_generation s = rs_generation r ∧ sy_generation_number s = n.

Lemma numbered_functional d r n n' : inventory_ok d → numbered d r n → numbered d r n' → n = n'.
Proof.
  intros Hok (k & s & Hs & E & G & <-) (k' & s' & Hs' & E' & G' & <-). unfold run_scope in *. simplify_eq.
  assert (k = k') as -> by (eapply (ok_generations _ Hok); [done|done|congruence..]). by simplify_eq.
Qed.

Lemma numbered_exists d i r : inventory_ok d → resources d !! i = Some r → ∃ n, numbered d r n.
Proof. intros Hok (k & s & Hs & E & G & _)%(ok_generation _ Hok). exists (sy_generation_number s), k, s. done. Qed.

(** A resource keeps its identity, and its scans only get newer. *)
Definition advances (d d' : db) : Prop := ∀ id r, resources d !! id = Some r →
  ∃ r', resources d' !! id = Some r' ∧ native_key r' = native_key r ∧ rs_version r <= rs_version r' ∧
    ∀ n n', numbered d r n → numbered d' r' n' → n <= n'.

Lemma advances_trans d1 d2 d3 : inventory_ok d2 → advances d1 d2 → advances d2 d3 → advances d1 d3.
Proof.
  intros Hok A B id r Hr. destruct (A _ _ Hr) as (r2 & Hr2 & K2 & V2 & N2).
  destruct (B _ _ Hr2) as (r3 & Hr3 & K3 & V3 & N3). exists r3. split_and!; [done|congruence|lia|].
  intros n n' Hn Hn'. destruct (numbered_exists _ _ _ Hok Hr2) as [m Hm]. transitivity m; eauto.
Qed.
(** The runs after a completion: one of them ended. *)
Section ended.
Context (d d' : db) (run : uuid) (s s' : sync_run).
Hypothesis Hok : inventory_ok d.
Hypothesis Hrun : sync_runs d !! run = Some s.
Hypothesis Hruns : sync_runs d' = <[run := s']> (sync_runs d).
Hypothesis Hscope : run_scope s' = run_scope s.
Hypothesis Hgen : sy_generation s' = sy_generation s.
Hypothesis Hnumber : sy_generation_number s' = sy_generation_number s.

Lemma numbered_back r r' n : native_key r' = native_key r → rs_generation r' = rs_generation r →
  numbered d' r' n → numbered d r n.
Proof.
  intros Hk Hg (k & x & Hx & E & G & <-). unfold native_key in Hk. injection Hk as ?????? .
  rewrite Hruns in Hx. apply lookup_insert_Some in Hx as [[<- <-]|[_ Hx]].
  - exists run, s. split_and!; [done|congruence..].
  - exists k, x. split_and!; [done|congruence..].
Qed.

Lemma numbered_published r r0 n : rs_generation r = sy_generation s →
  run_scope s = (rs_workspace r, rs_connection r, rs_resource_type r, rs_scope r) →
  numbered d' r n → not_newer d (sy_generation_number s) r0 = true → ∀ n0, numbered d r0 n0 → n0 <= n.
Proof.
  intros Hg Hsc Hn Hnot n0 Hn0.
  assert (n = sy_generation_number s) as ->.
  { eapply (numbered_functional d r); [done|by eapply numbered_back|]. by exists run, s. }
  apply exists_where_true in Hnot as (k & x & Hx & [Hb Hle]%andb_true_iff). apply bool_decide_eq_true in Hb.
  destruct_and?. transitivity (sy_generation_number x); [|lia].
  rewrite (numbered_functional d r0 n0 (sy_generation_number x)); [done|done|done|].
  exists k, x. unfold run_scope. split_and!; [done|congruence..].
Qed.
End ended.

Section publishing.
Context (d : db) (w c : uuid) (family kind scope : string) (g run : uuid) (s : sync_run) (now : time).
Let rows := staged_rows d w c g.

Hypothesis Hok : inventory_ok d.
Hypothesis Hdup : NoDup (inserted_ids d w c g rows).
Hypothesis Hnew : ∀ id, id ∈ inserted_ids d w c g rows → resources d !! id = None.
Hypothesis Hstaged : ∀ native sg, inventory_staging d !! (w, c, g, native) = Some sg →
  sg_api_family sg = family ∧ sg_resource_type sg = kind ∧ sg_scope sg = scope.
Hypothesis Hrun : sync_runs d !! run = Some s.
Hypothesis Hscope : run_scope s = (w, c, kind, scope).
Hypothesis Hgen : sy_generation s = g.
Let number := sy_generation_number s.

(** A resource after the publication: as before, or written from a staged row. *)
Lemma publication_from id r : publication d w c g number !! id = Some r →
  resources d !! id = Some r ∨
  rs_generation r = g ∧ ∃ native sg, inventory_staging d !! (w, c, g, native) = Some sg ∧
    native_key r = (w, c, family, kind, scope, native) ∧
    (resource_at (resources d) (native_key r) = None ∧ id = sg_id sg ∧ resources d !! id = None ∨
     ∃ r0, resources d !! id = Some r0 ∧ native_key r0 = native_key r ∧ rs_version r = rs_version r0 + 1 ∧
       not_newer d number r0 = true).
Proof.
  intros [(n & sg & Hin & Hp)|[Hr _]]%publication_Some; [right|by left|done..].
  assert (inventory_staging d !! (w, c, g, n) = Some sg) as Hsg by by apply elem_of_staged_rows.
  destruct (Hstaged _ _ Hsg) as (<- & <- & <-).
  destruct (published_row_Some _ _ _ _ _ _ _ _ _ Hp) as [(x & Hx & Hk & Hn & ->)|(-> & -> & Hn)].
  - split; [done|]. exists n, sg. split_and!; [done|exact Hk|right]. exists x. split_and!; done.
  - split; [done|]. exists n, sg. split_and!; [done|done|left]. split_and!; [done|done|].
    apply Hnew. by eapply inserted_new.
Qed.

Lemma publication_keys i j r r' : publication d w c g number !! i = Some r →
  publication d w c g number !! j = Some r' → native_key r = native_key r' → i = j.
Proof.
  intros [Hi|(_ & n & sg & Hsg & Hk & Hi)]%publication_from [Hj|(_ & n' & sg' & Hsg' & Hk' & Hj)]%publication_from E.
  - by eapply (ok_keys _ Hok).
  - destruct Hj as [(Hn & _)|(r0 & Hr0 & Hk0 & _)].
    + by destruct (resource_at_None _ _ _ _ Hn Hi).
    + eapply (ok_keys _ Hok); [done|done|congruence].
  - destruct Hi as [(Hn & _)|(r0 & Hr0 & Hk0 & _)].
    + by destruct (resource_at_None _ _ _ _ Hn Hj).
    + eapply (ok_keys _ Hok); [done|done|congruence].
  - assert (n' = n) as -> by congruence. assert (sg' = sg) as -> by congruence.
    destruct Hi as [(Hn & -> & _)|(r0 & Hr0 & Hk0 & _)], Hj as [(Hn' & -> & _)|(r1 & Hr1 & Hk1 & _)]; [done|..].
    + destruct (resource_at_None _ _ _ _ Hn Hr1). congruence.
    + destruct (resource_at_None _ _ _ _ Hn' Hr0). congruence.
    + eapply (ok_keys _ Hok); [done|done|congruence].
Qed.

Lemma replaced_from id r : replaced d w c family scope kind g number now !! id = Some r →
  ∃ r0, publication d w c g number !! id = Some r0 ∧ native_key r0 = native_key r ∧
    rs_generation r0 = rs_generation r ∧ rs_version r0 <= rs_version r.
Proof.
  rewrite replaced_lookup. intros (r0 & Hp & ->)%fmap_Some. exists r0. split; [done|].
  case_match; simpl; [split_and!; [done..|lia]|done].
Qed.

(** Nothing is unpublished. *)
Lemma replaced_total id r : resources d !! id = Some r →
  ∃ r', replaced d w c family scope kind g number now !! id = Some r'.
Proof.
  intros Hr. rewrite replaced_lookup.
  destruct (publication_keeps d w c g number Hdup Hnew id r Hr) as (r1 & -> & _). by eexists.
Qed.
Context (d' : db) (s' : sync_run).
Hypothesis Hpending : sy_status s ≠ "succeeded".
Hypothesis Hafter : resources d' = replaced d w c family scope kind g number now.
Hypothesis Hruns : sync_runs d' = <[run := s']> (sync_runs d).
Hypothesis Hstaging : inventory_staging d' = inventory_staging d.
Hypothesis Hconnections : connections d' = connections d.
Hypothesis Hscope' : run_scope s' = run_scope s.
Hypothesis Hgen' : sy_generation s' = sy_generation s.
Hypothesis Hnumber' : sy_generation_number s' = number.
Hypothesis Hstatus' : sy_status s' = "succeeded".

Lemma published_ok : inventory_ok d'.
Proof.
  assert (inventory_ok (d <| sync_runs ::= <[run := s']> |>)) as [_ _ K3 K4 K5]
    by (eapply ok_run_update; [done..|by intros ?]).
  split.
  - intros i j r r'. rewrite Hafter. intros (r0 & Hi & Ki & _)%replaced_from (r1 & Hj & Kj & _)%replaced_from E.
    eapply publication_keys; [exact Hi|exact Hj|congruence].
  - intros i r. rewrite Hafter, Hruns. intros (r0 & Hi & Ki & Gi & _)%replaced_from. rewrite <-Gi.
    unfold native_key in Ki. injection Ki as E1 E2 E3 E4 E5 E6. rewrite <-E1, <-E2, <-E4, <-E5.
    apply publication_from in Hi as [Hr|(Hg & n & sg & _ & Hk & _)].
    + destruct (ok_generation _ Hok _ _ Hr) as (k & x & Hx & ? & ? & ?). exists k, x.
      rewrite lookup_insert_ne; [done|]. intros <-. congruence.
    + unfold native_key in Hk. injection Hk as F1 F2 F3 F4 F5 F6. exists run, s'. rewrite lookup_insert_eq.
      split_and!; [done|congruence..|done].
  - rewrite Hstaging, Hruns. exact K3.
  - unfold connection_in in *. rewrite Hstaging, Hconnections. exact K4.
  - rewrite Hruns. exact K5.
Qed.

Lemma published_advances : advances d d'.
Proof.
  intros id r Hr. destruct (replaced_total _ _ Hr) as [r' Hr']. exists r'. rewrite Hafter. split; [done|].
  destruct (replaced_from _ _ Hr') as (r0 & Hp & K0 & G0 & V0).
  assert (∀ x n, native_key r' = native_key x → rs_generation r' = rs_generation x → numbered d' r' n → numbered d x n) as Hnb
    by (intros x n; eapply (numbered_back d d' run s s'); done).
  destruct (publication_from _ _ Hp) as [Hold|(Hg & n & sg & _ & Hk & [(_ & _ & Hn)|(x & Hx & Kx & Vx & Hnot)])].
  - assert (r0 = r) as -> by congruence. split_and!; [done|done|]. intros m m' Hm Hm'.
    rewrite (numbered_functional d r m m'); [done|done|done|]. by apply Hnb.
  - congruence.
  - assert (x = r) as -> by congruence. split_and!; [congruence|lia|]. intros m m' Hm Hm'.
    eapply (numbered_published d d' run s s' Hok Hrun Hruns) with (r := r'); try done; [congruence|].
    unfold native_key in *. rewrite Hscope. congruence.
Qed.
End publishing.
Lemma completed_spec lease scanErr d d' : completed lease scanErr d d' → inventory_ok d →
  inventory_ok d' ∧ advances d d'.
Proof.
  intros [(run & s & j & state & now & now' & _ & _ & _ & _ & Hs & Hp & Hw & Hc & Hcon & Hruns & _) _ Hframe] Hok.
  destruct Hframe as (t1 & t2 & t3 & ->). simpl in Hruns, Hcon. subst t2.
  assert (Hpend : sy_status s ≠ "succeeded") by (unfold sync_pending in Hp; intros E; rewrite E in Hp; done).
  set (s' := s <| sy_status := state |> <| sy_failure_code := failureCode <$> scanErr |> <| sy_completed_at := Some now |>) in *.
  set (d1 := d <| sync_runs ::= <[run := s']> |>).
  assert (Hok1 : inventory_ok d1) by (eapply ok_run_update; [done|done|done|done|by intros ?]).
  set (d' := d <| resources := t1 |> <| sync_runs := <[run := s']> (sync_runs d) |> <| jobs := t3 |>).
  assert (Hnb : ∀ r r' n, native_key r' = native_key r → rs_generation r' = rs_generation r → numbered d' r' n → numbered d r n)
    by (intros r r' n; eapply (numbered_back d d' run s s'); done).
  assert (Hsame : t1 = resources d → inventory_ok d' ∧ advances d d').
  { intros ->. split; [by eapply (inventory_ok_same d1)|]. intros id r Hr. exists r. split_and!; [done..|].
    intros n n' Hn Hn'%(Hnb r r); [|done..]. by rewrite (numbered_functional _ _ _ _ Hok Hn Hn'). }
  unfold concluded in Hcon. destruct scanErr as [err|]; [by apply Hsame; destruct Hcon|].
  destruct Hcon as [_ (actor & version & b & t & _ & _ & Hm & [(_ & _ & ->)|(Hnn & Hst & at_ & Hd & Hi & Heq)])]; [by apply Hsame|].
  assert (Hstg : ∀ native sg, inventory_staging d !! (ls_Workspace lease, ls_Connection lease, sy_generation s, native) = Some sg →
    sg_api_family sg = bd_family b ∧ sg_resource_type sg = sy_resource_type s ∧ sg_scope sg = sy_scope s)
    by (intros ? ?; apply (staged_scope lease run s d b actor version t); done).
  assert (Hsc : run_scope s = (ls_Workspace lease, ls_Connection lease, sy_resource_type s, sy_scope s))
    by (unfold run_scope; congruence).
  split; [eapply (published_ok d _ _ (bd_family b) _ _ _ run s at_)|eapply (published_advances d _ _ (bd_family b) _ _ _ run s at_)];
    first [exact Hd|exact Hi|exact Hstg|exact Hst|done].
Qed.

End transactions.

(** ** Every interleaving *)

(** One committed step of the inventory: an admission (alone, or in the
    transaction of the operation or connection that asks for it), a scanner's
    transaction, a publication, a pruning, or anything another component does:
    it leaves the inventory tables alone, keeps the connections there are, with
    their families, and gives a new connection no staged rows. *)
Inductive istep `{U : UuidApi} (d : db) : db → Prop :=
| is_RefreshType actor w c kind e : fresh_ids d e → istep d (tx_db (RefreshType actor w c kind (Txs d d e)).2)
| is_admitted id w c actor kind now u d' : (∀ k s, sync_runs d !! k = Some s → sy_generation s ≠ id) →
    insert_sync id w c actor kind now d = Some (u, d') → istep d d'
| is_guard lease run actor version start e : fresh_ids d e →
    istep d (tx_db (Scan.guard lease run actor version start (Txs d d e)).2)
| is_stage `{J : JsonbText} lease run actor b page number e : bound (ls_Workspace lease) (ls_Connection lease) (bd_family b) d →
    istep d (tx_db (stage lease run actor b page number (Txs d d e)).2)
| is_Complete lease scanErr e : istep d (tx_db (Complete lease scanErr (Txs d d e)).2)
| is_PruneStaging locked e : istep d (tx_db (PruneStaging locked (Txs d d e)).2)
| is_other d' : resources d' = resources d → sync_runs d' = sync_runs d → inventory_staging d' = inventory_staging d →
    (∀ w c cn, connection_in w c d = Some cn →
       ∃ cn', connection_in w c d' = Some cn' ∧ cn_api_family cn' = cn_api_family cn) →
    (∀ w c cn', connection_in w c d' = Some cn' → connection_in w c d = None →
       ∀ g n, inventory_staging d !! (w, c, g, n) = None) →
    istep d d'.

Section interleaving.
Context `{U : UuidApi}.

Lemma istep_same d d' : resources d' = resources d → sync_runs d' = sync_runs d →
  inventory_staging d' = inventory_staging d → connections d' = connections d → istep d d'.
Proof.
  intros E1 E2 E3 E4. apply is_other; try done; unfold connection_in; rewrite E4; [eauto|].
  intros w c cn H1 H2. congruence.
Qed.

Lemma advances_quiet d d' : inventory_ok d → inventory_ok d' → quiet d d' → advances d d'.
Proof.
  intros Hok Hok' [E H] id r Hr. exists r. rewrite E. split_and!; [done..|]. intros n n' Hn Hn'.
  destruct (ok_generation _ Hok _ _ Hr) as (k & s & Hs & Hsc & Hg & Hst).
  destruct (H _ _ Hs Hst) as (s' & Hs' & Hsc' & Hg' & Hn1 & _).
  rewrite (numbered_functional d r n (sy_generation_number s) Hok); [|done|by exists k, s].
  rewrite (numbered_functional d' r n' (sy_generation_number s') Hok'); [lia|done|].
  exists k, s'. split_and!; [done|congruence..].
Qed.

Lemma istep_spec d d' : istep d d' → inventory_ok d → inventory_ok d' ∧ advances d d'.
Proof.
  intros Hstep Hok. cut (scanned d d' ∨ inventory_ok d' ∧ advances d d').
  { intros [[? ?]|?]; [split; [done|by apply advances_quiet]|done]. }
  destruct Hstep as [actor w c kind e Hf|id w c actor kind now u d' Hf H|lease run actor version start e Hf
    |JT lease run actor b page number e Hb|lease scanErr e|locked e|d' E1 E2 E3 Hkeep Hnew].
  - left. by apply scans_RefreshType.
  - left. split; [by eapply ok_insert_sync|by eapply quiet_insert_sync].
  - left. by apply scans_guard.
  - left. by apply scans_stage.
  - destruct (atomic_cases _ _ _ _ _ (Complete_spec lease scanErr d e)) as [->|[a C]]; [by left|right].
    by eapply completed_spec.
  - left. by apply scans_PruneStaging.
  - left. split; [|by apply quiet_same]. destruct Hok as [H1 H2 H3 H4 H5].
    split; rewrite ?E1, ?E2, ?E3; try done. intros w c g n sg cn' Hsg Hcn'.
    destruct (connection_in w c d) as [cn|] eqn:Hcn.
    + destruct (Hkeep _ _ _ Hcn) as (cn2 & Hcn2 & Hfam). rewrite <-(H4 _ _ _ _ _ _ Hsg Hcn). congruence.
    + by rewrite (Hnew _ _ _ Hcn' Hcn) in Hsg.
Qed.

(** C32. The inventory only moves forward: in every interleaving of admissions,
    scans, publications, pruning and the other components, with any
    fault, the tables stay consistent (one resource per native identity, each
    carrying the generation of a published run), and every resource
    keeps its identifier and native identity, never loses a version, and is
    never overwritten by an older scan than the one that published it. *)
Theorem inventory_invariant d d' : inventory_ok d → rtc istep d d' → inventory_ok d' ∧ advances d d'.
Proof.
  intros Hok Hs. induction Hs as [d|d1 d2 d3 H1 _ IH].
  - split; [done|]. by apply advances_quiet; [..|reflexivity].
  - destruct (istep_spec _ _ H1 Hok) as [Hok2 A]. destruct (IH Hok2) as [Hok3 B].
    split; [done|exact (advances_trans _ _ _ Hok2 A B)].
Qed.
End interleaving.

(** ** The scanner among the others *)

Section executing.
Context `{U : UuidApi} `{J : JsonbText} (encoded_len : list scanObservation → option Z).

(** A connection that exists keeps its family. *)
Definition of_family (w c : uuid) (family : string) (d : db) : Prop :=
  ∃ cn, connection_in w c d = Some cn ∧ cn_api_family cn = family.

Lemma of_family_bound w c family d : of_family w c family d → bound w c family d.
Proof. intros (cn & H & E) cn' H'. congruence. Qed.

Definition same_connections (d d' : db) : Prop := connections d' = connections d.
#[export] Instance same_connections_preorder : PreOrder same_connections.
Proof. split; [done|]. unfold same_connections. intros ???. congruence. Qed.

Ltac same_sql := intros ? ? ? ? H; cbv beta in H; repeat match type of H with _ = Some _ => progress sql_inv H end;
  simplify_eq; done.

Lemma same_RefreshType actor w c kind : keeps same_connections (RefreshType actor w c kind).
Proof.
  unfold RefreshType, enqueueType, enqueueLockedType. tx_auto.
  - unfold insert_sync. same_sql.
  - intros now d u d' H. unfold insert_refresh in H. by apply insert_job_Some in H as (_ & -> & _).
Qed.
Lemma same_guard lease run actor version start : keeps same_connections (Scan.guard lease run actor version start).
Proof. unfold Scan.guard, scanAuthority. tx_auto; [unfold clear_staging|unfold start_run]; same_sql. Qed.
Lemma same_PruneStaging locked : keeps same_connections (PruneStaging locked).
Proof. unfold PruneStaging. tx_auto. same_sql. Qed.

Lemma same_connections_keeps {A} (t : txm A) d e : keeps same_connections t →
  connections (tx_db (t (Txs d d e)).2) = connections d.
Proof. intros H. by destruct (H d (Txs d d e)) as [E _]. Qed.

Lemma istep_family w c family d d' : istep d d' → of_family w c family d → of_family w c family d'.
Proof.
  assert (connections d' = connections d → of_family w c family d → of_family w c family d') as Hs
    by (unfold of_family, connection_in; by intros ->).
  intros Hstep. destruct Hstep as [actor w0 c0 kind e Hf|id w0 c0 actor kind now u d' Hf H|lease run actor version start e Hf
    |JT lease run actor b page number e Hb|lease scanErr e|locked e|d' E1 E2 E3 Hkeep Hnew].
  - apply Hs, same_connections_keeps, same_RefreshType.
  - apply Hs. unfold insert_sync in H. by sql_inv H.
  - apply Hs, same_connections_keeps, same_guard.
  - apply Hs. by destruct (keeps_stage lease run actor b page number d (Txs d d e)) as [(E & _) _].
  - destruct (atomic_cases _ _ _ _ _ (Complete_spec lease scanErr d e)) as [->|[a C]]; [done|].
    apply Hs. by destruct C as [_ _ (t1 & t2 & t3 & ->)].
  - apply Hs, same_connections_keeps, same_PruneStaging.
  - intros (cn & Hcn & <-). destruct (Hkeep _ _ _ Hcn) as (cn' & ? & ?). by exists cn'.
Qed.

Lemma isteps_family w c family d d' : rtc istep d d' → of_family w c family d → of_family w c family d'.
Proof. induction 1; eauto using istep_family. Qed.
(** A transaction that touches no inventory table. *)
Definition same_inventory (d d' : db) : Prop := resources d' = resources d ∧ sync_runs d' = sync_runs d ∧
  inventory_staging d' = inventory_staging d ∧ connections d' = connections d.
#[export] Instance same_inventory_preorder : PreOrder same_inventory.
Proof. split; [done|]. unfold same_inventory. intros ??? (?&?&?&?) (?&?&?&?). split_and!; congruence. Qed.

Lemma same_inventory_step {A} (t : txm A) d e : keeps same_inventory t → istep d (tx_db (t (Txs d d e)).2).
Proof. intros H. destruct (H d (Txs d d e)) as [(? & ? & ? & ?) _]; [by split|]. by apply istep_same. Qed.

Lemma same_renew lease : keeps same_inventory (renew lease).
Proof.
  unfold renew. tx_auto. unfold renew_sql. intros ? ? ? ? H; cbv beta in H. by sql_inv H.
Qed.

Abbreviation scanning := (among (rtc istep) istep fresh_ids).

Lemma scanning_tx {A} (t : txm A) (Q : go A → db → Prop) d :
  (∀ d1 e, rtc istep d d1 → fresh_ids d1 e → istep d1 (tx_db (t (Txs d1 d1 e)).2)) →
  (∀ d1 e, let o := t (Txs d1 d1 e) in rtc istep d (tx_db o.2) → Q o.1 (tx_db o.2)) → scanning (tx t) Q d.
Proof.
  intros H1 H2 d1 e Hd He. assert (istep d1 (tx_db (t (Txs d1 d1 e)).2)) as Hs by auto.
  split; [done|]. apply H2. etrans; [exact Hd|by apply rtc_once].
Qed.

Lemma scanning_try {A} (t : txm A) (Q : go (go A) → db → Prop) d :
  (∀ d1 e, rtc istep d d1 → fresh_ids d1 e → istep d1 (tx_db (t (Txs d1 d1 e)).2)) →
  (∀ r d1, rtc istep d d1 → Q (Ok r) d1) → scanning (tx_try t) Q d.
Proof.
  intros H1 H2 d1 e Hd He. assert (istep d1 (tx_db (t (Txs d1 d1 e)).2)) as Hs by auto.
  split; [done|]. apply H2. etrans; [exact Hd|by apply rtc_once].
Qed.

(** The binding a scan starts with names its connection's family. *)
Lemma guard_binding lease run actor version start d e b :
  (Scan.guard lease run actor version start (Txs d d e)).1 = Ok b →
  of_family (ls_Workspace lease) (ls_Connection lease) (bd_family b)
    (tx_db (Scan.guard lease run actor version start (Txs d d e)).2).
Proof.
  pose proof (same_connections_keeps (Scan.guard lease run actor version start) d e (same_guard _ _ _ _ _)) as Hs.
  assert (wp (Scan.guard lease run actor version start) (λ r _, match r with
    | Ok b => of_family (ls_Workspace lease) (ls_Connection lease) (bd_family b) d | Err _ => True end) (Txs d d e)) as H.
  { clear Hs. unfold Scan.guard. repeat wp_step; try done. all: by eapply may_scan_family. }
  unfold wp in H. intros Hr. rewrite Hr in H. unfold of_family, connection_in in *. by rewrite Hs.
Qed.

Lemma scanning_readPage b kind cursor (Q : go (go scanPage) → db → Prop) d :
  (∀ r d1, rtc istep d d1 → Q (Ok r) d1) → scanning (readPage b kind cursor) Q d.
Proof. intros HQ. unfold readPage. repeat among_rule; auto. Qed.

Lemma scanning_pages pages lease run actor b kind number cursor count bytes seen d :
  of_family (ls_Workspace lease) (ls_Connection lease) (bd_family b) d →
  scanning (scan_pages encoded_len pages lease run actor b kind number cursor count bytes seen) (λ _ _, True) d.
Proof.
  revert number cursor count bytes seen d.
  induction pages as [|pages IH]; intros number cursor count bytes seen d Hb; cbn [scan_pages]; [done|].
  repeat among_rule. apply scanning_tx; [by intros; constructor|]. intros d1 e1 o1 Hd1. case_match; [|done].
  repeat among_rule. apply scanning_readPage. intros r d2 Hd2. repeat among_rule; try done.
  apply scanning_tx; [intros d3 e3 Hd3 _; apply is_stage, of_family_bound|intros d3 e3 o3 Hd3; case_match; [|done]].
  - eapply isteps_family; [|exact Hb]. do 2 (etrans; [eassumption|]). done.
  - repeat among_rule; [done|]. apply IH. eapply isteps_family; [|exact Hb]. do 2 (etrans; [eassumption|]). done.
Qed.

Lemma keeps_go_now_step d e : istep d (tx_db (go_now (Txs d d e)).2).
Proof. by apply istep_same. Qed.

Lemma scanning_run_leased lease work d : (∀ d1, rtc istep d d1 → scanning work (λ _ _, True) d1) →
  scanning (run_leased lease work) (λ _ _, True) d.
Proof.
  intros Hw. unfold run_leased. repeat among_rule.
  apply scanning_tx; [intros; apply keeps_go_now_step|]. intros d1 e1 o1 Hd1. case_match; [|done]. repeat among_rule; [done|].
  apply scanning_try; [intros; apply same_inventory_step, same_renew|]. intros r d2 Hd2. repeat among_rule; [|done].
  apply scanning_tx; [intros; apply keeps_go_now_step|]. intros d3 e3 o3 Hd3. case_match; [|done]. repeat among_rule; [done|].
  eapply among_mono; [apply Hw; do 3 (etrans; [eassumption|]); done|]. intros r' d5 _. by repeat among_rule.
Qed.

Lemma scanning_Scan s lease d : scanning (Scan encoded_len s lease) (λ _ _, True) d.
Proof.
  unfold Scan, pageReader. repeat among_rule. apply scanning_tx.
  { intros d1 e1 _ _. apply same_inventory_step. tx_auto. }
  intros d1 e1 o1 _. destruct o1.1 as [[[run actor] kind]|]; [|done]. repeat among_rule; [|done].
  apply scanning_run_leased. intros d2 _. repeat among_rule.
  apply scanning_tx; [by intros; constructor|]. intros d3 e3 o3 _. destruct o3.1 as [b|] eqn:Hb; [|done].
  apply guard_binding in Hb. repeat among_rule; try done.
  all: apply scanning_pages; eapply isteps_family; [eassumption|done].
Qed.

(** Every transaction a scan and its publication commit, whatever the adapter
    answers and whatever other processes commit in between, is a step of the
    inventory: [inventory_invariant] holds through it. *)
Theorem Execute_among s lease d : scanning (Execute encoded_len s lease) (λ _ _, True) d.
Proof.
  unfold Execute. repeat among_rule. eapply among_mono; [apply scanning_Scan|]. intros r d1 _.
  repeat among_rule; try done. all: apply scanning_tx; [by intros; constructor|]. all: intros d2 e2 o2 _.
  all: case_match; [|done]; by repeat among_rule.
Qed.
End executing.

(** ** A refresh of the sample inventory

    One refresh, from its admission to its publication: the server that was
    known is gone, another one is found. *)

#[local] Existing Instance rfc9562.
#[local] Existing Instance plain_jsonb.

Definition scan_run : uuid := sample_id 100.
Definition scan_lease : Lease :=
  MkLease (MkRecord Nil (sample_id 101) wid cid "connection_refresh" 2 (sample_now + 30 * Minute))
    (sample_id 200) (sample_id 77).
Definition scan_binding : Binding := MkBinding wid cid "hetzner-cloud" 1.
Definition found : scanObservation :=
  MkScanObservation "server-2" "running" "running" "db" (sample_now + Second) (Details "fsn1" "cx22" None).

Definition admitted_db : db := tx_db (RefreshType alice wid cid "compute.server" (sample_txs sample_db 100)).2.
Definition leased_db : db := tx_db (Claim true (λ _, false) (sample_id 77) (sample_txs admitted_db 200)).2.
Definition started_db : db := tx_db (Scan.guard scan_lease scan_run alice 0 true (sample_txs leased_db 300)).2.
Definition staged_db : db :=
  tx_db (stage scan_lease scan_run alice scan_binding (MkScanPage [found] "") 1 (sample_txs started_db 400)).2.
Definition published_db : db := tx_db (Complete scan_lease None (sample_txs staged_db 500)).2.

Example published_inventory :
  (λ '(_, r), (rs_native_id r, rs_status r, bool_decide (is_Some (rs_tombstoned_at r)), rs_version r))
    <$> map_to_list (resources published_db)
  = [("server-2", "running", false, 1); ("server-1", "stopped", true, 2)] ∨
  (λ '(_, r), (rs_native_id r, rs_status r, bool_decide (is_Some (rs_tombstoned_at r)), rs_version r))
    <$> map_to_list (resources published_db)
  = [("server-1", "stopped", true, 2); ("server-2", "running", false, 1)].
Proof. vm_compute. first [by left|by right]. Qed.

Lemma sample_inventory_ok : inventory_ok sample_db.
Proof.
  split; simpl.
  - by intros i j r r' [<- _]%lookup_singleton_Some [<- _]%lookup_singleton_Some _.
  - intros i r [<- <-]%lookup_singleton_Some. eexists sid, _. by rewrite lookup_singleton_eq.
  - intros w c g n sg H. by rewrite lookup_empty in H.
  - intros w c g n sg cn H. by rewrite lookup_empty in H.
  - by intros i j s s' [<- _]%lookup_singleton_Some [<- _]%lookup_singleton_Some _ _ _.
Qed.

(** Whether a list of identifiers is fresh, as a test. *)
Definition fresh_test (ids : list (option uuid)) (d : db) : bool :=
  forallb (λ o, match o with
                | Some u => negb (exists_where (λ _ s, bool_decide (sy_generation s = u)) (sync_runs d))
                | None => true end) ids.

Lemma fresh_test_ok d e : fresh_test (en_ids e) d = true → fresh_ids d e.
Proof.
  unfold fresh_test. rewrite forallb_forall. intros H u k s Hu Hs <-.
  apply list_elem_of_In, H in Hu. apply negb_true_iff in Hu. apply not_true_iff_false in Hu.
  apply Hu, exists_where_true. exists k, s. split; [done|]. by apply bool_decide_eq_true.
Qed.

Lemma inventory_invariant_witness :
  rtc istep sample_db published_db ∧ inventory_ok published_db ∧ advances sample_db published_db.
Proof.
  assert (rtc istep sample_db published_db) as H.
  { apply (rtc_l _ _ admitted_db).
    { apply is_RefreshType, fresh_test_ok. vm_compute. reflexivity. }
    apply (rtc_l _ _ leased_db).
    { apply istep_same; vm_compute; reflexivity. }
    apply (rtc_l _ _ started_db).
    { apply is_guard, fresh_test_ok. vm_compute. reflexivity. }
    apply (rtc_l _ _ staged_db).
    { apply is_stage. intros cn Hcn. vm_compute in Hcn. by simplify_eq. }
    apply rtc_once, is_Complete. }
  split; [exact H|]. exact (inventory_invariant _ _ sample_inventory_ok H).
Defined.
