(* ===== verification/Budget.v ===== *)
(** [internal/platform/outbound/budget.go]: the admission of provider calls.

    A budget is shared by every goroutine of the process.  [connections] and
    [cooldowns] are maps to pointers, and a caller keeps its pointers while the
    maps change, so the model has the heap: a map entry is a location.  Each
    stretch between [mu.Lock] and [mu.Unlock] is one step; a waiting goroutine
    may wake at any time, because its context, its timer and the channel can
    each wake it.  [changed], the channel that is closed and replaced, is the
    number of replacements. *)
From S2P Require Import Prelude GoBase Identifier.
Local Open Scope Z_scope.

(** ** State *)

Record quotaScope := QuotaScope { qs_until : time; qs_refs : Z }.
Record connectionSlots := ConnectionSlots { cs_active : Z; cs_refs : Z }.

Abbreviation loc := N.

Record Budget := MkBudget {
  bg_connections : gmap uuid loc; bg_cooldowns : gmap string loc;
  bg_slots : gmap loc connectionSlots; bg_quotas : gmap loc quotaScope;
  bg_changed : N }.

#[export] Instance eta_quotaScope : Eta quotaScope := λ q, QuotaScope (qs_until q) (qs_refs q).
#[export] Instance set_qs_until : Setter qs_until. Proof. solve_setter. Defined.
#[export] Instance set_qs_refs : Setter qs_refs. Proof. solve_setter. Defined.
#[export] Instance eta_connectionSlots : Eta connectionSlots := λ c, ConnectionSlots (cs_active c) (cs_refs c).
#[export] Instance set_cs_active : Setter cs_active. Proof. solve_setter. Defined.
#[export] Instance set_cs_refs : Setter cs_refs. Proof. solve_setter. Defined.
#[export] Instance eta_Budget : Eta Budget := λ b,
  MkBudget (bg_connections b) (bg_cooldowns b) (bg_slots b) (bg_quotas b) (bg_changed b).
#[export] Instance set_bg_connections : Setter bg_connections. Proof. solve_setter. Defined.
#[export] Instance set_bg_cooldowns : Setter bg_cooldowns. Proof. solve_setter. Defined.
#[export] Instance set_bg_slots : Setter bg_slots. Proof. solve_setter. Defined.
#[export] Instance set_bg_quotas : Setter bg_quotas. Proof. solve_setter. Defined.
#[export] Instance set_bg_changed : Setter bg_changed. Proof. solve_setter. Defined.

Definition NewBudget : Budget := MkBudget ∅ ∅ ∅ ∅ 0.

Definition signal (b : Budget) : Budget := b <| bg_changed ::= N.succ |>.

(** The object a pointer of the maps names; every pointer there has one. *)
Definition slots_at (l : loc) (b : Budget) : connectionSlots := default (ConnectionSlots 0 0) (bg_slots b !! l).
Definition quota_at (l : loc) (b : Budget) : quotaScope := default (QuotaScope zero_time 0) (bg_quotas b !! l).

(** ** [acquire] *)

(** [quota.refs == 0 && !quota.until.After(now)] *)
Definition idle (now : time) (q : quotaScope) : bool := (qs_refs q =? 0) && negb (After (qs_until q) now).

Definition sweep (now : time) (b : Budget) : Budget :=
  b <| bg_cooldowns ::= filter (λ '(_, q), idle now (quota_at q b) = false) |>.

(** The entries of a connection and a scope, made when they are missing. *)
Definition find_slots (connection : uuid) (b : Budget) : go (loc * Budget) :=
  match bg_connections b !! connection with
  | Some l => Ok (l, b)
  | None =>
      if 1000 <=? Z.of_nat (size (bg_connections b)) then Err NetErrNetwork
      else
        let l := fresh (dom (bg_slots b)) in
        Ok (l, b <| bg_connections ::= <[connection := l]> |> <| bg_slots ::= <[l := ConnectionSlots 0 0]> |>)
  end.

Definition find_quota (scope : string) (b : Budget) : loc * Budget :=
  match bg_cooldowns b !! scope with
  | Some l => (l, b)
  | None =>
      let l := fresh (dom (bg_quotas b)) in
      (l, b <| bg_cooldowns ::= <[scope := l]> |> <| bg_quotas ::= <[l := QuotaScope zero_time 0]> |>)
  end.

Section admission.
Context `{U : UuidApi}.

(** Up to the loop: the pointers the caller keeps. *)
Definition enter (connection : uuid) (scope : string) (now : time) (b : Budget) : go (loc * loc) * Budget :=
  if negb (is_v7 connection) || bool_decide (scope = "") || (512 <? len scope) then (Err NetErrNetwork, b)
  else
    let b := sweep now b in
    if negb (bool_decide (is_Some (bg_cooldowns b !! scope))) && (1000 <=? Z.of_nat (size (bg_cooldowns b)))
    then (Err NetErrNetwork, b)
    else
      match find_slots connection b with
      | Err e => (Err e, b)
      | Ok (slots, b) =>
          let '(quota, b) := find_quota scope b in
          (Ok (slots, quota),
           b <| bg_quotas ::= alter (λ q, q <| qs_refs ::= Z.succ |>) quota |>
             <| bg_slots ::= alter (λ c, c <| cs_refs ::= Z.succ |>) slots |>)
      end.
End admission.

(** What a caller that leaves gives back. *)
Definition drop (connection : uuid) (scope : string) (slots quota : loc) (now : time) (b : Budget) : Budget :=
  let b := b <| bg_slots ::= alter (λ c, c <| cs_refs ::= Z.pred |>) slots |>
             <| bg_quotas ::= alter (λ q, q <| qs_refs ::= Z.pred |>) quota |> in
  let b := if idle now (quota_at quota b) then b <| bg_cooldowns ::= delete scope |> else b in
  if cs_refs (slots_at slots b) =? 0 then b <| bg_connections ::= delete connection |> else b.

Inductive verdict := Refused | Granted | Wait (channel : N) (timer : time).

(** One turn of the loop.  A goroutine that has to wait captures the channel
    and sets a timer: to the end of the cooldown, or 30 seconds ahead. *)
Definition attempt_slot (connection : uuid) (scope : string) (slots quota : loc) (now : time) (cancelled : bool)
  (b : Budget) : verdict * Budget :=
  let delay := qs_until (quota_at quota b) - now in
  if cancelled then (Refused, drop connection scope slots quota now b)
  else if (cs_active (slots_at slots b) <? 2) && (delay <=? 0) then
    (Granted, b <| bg_slots ::= alter (λ c, c <| cs_active ::= Z.add 1 |>) slots |>)
  else (Wait (bg_changed b) (now + (if delay <=? 0 then 30 * Second else delay)), b).

(** The function [acquire] returns, inside its [once]. *)
Definition release_slot (connection : uuid) (scope : string) (slots quota : loc) (now : time) (b : Budget) : Budget :=
  signal (drop connection scope slots quota now
            (b <| bg_slots ::= alter (λ c, c <| cs_active ::= Z.add (-1) |>) slots |>)).

Definition postpone (scope : string) (delay : duration) (now : time) (b : Budget) : Budget :=
  match bg_cooldowns b !! scope with
  | None => b
  | Some l =>
      let until := now + delay in
      if After until (qs_until (quota_at l b))
      then signal (b <| bg_quotas ::= alter (λ q, q <| qs_until := until |>) l |>)
      else b
  end.

(** ** Callers *)

Inductive phase := Waiting (channel : N) (timer : time) | InFlight | Released.

Record caller := Caller {
  ca_connection : uuid; ca_scope : string; ca_slots : loc; ca_quota : loc; ca_phase : phase }.

#[export] Instance eta_caller : Eta caller := λ c,
  Caller (ca_connection c) (ca_scope c) (ca_slots c) (ca_quota c) (ca_phase c).
#[export] Instance set_ca_phase : Setter ca_phase. Proof. solve_setter. Defined.

(** The process: the budget, the callers of [acquire], the clock, and for
    each scope the latest instant a postponement asked to wait for. *)
Record process := Process {
  pr_budget : Budget; pr_callers : gmap N caller; pr_clock : time; pr_floor : gmap string time }.

#[export] Instance eta_process : Eta process := λ p,
  Process (pr_budget p) (pr_callers p) (pr_clock p) (pr_floor p).
#[export] Instance set_pr_budget : Setter pr_budget. Proof. solve_setter. Defined.
#[export] Instance set_pr_callers : Setter pr_callers. Proof. solve_setter. Defined.
#[export] Instance set_pr_clock : Setter pr_clock. Proof. solve_setter. Defined.
#[export] Instance set_pr_floor : Setter pr_floor. Proof. solve_setter. Defined.

(** A turn of caller [i]'s loop. *)
Definition turn (i : N) (c : caller) (now : time) (cancelled : bool) (p : process) : process :=
  let '(v, b) := attempt_slot (ca_connection c) (ca_scope c) (ca_slots c) (ca_quota c) now cancelled (pr_budget p) in
  let phase := match v with Refused => Released | Granted => InFlight | Wait channel timer => Waiting channel timer end in
  p <| pr_budget := b |> <| pr_callers ::= <[i := c <| ca_phase := phase |>]> |> <| pr_clock := now |>.

(** [Budget.acquire] by a new caller, up to its admission, refusal or first wait. *)
Definition arrive `{UuidApi} (i : N) (connection : uuid) (scope : string) (now now' : time) (cancelled : bool)
  (p : process) : process :=
  match enter connection scope now (pr_budget p) with
  | (Err _, b) => p <| pr_budget := b |> <| pr_clock := now |>
  | (Ok (slots, quota), b) =>
      turn i (Caller connection scope slots quota Released) now' cancelled (p <| pr_budget := b |>)
  end.

(** [release()]: [sync.Once] makes the second call do nothing. *)
Definition leave (i : N) (c : caller) (now : time) (p : process) : process :=
  match ca_phase c with
  | InFlight =>
      p <| pr_budget ::= release_slot (ca_connection c) (ca_scope c) (ca_slots c) (ca_quota c) now |>
        <| pr_callers ::= <[i := c <| ca_phase := Released |>]> |> <| pr_clock := now |>
  | _ => p
  end.

(** A 429 received for [scope]. *)
Definition rate_limited (scope : string) (delay : duration) (now : time) (p : process) : process :=
  p <| pr_budget ::= postpone scope delay now |> <| pr_clock := now |>
    <| pr_floor ::= <[scope := Z.max (now + delay) (default zero_time (pr_floor p !! scope))]> |>.

(** Every interleaving.  A 429 is received by a caller that holds a slot of its
    scope; clocks do not go back (Go's [time.Now] is monotonic). *)
Inductive bstep `{UuidApi} (p : process) : process → Prop :=
| bs_arrive i connection scope now now' cancelled :
    pr_callers p !! i = None → pr_clock p <= now → now <= now' →
    bstep p (arrive i connection scope now now' cancelled p)
| bs_turn i c channel timer now cancelled :
    pr_callers p !! i = Some c → ca_phase c = Waiting channel timer → pr_clock p <= now →
    bstep p (turn i c now cancelled p)
| bs_leave i c now : pr_callers p !! i = Some c → pr_clock p <= now → bstep p (leave i c now p)
| bs_rate_limited i c delay now :
    pr_callers p !! i = Some c → ca_phase c = InFlight → pr_clock p <= now →
    bstep p (rate_limited (ca_scope c) delay now p).

Definition started : process := Process NewBudget ∅ zero_time ∅.

(** ** The maps without their pointers *)

Definition conns (b : Budget) : gmap uuid connectionSlots := view (bg_connections b) (bg_slots b).
Definition quotas (b : Budget) : gmap string quotaScope := view (bg_cooldowns b) (bg_quotas b).

Record tables_ok (b : Budget) : Prop := {
  tb_conns : table_ok (bg_connections b) (bg_slots b);
  tb_quotas : table_ok (bg_cooldowns b) (bg_quotas b);
}.

(** A caller's pointers are the maps' pointers. *)
Definition points (b : Budget) (connection : uuid) (scope : string) (slots quota : loc) : Prop :=
  bg_connections b !! connection = Some slots ∧ bg_cooldowns b !! scope = Some quota.

(** A step of the pointer program: what it does to the maps' meaning, and that it
    moves no pointer that is still there. *)
Record stepped (b b' : Budget) (cs : gmap uuid connectionSlots) (qs : gmap string quotaScope) (changed : N) : Prop := {
  sd_ok : tables_ok b';
  sd_conns : conns b' = cs;
  sd_quotas : quotas b' = qs;
  sd_changed : bg_changed b' = changed;
  sd_slots_kept : ∀ c l, bg_connections b !! c = Some l → is_Some (cs !! c) → bg_connections b' !! c = Some l;
  sd_quota_kept : ∀ k l, bg_cooldowns b !! k = Some l → is_Some (qs !! k) → bg_cooldowns b' !! k = Some l;
}.

Lemma slots_at_Some b c l : tables_ok b → bg_connections b !! c = Some l → conns b !! c = Some (slots_at l b).
Proof.
  intros [[_ Ha] _] Hc. unfold conns. rewrite (view_Some _ _ _ _ Hc). unfold slots_at.
  by destruct (Ha _ _ Hc) as [x ->].
Qed.
Lemma quota_at_Some b k l : tables_ok b → bg_cooldowns b !! k = Some l → quotas b !! k = Some (quota_at l b).
Proof.
  intros [_ [_ Ha]] Hk. unfold quotas. rewrite (view_Some _ _ _ _ Hk). unfold quota_at.
  by destruct (Ha _ _ Hk) as [x ->].
Qed.

Lemma stepped_refl b : tables_ok b → stepped b b (conns b) (quotas b) (bg_changed b).
Proof. by split. Qed.

Lemma stepped_trans b1 b2 b3 cs2 qs2 n2 cs3 qs3 n3 : stepped b1 b2 cs2 qs2 n2 → stepped b2 b3 cs3 qs3 n3 →
  (∀ c, is_Some (cs3 !! c) → is_Some (conns b1 !! c) → is_Some (cs2 !! c)) →
  (∀ k, is_Some (qs3 !! k) → is_Some (quotas b1 !! k) → is_Some (qs2 !! k)) → tables_ok b1 →
  stepped b1 b3 cs3 qs3 n3.
Proof.
  intros [_ _ _ _ K1 K2] [? ? ? ? L1 L2] Hc Hq Hok. split; try done.
  - intros c l Hl Hs. apply L1; [|done]. apply K1; [done|]. apply Hc; [done|]. by rewrite (slots_at_Some _ _ _ Hok Hl).
  - intros k l Hl Hs. apply L2; [|done]. apply K2; [done|]. apply Hq; [done|]. by rewrite (quota_at_Some _ _ _ Hok Hl).
Qed.

(** The elementary updates. *)
Lemma stepped_slots f b c l : tables_ok b → bg_connections b !! c = Some l →
  stepped b (b <| bg_slots ::= alter f l |>) (alter f c (conns b)) (quotas b) (bg_changed b).
Proof.
  intros [Hs Hq] Hl. destruct (view_alter f _ _ _ _ Hs Hl) as [E ?]. split; try done; simpl; by rewrite ?E.
Qed.
Lemma stepped_quotas f b k l : tables_ok b → bg_cooldowns b !! k = Some l →
  stepped b (b <| bg_quotas ::= alter f l |>) (conns b) (alter f k (quotas b)) (bg_changed b).
Proof.
  intros [Hs Hq] Hl. destruct (view_alter f _ _ _ _ Hq Hl) as [E ?]. split; try done; simpl; by rewrite ?E.
Qed.
Lemma stepped_drop_conn b c : tables_ok b →
  stepped b (b <| bg_connections ::= delete c |>) (delete c (conns b)) (quotas b) (bg_changed b).
Proof.
  intros [Hs Hq]. destruct (view_delete _ _ c Hs) as [E ?]. split; try done. simpl. intros j l Hl Hj.
  rewrite lookup_delete_ne; [done|]. intros <-. rewrite lookup_delete_eq in Hj. by destruct Hj.
Qed.
Lemma stepped_drop_quota b k : tables_ok b →
  stepped b (b <| bg_cooldowns ::= delete k |>) (conns b) (delete k (quotas b)) (bg_changed b).
Proof.
  intros [Hs Hq]. destruct (view_delete _ _ k Hq) as [E ?]. split; try done. simpl. intros j l Hl Hj.
  rewrite lookup_delete_ne; [done|]. intros <-. rewrite lookup_delete_eq in Hj. by destruct Hj.
Qed.
Lemma stepped_signal b : tables_ok b → stepped b (signal b) (conns b) (quotas b) (N.succ (bg_changed b)).
Proof. intros [Hs Hq]. by split. Qed.

(** [stepped] for a [delete] under a condition, and for the steps of [drop]. *)
Definition given_back {K V} `{Countable K} (gone : bool) (k : K) (v : V) (m : gmap K V) : gmap K V :=
  if gone then delete k m else <[k := v]> m.

Lemma given_back_lookup {K V} `{Countable K} gone (k : K) (v : V) m j :
  given_back gone k v m !! j = if decide (j = k) then if gone then None else Some v else m !! j.
Proof.
  unfold given_back. destruct (decide (j = k)) as [->|]; destruct gone;
    by rewrite ?lookup_delete_eq, ?lookup_insert_eq, ?lookup_delete_ne, ?lookup_insert_ne.
Qed.

Lemma stepped_drop b connection scope slots quota now : tables_ok b → points b connection scope slots quota →
  let s := (slots_at slots b) <| cs_refs ::= Z.pred |> in
  let u := (quota_at quota b) <| qs_refs ::= Z.pred |> in
  stepped b (drop connection scope slots quota now b)
    (given_back (cs_refs s =? 0) connection s (conns b)) (given_back (idle now u) scope u (quotas b)) (bg_changed b).
Proof.
  intros Hok [Hs Hq] s u. unfold drop.
  set (b1 := b <| bg_slots ::= _ |>). pose proof (stepped_slots (λ c, c <| cs_refs ::= Z.pred |>) _ _ _ Hok Hs) as S1. fold b1 in S1.
  assert (bg_cooldowns b1 !! scope = Some quota) as Hq1 by done.
  set (b2 := b1 <| bg_quotas ::= _ |>).
  pose proof (stepped_quotas (λ q, q <| qs_refs ::= Z.pred |>) _ _ _ (sd_ok _ _ _ _ _ S1) Hq1) as S2. fold b2 in S2.
  assert (quota_at quota b2 = u) as Eu.
  { unfold quota_at, b2, u. simpl. rewrite lookup_alter_eq. destruct (tb_quotas _ Hok) as [_ Ha].
    destruct (Ha _ _ Hq) as [x Hx]. unfold quota_at. by rewrite Hx. }
  assert (slots_at slots b2 = s) as Es.
  { unfold slots_at, b2, b1, s. simpl. rewrite lookup_alter_eq. destruct (tb_conns _ Hok) as [_ Ha].
    destruct (Ha _ _ Hs) as [x Hx]. unfold slots_at. by rewrite Hx. }
  assert (conns b2 = <[connection := s]> (conns b)) as Ec.
  { rewrite (sd_conns _ _ _ _ _ S2), (sd_conns _ _ _ _ _ S1). by apply alter_lookup, slots_at_Some. }
  assert (quotas b2 = <[scope := u]> (quotas b)) as Eq.
  { rewrite (sd_quotas _ _ _ _ _ S2), (sd_quotas _ _ _ _ _ S1). by apply alter_lookup, quota_at_Some. }
  assert (tables_ok b2) as Hok2 by apply S2.
  set (b3 := if idle now (quota_at quota b2) then _ else b2).
  assert (tables_ok b3 ∧ conns b3 = conns b2 ∧ quotas b3 = given_back (idle now u) scope u (quotas b) ∧
    bg_changed b3 = bg_changed b ∧ slots_at slots b3 = s ∧ bg_connections b3 = bg_connections b ∧
    bg_cooldowns b3 = if idle now u then delete scope (bg_cooldowns b) else bg_cooldowns b) as (Hok3 & Ec3 & Eq3 & En3 & Es3 & Eb3 & Ed3).
  { unfold b3. rewrite Eu. destruct (idle now u).
    - pose proof (stepped_drop_quota _ scope Hok2) as S3. split_and!; [apply S3|apply S3| |done|exact Es|done|done].
      rewrite (sd_quotas _ _ _ _ _ S3), Eq. simpl. apply delete_insert_eq.
    - split_and!; try done; apply Eq. }
  rewrite Es3. destruct (cs_refs s =? 0).
  - pose proof (stepped_drop_conn _ connection Hok3) as S4. split; [apply S4| | |done| |].
    + rewrite (sd_conns _ _ _ _ _ S4), Ec3, Ec. simpl. apply delete_insert_eq.
    + by rewrite (sd_quotas _ _ _ _ _ S4).
    + intros c l Hl Hc. simpl. rewrite Eb3. rewrite given_back_lookup in Hc. case_decide; [by destruct Hc|].
      by rewrite lookup_delete_ne.
    + intros k l Hl Hk. simpl. rewrite Ed3. rewrite given_back_lookup in Hk. destruct (idle now u); [|done].
      case_decide; [by destruct Hk|]. by rewrite lookup_delete_ne.
  - split; [done|by rewrite Ec3|done|done|by rewrite Eb3|].
    intros k l Hl Hk. rewrite Ed3. rewrite given_back_lookup in Hk. destruct (idle now u); [|done].
    case_decide; [by destruct Hk|]. by rewrite lookup_delete_ne.
Qed.

Lemma stepped_sweep b now : tables_ok b →
  stepped b (sweep now b) (conns b) (filter (λ '(_, u), idle now u = false) (quotas b)) (bg_changed b).
Proof.
  intros Hok. pose proof (tb_quotas _ Hok) as Hq. unfold sweep.
  assert (∀ k l, bg_cooldowns b !! k = Some l → quotas b !! k = Some (quota_at l b)) as Hat
    by (intros; by apply quota_at_Some).
  split; try done.
  - split; [apply Hok|]. simpl. eapply table_subset; [exact Hq|]. apply map_filter_subseteq.
  - apply map_eq. intros k. unfold quotas at 1. simpl. rewrite lookup_view.
    destruct (bg_cooldowns b !! k) as [l|] eqn:Hl.
    + rewrite (map_lookup_filter _ (bg_cooldowns b)), Hl, map_lookup_filter, (Hat _ _ Hl). simpl.
      destruct (idle now (quota_at l b)) eqn:Hi; [by rewrite !option_guard_False|].
      rewrite !option_guard_True by done. simpl. rewrite <-(Hat _ _ Hl). unfold quotas. by rewrite (view_Some _ _ _ _ Hl).
    + rewrite (map_lookup_filter _ (bg_cooldowns b)), Hl. simpl. rewrite map_lookup_filter.
      unfold quotas. by rewrite (proj2 (view_None _ _ k Hq) Hl).
  - intros k l Hl [x Hx]. simpl. apply map_lookup_filter_Some. split; [done|].
    apply map_lookup_filter_Some in Hx as [Hx Hi]. rewrite (Hat _ _ Hl) in Hx. by simplify_eq.
Qed.

Lemma find_slots_spec connection b l b' : tables_ok b → find_slots connection b = Ok (l, b') →
  let s := default (ConnectionSlots 0 0) (conns b !! connection) in
  stepped b b' (<[connection := s]> (conns b)) (quotas b) (bg_changed b) ∧ bg_connections b' !! connection = Some l ∧
  slots_at l b' = s ∧ (is_Some (conns b !! connection) ∨ Z.of_nat (size (conns b)) < 1000).
Proof.
  intros Hok. unfold find_slots. destruct (bg_connections b !! connection) as [l0|] eqn:Hl.
  - intros [= <- <-]. pose proof (slots_at_Some _ _ _ Hok Hl) as Hs. simpl. rewrite Hs. simpl.
    split; [|split_and!; [done|done|left; eauto]]. rewrite insert_id by done. by apply stepped_refl.
  - destruct (1000 <=? _) eqn:Hn; [done|]. intros [= <- <-]. set (l := fresh (dom (bg_slots b))).
    assert (bg_slots b !! l = None) as Hf by (apply not_elem_of_dom, is_fresh).
    pose proof (tb_conns _ Hok) as Ht. assert (conns b !! connection = None) as Hc by by apply view_None.
    rewrite Hc. simpl. destruct (view_insert _ _ _ _ (ConnectionSlots 0 0) Ht Hl Hf) as [E ?].
    split_and!.
    + split; try done; [split; [done|apply Hok]|]. simpl. intros j l' Hj _. rewrite lookup_insert_ne; [done|congruence].
    + simpl. apply lookup_insert_eq.
    + unfold slots_at. simpl. by rewrite lookup_insert_eq.
    + right. unfold conns. rewrite size_view by done. guards. done.
Qed.

Lemma find_quota_spec scope b l b' : tables_ok b → find_quota scope b = (l, b') →
  let u := default (QuotaScope zero_time 0) (quotas b !! scope) in
  stepped b b' (conns b) (<[scope := u]> (quotas b)) (bg_changed b) ∧ bg_cooldowns b' !! scope = Some l ∧
  quota_at l b' = u ∧ bg_slots b' = bg_slots b ∧ bg_connections b' = bg_connections b.
Proof.
  intros Hok. unfold find_quota. destruct (bg_cooldowns b !! scope) as [l0|] eqn:Hl.
  - intros [= <- <-]. pose proof (quota_at_Some _ _ _ Hok Hl) as Hs. simpl. rewrite Hs. simpl.
    split; [|done]. rewrite insert_id by done. by apply stepped_refl.
  - intros [= <- <-]. set (l := fresh (dom (bg_quotas b))).
    assert (bg_quotas b !! l = None) as Hf by (apply not_elem_of_dom, is_fresh).
    pose proof (tb_quotas _ Hok) as Ht. assert (quotas b !! scope = None) as Hc by by apply view_None.
    rewrite Hc. simpl. destruct (view_insert _ _ _ _ (QuotaScope zero_time 0) Ht Hl Hf) as [E ?].
    split_and!; try done.
    + split; try done; [split; [apply Hok|done]|]. simpl. intros j l' Hj _. rewrite lookup_insert_ne; [done|congruence].
    + simpl. apply lookup_insert_eq.
    + unfold quota_at. simpl. by rewrite lookup_insert_eq.
Qed.

(** What [enter] leaves when it admits the caller to the loop. *)
Definition swept (now : time) (qs : gmap string quotaScope) : gmap string quotaScope :=
  filter (λ '(_, u), idle now u = false) qs.

Record entered (connection : uuid) (scope : string) (now : time) (b b' : Budget) (slots quota : loc) : Prop := {
  en_points : points b' connection scope slots quota;
  en_ok : tables_ok b';
  en_conns : conns b' =
    <[connection := (default (ConnectionSlots 0 0) (conns b !! connection)) <| cs_refs ::= Z.succ |>]> (conns b);
  en_quotas : quotas b' =
    <[scope := (default (QuotaScope zero_time 0) (swept now (quotas b) !! scope)) <| qs_refs ::= Z.succ |>]>
      (swept now (quotas b));
  en_changed : bg_changed b' = bg_changed b;
  en_slots_kept : ∀ c l, bg_connections b !! c = Some l → bg_connections b' !! c = Some l;
  en_quota_kept : ∀ k l, bg_cooldowns b !! k = Some l → is_Some (swept now (quotas b) !! k) → bg_cooldowns b' !! k = Some l;
  en_conns_room : is_Some (conns b !! connection) ∨ Z.of_nat (size (conns b)) < 1000;
  en_quotas_room : is_Some (swept now (quotas b) !! scope) ∨ Z.of_nat (size (swept now (quotas b))) < 1000;
}.

Lemma size_quotas b : tables_ok b → size (bg_cooldowns b) = size (quotas b).
Proof. intros Hok. unfold quotas. by rewrite size_view by apply Hok. Qed.

Lemma enter_Ok `{U : UuidApi} connection scope now b slots quota b' : tables_ok b →
  enter connection scope now b = (Ok (slots, quota), b') → entered connection scope now b b' slots quota.
Proof.
  intros Hok. unfold enter. destruct (_ || _); [done|]. pose proof (stepped_sweep b now Hok) as S1.
  set (b1 := sweep now b) in *. pose proof (sd_ok _ _ _ _ _ S1) as Hok1.
  destruct (_ && _) eqn:Hroom; [done|]. destruct (find_slots connection b1) as [[sl b2]|] eqn:Hf; [|done].
  destruct (find_slots_spec _ _ _ _ Hok1 Hf) as (S2 & Hp2 & Hs2 & Hr2). pose proof (sd_ok _ _ _ _ _ S2) as Hok2.
  destruct (find_quota scope b2) as [qu b3] eqn:Hg.
  destruct (find_quota_spec _ _ _ _ Hok2 Hg) as (S3 & Hp3 & Hu3 & Esl & Ecn). pose proof (sd_ok _ _ _ _ _ S3) as Hok3.
  intros [= <- <- <-]. rewrite (sd_conns _ _ _ _ _ S1) in *. rewrite (sd_quotas _ _ _ _ _ S1) in *.
  rewrite (sd_conns _ _ _ _ _ S2), (sd_quotas _ _ _ _ _ S2) in *.
  pose proof (stepped_quotas (λ q, q <| qs_refs ::= Z.succ |>) _ _ _ Hok3 Hp3) as S4.
  set (b4 := b3 <| bg_quotas ::= _ |>) in *. pose proof (sd_ok _ _ _ _ _ S4) as Hok4.
  assert (bg_connections b4 !! connection = Some sl) as Hp4 by (unfold b4; simpl; by rewrite Ecn).
  pose proof (stepped_slots (λ c, c <| cs_refs ::= Z.succ |>) _ _ _ Hok4 Hp4) as S5.
  rewrite (sd_conns _ _ _ _ _ S4), (sd_conns _ _ _ _ _ S3) in S5. rewrite (sd_quotas _ _ _ _ _ S4), (sd_quotas _ _ _ _ _ S3) in S5.
  rewrite (alter_lookup _ _ connection _ (lookup_insert_eq _ _ _)), insert_insert_eq in S5.
  rewrite (alter_lookup _ _ scope _ (lookup_insert_eq _ _ _)), insert_insert_eq in S5.
  split; [split; [exact Hp4|exact Hp3]|apply S5|apply S5|apply S5| | | |done|].
  - simpl. rewrite (sd_changed _ _ _ _ _ S3), (sd_changed _ _ _ _ _ S2). apply S1.
  - intros c l Hl. simpl. rewrite Ecn. apply S2; [exact Hl|]. apply lookup_insert_is_Some'.
    right. by rewrite (slots_at_Some _ _ _ Hok Hl).
  - intros k l Hl Hk. simpl. apply S3; [|apply lookup_insert_is_Some'; by right].
    apply S2; [|done]. by apply S1.
  - apply andb_false_iff in Hroom as [Hr|Hr]; guards.
    + left. destruct Hr as [l Hl]. unfold swept. by rewrite <-(sd_quotas _ _ _ _ _ S1), (quota_at_Some _ _ _ Hok1 Hl).
    + right. unfold swept. rewrite <-(sd_quotas _ _ _ _ _ S1). by rewrite <-size_quotas.
Qed.

Lemma enter_Err `{U : UuidApi} connection scope now b e b' : tables_ok b →
  enter connection scope now b = (Err e, b') → b' = b ∨ b' = sweep now b.
Proof.
  intros Hok. unfold enter. destruct (_ || _); [intros [= _ <-]; by left|]. destruct (_ && _); [intros [= _ <-]; by right|].
  destruct (find_slots _ _) as [[sl b2]|]; [|intros [= _ <-]; by right]. by destruct (find_quota _ _).
Qed.

(** ** The invariant *)

Definition live (c : caller) : bool := match ca_phase c with Released => false | _ => true end.
Definition holding (connection : uuid) (c : caller) : bool := live c && bool_decide (ca_connection c = connection).
Definition occupying (connection : uuid) (c : caller) : bool :=
  match ca_phase c with InFlight => bool_decide (ca_connection c = connection) | _ => false end.
Definition scoped (scope : string) (c : caller) : bool := live c && bool_decide (ca_scope c = scope).

(** What the maps count, and where the callers' pointers lead. *)
Record counts_ok (p : process) : Prop := {
  bo_tables : tables_ok (pr_budget p);
  bo_conns : ∀ c s, conns (pr_budget p) !! c = Some s →
    cs_refs s = tally (holding c) (pr_callers p) ∧ cs_active s = tally (occupying c) (pr_callers p) ∧
    cs_active s <= 2 ∧ 0 < cs_refs s;
  bo_quotas : ∀ k u, quotas (pr_budget p) !! k = Some u → qs_refs u = tally (scoped k) (pr_callers p);
  bo_points : ∀ i c, pr_callers p !! i = Some c → live c = true →
    points (pr_budget p) (ca_connection c) (ca_scope c) (ca_slots c) (ca_quota c);
  bo_room : Z.of_nat (size (conns (pr_budget p))) <= 1000 ∧ Z.of_nat (size (quotas (pr_budget p))) <= 1000;
  bo_clock : zero_time <= pr_clock p;
  bo_floor : ∀ k f, pr_floor p !! k = Some f →
    f <= pr_clock p ∨ ∃ u, quotas (pr_budget p) !! k = Some u ∧ f <= qs_until u;
}.

(** A sleeping caller whose channel was not closed since still has to wait: its
    connection is full, or its timer is the end of its cooldown. *)
Definition sleeping_ok (awake : option N) (p : process) : Prop := ∀ i c channel timer,
  Some i ≠ awake → pr_callers p !! i = Some c → ca_phase c = Waiting channel timer →
  (channel <= bg_changed (pr_budget p))%N ∧
  (channel = bg_changed (pr_budget p) → ∃ s u, conns (pr_budget p) !! ca_connection c = Some s ∧
     quotas (pr_budget p) !! ca_scope c = Some u ∧ (2 <= cs_active s ∨ timer = qs_until u)).

Record budget_ok (p : process) : Prop := { bo_counts : counts_ok p; bo_sleeping : sleeping_ok None p }.

Lemma started_ok : budget_ok started.
Proof.
  split; [|by intros i c channel timer _ H; simpl in H; rewrite lookup_empty in H]. split; simpl; try done.
Qed.

(** A live caller's entries. *)
Lemma caller_entries p i c : counts_ok p → pr_callers p !! i = Some c → live c = true →
  conns (pr_budget p) !! ca_connection c = Some (slots_at (ca_slots c) (pr_budget p)) ∧
  quotas (pr_budget p) !! ca_scope c = Some (quota_at (ca_quota c) (pr_budget p)).
Proof.
  intros Hok Hi Hl. destruct (bo_points _ Hok _ _ Hi Hl) as [H1 H2].
  split; [apply slots_at_Some|apply quota_at_Some]; first [apply Hok|done].
Qed.

(** A caller's scope is not idle. *)
Lemma caller_scope_busy p i c now u : counts_ok p → pr_callers p !! i = Some c → live c = true →
  quotas (pr_budget p) !! ca_scope c = Some u → idle now u = false.
Proof.
  intros Hok Hi Hl Hu. unfold idle. rewrite (bo_quotas _ Hok _ _ Hu).
  assert (1 <= tally (scoped (ca_scope c)) (pr_callers p)) by (apply (tally_pos _ _ i c Hi); unfold scoped; rewrite Hl; by apply bool_decide_eq_true).
  apply andb_false_iff. left. apply Z.eqb_neq. lia.
Qed.

Lemma caller_conn_held p i c s : counts_ok p → pr_callers p !! i = Some c → live c = true →
  conns (pr_budget p) !! ca_connection c = Some s → 1 <= cs_refs s.
Proof. intros Hok Hi Hl Hs. destruct (bo_conns _ Hok _ _ Hs) as (_ & _ & _ & ?). lia. Qed.

(** The tallies after caller [i], live with [c], moves to phase [x]. *)
Section tallies.
Context (m : gmap N caller) (i : N) (c : caller) (x : phase).
Hypothesis Hi : m !! i = Some c.
Hypothesis Hl : live c = true.
Let c' := c <| ca_phase := x |>.

Lemma tally_holding k : tally (holding k) (<[i := c']> m) + Z.b2z (bool_decide (ca_connection c = k)) =
  tally (holding k) m + Z.b2z (live c' && bool_decide (ca_connection c = k)).
Proof. pose proof (tally_update (holding k) m i c c' Hi) as H. unfold holding in H at 2 4. by rewrite Hl in H. Qed.
Lemma tally_scoped k : tally (scoped k) (<[i := c']> m) + Z.b2z (bool_decide (ca_scope c = k)) =
  tally (scoped k) m + Z.b2z (live c' && bool_decide (ca_scope c = k)).
Proof. pose proof (tally_update (scoped k) m i c c' Hi) as H. unfold scoped in H at 2 4. by rewrite Hl in H. Qed.
End tallies.

Lemma given_back_Some {K V} `{Countable K} gone (k : K) (v : V) m j x : given_back gone k v m !! j = Some x →
  j = k ∧ x = v ∧ gone = false ∨ j ≠ k ∧ m !! j = Some x.
Proof. rewrite given_back_lookup. intros Hx. case_decide; [left|by right]. destruct gone; by simplify_eq. Qed.

Lemma size_given_back {K V} `{Countable K} gone (k : K) (v : V) m : is_Some (m !! k) →
  (size (given_back gone k v m) <= size m)%nat.
Proof.
  intros Hk. unfold given_back. destruct gone; [apply map_subseteq_size, delete_subseteq|].
  destruct Hk as [y Hy]. rewrite map_size_insert_Some; [done|eauto].
Qed.

(** A live caller leaves: [drop] gives back exactly its shares. *)
Lemma counts_drop p i c now : counts_ok p → pr_callers p !! i = Some c → live c = true → pr_clock p <= now →
  ca_phase c ≠ InFlight →
  counts_ok (p <| pr_budget ::= drop (ca_connection c) (ca_scope c) (ca_slots c) (ca_quota c) now |>
               <| pr_callers ::= <[i := c <| ca_phase := Released |>]> |> <| pr_clock := now |>).
Proof.
  intros Hok Hi Hl Hnow Hph. destruct (caller_entries _ _ _ Hok Hi Hl) as [Ec Eq].
  pose proof (stepped_drop _ _ _ _ _ now (bo_tables _ Hok) (bo_points _ Hok _ _ Hi Hl)) as S. simpl in S.
  set (b' := drop _ _ _ _ _ _) in *. set (s := slots_at _ _) in *. set (u := quota_at _ _) in *.
  destruct (bo_conns _ Hok _ _ Ec) as (Hr & Ha & Ha2 & Hr0). pose proof (bo_quotas _ Hok _ _ Eq) as Hu.
  assert (∀ k, tally (occupying k) (<[i := c <| ca_phase := Released |>]> (pr_callers p)) = tally (occupying k) (pr_callers p)) as Hocc.
  { intros k. pose proof (tally_update (occupying k) _ i c (c <| ca_phase := Released |>) Hi) as H.
    assert (occupying k c = false) as E by (unfold occupying; by destruct (ca_phase c)).
    rewrite E in H. unfold occupying in H at 3. simpl in H. lia. }
  pose proof (λ k, tally_holding _ _ _ Released Hi Hl k) as Hh. pose proof (λ k, tally_scoped _ _ _ Released Hi Hl k) as Hs.
  unfold live in Hh, Hs. simpl in Hh, Hs.
  split; simpl; fold b'.
  - apply S.
  - intros k x. rewrite (sd_conns _ _ _ _ _ S), Hocc. specialize (Hh k).
    intros [(-> & -> & Hg)|[Hne Hx]]%given_back_Some.
    + rewrite bool_decide_eq_true_2 in Hh by done. simpl in *. apply Z.eqb_neq in Hg. lia.
    + rewrite bool_decide_eq_false_2 in Hh by done. simpl in *. destruct (bo_conns _ Hok _ _ Hx). lia.
  - intros k x. rewrite (sd_quotas _ _ _ _ _ S). specialize (Hs k). intros [(-> & -> & Hg)|[Hne Hx]]%given_back_Some.
    + rewrite bool_decide_eq_true_2 in Hs by done. simpl in *. lia.
    + rewrite bool_decide_eq_false_2 in Hs by done. simpl in *. rewrite (bo_quotas _ Hok _ _ Hx). lia.
  - intros j cj [[<- <-]|[Hne Hj]]%lookup_insert_Some Hlj; [done|].
    destruct (bo_points _ Hok _ _ Hj Hlj) as [P1 P2]. split.
    + apply (sd_slots_kept _ _ _ _ _ S); [done|]. rewrite given_back_lookup. case_decide as Hk.
      * specialize (Hh (ca_connection c)). rewrite bool_decide_eq_true_2 in Hh by done. simpl in Hh.
        assert (1 <= tally (holding (ca_connection c)) (<[i:=c <| ca_phase := Released |>]> (pr_callers p))).
        { apply (tally_pos _ _ j cj); [by rewrite lookup_insert_ne|]. unfold holding. rewrite Hlj. by apply bool_decide_eq_true. }
        destruct (Z.eqb_spec (Z.pred (cs_refs s)) 0); [lia|eauto].
      * destruct (caller_entries _ _ _ Hok Hj Hlj) as [-> _]. eauto.
    + apply (sd_quota_kept _ _ _ _ _ S); [done|]. rewrite given_back_lookup. case_decide as Hk.
      * specialize (Hs (ca_scope c)). rewrite bool_decide_eq_true_2 in Hs by done. simpl in Hs.
        assert (1 <= tally (scoped (ca_scope c)) (<[i:=c <| ca_phase := Released |>]> (pr_callers p))).
        { apply (tally_pos _ _ j cj); [by rewrite lookup_insert_ne|]. unfold scoped. rewrite Hlj. by apply bool_decide_eq_true. }
        unfold idle. simpl. destruct (Z.eqb_spec (Z.pred (qs_refs u)) 0); [lia|]. simpl. eauto.
      * destruct (caller_entries _ _ _ Hok Hj Hlj) as [_ ->]. eauto.
  - rewrite (sd_conns _ _ _ _ _ S), (sd_quotas _ _ _ _ _ S). destruct (bo_room _ Hok) as [R1 R2].
    pose proof (size_given_back (Z.pred (cs_refs s) =? 0) (ca_connection c) (s <| cs_refs ::= Z.pred |>) _ (mk_is_Some _ _ Ec)).
    pose proof (size_given_back (idle now (u <| qs_refs ::= Z.pred |>)) (ca_scope c) (u <| qs_refs ::= Z.pred |>) _ (mk_is_Some _ _ Eq)).
    simpl in *. lia.
  - pose proof (bo_clock _ Hok). lia.
  - intros k f Hf. rewrite (sd_quotas _ _ _ _ _ S). destruct (bo_floor _ Hok _ _ Hf) as [?|(y & Hy & Hfy)]; [left; lia|].
    rewrite given_back_lookup. case_decide as Hk; [|right; eauto]. subst k. assert (y = u) as -> by congruence.
    destruct (idle now _) eqn:Hid; [left|right; eexists; split; [done|done]].
    unfold idle in Hid. simpl in Hid. unfold After in Hid. guards. lia.
Qed.

(** A live caller goes from waiting to in flight or back; [d] is what that does
    to the number of its connection's calls. *)
Lemma counts_phase p i c x d now : counts_ok p → pr_callers p !! i = Some c → live c = true →
  x ≠ Released → pr_clock p <= now →
  d = Z.b2z (occupying (ca_connection c) (c <| ca_phase := x |>)) - Z.b2z (occupying (ca_connection c) c) →
  cs_active (slots_at (ca_slots c) (pr_budget p)) + d <= 2 →
  counts_ok (p <| pr_budget ::= (λ b, b <| bg_slots ::= alter (λ s, s <| cs_active ::= Z.add d |>) (ca_slots c) |>) |>
               <| pr_callers ::= <[i := c <| ca_phase := x |>]> |> <| pr_clock := now |>).
Proof.
  intros Hok Hi Hl Hx Hnow Hd Hle. destruct (caller_entries _ _ _ Hok Hi Hl) as [Ec _].
  destruct (bo_points _ Hok _ _ Hi Hl) as [Hp _].
  pose proof (stepped_slots (λ s, s <| cs_active ::= Z.add d |>) _ _ _ (bo_tables _ Hok) Hp) as S.
  set (b' := _ <| bg_slots ::= _ |>) in S. set (s := slots_at _ _) in *.
  rewrite (alter_lookup _ _ _ _ Ec) in S. destruct (bo_conns _ Hok _ _ Ec) as (Hr & Ha & Ha2 & Hr0).
  pose proof (λ k, tally_holding _ _ _ x Hi Hl k) as Hh. pose proof (λ k, tally_scoped _ _ _ x Hi Hl k) as Hs.
  assert (live (c <| ca_phase := x |>) = true) as Hlx by (unfold live; simpl; by destruct x).
  rewrite Hlx in Hh, Hs. simpl in Hh, Hs.
  split; simpl; fold b'.
  - apply S.
  - intros k y. rewrite (sd_conns _ _ _ _ _ S). specialize (Hh k).
    pose proof (tally_update (occupying k) _ i c (c <| ca_phase := x |>) Hi) as Ho.
    intros [[<- <-]|[Hne Hy]]%lookup_insert_Some; simpl.
    + lia.
    + destruct (bo_conns _ Hok _ _ Hy). unfold occupying in Ho at 2 4. simpl in Ho.
      rewrite bool_decide_eq_false_2 in Ho by done. destruct (ca_phase c), x; simpl in *; lia.
  - intros k y. rewrite (sd_quotas _ _ _ _ _ S). specialize (Hs k). intros Hy. rewrite (bo_quotas _ Hok _ _ Hy). lia.
  - assert (∀ j cj, pr_callers p !! j = Some cj → live cj = true → points b' (ca_connection cj) (ca_scope cj) (ca_slots cj) (ca_quota cj)) as Hkeep
      by (intros j cj Hj Hlj; exact (bo_points _ Hok _ _ Hj Hlj)).
    intros j cj [[<- <-]|[Hne Hj]]%lookup_insert_Some Hlj; [exact (Hkeep _ _ Hi Hl)|eauto].
  - rewrite (sd_conns _ _ _ _ _ S), (sd_quotas _ _ _ _ _ S). rewrite map_size_insert_Some by eauto. apply Hok.
  - pose proof (bo_clock _ Hok). lia.
  - intros k f Hf. rewrite (sd_quotas _ _ _ _ _ S). destruct (bo_floor _ Hok _ _ Hf); [left; lia|by right].
Qed.

(** A caller that keeps waiting, and time that passes. *)
Lemma counts_wait p i c x channel timer now : counts_ok p → pr_callers p !! i = Some c →
  ca_phase c = Waiting channel timer → x ≠ Released → x ≠ InFlight → pr_clock p <= now →
  counts_ok (p <| pr_callers ::= <[i := c <| ca_phase := x |>]> |> <| pr_clock := now |>).
Proof.
  intros Hok Hi Hph Hx Hx' Hnow. assert (live c = true) as Hl by (unfold live; by rewrite Hph).
  assert (live (c <| ca_phase := x |>) = true) as Hlx by (unfold live; simpl; by destruct x).
  assert (∀ q : caller → bool, q (c <| ca_phase := x |>) = q c →
    tally q (<[i := c <| ca_phase := x |>]> (pr_callers p)) = tally q (pr_callers p)) as Ht.
  { intros q E. pose proof (tally_update q _ i c (c <| ca_phase := x |>) Hi). rewrite E in *. lia. }
  destruct Hok as [B1 B2 B3 B4 B5 B6 B7]. split; simpl; try done.
  - intros k s Hs. rewrite !Ht; [by apply B2| |].
    + unfold occupying. simpl. rewrite Hph. by destruct x.
    + unfold holding. by rewrite Hl, Hlx.
  - intros k u Hu. rewrite Ht; [by apply B3|]. unfold scoped. by rewrite Hl, Hlx.
  - intros j cj [[<- <-]|[Hne Hj]]%lookup_insert_Some Hlj; [exact (B4 _ _ Hi Hl)|eauto].
  - lia.
  - intros k f Hf. destruct (B7 _ _ Hf); [left; lia|by right].
Qed.

(** A new caller enters the loop. *)
Lemma counts_enter p i connection scope now slots quota b : counts_ok p → pr_callers p !! i = None →
  pr_clock p <= now → entered connection scope now (pr_budget p) b slots quota →
  counts_ok (p <| pr_budget := b |> <| pr_callers ::= <[i := Caller connection scope slots quota (Waiting 0 0)]> |>
               <| pr_clock := now |>).
Proof.
  intros Hok Hi Hnow [Hp Hb Ec Eq En Ks Kq Rc Rq]. set (c := Caller _ _ _ _ _).
  assert (∀ k u, swept now (quotas (pr_budget p)) !! k = Some u → quotas (pr_budget p) !! k = Some u ∧ idle now u = false) as Hsw
    by (intros k u [? ?]%map_lookup_filter_Some; done).
  assert (∀ j cj u, pr_callers p !! j = Some cj → live cj = true → quotas (pr_budget p) !! ca_scope cj = Some u →
    swept now (quotas (pr_budget p)) !! ca_scope cj = Some u) as Hbusy.
  { intros j cj u Hj Hlj Hu. apply map_lookup_filter_Some. split; [done|]. by eapply caller_scope_busy. }
  assert (∀ k, swept now (quotas (pr_budget p)) !! k = None → tally (scoped k) (pr_callers p) = 0) as Hz.
  { intros k Hk. apply tally_none. intros j cj Hj. unfold scoped. destruct (live cj) eqn:Hlj; [|done].
    apply bool_decide_eq_false. intros <-. destruct (caller_entries _ _ _ Hok Hj Hlj) as [_ Hu]. by rewrite (Hbusy _ _ _ Hj Hlj Hu) in Hk. }
  assert (∀ k, conns (pr_budget p) !! k = None → tally (holding k) (pr_callers p) = 0 ∧ tally (occupying k) (pr_callers p) = 0) as Hz'.
  { intros k Hk. assert (∀ j cj, pr_callers p !! j = Some cj → live cj = true → ca_connection cj ≠ k) as Hne.
    { intros j cj Hj Hlj <-. destruct (caller_entries _ _ _ Hok Hj Hlj). congruence. }
    split; apply tally_none; intros j cj Hj; unfold holding, occupying; destruct (live cj) eqn:Hlj;
      unfold live in Hlj; destruct (ca_phase cj) eqn:Hph; try done; apply bool_decide_eq_false; eapply Hne; try done;
      unfold live; by rewrite Hph. }
  split; simpl.
  - done.
  - intros k s. rewrite Ec, !tally_insert by done. unfold holding at 2, occupying at 2. simpl.
    intros [[<- <-]|[Hne Hs]]%lookup_insert_Some.
    + rewrite bool_decide_eq_true_2 by done. simpl. destruct (conns (pr_budget p) !! connection) as [s0|] eqn:Hs0; simpl.
      * destruct (bo_conns _ Hok _ _ Hs0). lia.
      * destruct (Hz' _ Hs0) as [-> ->]. simpl. lia.
    + rewrite bool_decide_eq_false_2 by done. simpl. destruct (bo_conns _ Hok _ _ Hs). lia.
  - intros k u. rewrite Eq, tally_insert by done. unfold scoped at 2. simpl.
    intros [[<- <-]|[Hne [Hu _]%Hsw]]%lookup_insert_Some.
    + rewrite bool_decide_eq_true_2 by done. simpl.
      destruct (swept now (quotas (pr_budget p)) !! scope) as [u0|] eqn:Hu0; simpl.
      * apply Hsw in Hu0 as [Hu0 _]. rewrite (bo_quotas _ Hok _ _ Hu0). lia.
      * rewrite (Hz _ Hu0). lia.
    + rewrite bool_decide_eq_false_2 by done. simpl. rewrite (bo_quotas _ Hok _ _ Hu). lia.
  - intros j cj [[<- <-]|[Hne Hj]]%lookup_insert_Some Hlj; [done|].
    destruct (bo_points _ Hok _ _ Hj Hlj) as [P1 P2]. destruct (caller_entries _ _ _ Hok Hj Hlj) as [_ Hu].
    split; [by apply Ks|apply Kq; [done|]]. rewrite (Hbusy _ _ _ Hj Hlj Hu). eauto.
  - rewrite Ec, Eq. destruct (bo_room _ Hok) as [R1 R2].
    assert (size (swept now (quotas (pr_budget p))) <= size (quotas (pr_budget p)))%nat by (apply map_subseteq_size, map_filter_subseteq).
    split.
    + destruct Rc as [[s0 Hs0]|Hlt]; [rewrite map_size_insert_Some by eauto; lia|].
      destruct (conns (pr_budget p) !! connection) eqn:E; [rewrite map_size_insert_Some by eauto; lia|].
      rewrite map_size_insert_None by done. lia.
    + destruct Rq as [[u0 Hu0]|Hlt]; [rewrite map_size_insert_Some by eauto; lia|].
      destruct (swept now (quotas (pr_budget p)) !! scope) eqn:E; [rewrite map_size_insert_Some by eauto; lia|].
      rewrite map_size_insert_None by done. lia.
  - pose proof (bo_clock _ Hok). lia.
  - intros k f Hf. rewrite Eq. destruct (bo_floor _ Hok _ _ Hf) as [?|(u & Hu & Hfu)]; [left; lia|].
    destruct (idle now u) eqn:Hid; [left; unfold idle, After in Hid; guards; lia|right].
    assert (swept now (quotas (pr_budget p)) !! k = Some u) as Hk by by apply map_lookup_filter_Some.
    destruct (decide (k = scope)) as [->|Hne].
    + rewrite lookup_insert_eq, Hk. simpl. eauto.
    + rewrite lookup_insert_ne by done. eauto.
Qed.

(** ** Sleeping callers *)

Lemma sleeping_kept i p p' : counts_ok p' → sleeping_ok (Some i) p →
  bg_changed (pr_budget p') = bg_changed (pr_budget p) →
  (∀ j, j ≠ i → pr_callers p' !! j = pr_callers p !! j) →
  (∀ k s s', conns (pr_budget p) !! k = Some s → conns (pr_budget p') !! k = Some s' → cs_active s <= cs_active s') →
  (∀ j c u u', pr_callers p !! j = Some c → live c = true → quotas (pr_budget p) !! ca_scope c = Some u →
     quotas (pr_budget p') !! ca_scope c = Some u' → qs_until u' = qs_until u) →
  sleeping_ok (Some i) p'.
Proof.
  intros Hok Hsl En Ecall Hs Hu j c channel timer Hj Hc Hph.
  assert (live c = true) as Hl by (unfold live; by rewrite Hph).
  destruct (caller_entries _ _ _ Hok Hc Hl) as [Es' Eu']. rewrite Ecall in Hc by congruence.
  destruct (Hsl _ _ _ _ Hj Hc Hph) as [Hle Heq]. rewrite En. split; [done|].
  intros (s & u & Hs1 & Hu1 & Hor)%Heq. eexists _, _. split_and!; [exact Es'|exact Eu'|].
  pose proof (Hs _ _ _ Hs1 Es'). pose proof (Hu _ _ _ _ Hc Hl Hu1 Eu') as ->. destruct Hor; [left; lia|by right].
Qed.

Lemma sleeping_signal i p p' : sleeping_ok (Some i) p →
  bg_changed (pr_budget p') = N.succ (bg_changed (pr_budget p)) →
  (∀ j, j ≠ i → pr_callers p' !! j = pr_callers p !! j) → sleeping_ok (Some i) p'.
Proof.
  intros Hsl En Ecall j c channel timer Hj Hc Hph. rewrite Ecall in Hc by congruence.
  destruct (Hsl _ _ _ _ Hj Hc Hph) as [Hle _]. rewrite En. split; [lia|lia].
Qed.

Lemma sleeping_weaken i p : sleeping_ok None p → sleeping_ok (Some i) p.
Proof. intros H j c channel timer _. by apply H. Qed.

(** Caller [i] is the only one left to check. *)
Lemma sleeping_done i p : sleeping_ok (Some i) p →
  (∀ c channel timer, pr_callers p !! i = Some c → ca_phase c = Waiting channel timer →
     (channel <= bg_changed (pr_budget p))%N ∧
     (channel = bg_changed (pr_budget p) → ∃ s u, conns (pr_budget p) !! ca_connection c = Some s ∧
       quotas (pr_budget p) !! ca_scope c = Some u ∧ (2 <= cs_active s ∨ timer = qs_until u))) → sleeping_ok None p.
Proof.
  intros H Hi j c channel timer _ Hc Hph. destruct (decide (j = i)) as [->|]; [by eapply Hi|].
  eapply H; [by intros [=]|done..].
Qed.

(** ** Steps *)

(** What a turn of the loop grants: a slot while fewer than two of its
    connection's calls are in flight, after every cooldown asked of its scope. *)
Definition granted_fairly (p : process) (i : N) (c : caller) (now : time) (p' : process) : Prop :=
  ∀ c', pr_callers p' !! i = Some c' → ca_phase c' = InFlight →
    tally (occupying (ca_connection c)) (pr_callers p) < 2 ∧
    ∀ f, pr_floor p !! ca_scope c = Some f → f <= now.

Lemma granted_fairly_no (p : process) i c now (p' : process) c0 : pr_callers p' !! i = Some c0 → ca_phase c0 ≠ InFlight →
  granted_fairly p i c now p'.
Proof. intros H Hne c' Hc' Hph. congruence. Qed.

Lemma turn_ok p i c channel timer now cancelled : counts_ok p → sleeping_ok (Some i) p →
  pr_callers p !! i = Some c → ca_phase c = Waiting channel timer → pr_clock p <= now →
  budget_ok (turn i c now cancelled p) ∧ granted_fairly p i c now (turn i c now cancelled p).
Proof.
  intros Hok Hsl Hi Hph Hnow. assert (live c = true) as Hl by (unfold live; by rewrite Hph).
  destruct (caller_entries _ _ _ Hok Hi Hl) as [Ec Eq]. destruct (bo_points _ Hok _ _ Hi Hl) as [Hp1 Hp2].
  unfold turn, attempt_slot. set (s := slots_at _ _) in *. set (u := quota_at _ _) in *.
  assert (∀ (b : Budget) x, pr_callers (p <| pr_budget := b |> <| pr_callers ::= <[i:=c <| ca_phase := x |>]> |>
    <| pr_clock := now |>) !! i = Some (c <| ca_phase := x |>)) as Hat by (intros; apply lookup_insert_eq).
  destruct cancelled; [|destruct ((cs_active s <? 2) && (qs_until u - now <=? 0)) eqn:Hg].
  - pose proof (counts_drop p i c now Hok Hi Hl Hnow ltac:(by rewrite Hph)) as Hok'.
    split; [split; [exact Hok'|]|by eapply granted_fairly_no; [apply Hat|]].
    pose proof (stepped_drop _ _ _ _ _ now (bo_tables _ Hok) (bo_points _ Hok _ _ Hi Hl)) as S. simpl in S.
    apply (sleeping_done i); [|intros c' ch tm Hc' Hph'; rewrite Hat in Hc'; by simplify_eq].
    apply (sleeping_kept i p); [exact Hok'|done|apply S|intros j Hj; simpl; by rewrite lookup_insert_ne| |]; simpl.
    + intros k x x' Hx. rewrite (sd_conns _ _ _ _ _ S). intros [(-> & -> & _)|[_ Hx']]%given_back_Some; simpl; [|simplify_eq; lia].
      rewrite Ec in Hx. injection Hx as <-. done.
    + intros j cj x x' _ _ Hx. rewrite (sd_quotas _ _ _ _ _ S). intros [(E & -> & _)|[_ Hx']]%given_back_Some; simpl; [|by simplify_eq].
      rewrite E, Eq in Hx. by injection Hx as <-.
  - apply andb_true_iff in Hg as [Hg1 Hg2]. guards. destruct (bo_conns _ Hok _ _ Ec) as (_ & Hact & _ & _).
    assert (counts_ok (p <| pr_budget ::= (λ b, b <| bg_slots ::= alter (λ s, s <| cs_active ::= Z.add 1 |>) (ca_slots c) |>) |>
      <| pr_callers ::= <[i := c <| ca_phase := InFlight |>]> |> <| pr_clock := now |>)) as Hok'.
    { apply (counts_phase p i c InFlight 1 now Hok Hi Hl); [done|done| |fold s; lia].
      unfold occupying. rewrite Hph. simpl. by rewrite bool_decide_eq_true_2. }
    pose proof (stepped_slots (λ s, s <| cs_active ::= Z.add 1 |>) _ _ _ (bo_tables _ Hok) Hp1) as S.
    split; [split; [exact Hok'|]|].
    + apply (sleeping_done i); [|intros c' ch tm Hc' Hph'; rewrite Hat in Hc'; by simplify_eq].
      apply (sleeping_kept i p); [exact Hok'|done|done|intros j Hj; simpl; by rewrite lookup_insert_ne| |]; simpl.
      * intros k x x' Hx. rewrite (sd_conns _ _ _ _ _ S), (alter_lookup _ _ _ _ Ec).
        intros [[<- <-]|[_ Hx']]%lookup_insert_Some; simpl; [|simplify_eq; lia]. rewrite Ec in Hx. injection Hx as <-. lia.
      * intros j cj x x' _ _ Hx. rewrite (sd_quotas _ _ _ _ _ S). intros Hx'. by simplify_eq.
    + intros c' _ _. split; [lia|]. intros f Hf. destruct (bo_floor _ Hok _ _ Hf) as [?|(y & Hy & ?)]; [lia|].
      rewrite Eq in Hy. injection Hy as <-. lia.
  - set (x := Waiting _ _). assert (counts_ok (p <| pr_callers ::= <[i := c <| ca_phase := x |>]> |> <| pr_clock := now |>)) as Hok'.
    { by eapply counts_wait. }
    split; [split; [exact Hok'|]|by eapply granted_fairly_no; [apply Hat|]].
    apply (sleeping_done i).
    + apply (sleeping_kept i p); [exact Hok'|done|done|intros j Hj; simpl; by rewrite lookup_insert_ne| |]; simpl.
      * intros k y y' Hy Hy'. simplify_eq. lia.
      * intros j cj y y' _ _ Hy Hy'. by simplify_eq.
    + intros c' ch tm Hc' Hph'. simpl in Hc'. rewrite lookup_insert_eq in Hc'. injection Hc' as <-.
      simpl in Hph'. injection Hph' as <- <-. split; [simpl; lia|]. intros _. exists s, u. split_and!; [exact Ec|exact Eq|].
      apply andb_false_iff in Hg as [Hg|Hg]; guards; [by left|right].
      destruct (Z.leb_spec (qs_until u - now) 0); lia.
Qed.

(** Sweeping, and time. *)
Lemma sweep_ok p now : budget_ok p → pr_clock p <= now →
  budget_ok (p <| pr_budget := sweep now (pr_budget p) |> <| pr_clock := now |>).
Proof.
  intros [Hok Hsl] Hnow. pose proof (stepped_sweep _ now (bo_tables _ Hok)) as S.
  set (b' := sweep now (pr_budget p)) in *. set (p' := p <| pr_budget := b' |> <| pr_clock := now |>).
  assert (counts_ok p') as Hok'.
  { split; simpl.
    - apply S.
    - rewrite (sd_conns _ _ _ _ _ S). apply Hok.
    - intros k u. rewrite (sd_quotas _ _ _ _ _ S). intros [Hu _]%map_lookup_filter_Some. by apply Hok.
    - intros j cj Hj Hlj. destruct (bo_points _ Hok _ _ Hj Hlj) as [P1 P2].
      destruct (caller_entries _ _ _ Hok Hj Hlj) as [_ Hu]. split; [done|].
      apply (sd_quota_kept _ _ _ _ _ S); [done|]. eexists. apply map_lookup_filter_Some. split; [exact Hu|].
      by eapply caller_scope_busy.
    - rewrite (sd_conns _ _ _ _ _ S), (sd_quotas _ _ _ _ _ S). destruct (bo_room _ Hok).
      assert (size (filter (λ '(_, u), idle now u = false) (quotas (pr_budget p))) <= size (quotas (pr_budget p)))%nat
        by (apply map_subseteq_size, map_filter_subseteq). lia.
    - pose proof (bo_clock _ Hok). lia.
    - intros k f Hf. rewrite (sd_quotas _ _ _ _ _ S). destruct (bo_floor _ Hok _ _ Hf) as [?|(u & Hu & Hfu)]; [left; lia|].
      destruct (idle now u) eqn:Hid; [left; unfold idle, After in Hid; guards; lia|right].
      exists u. split; [by apply map_lookup_filter_Some|done]. }
  split; [exact Hok'|]. intros i. apply (sleeping_done i).
  - apply (sleeping_kept i p); [exact Hok'|by apply sleeping_weaken|done|done| |]; simpl.
    + intros k s s' Hs. rewrite (sd_conns _ _ _ _ _ S). intros Hs'. simplify_eq. lia.
    + intros j c u u' _ _ Hu. rewrite (sd_quotas _ _ _ _ _ S). intros [Hu' _]%map_lookup_filter_Some. by simplify_eq.
  - intros c ch tm Hc Hph. destruct (Hsl i c ch tm ltac:(done) Hc Hph) as [Hle Heq]. split; [done|]. simpl.
    intros (s & u & Hs & Hu & Hor)%Heq. exists s, u. rewrite (sd_conns _ _ _ _ _ S), (sd_quotas _ _ _ _ _ S).
    split_and!; [done| |done]. apply map_lookup_filter_Some. split; [done|].
    eapply caller_scope_busy; [exact Hok|exact Hc|unfold live; by rewrite Hph|done].
Qed.

Lemma time_ok p now : budget_ok p → pr_clock p <= now → budget_ok (p <| pr_clock := now |>).
Proof.
  intros [[B1 B2 B3 B4 B5 B6 B7] Hsl] Hnow. split; [|exact Hsl]. split; simpl; try done; [lia|].
  intros k f Hf. destruct (B7 _ _ Hf); [left; lia|by right].
Qed.

Section admitting.
Context `{U : UuidApi}.

Lemma arrive_ok p i connection scope now now' cancelled : budget_ok p → pr_callers p !! i = None →
  pr_clock p <= now → now <= now' →
  budget_ok (arrive i connection scope now now' cancelled p) ∧
  ∀ c', pr_callers (arrive i connection scope now now' cancelled p) !! i = Some c' → ca_phase c' = InFlight →
    ca_connection c' = connection ∧ ca_scope c' = scope ∧
    tally (occupying connection) (pr_callers p) < 2 ∧ ∀ f, pr_floor p !! scope = Some f → f <= now'.
Proof.
  intros [Hok Hsl] Hi Hnow Hnow'. unfold arrive. destruct (enter connection scope now (pr_budget p)) as [[[slots quota]|e] b] eqn:He.
  - apply (enter_Ok _ _ _ _ _ _ _ (bo_tables _ Hok)) in He.
    pose proof (counts_enter p i _ _ _ _ _ _ Hok Hi Hnow He) as Hok1.
    set (c0 := Caller connection scope slots quota (Waiting 0 0)) in Hok1.
    set (p1 := p <| pr_budget := b |> <| pr_callers ::= <[i:=c0]> |> <| pr_clock := now |>) in Hok1.
    assert (sleeping_ok (Some i) p1) as Hsl1.
    { apply (sleeping_kept i p); [exact Hok1|by apply sleeping_weaken|apply He|intros j Hj; simpl; by rewrite lookup_insert_ne| |]; simpl.
      - intros k s s' Hs. rewrite (en_conns _ _ _ _ _ _ _ He). intros [[<- <-]|[_ Hs']]%lookup_insert_Some; [|simplify_eq; lia].
        rewrite Hs. simpl. lia.
      - intros j cj u u' Hj Hlj Hu. rewrite (en_quotas _ _ _ _ _ _ _ He).
        assert (swept now (quotas (pr_budget p)) !! ca_scope cj = Some u) as Hsw
          by (apply map_lookup_filter_Some; split; [exact Hu|exact (caller_scope_busy _ _ _ _ _ Hok Hj Hlj Hu)]).
        intros [[E <-]|[_ Hu']]%lookup_insert_Some; [rewrite E, Hsw|]; [done|by simplify_eq]. }
    destruct (turn_ok p1 i c0 0 0 now' cancelled Hok1 Hsl1) as [Hb Hg]; [apply lookup_insert_eq|done|done|].
    assert (turn i (Caller connection scope slots quota Released) now' cancelled (p <| pr_budget := b |>) = turn i c0 now' cancelled p1) as ->.
    { unfold turn. simpl. destruct (attempt_slot _ _ _ _ _ _ _) as [v b1]. unfold p1, set, set_pr_callers, set_pr_budget, set_pr_clock; simpl.
      by rewrite insert_insert_eq. }
    split; [exact Hb|]. intros c' Hc' Hph. destruct (Hg c' Hc' Hph) as [H1 H2]. simpl in H1, H2.
    rewrite tally_insert in H1 by done. unfold occupying at 2 in H1. simpl in H1. rewrite Z.add_0_r in H1.
    unfold turn in Hc'. destruct (attempt_slot _ _ _ _ _ _ _) as [v b1]. simpl in Hc'. rewrite lookup_insert_eq in Hc'.
    by injection Hc' as <-.
  - split; [|intros c' Hc'; simpl in Hc'; congruence].
    destruct (enter_Err _ _ _ _ _ _ (bo_tables _ Hok) He) as [->| ->]; [|by apply sweep_ok].
    replace (p <| pr_budget := pr_budget p |>) with p by (by destruct p). by apply time_ok.
Qed.

Lemma leave_ok p i c now : budget_ok p → pr_callers p !! i = Some c → pr_clock p <= now → budget_ok (leave i c now p).
Proof.
  intros [Hok Hsl] Hi Hnow. unfold leave. destruct (ca_phase c) eqn:Hph; [by split| |by split].
  assert (live c = true) as Hl by (unfold live; by rewrite Hph).
  destruct (caller_entries _ _ _ Hok Hi Hl) as [Ec _]. destruct (bo_conns _ Hok _ _ Ec) as (_ & Hact & Hle & _).
  set (c1 := c <| ca_phase := Waiting 0 0 |>).
  pose proof (counts_phase p i c (Waiting 0 0) (-1) now Hok Hi Hl ltac:(done) Hnow
    ltac:(unfold occupying; rewrite Hph; simpl; by rewrite bool_decide_eq_true_2) ltac:(lia)) as Hok1.
  set (p1 := p <| pr_budget ::= _ |> <| pr_callers ::= _ |> <| pr_clock := now |>) in Hok1.
  pose proof (counts_drop p1 i c1 now Hok1 (lookup_insert_eq _ _ _) ltac:(done) ltac:(done) ltac:(done)) as Hok2.
  match type of Hok2 with counts_ok ?q => set (p2 := q) in Hok2 end.
  set (p3 := p <| pr_budget ::= _ |> <| pr_callers ::= _ |> <| pr_clock := now |>).
  assert (p3 = p2 <| pr_budget ::= signal |>) as ->.
  { unfold p3, p2, p1, c1, release_slot, set, set_pr_callers, set_pr_budget, set_pr_clock; simpl. by rewrite insert_insert_eq. }
  assert (counts_ok (p2 <| pr_budget ::= signal |>)) as Hok3.
  { destruct Hok2 as [B1 B2 B3 B4 B5 B6 B7]. split; simpl; try done. by destruct B1. }
  split; [exact Hok3|]. apply (sleeping_done i).
  - apply (sleeping_signal i p); [by apply sleeping_weaken| |intros j Hj; simpl; by rewrite !lookup_insert_ne].
    simpl. unfold signal, set; simpl. f_equal. unfold p1; simpl.
    match goal with |- bg_changed (drop ?c ?k ?sl ?q ?n ?b) = _ =>
      rewrite (sd_changed _ _ _ _ _ (stepped_drop b c k sl q n (bo_tables _ Hok1) (bo_points _ Hok1 i c1 (lookup_insert_eq _ _ _) eq_refl))) end.
    done.
  - intros c' ch tm Hc'. simpl in Hc'. rewrite lookup_insert_eq in Hc'. injection Hc' as <-. done.
Qed.
End admitting.

Lemma rate_limited_ok p i c delay now : budget_ok p → pr_callers p !! i = Some c → live c = true → pr_clock p <= now →
  budget_ok (rate_limited (ca_scope c) delay now p).
Proof.
  intros [Hok Hsl] Hi Hl Hnow. destruct (caller_entries _ _ _ Hok Hi Hl) as [_ Eq].
  destruct (bo_points _ Hok _ _ Hi Hl) as [_ Hq]. unfold rate_limited. set (u := quota_at _ _) in *.
  pose proof (bo_clock _ Hok) as Hc.
  assert (∀ f, pr_floor p !! ca_scope c = Some f → f <= now ∨ f <= qs_until u) as Hold.
  { intros f Hf. destruct (bo_floor _ Hok _ _ Hf) as [?|(y & Hy & ?)]; [left; lia|right]. rewrite Eq in Hy. by injection Hy as <-. }
  assert (default zero_time (pr_floor p !! ca_scope c) <= now ∨ default zero_time (pr_floor p !! ca_scope c) <= qs_until u) as Hdef.
  { destruct (pr_floor p !! ca_scope c) as [f|] eqn:Hf; simpl; [by apply Hold|left; lia]. }
  change (p <| pr_budget ::= postpone (ca_scope c) delay now |>)
    with (p <| pr_budget := postpone (ca_scope c) delay now (pr_budget p) |>).
  unfold postpone. rewrite Hq. fold u. destruct (After (now + delay) (qs_until u)) eqn:Ha; unfold After in Ha; guards.
  - pose proof (stepped_quotas (λ q, q <| qs_until := now + delay |>) _ _ _ (bo_tables _ Hok) Hq) as S.
    set (b' := _ <| bg_quotas ::= _ |>) in *. rewrite (alter_lookup _ _ _ _ Eq) in S.
    set (p' := _ <| pr_floor ::= _ |>). assert (counts_ok p') as Hok'.
    { split; simpl.
      - destruct (sd_ok _ _ _ _ _ S). by split.
      - apply Hok.
      - intros k y Hy. change (quotas (signal b')) with (quotas b') in Hy. rewrite (sd_quotas _ _ _ _ _ S) in Hy.
        apply lookup_insert_Some in Hy as [[<- <-]|[_ Hy]]; [exact (bo_quotas _ Hok _ _ Eq)|by apply Hok].
      - intros j cj Hj Hlj. exact (bo_points _ Hok _ _ Hj Hlj).
      - change (quotas (signal b')) with (quotas b'). rewrite (sd_quotas _ _ _ _ _ S), map_size_insert_Some by eauto. apply Hok.
      - lia.
      - intros k f Hf. change (quotas (signal b')) with (quotas b'). rewrite (sd_quotas _ _ _ _ _ S).
        apply lookup_insert_Some in Hf as [[<- <-]|[Hne Hf]].
        + rewrite lookup_insert_eq.
          assert (Z.max (now + delay) (default zero_time (pr_floor p !! ca_scope c)) <= now ∨
            Z.max (now + delay) (default zero_time (pr_floor p !! ca_scope c)) <= now + delay) as [?|?] by lia; [by left|right; eauto].
        + rewrite lookup_insert_ne by done. destruct (bo_floor _ Hok _ _ Hf); [left; lia|by right]. }
    split; [exact Hok'|]. apply (sleeping_done i).
    + apply (sleeping_signal i p); [by apply sleeping_weaken|done|done].
    + intros c' ch tm Hc' Hph. destruct (Hsl i c' ch tm ltac:(done) Hc' Hph) as [Hle _]. simpl. split; [lia|lia].
  - split; [|exact Hsl]. destruct Hok as [B1 B2 B3 B4 B5 B6 B7]. split; simpl; try done; [lia|].
    intros k f Hf. apply lookup_insert_Some in Hf as [[<- <-]|[Hne Hf]].
    + assert (Z.max (now + delay) (default zero_time (pr_floor p !! ca_scope c)) <= now ∨
        Z.max (now + delay) (default zero_time (pr_floor p !! ca_scope c)) <= qs_until u) as [?|?] by lia; [by left|right; eauto].
    + destruct (B7 _ _ Hf); [left; lia|by right].
Qed.

(** The callers a step changes. *)
Lemma turn_shape i c now cancelled p : ∃ x,
  pr_callers (turn i c now cancelled p) = <[i := c <| ca_phase := x |>]> (pr_callers p) ∧
  pr_clock (turn i c now cancelled p) = now.
Proof. unfold turn. destruct (attempt_slot _ _ _ _ _ _ _). by eexists. Qed.

Lemma arrive_shape `{U : UuidApi} i connection scope now now' cancelled p :
  pr_callers (arrive i connection scope now now' cancelled p) = pr_callers p ∨
  (∀ j, j ≠ i → pr_callers (arrive i connection scope now now' cancelled p) !! j = pr_callers p !! j) ∧
  pr_clock (arrive i connection scope now now' cancelled p) = now'.
Proof.
  unfold arrive. destruct (enter _ _ _ _) as [[[slots quota]|e] b]; [right|by left].
  destruct (turn_shape i (Caller connection scope slots quota Released) now' cancelled (p <| pr_budget := b |>)) as (x & -> & ->).
  split; [|done]. intros j Hj. simpl. by rewrite lookup_insert_ne.
Qed.

(** ** The budget's guarantees *)

Section guarantees.
Context `{U : UuidApi}.

Lemma bstep_ok p p' : bstep p p' → budget_ok p → budget_ok p'.
Proof.
  intros Hs Hb. destruct Hs as [i connection scope now now' cancelled Hi Hc Hn|i c channel timer now cancelled Hi Hph Hc
    |i c now Hi Hc|i c delay now Hi Hph Hc].
  - by apply arrive_ok.
  - destruct Hb as [Hok Hsl]. eapply turn_ok; [done|by apply sleeping_weaken|done..].
  - by apply leave_ok.
  - eapply rate_limited_ok; [done|done|unfold live; by rewrite Hph|done].
Qed.

Lemma reachable_ok p : rtc bstep started p → budget_ok p.
Proof.
  intros H. assert (∀ q, rtc bstep q p → budget_ok q → budget_ok p) as Hind.
  { intros q Hq. induction Hq; eauto using bstep_ok. }
  eapply Hind; [exact H|apply started_ok].
Qed.

(** C33. The budget is bounded and leaks nothing.  In every interleaving of
    callers that arrive, wait, are cancelled, are released (twice, too) and are
    rate limited: never are three calls of one connection in flight, at most
    1000 connections and 1000 scopes have an entry, and once every caller
    has left no connection has one. *)
Theorem budget_bounds p : rtc bstep started p →
  (∀ connection, tally (occupying connection) (pr_callers p) <= 2) ∧
  Z.of_nat (size (bg_connections (pr_budget p))) <= 1000 ∧ Z.of_nat (size (bg_cooldowns (pr_budget p))) <= 1000 ∧
  ((∀ i c, pr_callers p !! i = Some c → ca_phase c = Released) → bg_connections (pr_budget p) = ∅).
Proof.
  intros [Hok _]%reachable_ok. destruct (bo_room _ Hok) as [R1 R2]. destruct (bo_tables _ Hok) as [T1 T2].
  unfold conns, quotas in R1, R2. rewrite size_view in R1 by done. rewrite size_view in R2 by done.
  split_and!; [|done|done|].
  - intros k. destruct (conns (pr_budget p) !! k) as [s|] eqn:Hs.
    + destruct (bo_conns _ Hok _ _ Hs) as (_ & <- & ? & _). done.
    + rewrite tally_none; [lia|]. intros j c Hj. unfold occupying. destruct (ca_phase c) eqn:Hph; try done.
      apply bool_decide_eq_false. intros <-. assert (live c = true) as Hl by (unfold live; by rewrite Hph).
      destruct (caller_entries _ _ _ Hok Hj Hl). congruence.
  - intros Hrel. apply map_eq. intros k. rewrite lookup_empty. destruct (bg_connections (pr_budget p) !! k) as [l|] eqn:Hl; [|done].
    pose proof (slots_at_Some _ _ _ (bo_tables _ Hok) Hl) as Hs. destruct (bo_conns _ Hok _ _ Hs) as (Hr & _ & _ & Hpos).
    rewrite tally_none in Hr; [lia|]. intros j c Hj. unfold holding, live. by rewrite (Hrel _ _ Hj).
Qed.

(** No wakeup is lost and no cooldown cut short.  A caller that sleeps
    on a channel nobody has closed since is where it has to wait: its
    connection has two calls in flight, or its timer rings when its scope's
    cooldown ends; and when a step admits a caller, every delay a rate-limited
    response asked of its scope, before or while it waited, has passed. *)
Theorem budget_waits p p' i c : rtc bstep started p → bstep p p' →
  (∀ channel timer, pr_callers p !! i = Some c → ca_phase c = Waiting channel timer →
     channel = bg_changed (pr_budget p) →
     tally (occupying (ca_connection c)) (pr_callers p) = 2 ∨
     ∃ u, quotas (pr_budget p) !! ca_scope c = Some u ∧ timer = qs_until u) ∧
  (pr_callers p' !! i = Some c → ca_phase c = InFlight → pr_callers p !! i ≠ Some c →
     ∀ f, pr_floor p !! ca_scope c = Some f → f <= pr_clock p').
Proof.
  intros Hb%reachable_ok Hs. split.
  - intros channel timer Hi Hph Hch. destruct Hb as [Hok Hsl].
    destruct (Hsl i c channel timer ltac:(done) Hi Hph) as [_ H]. destruct (H Hch) as (s & u & Es & Eu & [?|?]); [left|right; eauto].
    destruct (bo_conns _ Hok _ _ Es) as (_ & <- & ? & _). lia.
  - intros Hi Hph Hnew f Hf.
    destruct Hs as [j connection scope now now' cancelled Hj Hc Hn|j c0 channel timer now cancelled Hj Hph0 Hc
      |j c0 now Hj Hc|j c0 delay now Hj Hph0 Hc].
    + destruct (arrive_ok p j connection scope now now' cancelled Hb Hj Hc Hn) as [_ Hg].
      destruct (arrive_shape j connection scope now now' cancelled p) as [Ecall|(Ecall & ->)]; [congruence|].
      destruct (decide (i = j)) as [->|Hne]; [|rewrite Ecall in Hi by done; congruence].
      destruct (Hg _ Hi Hph) as (_ & E & _ & Hfl). apply Hfl. by rewrite <-E.
    + destruct Hb as [Hok Hsl]. destruct (turn_shape j c0 now cancelled p) as (x & Ecall & ->).
      destruct (decide (i = j)) as [->|Hne]; [|rewrite Ecall, lookup_insert_ne in Hi by done; congruence].
      destruct (turn_ok p j c0 channel timer now cancelled Hok (sleeping_weaken _ _ Hsl) Hj Hph0 Hc) as [_ Hg].
      destruct (Hg _ Hi Hph) as [_ Hfl]. apply Hfl. rewrite Ecall, lookup_insert_eq in Hi. by injection Hi as <-.
    + unfold leave in Hi. destruct (ca_phase c0) eqn:Hph0; [congruence| |congruence]. simpl in Hi.
      apply lookup_insert_Some in Hi as [[_ <-]|[_ Hi]]; [done|congruence].
    + simpl in Hi. congruence.
Qed.
End guarantees.

(** ** Three callers of one connection

    The third waits; its scope is rate limited for five seconds; a slot is
    freed at once, but it is admitted only when the five seconds are over. *)

#[local] Existing Instance rfc9562.

Definition first_caller : process := arrive 0 (sample_id 20) "hetzner/project" 0 0 false started.
Definition second_caller : process := arrive 1 (sample_id 20) "hetzner/project" 1 1 false first_caller.
Definition third_caller : process := arrive 2 (sample_id 20) "hetzner/project" 2 2 false second_caller.
Definition limited : process := rate_limited "hetzner/project" (5 * Second) 10 third_caller.
Definition caller_of (i : N) (p : process) : caller := default (Caller 0 "" 0 0 Released) (pr_callers p !! i).
Definition freed : process := leave 0 (caller_of 0 limited) 11 limited.
Definition woken : process := turn 2 (caller_of 2 freed) 12 false freed.
Definition admitted_late : process := turn 2 (caller_of 2 woken) (10 + 5 * Second) false woken.

Example third_caller_phases :
  (λ p, (ca_phase (caller_of 0 p), ca_phase (caller_of 1 p), ca_phase (caller_of 2 p)))
    <$> [third_caller; freed; woken; admitted_late]
  = [(InFlight, InFlight, Waiting 0 (2 + 30 * Second)); (Released, InFlight, Waiting 0 (2 + 30 * Second));
     (Released, InFlight, Waiting 2 (10 + 5 * Second)); (Released, InFlight, InFlight)].
Proof. vm_compute. reflexivity. Qed.

Lemma woken_reachable : rtc bstep started woken.
Proof.
  apply (rtc_l _ _ first_caller); [apply bs_arrive; [reflexivity|vm_compute; discriminate|reflexivity]|].
  apply (rtc_l _ _ second_caller); [apply bs_arrive; [vm_compute; reflexivity|vm_compute; discriminate|reflexivity]|].
  apply (rtc_l _ _ third_caller); [apply bs_arrive; [vm_compute; reflexivity|vm_compute; discriminate|reflexivity]|].
  apply (rtc_l _ _ limited).
  { apply (bs_rate_limited _ 0 (caller_of 0 third_caller)); [vm_compute; reflexivity|vm_compute; reflexivity|vm_compute; discriminate]. }
  apply (rtc_l _ _ freed); [apply bs_leave; [vm_compute; reflexivity|vm_compute; discriminate]|].
  apply rtc_once. eapply (bs_turn _ 2 (caller_of 2 freed)); [vm_compute; reflexivity|vm_compute; reflexivity|vm_compute; discriminate].
Qed.

Lemma budget_bounds_witness :
  tally (occupying (sample_id 20)) (pr_callers third_caller) = 2 ∧
  tally (occupying (sample_id 20)) (pr_callers woken) <= 2 ∧ Z.of_nat (size (bg_cooldowns (pr_budget woken))) <= 1000.
Proof.
  split; [vm_compute; reflexivity|]. destruct (budget_bounds woken woken_reachable) as (H1 & _ & H2 & _).
  split; [apply H1|exact H2].
Defined.

Lemma budget_waits_witness :
  (∃ u, quotas (pr_budget woken) !! "hetzner/project" = Some u ∧ qs_until u = 10 + 5 * Second) ∧
  pr_floor woken !! "hetzner/project" = Some (10 + 5 * Second) ∧ 10 + 5 * Second <= pr_clock admitted_late.
Proof.
  split; [eexists; split; vm_compute; reflexivity|]. split; [vm_compute; reflexivity|].
  apply (budget_waits woken admitted_late 2 (caller_of 2 admitted_late) woken_reachable).
  - eapply (bs_turn _ 2 (caller_of 2 woken)); [vm_compute; reflexivity|vm_compute; reflexivity|vm_compute; discriminate].
  - vm_compute. reflexivity.
  - vm_compute. reflexivity.
  - vm_compute. discriminate.
  - vm_compute. reflexivity.
Defined.
