(* ===== verification/Endpoint.v ===== *)
(** [internal/platform/outbound]: which requests may leave ([endpoint.go]) and
    which addresses may be dialled ([dial.go]).

    [net/url] parses and prints; a [URL] is its result.  [path.Clean] and
    [net/netip]'s classifications are written out. *)
From S2P Require Import Prelude GoBase.
Local Open Scope Z_scope.

(** ** URLs *)

Record URL := MkURL {
  u_Scheme : string; u_Opaque : string; u_User : bool; u_Host : string; u_Path : string;
  u_RawPath : string; u_ForceQuery : bool; u_RawQuery : string; u_Fragment : string }.

Abbreviation chars := (list ascii).
Definition of_string (s : string) : chars := String.list_ascii_of_string s.
Definition to_string (l : chars) : string := String.string_of_list_ascii l.

Definition is_digit (c : ascii) : bool := let n := N_of_ascii c in ((48 <=? n) && (n <=? 57))%N.

(** The host and the port of [Host]: split at the last colon when digits follow. *)
Fixpoint last_colon (l : chars) : option (chars * chars) :=
  match l with
  | [] => None
  | c :: r =>
      match last_colon r with
      | Some (h, p) => Some (c :: h, p)
      | None => if decide (c = ":"%char) then Some ([], r) else None
      end
  end.

Definition unbracketed (l : chars) : chars :=
  match l, last l with
  | "["%char :: r, Some "]"%char => take (length r - 1) r
  | _, _ => l
  end.

Definition splitHostPort (host : string) : string * string :=
  let l := of_string host in
  match last_colon l with
  | Some (h, p) => if forallb is_digit p then (to_string (unbracketed h), to_string p) else (to_string (unbracketed l), "")
  | None => (to_string (unbracketed l), "")
  end.
Definition Hostname (u : URL) : string := (splitHostPort (u_Host u)).1.
Definition Port (u : URL) : string := (splitHostPort (u_Host u)).2.

(** ** [path.Clean] *)

Fixpoint split_path (l : chars) : list chars :=
  match l with
  | [] => [[]]
  | c :: r =>
      if decide (c = "/"%char) then [] :: split_path r
      else match split_path r with s :: t => (c :: s) :: t | [] => [[c]] end
  end.

Fixpoint join_path (l : list chars) : chars :=
  match l with [] => [] | [s] => s | s :: r => s ++ "/"%char :: join_path r end.

Definition dot : chars := of_string ".".
Definition dotdot : chars := of_string "..".

(** The elements kept so far, latest first, and those to come. *)
Fixpoint clean_elements (rooted : bool) (kept todo : list chars) : list chars :=
  match todo with
  | [] => reverse kept
  | s :: r =>
      if decide (s = [] ∨ s = dot) then clean_elements rooted kept r
      else if decide (s = dotdot) then
        match kept with
        | k :: kept' => if decide (k = dotdot) then clean_elements rooted (s :: kept) r else clean_elements rooted kept' r
        | [] => if rooted then clean_elements rooted kept r else clean_elements rooted [s] r
        end
      else clean_elements rooted (s :: kept) r
  end.

Definition Clean (path : string) : string :=
  match of_string path with
  | "/"%char :: r => to_string ("/"%char :: join_path (clean_elements true [] (split_path r)))
  | l => match clean_elements false [] (split_path l) with [] => "." | k => to_string (join_path k) end
  end.

(** ** Profiles *)

Record Profile := MkProfile { pf_host : string; pf_prefix : string; pf_exact : bool }.

Definition HetznerCloud := MkProfile "api.hetzner.cloud" "/v1" false.
Definition DigitalOcean := MkProfile "api.digitalocean.com" "/v2" false.
Definition Vultr := MkProfile "api.vultr.com" "/v2" false.
Definition Contabo := MkProfile "api.contabo.com" "/v1" false.
Definition ContaboAuth :=
  MkProfile "auth.contabo.com" "/auth/realms/contabo/protocol/openid-connect/token" false.
Definition NetcupLegacyDNS := MkProfile "ccp.netcup.net" "/run/webservice/servers/endpoint.php" true.

Definition backslash : string := String (ascii_of_N 92) "".
Definition nul : string := String (ascii_of_N 0) "".

Definition validate (p : Profile) (u : URL) : go unit :=
  fail_if (bool_decide (pf_host p = "") || bool_decide (pf_prefix p = "") || negb (bool_decide (u_Scheme u = "https"))
           || negb (bool_decide (u_Opaque u = "")) || u_User u || negb (bool_decide (u_Fragment u = ""))
           || negb (bool_decide (Hostname u = pf_host p))
           || negb (bool_decide (Port u = "")) && negb (bool_decide (Port u = "443"))) NetErrEndpoint ;;
  fail_if (negb (bool_decide (u_RawPath u = "")) || ContainsAny (u_Path u) (backslash +:+ nul)
           || negb (bool_decide (Clean (u_Path u) = u_Path u))
           || negb (bool_decide (u_Path u = pf_prefix p)) && negb (String.prefix (pf_prefix p +:+ "/") (u_Path u)))
    NetErrEndpoint ;;
  fail_if (pf_exact p && (negb (bool_decide (u_Path u = pf_prefix p)) || negb (bool_decide (u_RawQuery u = "JSON"))
                          || u_ForceQuery u)) NetErrEndpoint.

Example clean_examples :
  Clean <$> ["/v1/servers"; "/v1//servers/"; "/v1/../admin"; "/v1/./a/b/../c"; "a/../../b"; ""; "/"]
  = ["/v1/servers"; "/v1/servers"; "/admin"; "/v1/a/c"; "../b"; "."; "/"].
Proof. vm_compute. reflexivity. Qed.

Example host_examples :
  splitHostPort <$> ["api.hetzner.cloud"; "api.hetzner.cloud:443"; "[::1]:80"; "a:b"; "[::1]"]
  = [("api.hetzner.cloud", ""); ("api.hetzner.cloud", "443"); ("::1", "80"); ("a:b", ""); ("::1", "")].
Proof. vm_compute. reflexivity. Qed.

(** ** What a confined path is *)

Lemma join_split l : join_path (split_path l) = l.
Proof.
  induction l as [|c l IH]; [done|]. simpl. case_decide as Hc.
  - simpl. destruct (split_path l) as [|s r] eqn:E; [destruct l; simpl in E; [done|repeat case_match; done]|].
    rewrite <-IH, Hc. done.
  - destruct (split_path l) as [|s [|s' r]] eqn:E; simpl in *; rewrite <-IH; done.
Qed.

Definition element (s : chars) : Prop := "/"%char ∉ s.

Lemma split_path_elements l : Forall element (split_path l).
Proof.
  induction l as [|c l IH]; simpl; [repeat constructor; by apply not_elem_of_nil|]. case_decide as Hc.
  - constructor; [by apply not_elem_of_nil|done].
  - destruct (split_path l) as [|s r]; [repeat constructor; unfold element; set_solver|].
    apply Forall_cons in IH as [Hs Hr]. constructor; [unfold element in *; set_solver|done].
Qed.

Lemma split_element s : element s → split_path s = [s].
Proof.
  unfold element. induction s as [|c s IH]; [done|]. intros Hn. simpl.
  rewrite decide_False by set_solver. rewrite IH by set_solver. done.
Qed.

Lemma split_app s l : element s → split_path (s ++ "/"%char :: l) = s :: split_path l.
Proof.
  unfold element. induction s as [|c s IH]; intros Hn; [done|]. simpl. rewrite decide_False by set_solver.
  rewrite IH by set_solver. done.
Qed.

Lemma split_join ss : ss ≠ [] → Forall element ss → split_path (join_path ss) = ss.
Proof.
  intros Hne Hf. induction Hf as [|s ss Hs Hf IH]; [done|]. destruct ss as [|s' ss]; simpl; [by apply split_element|].
  rewrite split_app by done. f_equal. by apply IH.
Qed.

(** An element that names something: not empty, not ["."], not [".."]. *)
Definition proper (s : chars) : Prop := s ≠ [] ∧ s ≠ dot ∧ s ≠ dotdot.

(** A single element of a path, below which nothing climbs. *)
Definition named (s : chars) : Prop := proper s ∧ element s.

Lemma clean_rooted kept todo : Forall named kept → Forall element todo → Forall named (clean_elements true kept todo).
Proof.
  intros Hk Ht. revert kept Hk. induction Ht as [|s todo Hs Ht IH]; intros kept Hk; simpl.
  - by apply Forall_reverse.
  - case_decide as H1; [by apply IH|]. case_decide as H2.
    + destruct kept as [|k kept]; [by apply IH|]. apply Forall_cons in Hk as [[Hp _] Hk].
      rewrite decide_False by apply Hp. by apply IH.
    + apply IH. constructor; [|done]. split; [|done]. unfold proper. naive_solver.
Qed.

Lemma of_to_string l : of_string (to_string l) = l.
Proof. apply String.list_ascii_of_string_of_list_ascii. Qed.
Lemma to_of_string s : to_string (of_string s) = s.
Proof. apply String.string_of_list_ascii_of_string. Qed.

(** A rooted path that [Clean] leaves alone, other than the root, is the list
    of its named elements. *)
Lemma Clean_fixed path r : of_string path = "/"%char :: r → Clean path = path → r ≠ [] →
  ∃ ss, r = join_path ss ∧ ss ≠ [] ∧ Forall named ss ∧ split_path r = ss.
Proof.
  intros Hp Hc Hr. unfold Clean in Hc. rewrite Hp in Hc.
  set (ss := clean_elements true [] (split_path r)) in Hc.
  assert (Forall named ss) as Hss
    by (apply clean_rooted; [constructor|apply split_path_elements]).
  apply (f_equal of_string) in Hc. rewrite of_to_string, Hp in Hc. injection Hc as Hc.
  assert (ss ≠ []) as Hne by (intros E; rewrite E in Hc; by destruct Hr).
  exists ss. split_and!; [done|done|done|].
  rewrite <-Hc. apply split_join; [done|]. eapply Forall_impl; [exact Hss|by intros ? []].
Qed.

Lemma split_path_app a b : split_path (a ++ "/"%char :: b) = split_path a ++ split_path b.
Proof.
  induction a as [|c a IH]; [done|]. simpl. case_decide; [by rewrite IH|]. rewrite IH.
  pose proof (join_split a) as J. by destruct (split_path a) as [|s r] eqn:E; [destruct a; simpl in *; repeat case_match|].
Qed.

Lemma prefix_app s t : String.prefix s t = true → ∃ r, of_string t = of_string s ++ r.
Proof.
  revert t. induction s as [|c s IH]; intros t H; [by eexists|]. destruct t as [|c' t]; [done|]. simpl in H.
  destruct (ascii_dec c c') as [->|]; [|done]. apply IH in H as [r Hr]. exists r.
  change (c' :: of_string t = c' :: (of_string s ++ r)). by rewrite Hr.
Qed.

Lemma of_string_app s t : of_string (s +:+ t) = of_string s ++ of_string t.
Proof. induction s as [|c s IH]; [done|]. simpl. by f_equal. Qed.

(** The path below a prefix: each element after a slash. *)
Fixpoint below (ss : list chars) : chars := match ss with [] => [] | s :: r => "/"%char :: s ++ below r end.

Lemma join_below ss : ss ≠ [] → "/"%char :: join_path ss = below ss.
Proof.
  induction ss as [|s ss IH]; [done|]. intros _. destruct ss as [|s' ss]; simpl; [by rewrite app_nil_r|].
  do 2 f_equal. by apply IH.
Qed.

Lemma split_below ss : ss ≠ [] → Forall element ss → split_path (below ss) = [] :: ss.
Proof. intros Hne Hs. rewrite <-join_below by done. cbn [split_path]. rewrite decide_True by done. by rewrite split_join. Qed.

Definition Profiles : list Profile := [HetznerCloud; DigitalOcean; Vultr; Contabo; ContaboAuth; NetcupLegacyDNS].

Lemma Profiles_rooted p : p ∈ Profiles → ∃ r, of_string (pf_prefix p) = "/"%char :: r ∧ r ≠ [].
Proof.
  unfold Profiles. rewrite !elem_of_cons, elem_of_nil.
  intros [->|[->|[->|[->|[->|[->|[]]]]]]]; eexists; split; [reflexivity|done|reflexivity|done..|reflexivity|done].
Qed.

(** A clean path that starts with a rooted prefix and a slash. *)
Lemma path_below prefix path r : of_string prefix = "/"%char :: r → r ≠ [] → Clean path = path →
  String.prefix (prefix +:+ "/") path = true →
  ∃ ss, of_string path = of_string prefix ++ below ss ∧ Forall named ss.
Proof.
  intros Hr Hne Hc [t Ht]%prefix_app. rewrite of_string_app, <-app_assoc in Ht. change (of_string "/") with ["/"%char] in Ht.
  simpl in Ht. assert (of_string path = "/"%char :: (r ++ "/"%char :: t)) as Hp by by rewrite Ht, Hr.
  destruct (Clean_fixed _ _ Hp Hc) as (ss & _ & _ & Hf & Hs); [by destruct r|].
  rewrite split_path_app in Hs. exists (split_path t). split.
  - rewrite Ht. f_equal. rewrite <-join_below, join_split; [done|]. destruct t; simpl; [done|]. by repeat case_match.
  - rewrite <-Hs in Hf. by apply Forall_app in Hf as [_ ?].
Qed.

(** C35. A request that may leave goes where its profile says: over https, to the
    profile's host, on the default port, without user information or fragment,
    and to a path, sent as it is written, that is the profile's prefix or lies
    below it: after the prefix come elements, each after one slash and holding
    no slash itself, and none of them empty, ["."] or [".."], so that nothing
    climbs out of the prefix. *)
Theorem validate_confines p u : p ∈ Profiles → validate p u = Ok tt →
  u_Scheme u = "https" ∧ Hostname u = pf_host p ∧ (Port u = "" ∨ Port u = "443") ∧
  u_User u = false ∧ u_Opaque u = "" ∧ u_Fragment u = "" ∧ u_RawPath u = "" ∧
  ∃ ss, of_string (u_Path u) = of_string (pf_prefix p) ++ below ss ∧ Forall named ss ∧
    (pf_exact p = true → ss = [] ∧ u_RawQuery u = "JSON").
Proof.
  intros Hp H. destruct (Profiles_rooted p Hp) as (r0 & Hr0 & Hne0). unfold validate in H.
  apply fail_if_bind in H as [H1 H]. apply fail_if_bind in H as [H2 H3]. apply fail_if_Ok in H3.
  assert (∃ ss, of_string (u_Path u) = of_string (pf_prefix p) ++ below ss ∧ Forall named ss ∧
    (u_Path u = pf_prefix p → ss = [])) as (ss & Hpath & Hss & Hnil).
  { destruct (decide (u_Path u = pf_prefix p)) as [E|Hne]; [exists []; rewrite E, app_nil_r; auto|].
    apply orb_false_iff in H2 as [[_ Hc]%orb_false_iff Hb]. apply negb_false_iff, bool_decide_eq_true in Hc.
    rewrite (bool_decide_eq_false_2 _ Hne) in Hb. apply negb_false_iff in Hb.
    destruct (path_below _ _ _ Hr0 Hne0 Hc Hb) as (ss & ? & ?). exists ss. split_and!; [done|done|by intros ?]. }
  apply orb_false_iff in H2 as [[[Hraw _]%orb_false_iff _]%orb_false_iff _].
  guards; split_and!; try done; auto; exists ss; split_and!; auto; try congruence.
Qed.

Definition servers_url : URL := MkURL "https" "" false "api.hetzner.cloud" "/v1/servers" "" false "page=2" "".

Lemma validate_confines_witness :
  validate HetznerCloud servers_url = Ok tt ∧ validate HetznerCloud (MkURL "https" "" false "api.hetzner.cloud" "/v1/../v2" "" false "" "") ≠ Ok tt ∧
  (∃ ss, of_string "/v1/servers" = of_string "/v1" ++ below ss ∧ Forall named ss) ∧
  ¬ ∃ ss, of_string "/v1/../v2" = of_string "/v1" ++ below ss ∧ Forall named ss.
Proof.
  split; [vm_compute; reflexivity|]. split; [vm_compute; discriminate|].
  destruct (validate_confines HetznerCloud servers_url ltac:(vm_compute; constructor) ltac:(vm_compute; reflexivity))
    as (_ & _ & _ & _ & _ & _ & _ & ss & H1 & H2 & _).
  split; [exists ss; split; [exact H1|exact H2]|].
  intros (t & Ht & Hn). injection Ht as Ht. destruct t as [|s t]; [discriminate Ht|].
  assert (split_path (below (s :: t)) = [] :: s :: t) as Hs by (apply split_below; [done|]; by eapply Forall_impl; [exact Hn|intros ? []]).
  rewrite <-Ht in Hs. vm_compute in Hs. injection Hs as <- _. apply Forall_cons in Hn as [[(_ & _ & Hd) _] _]. by apply Hd.
Defined.

(** ** Addresses *)

(** [netip.Addr]: the zero value, 4 bytes, or 16 bytes and a zone. *)
Inductive Addr := AddrInvalid | AddrV4 (a : Z) | AddrV6 (a : Z) (zone : string).

Definition v4 (a b c d : Z) : Z := Z.lor (Z.shiftl a 24) (Z.lor (Z.shiftl b 16) (Z.lor (Z.shiftl c 8) d)).
Definition v6 (hi lo : Z) : Z := Z.lor (Z.shiftl hi 112) (Z.shiftl lo 96).

Definition Unmap (ip : Addr) : Addr :=
  match ip with
  | AddrV6 a _ => if Z.shiftr a 32 =? 65535 then AddrV4 (Z.land a 4294967295) else ip
  | _ => ip
  end.

Record Prefix := MkPrefix { px_v4 : bool; px_addr : Z; px_bits : Z }.

(** [Prefix.Contains]: never an address of the other family, nor a zoned one. *)
Definition Contains (p : Prefix) (ip : Addr) : bool :=
  match ip with
  | AddrV4 a => px_v4 p && (Z.shiftr (Z.lxor a (px_addr p)) (32 - px_bits p) =? 0)
  | AddrV6 a "" => negb (px_v4 p) && (Z.shiftr (Z.lxor a (px_addr p)) (128 - px_bits p) =? 0)
  | _ => false
  end.

Definition IsValid (ip : Addr) : bool := match ip with AddrInvalid => false | _ => true end.
Definition Zone (ip : Addr) : string := match ip with AddrV6 _ z => z | _ => "" end.
Definition Is6 (ip : Addr) : bool := match ip with AddrV6 _ _ => true | _ => false end.

(** The classifications of an unmapped address. *)
Definition IsLoopback (ip : Addr) : bool :=
  match ip with AddrV4 a => Z.shiftr a 24 =? 127 | AddrV6 a _ => a =? 1 | _ => false end.
Definition IsMulticast (ip : Addr) : bool :=
  match ip with
  | AddrV4 a => Z.land (Z.shiftr a 24) 240 =? 224 | AddrV6 a _ => Z.shiftr a 120 =? 255 | _ => false
  end.
Definition IsLinkLocalUnicast (ip : Addr) : bool :=
  match ip with
  | AddrV4 a => (Z.shiftr a 24 =? 169) && (Z.land (Z.shiftr a 16) 255 =? 254)
  | AddrV6 a _ => Z.land (Z.shiftr a 112) 65472 =? 65152
  | _ => false
  end.
Definition IsGlobalUnicast (ip : Addr) : bool :=
  match ip with
  | AddrInvalid => false
  | AddrV4 a => negb ((a =? 0) || (a =? 4294967295)) && negb (IsLoopback ip) && negb (IsMulticast ip) && negb (IsLinkLocalUnicast ip)
  | AddrV6 a z => negb ((a =? 0) && bool_decide (z = "")) && negb (IsLoopback ip) && negb (IsMulticast ip) && negb (IsLinkLocalUnicast ip)
  end.
Definition IsPrivate (ip : Addr) : bool :=
  match ip with
  | AddrV4 a => (Z.shiftr a 24 =? 10) || (Z.shiftr a 24 =? 172) && (Z.land (Z.shiftr a 16) 240 =? 16)
                || (Z.shiftr a 24 =? 192) && (Z.land (Z.shiftr a 16) 255 =? 168)
  | AddrV6 a _ => Z.land (Z.shiftr a 120) 254 =? 252
  | _ => false
  end.

Definition deniedRanges : list Prefix := [
  MkPrefix true (v4 0 0 0 0) 8; MkPrefix true (v4 100 64 0 0) 10;
  MkPrefix true (v4 192 0 0 0) 24; MkPrefix true (v4 192 0 2 0) 24;
  MkPrefix true (v4 192 88 99 0) 24; MkPrefix true (v4 198 18 0 0) 15;
  MkPrefix true (v4 198 51 100 0) 24; MkPrefix true (v4 203 0 113 0) 24;
  MkPrefix true (v4 240 0 0 0) 4; MkPrefix false (v6 8193 0) 23;
  MkPrefix false (v6 8193 3512) 32; MkPrefix false (v6 8194 0) 16;
  MkPrefix false (v6 16383 0) 20].

Definition publicAddress (ip : Addr) : bool :=
  let ip := Unmap ip in
  if negb (IsValid ip) || negb (bool_decide (Zone ip = "")) || negb (IsGlobalUnicast ip) || IsPrivate ip
     || IsLoopback ip || IsLinkLocalUnicast ip then false
  else if Is6 ip && negb (Contains (MkPrefix false (v6 8192 0) 3) ip) then false
  else forallb (λ prefix, negb (Contains prefix ip)) deniedRanges.

(** The addresses in turn, until the context ends or one answers. *)
Definition dials (ended dialled : nat → bool) : nat → list Addr → list Addr → go nat * list Addr :=
  fix dials (i : nat) (todo done : list Addr) : go nat * list Addr :=
    match todo with
    | [] => (Err NetErrNetwork, done)
    | ip :: r =>
        if ended i then (Err NetErrNetwork, done)
        else
          let done := done ++ [Unmap ip] in
          if dialled i then (Ok i, done) else dials (S i) r done
    end.

(** [safeDial]: what the resolver answered, whether the context had ended
    before each dial, and the dial's result.  The addresses dialled, and the
    connection's index among them. *)
Definition safeDial (host : string) (SplitHostPort : string → option (string * string)) (network address : string)
  (addresses : option (list Addr)) (ended : nat → bool) (dialled : nat → bool) : go nat * list Addr :=
  match SplitHostPort address with
  | Some (name, port) =>
      if negb (bool_decide (name = host)) || negb (bool_decide (port = "443")) || negb (bool_decide (network = "tcp"))
      then (Err NetErrNetwork, [])
      else
        match addresses with
        | None => (Err NetErrNetwork, [])
        | Some l =>
            if bool_decide (l = []) || (32 <? Z.of_nat (length l)) then (Err NetErrNetwork, [])
            else if negb (forallb publicAddress l) then (Err NetErrNetwork, [])
            else
              dials ended dialled O l []
        end
  | None => (Err NetErrNetwork, [])
  end.

(** ** Which addresses are public *)

(** The block of [2^k] addresses at [lo]. *)
Definition block (lo k a : Z) : bool := (lo <=? a) && (a <? lo + 2 ^ k).

Lemma block_shiftr q k a : 0 <= k → block (q * 2 ^ k) k a = (Z.shiftr a k =? q).
Proof.
  intros Hk. unfold block. rewrite Z.shiftr_div_pow2 by done. pose proof (Z.pow_pos_nonneg 2 k ltac:(lia) Hk) as Hp.
  apply eq_true_iff_eq. rewrite andb_true_iff, Z.leb_le, Z.ltb_lt, Z.eqb_eq. split.
  - intros [? ?]. symmetry. apply (Z.div_unique a (2 ^ k) q (a - q * 2 ^ k)); lia.
  - intros <-. pose proof (Z.div_mod a (2 ^ k) ltac:(lia)). pose proof (Z.mod_pos_bound a (2 ^ k) Hp). lia.
Qed.

Lemma shiftr_lxor_eq a p k : 0 <= k → (Z.shiftr (Z.lxor a p) k =? 0) = (Z.shiftr a k =? Z.shiftr p k).
Proof.
  intros Hk. rewrite Z.shiftr_lxor. apply eq_true_iff_eq. rewrite !Z.eqb_eq. split; [apply Z.lxor_eq|intros ->; apply Z.lxor_nilpotent].
Qed.

(** A prefix contains the block at its address, when that is aligned. *)
Lemma contains_block p q k a : 0 <= k → p = q * 2 ^ k → (Z.shiftr (Z.lxor a p) k =? 0) = block p k a.
Proof.
  intros Hk ->. rewrite shiftr_lxor_eq, block_shiftr by done. f_equal. rewrite Z.shiftr_div_pow2 by done.
  apply Z.div_mul. pose proof (Z.pow_pos_nonneg 2 k ltac:(lia) Hk). lia.
Qed.

(** A field of [n] bits above [k] bits. *)
Lemma masked_field x k n : 0 <= k → 0 <= n →
  Z.land x (Z.shiftl (Z.ones n) k) = Z.shiftl ((Z.shiftr x k) mod 2 ^ n) k.
Proof.
  intros Hk Hn. rewrite <-Z.land_ones by done. apply Z.bits_inj'. intros i Hi.
  rewrite Z.land_spec, !Z.shiftl_spec by done. destruct (Z.ltb_spec i k).
  - rewrite !(Z.testbit_neg_r _ (i - k)) by lia. by rewrite andb_false_r.
  - rewrite Z.land_spec, Z.shiftr_spec by lia. do 2 f_equal. lia.
Qed.

(** The blocks that are not globally routable (the IANA special-purpose
    registries), and the IPv6 global unicast block. *)
Definition special_v4 : list (Z * Z) := [
  (v4 0 0 0 0, 24); (v4 10 0 0 0, 24); (v4 100 64 0 0, 22); (v4 127 0 0 0, 24); (v4 169 254 0 0, 16);
  (v4 172 16 0 0, 20); (v4 192 0 0 0, 8); (v4 192 0 2 0, 8); (v4 192 88 99 0, 8); (v4 192 168 0 0, 16);
  (v4 198 18 0 0, 17); (v4 198 51 100 0, 8); (v4 203 0 113 0, 8); (v4 224 0 0 0, 28); (v4 240 0 0 0, 28)].
Definition special_v6 : list (Z * Z) := [
  (v6 8193 0, 105); (v6 8193 3512, 96); (v6 8194 0, 112); (v6 16383 0, 108)].

Definition routable_v4 (a : Z) : bool := forallb (λ '(lo, k), negb (block lo k a)) special_v4.
Definition routable (ip : Addr) : bool :=
  match ip with
  | AddrInvalid => false
  | AddrV4 a => routable_v4 a
  | AddrV6 a z =>
      if block (65535 * 2 ^ 32) 32 a then routable_v4 (a - 65535 * 2 ^ 32)
      else bool_decide (z = "") && block (v6 8192 0) 125 a && forallb (λ '(lo, k), negb (block lo k a)) special_v6
  end.

Lemma mask_octet x : Z.land x 255 = x mod 256.
Proof. exact (Z.land_ones x 8 ltac:(lia)). Qed.
Lemma mask_nibble x : Z.land x 240 = 16 * ((x / 16) mod 16).
Proof.
  change 240 with (Z.shiftl (Z.ones 4) 4). rewrite masked_field by lia.
  rewrite Z.shiftl_mul_pow2, Z.shiftr_div_pow2 by lia. change (2 ^ 4) with 16. lia.
Qed.

(** The tests of [net/netip] as blocks. *)
Ltac block_tac :=
  apply eq_true_iff_eq; unfold block;
  rewrite ?andb_true_iff, ?orb_true_iff, ?Z.leb_le, ?Z.ltb_lt, ?Z.eqb_eq;
  repeat match goal with
  | |- context [v4 ?a ?b ?c ?d] => let x := eval vm_compute in (v4 a b c d) in change (v4 a b c d) with x
  end;
  Z.div_mod_to_equations; lia.

Lemma octet_block a : 0 <= a < 2 ^ 32 → (a / 2 ^ 24 =? 127) = block (v4 127 0 0 0) 24 a ∧
  (a / 2 ^ 24 =? 10) = block (v4 10 0 0 0) 24 a ∧
  (a / 2 ^ 24 =? 169) && ((a / 2 ^ 16) mod 256 =? 254) = block (v4 169 254 0 0) 16 a ∧
  (a / 2 ^ 24 =? 172) && (16 * ((a / 2 ^ 16 / 16) mod 16) =? 16) = block (v4 172 16 0 0) 20 a ∧
  (a / 2 ^ 24 =? 192) && ((a / 2 ^ 16) mod 256 =? 168) = block (v4 192 168 0 0) 16 a ∧
  (16 * ((a / 2 ^ 24 / 16) mod 16) =? 224) = block (v4 224 0 0 0) 28 a.
Proof.
  change (2 ^ 32) with 4294967296. change (2 ^ 24) with 16777216. change (2 ^ 16) with 65536.
  unfold block. change (2 ^ 24) with 16777216. change (2 ^ 16) with 65536. change (2 ^ 20) with 1048576.
  change (2 ^ 28) with 268435456. intros Ha. split_and!; block_tac.
Qed.

(** An aligned prefix contains its block. *)
Definition aligned (w : Z) (p : Prefix) : bool := (px_bits p <=? w) && (px_addr p mod 2 ^ (w - px_bits p) =? 0).

Lemma aligned_block w p a : aligned w p = true →
  (Z.shiftr (Z.lxor a (px_addr p)) (w - px_bits p) =? 0) = block (px_addr p) (w - px_bits p) a.
Proof.
  unfold aligned. rewrite andb_true_iff, Z.leb_le, Z.eqb_eq. intros [? Hmod].
  pose proof (Z.pow_pos_nonneg 2 (w - px_bits p) ltac:(lia) ltac:(lia)).
  apply (contains_block _ (px_addr p / 2 ^ (w - px_bits p))); [lia|].
  pose proof (Z.div_mod (px_addr p) (2 ^ (w - px_bits p)) ltac:(lia)). lia.
Qed.

Lemma Contains_v4 p a : px_v4 p = true → aligned 32 p = true →
  Contains p (AddrV4 a) = block (px_addr p) (32 - px_bits p) a.
Proof. intros H4 Hal. cbn [Contains]. by rewrite H4, aligned_block. Qed.
Lemma Contains_v6 p a : px_v4 p = false → aligned 128 p = true →
  Contains p (AddrV6 a "") = block (px_addr p) (128 - px_bits p) a.
Proof. intros H4 Hal. cbn [Contains]. by rewrite H4, aligned_block. Qed.

Lemma if_false_andb (b c : bool) : (if b then false else c) = negb b && c.
Proof. by destruct b. Qed.

(** Both sides are conjunctions of blocks avoided. *)
Ltac blocks_tac :=
  apply eq_true_iff_eq;
  repeat first [rewrite andb_true_iff|rewrite negb_true_iff|rewrite negb_false_iff|rewrite orb_false_iff];
  split; intros; destruct_and?; repeat split; try assumption.

Lemma public_v4 a : 0 <= a < 2 ^ 32 → publicAddress (AddrV4 a) = routable_v4 a.
Proof.
  intros Ha. unfold publicAddress, routable_v4. cbn [Unmap IsValid Zone Is6 negb orb andb].
  unfold IsGlobalUnicast, IsPrivate, IsLoopback, IsMulticast, IsLinkLocalUnicast.
  rewrite !mask_octet, !mask_nibble, !Z.shiftr_div_pow2 by lia.
  destruct (octet_block a Ha) as (-> & -> & -> & -> & -> & ->).
  rewrite bool_decide_true by done. cbn [deniedRanges special_v4 forallb].
  rewrite !Contains_v4 by reflexivity. cbn [px_addr px_bits negb orb]. rewrite if_false_andb.
  repeat match goal with |- context [32 - ?n] => let x := eval vm_compute in (32 - n) in change (32 - n) with x end.
  assert (block (v4 0 0 0 0) 24 a = false → (a =? 0) = false).
  { intros Hb. apply Z.eqb_neq. intros ->. discriminate Hb. }
  assert (block (v4 240 0 0 0) 28 a = false → (a =? 4294967295) = false).
  { intros Hb. apply Z.eqb_neq. intros ->. discriminate Hb. }
  blocks_tac; auto.
Qed.

(** What 2000::/3 leaves out. *)
Lemma shiftr_land_eq x m v k : Z.land x m = v → Z.land (Z.shiftr x k) (Z.shiftr m k) = Z.shiftr v k.
Proof. intros <-. by rewrite Z.shiftr_land. Qed.

Lemma unicast_v6 a : block (v6 8192 0) 125 a = true →
  (a =? 0) = false ∧ (a =? 1) = false ∧ (Z.shiftr a 120 =? 255) = false ∧
  (Z.land (Z.shiftr a 112) 65472 =? 65152) = false ∧ (Z.land (Z.shiftr a 120) 254 =? 252) = false.
Proof.
  change (v6 8192 0) with (1 * 2 ^ 125). rewrite block_shiftr, Z.eqb_eq by lia. intros H1.
  rewrite !Z.eqb_neq. repeat split; intros Hx.
  - by rewrite Hx in H1.
  - by rewrite Hx in H1.
  - apply (f_equal (λ x, Z.shiftr x 5)) in Hx. rewrite Z.shiftr_shiftr, Z.add_comm in Hx by lia.
    change (5 + 120) with 125 in Hx. by rewrite H1 in Hx.
  - apply (shiftr_land_eq _ _ _ 13) in Hx. rewrite Z.shiftr_shiftr in Hx by lia.
    change (112 + 13) with 125 in Hx. by rewrite H1 in Hx.
  - apply (shiftr_land_eq _ _ _ 5) in Hx. rewrite Z.shiftr_shiftr in Hx by lia.
    change (120 + 5) with 125 in Hx. by rewrite H1 in Hx.
Qed.

Lemma public_v6 a : (Z.shiftr a 32 =? 65535) = false →
  publicAddress (AddrV6 a "") = block (v6 8192 0) 125 a && forallb (λ '(lo, k), negb (block lo k a)) special_v6.
Proof.
  intros Hm. unfold publicAddress, Unmap. rewrite Hm. cbn [IsValid Zone Is6 negb andb].
  unfold IsGlobalUnicast, IsPrivate, IsLoopback, IsMulticast, IsLinkLocalUnicast.
  rewrite !bool_decide_true by done. rewrite andb_true_r.
  cbn [deniedRanges special_v6 forallb].
  repeat match goal with |- context [Contains (MkPrefix true ?x ?n) (AddrV6 a "")] =>
    change (Contains (MkPrefix true x n) (AddrV6 a "")) with false end.
  rewrite !Contains_v6 by reflexivity. cbn [px_addr px_bits negb orb andb].
  repeat match goal with |- context [128 - ?n] => let x := eval vm_compute in (128 - n) in change (128 - n) with x end.
  destruct (block (v6 8192 0) 125 a) eqn:Hb; cbn [negb andb].
  - by destruct (unicast_v6 a Hb) as (-> & -> & -> & -> & ->).
  - by destruct (_ || _).
Qed.

(** A mapped address is judged as the IPv4 address it carries. *)
Lemma Unmap_mapped a : (Z.shiftr a 32 =? 65535) = true →
  0 <= a - 65535 * 2 ^ 32 < 2 ^ 32 ∧ Z.land a 4294967295 = a - 65535 * 2 ^ 32.
Proof.
  rewrite <-block_shiftr by lia. unfold block. rewrite andb_true_iff, Z.leb_le, Z.ltb_lt. intros Ha. split; [lia|].
  change 4294967295 with (Z.ones 32). rewrite Z.land_ones by lia. symmetry. apply (Z.mod_unique a (2 ^ 32) 65535); lia.
Qed.

Definition addr_wf (ip : Addr) : Prop :=
  match ip with AddrInvalid => True | AddrV4 a => 0 <= a < 2 ^ 32 | AddrV6 a _ => 0 <= a < 2 ^ 128 end.

(** The address filter written with [net/netip]'s classifications, a
    required prefix and a list of denied prefixes decides exactly the
    registry's question: an IPv4 address outside every special-purpose block,
    or an unzoned IPv6 global unicast address outside its special-purpose
    blocks, an IPv4-mapped address judged by the address it carries. *)
Theorem publicAddress_routable (ip : Addr) : addr_wf ip → publicAddress ip = routable ip.
Proof.
  destruct ip as [|a|a z]; intros Hwf; [done|exact (public_v4 a Hwf)|]. cbn [routable].
  rewrite block_shiftr by lia. destruct (Z.shiftr a 32 =? 65535) eqn:Hm.
  - destruct (Unmap_mapped a Hm) as [Hr He]. rewrite <-(public_v4 _ Hr), <-He.
    unfold publicAddress. cbn [Unmap]. by rewrite Hm.
  - destruct (bool_decide_reflect (z = "")) as [->|Hz]; [exact (public_v6 a Hm)|].
    unfold publicAddress. cbn [Unmap]. rewrite Hm. cbn [IsValid Zone negb orb]. by rewrite bool_decide_false.
Qed.

Lemma publicAddress_routable_witness :
  publicAddress (AddrV4 (v4 1 1 1 1)) = true ∧ publicAddress (AddrV4 (v4 100 127 0 1)) = false ∧
  publicAddress (AddrV6 (v6 9735 18176) "") = true ∧ publicAddress (AddrV6 (65535 * 2 ^ 32 + v4 10 0 0 1) "") = false ∧
  publicAddress (AddrV6 (v6 8193 3512) "") = routable (AddrV6 (v6 8193 3512) "").
Proof.
  rewrite (publicAddress_routable (AddrV4 (v4 1 1 1 1))) by (by vm_compute).
  split; [by vm_compute|]. split; [by vm_compute|]. split; [by vm_compute|]. split; [by vm_compute|].
  apply publicAddress_routable. by vm_compute.
Defined.

(** ** Dialling *)

Lemma dials_prefix ended dialled i todo done :
  ∃ k, (k ≤ length todo)%nat ∧ (dials ended dialled i todo done).2 = done ++ (Unmap <$> take k todo) ∧
    ∀ j, (dials ended dialled i todo done).1 = Ok j → dialled j = true ∧ S j = (i + k)%nat.
Proof.
  revert i done. induction todo as [|ip todo IH]; intros i done; cbn [dials].
  { exists O. by rewrite app_nil_r. }
  destruct (ended i); [exists O; rewrite app_nil_r; split_and!; [lia|done|done]|].
  destruct (dialled i) eqn:Hd.
  { exists 1%nat. split_and!; [simpl; lia|done|]. intros j [= <-]. split; [done|lia]. }
  destruct (IH (S i) (done ++ [Unmap ip])) as (k & Hk & He & Hj). exists (S k). split; [simpl; lia|].
  rewrite He. split; [by rewrite <-app_assoc|]. intros j ?%Hj. intuition lia.
Qed.

(** A provider connection is opened to its own host only, over tcp to port
    443, when every one of its at most 32 addresses is public: those are
    dialled in order, once each, until one answers. *)
Theorem safeDial_public host split network address addresses ended dialled :
  let r := safeDial host split network address addresses ended dialled in
  r = (Err NetErrNetwork, []) ∨
  ∃ l k, addresses = Some l ∧ split address = Some (host, "443") ∧ network = "tcp" ∧
    (0 < length l ≤ 32)%nat ∧ Forall (λ ip, publicAddress ip = true) l ∧
    r.2 = Unmap <$> take k l ∧ ∀ j, r.1 = Ok j → dialled j = true ∧ S j = k.
Proof.
  unfold safeDial. destruct (split address) as [[name port]|] eqn:Hs; [|by left].
  destruct (bool_decide_reflect (name = host)) as [->|?]; [|by left].
  destruct (bool_decide_reflect (port = "443")) as [->|?]; [|by left].
  destruct (bool_decide_reflect (network = "tcp")) as [->|?]; [|by left]. cbn [negb orb].
  destruct addresses as [l|]; [|by left].
  destruct (bool_decide_reflect (l = [])) as [?|Hne]; [by left|]. cbn [orb].
  destruct (Z.ltb_spec 32 (Z.of_nat (length l))) as [?|Hlen]; [by left|].
  destruct (forallb publicAddress l) eqn:Hpub; [|by left]. right. cbn [negb].
  destruct (dials_prefix ended dialled 0 l []) as (k & Hk & He & Hj). exists l, k.
  split_and!; try done.
  - destruct l; [done|simpl; lia].
  - lia.
  - rewrite forallb_forall in Hpub. apply Forall_forall. intros ip Hip. apply Hpub. by apply list_elem_of_In.
Qed.
