(* ===== verification/Outbound.v ===== *)
(** [internal/platform/outbound/response.go], [retry_after.go] and the
    transports of [budget.go] and [endpoint.go]; [internal/provider/http.go],
    [power.go] and [snapshot_http.go]: a provider call from its guards to the
    requests that leave the process, and what its caller is told.

    The network, the clock and the random source answer one turn of the retry
    loop with an [Attempt]; the trace records what each turn did outside. *)
From S2P Require Import Prelude GoBase Identifier Provider Endpoint.
Local Open Scope Z_scope.

(** ** Integers and instants *)

(** The two's-complement value of 64 bits, and [time.Time.Sub]'s saturation. *)
Definition wrap64 (n : Z) : Z := (n + 2 ^ 63) mod 2 ^ 64 - 2 ^ 63.
Definition Sub (t u : time) : duration := Z.max (- 2 ^ 63) (Z.min (2 ^ 63 - 1) (t - u)).
Definition Unix (t : time) : Z := t / Second.

(** [strconv.ParseInt(s, 10, 64)] *)
Definition decimal (l : chars) : Z := foldl (λ n c, n * 10 + (Z.of_N (N_of_ascii c) - 48)) 0 l.
Definition ParseInt (s : string) : option Z :=
  let '(negative, digits) :=
    match of_string s with
    | "-"%char :: r => (true, r)
    | "+"%char :: r => (false, r)
    | l => (false, l)
    end in
  if bool_decide (digits = []) || negb (forallb is_digit digits) then None
  else
    let n := if (negative : bool) then - decimal digits else decimal digits in
    if (- 2 ^ 63 <=? n) && (n <? 2 ^ 63) then Some n else None.

Example parse_examples :
  ParseInt <$> ["0"; "120"; "-5"; "+7"; ""; "-"; "1_0"; "12a"; "9223372036854775807"; "9223372036854775808"]
  = [Some 0; Some 120; Some (-5); Some 7; None; None; None; None; Some 9223372036854775807; None].
Proof. vm_compute. reflexivity. Qed.

(** ** Responses *)

(** A received response: [Header.Get], the bytes its body yields, and whether
    reading on past them fails rather than ends. *)
Record Response := MkResponse {
  rs_StatusCode : Z; rs_Get : string → string; rs_Body : bytes; rs_Broken : bool }.

Record Failure := MkFailure { fl_Code : string; fl_RetryAfter : duration }.

Definition Failure_error (f : Failure) : error := OutboundFailure (fl_Code f).
Definition failed (code : string) : Failure := MkFailure code 0.

Definition maxMetadataBytes : Z := Z.shiftl 8 20.

Section response.
Context (ParseTime : string → option time).

Definition retryAfter (Get : string → string) (now : time) : duration :=
  let delay :=
    match ParseInt (Get "Retry-After") with
    | Some seconds =>
        if 0 <=? seconds then (if 3600 <? seconds then 3600 else seconds) * Second
        else match ParseTime (Get "Retry-After") with Some date => Sub date now | None => Second end
    | None => match ParseTime (Get "Retry-After") with Some date => Sub date now | None => Second end
    end in
  let delay :=
    match ParseInt (Get "X-Sama-Rate-Reset") with
    | Some seconds =>
        if (Unix now <? seconds) && (wrap64 (seconds - Unix now) <? 3600) then
          let reset := Sub (seconds * Second) now in
          if delay <? reset then reset else delay
        else delay
    | None => delay
    end in
  if delay <? 0 then 0 else if Hour <? delay then Hour else delay.

(** ** Requests and the transports they pass *)

Record Request := MkRequest {
  rq_Method : string; rq_URL : URL; rq_Host : string; rq_Authorization : string; rq_Body : bytes }.

(** One turn of the loop, from outside: whether the budget admits it, what the
    network answers, the clock at the answer, whether the call's context has
    ended, the random draw, and whether the wait outlives the context. *)
Record Attempt := MkAttempt {
  at_admitted : bool; at_reply : option Response; at_now : time; at_ended : bool; at_rand : Z; at_waited : bool }.

Inductive event :=
| Acquired | Released
| Sent (request : Request) (status : option Z)
| Postponed (delay : duration)
| Waited (delay : duration).

(** The client a call uses: its profile, and whether the call's context
    already holds the slot of the same connection and scope. *)
Record Client := MkClient { cl_profile : Profile; cl_nested : bool }.

(** [confinedTransport.RoundTrip] over the network. *)
Definition confined (p : Profile) (r : Request) (w : Attempt) : option Response * list event :=
  if negb (bool_decide (validate p (rq_URL r) = Ok tt))
     || negb (bool_decide (rq_Host r = "")) && negb (bool_decide (rq_Host r = u_Host (rq_URL r)))
  then (None, [])
  else (at_reply w, [Sent r (rs_StatusCode <$> at_reply w)]).

(** [budgetTransport.RoundTrip]; [release] runs when the body is closed. *)
Definition release (c : Client) : list event := if cl_nested c then [] else [Released].
Definition RoundTrip (c : Client) (r : Request) (w : Attempt) : option Response * list event :=
  if negb (cl_nested c) && negb (at_admitted w) then (None, [])
  else
    let acquired := if cl_nested c then [] else [Acquired] in
    let '(response, sent) := confined (cl_profile c) r w in
    match response with
    | None => (None, acquired ++ sent ++ release c)
    | Some s =>
        (Some s, acquired ++ sent ++
          (if rs_StatusCode s =? 429 then [Postponed (retryAfter (rs_Get s) (at_now w))] else []))
    end.

(** [http.Client.Do] with the profile's client, whose [CheckRedirect] refuses:
    a redirect's body is closed and the call fails. *)
Definition redirect (s : Response) : bool :=
  bool_decide (rs_StatusCode s ∈ [301; 302; 303; 307; 308]) && negb (bool_decide (rs_Get s "Location" = "")).
Definition Do (c : Client) (r : Request) (w : Attempt) : option Response * list event :=
  let '(response, tr) := RoundTrip c r w in
  match response with
  | Some s => if redirect s then (None, tr ++ release c) else (Some s, tr)
  | None => (None, tr)
  end.

(** ** The retry loop *)

Section exchange.
Context {A : Type}.
(** The [output] of a call: [nil], or where [json.Unmarshal] writes. *)
Implicit Types (output : option (bytes → option A)) (reply : option Response).

(** What a turn decides: the call returns, or the failure may be retried. *)
Inductive verdict := Return (r : result Failure (option A)) | Retry (f : Failure).

Definition received output reply (now : time) : verdict :=
  match reply with
  | None => Retry (failed "provider_unavailable")
  | Some s =>
      let code := rs_StatusCode s in
      let oversized := maxMetadataBytes <? Z.of_nat (length (rs_Body s)) in
      if (code =? 401) || (code =? 403) then Return (Err (failed "provider_permission_denied"))
      else if rs_Broken s && negb oversized then Retry (failed "provider_unavailable")
      else if oversized then Return (Err (failed "provider_response_invalid"))
      else if (200 <=? code) && (code <? 300) then
        match output with
        | None => Return (Ok None)
        | Some Unmarshal =>
            match Unmarshal (rs_Body s) with
            | Some v => Return (Ok (Some v))
            | None => Return (Err (failed "provider_response_invalid"))
            end
        end
      else if code =? 429 then Retry (MkFailure "provider_rate_limited" (retryAfter (rs_Get s) now))
      else if 500 <=? code then Retry (failed "provider_unavailable")
      else Return (Err (failed "provider_rejected"))
  end.

(** [rand.Int64N(int64(100*time.Millisecond<<attempt) + 1)], then the
    provider's own delay when that is longer. *)
Definition backoff (attempt : nat) (w : Attempt) (f : Failure) : duration :=
  let delay := at_rand w mod (Z.shiftl 100000000 (Z.of_nat attempt) + 1) in
  if delay <? fl_RetryAfter f then fl_RetryAfter f else delay.

Fixpoint attempts_from (c : Client) (request : Request) output (world : nat → Attempt) (remaining attempt : nat)
  : result Failure (option A) * list event :=
  match remaining with
  | O => (Err (failed "provider_unavailable"), [])
  | S remaining =>
      let w := world attempt in
      let '(reply, tr) := Do c request w in
      let tr := match reply with Some _ => tr ++ release c | None => tr end in
      match received output reply (at_now w) with
      | Return r => (r, tr)
      | Retry f =>
          if bool_decide (remaining = O) || at_ended w then (Err f, tr)
          else
            let delay := backoff attempt w f in
            let tr := tr ++ [Waited delay] in
            if negb (at_waited w) then (Err (failed "provider_unavailable"), tr)
            else
              let '(r, tr') := attempts_from c request output world remaining (S attempt) in
              (r, tr ++ tr')
      end
  end.

Definition attempts (method : string) : nat :=
  if bool_decide (method = "GET") || bool_decide (method = "HEAD") then 5 else 1.

Definition RequestJSON (c : Client) (request : Request) output (world : nat → Attempt)
  : result Failure (option A) * list event :=
  attempts_from c request output world (attempts (rq_Method request)) 0.
End exchange.
Arguments verdict : clear implicits.

(** ** The adapters' calls *)

Section calls.
Context (Parse : string → option URL) (String : URL → string).

Definition Profile_URL (p : Profile) (raw : string) : go URL :=
  match Parse raw with
  | Some u => if decide (validate p u = Ok tt) then Ok u else Err NetErrEndpoint
  | None => Err NetErrEndpoint
  end.

(** [http.NewRequestWithContext]: the printed URL is parsed again, and a
    trailing colon of the host dropped. *)
Definition removeEmptyPort (host : string) : string :=
  match last (of_string host) with
  | Some ":"%char => to_string (take (String.length host - 1) (of_string host))
  | _ => host
  end.
Definition NewRequest (method : string) (u : URL) (token : string) (body : bytes) : go Request :=
  match Parse (String u) with
  | Some v =>
      let host := removeEmptyPort (u_Host v) in
      let v := MkURL (u_Scheme v) (u_Opaque v) (u_User v) host (u_Path v) (u_RawPath v) (u_ForceQuery v)
                 (u_RawQuery v) (u_Fragment v) in
      Ok (MkRequest method v host ("Bearer " +:+ token) body)
  | None => Err ProvErrBinding
  end.

(** [mutationStatus]: the status of the last response received. *)
Definition recorded (tr : list event) : Z :=
  foldl (λ status e, match e with Sent _ (Some code) => code | _ => status end) 0 tr.

Definition definite : list Z := [400; 401; 403; 404; 409; 422].

(** The guards [GetJSON], [PostMutation] and [DeleteSnapshotRequest] share. *)
Definition prepared (b expected : Binding) (client : option Client) (p : Profile) (method raw token : string)
  (body : bytes) : go (Client * Request) :=
  match client with
  | None => Err ProvErrBinding
  | Some c =>
      fail_if (negb (bool_decide (b = expected)) || bool_decide (token = "")) ProvErrBinding ;;
      u ← Profile_URL p raw ;
      request ← NewRequest method u token body ;
      Ok (c, request)
  end.

Definition GetJSON {A} (b expected : Binding) (p : Profile) (client : option Client) (raw token : string)
  (out : option (bytes → option A)) (world : nat → Attempt) : go (option A) * list event :=
  match prepared b expected client p "GET" raw token [] with
  | Err e => (Err e, [])
  | Ok (c, request) =>
      let '(r, tr) := RequestJSON c request out world in
      (match r with Ok v => Ok v | Err f => Err (Failure_error f) end, tr)
  end.

(** The last component is what the answer was decoded into. *)
Definition PostMutation {A} (b expected : Binding) (p : Profile) (client : option Client) (raw token : string)
  (body : bytes) (out : option (bytes → option A)) (world : nat → Attempt)
  : Receipt * option error * option A * list event :=
  match prepared b expected client p "POST" raw token body with
  | Err e => (MkReceipt "" "", Some e, None, [])
  | Ok (c, request) =>
      let '(r, tr) := RequestJSON c request out world in
      match r with
      | Err f =>
          if decide (recorded tr ∈ definite) then (MkReceipt "rejected" "", None, None, tr)
          else (MkReceipt "ambiguous" "", Some (Failure_error f), None, tr)
      | Ok v => (MkReceipt "ambiguous" "", None, v, tr)
      end
  end.

Definition DeleteSnapshotRequest (b expected : Binding) (p : Profile) (client : option Client) (raw token : string)
  (world : nat → Attempt) : Receipt * option error * list event :=
  match prepared b expected client p "DELETE" raw token [] with
  | Err e => (MkReceipt "" "", Some e, [])
  | Ok (c, request) =>
      let '(r, tr) := RequestJSON c request (None : option (bytes → option unit)) world in
      match r with
      | Err f =>
          if decide (recorded tr ∈ definite) then (MkReceipt "rejected" "", None, tr)
          else (MkReceipt "ambiguous" "", Some (Failure_error f), tr)
      | Ok _ =>
          if negb (recorded tr =? 204) then (MkReceipt "ambiguous" "", Some InvalidResponse, tr)
          else (MkReceipt "accepted" "", None, tr)
      end
  end.

Definition SnapshotJSONStatus {A} (b expected : Binding) (p : Profile) (client : option Client) (raw token : string)
  (out : option (bytes → option A)) (world : nat → Attempt) : Z * go (option A) * list event :=
  match client with
  | None => (0, Err ProvErrBinding, [])
  | Some _ => let '(r, tr) := GetJSON b expected p client raw token out world in (recorded tr, r, tr)
  end.
End calls.
End response.

(** ** Delays *)

(** A provider's delay is honoured within bounds: the delay is between
    none and one hour, at least the announced [Retry-After] seconds up to an
    hour, and it reaches the announced reset when that is less than an hour
    away, whatever the other header says and however large the numbers. *)
Theorem retryAfter_bounds ParseTime Get now :
  let delay := retryAfter ParseTime Get now in
  0 <= delay <= Hour ∧
  (∀ s, ParseInt (Get "Retry-After") = Some s → 0 <= s → Z.min s 3600 * Second <= delay) ∧
  (∀ s, ParseInt (Get "X-Sama-Rate-Reset") = Some s → Unix now < s < Unix now + 3600 → s * Second <= now + delay).
Proof.
  assert (Hh : Hour = 3600 * Second) by reflexivity. assert (Hs : 0 < Second) by reflexivity.
  assert (Hreset : ∀ s, Unix now < s < Unix now + 3600 →
    wrap64 (s - Unix now) = s - Unix now ∧ Sub (s * Second) now = s * Second - now ∧ s * Second - now <= Hour).
  { intros s Hr. unfold wrap64. rewrite Z.mod_small by lia. split; [lia|].
    pose proof (Z.mod_pos_bound now Second Hs). pose proof (Z.div_mod now Second ltac:(lia)).
    unfold Unix in Hr. assert (0 <= s * Second - now <= Hour) by nia. split; [|lia].
    unfold Sub. assert (Hour < 2 ^ 63 - 1) by reflexivity. lia. }
  unfold retryAfter. split_and!.
  - repeat case_match; guards; lia.
  - repeat case_match; guards; lia.
  - intros s Hp Hs0. rewrite Hp. rewrite (proj2 (Z.leb_le 0 s) Hs0).
    set (d := (if 3600 <? s then 3600 else s) * Second).
    assert (Hd : Z.min s 3600 * Second <= d <= Hour) by (unfold d; case_match; guards; nia).
    repeat case_match; guards; lia.
  - intros s Hp Hr. rewrite Hp. destruct (Hreset s Hr) as (-> & -> & Hle).
    rewrite (proj2 (Z.ltb_lt _ _) (proj1 Hr)), (proj2 (Z.ltb_lt (s - Unix now) 3600)) by lia. cbn [andb].
    set (d := match ParseInt (Get "Retry-After") with Some _ => _ | None => _ end).
    repeat case_match; guards; lia.
Qed.

Lemma retryAfter_bounds_witness :
  let Get := λ k, if decide (k = "Retry-After") then "30" else "1000000045" in
  retryAfter (λ _, None) Get (1000000000 * Second) = 45 * Second ∧
  Z.min 30 3600 * Second <= retryAfter (λ _, None) Get (1000000000 * Second) ∧
  1000000045 * Second <= 1000000000 * Second + retryAfter (λ _, None) Get (1000000000 * Second).
Proof.
  intros Get. destruct (retryAfter_bounds (λ _, None) Get (1000000000 * Second)) as (_ & H1 & H2).
  split; [vm_compute; reflexivity|]. split.
  - apply H1; [vm_compute; reflexivity|lia].
  - apply H2; [vm_compute; reflexivity|]. vm_compute. done.
Defined.

(** ** What a turn does outside *)

Definition is_sent (e : event) : bool := match e with Sent _ _ => true | _ => false end.
Definition is_slot (e : event) : bool := match e with Acquired | Released => true | _ => false end.
Definition sent (tr : list event) : list event := filter (λ e, is_sent e = true) tr.
Definition slots (tr : list event) : list event := filter (λ e, is_slot e = true) tr.

Section turns.
Context (ParseTime : string → option time).

(** The answer to a turn, and its trace once a received body is closed. *)
Definition answer (c : Client) (request : Request) (w : Attempt) : option Response := (Do ParseTime c request w).1.
Definition turn (c : Client) (request : Request) (w : Attempt) : list event :=
  let '(reply, tr) := Do ParseTime c request w in
  match reply with Some _ => tr ++ release c | None => tr end.

(** A turn sends nothing, or the request once, with a target its profile
    allows; it gives back the slot it took. *)
Record turn_ok (c : Client) (request : Request) (w : Attempt) : Prop := {
  tu_sent : sent (turn c request w) = [] ∧ answer c request w = None ∨
    validate (cl_profile c) (rq_URL request) = Ok tt ∧
    sent (turn c request w) = [Sent request (rs_StatusCode <$> at_reply w)] ∧
    (∀ s, answer c request w = Some s → at_reply w = Some s);
  tu_slots : slots (turn c request w) = [] ∨ slots (turn c request w) = [Acquired; Released];
  tu_waited : ∀ d, Waited d ∉ turn c request w;
}.

Lemma confined_cases p r w : confined p r w = (None, []) ∨
  validate p (rq_URL r) = Ok tt ∧ confined p r w = (at_reply w, [Sent r (rs_StatusCode <$> at_reply w)]).
Proof. unfold confined. case_bool_decide; [|by left]. destruct (_ && _); [by left|by right]. Qed.

Lemma turn_correct c request w : turn_ok c request w.
Proof.
  assert (∃ held, held = slots (turn c request w) ∧ (held = [] ∨ held = [Acquired; Released])) as (held & -> & Hheld);
    [eexists; split; [done|]|split; [|exact Hheld|]]; clear;
    unfold turn, answer, Do, RoundTrip, release; destruct (cl_nested c), (at_admitted w); cbn [negb andb];
    destruct (confined_cases (cl_profile c) request w) as [E|[Hv E]]; rewrite ?E; clear E;
    try destruct (at_reply w) as [s|]; try destruct (rs_StatusCode s =? 429); try destruct (redirect s);
    cbn; auto 7; try (intros d Hd; repeat (apply elem_of_cons in Hd as [?|Hd]; [done|]); by apply elem_of_nil in Hd).
  all: right; split_and!; [done|done|by intros ? [=]].
Qed.

Lemma attempts_from_S {A} c request (output : option (bytes → option A)) world n k :
  attempts_from ParseTime c request output world (S n) k =
  match received ParseTime output (answer c request (world k)) (at_now (world k)) with
  | Return r => (r, turn c request (world k))
  | Retry f =>
      if bool_decide (n = O) || at_ended (world k) then (Err f, turn c request (world k))
      else
        let tr := turn c request (world k) ++ [Waited (backoff k (world k) f)] in
        if negb (at_waited (world k)) then (Err (failed "provider_unavailable"), tr)
        else
          let '(r, tr') := attempts_from ParseTime c request output world n (S k) in
          (r, tr ++ tr')
  end.
Proof. cbn [attempts_from]. unfold answer, turn. by destruct (Do _ _ _ _) as [reply tr]. Qed.

(** ** What the caller is told *)

Definition denied (s : Response) : bool := (rs_StatusCode s =? 401) || (rs_StatusCode s =? 403).
Definition oversized (s : Response) : bool := maxMetadataBytes <? Z.of_nat (length (rs_Body s)).
Definition success (s : Response) : bool := (200 <=? rs_StatusCode s) && (rs_StatusCode s <? 300).

(** An answer that says nothing final: none, one that could not be read to
    its end, or one that asks to come back. *)
Definition transient (reply : option Response) : bool :=
  match reply with
  | None => true
  | Some s =>
      negb (denied s) && negb (oversized s)
      && (rs_Broken s || (rs_StatusCode s =? 429) || (500 <=? rs_StatusCode s))
  end.

(** What a final answer means. *)
Definition meaning {A} (output : option (bytes → option A)) (s : Response) : result Failure (option A) :=
  if denied s then Err (failed "provider_permission_denied")
  else if oversized s then Err (failed "provider_response_invalid")
  else if success s then
    match output with
    | None => Ok None
    | Some Unmarshal =>
        match Unmarshal (rs_Body s) with
        | Some v => Ok (Some v) | None => Err (failed "provider_response_invalid")
        end
    end
  else Err (failed "provider_rejected").

(** What a transient answer is reported as: a 429 that could be read is a rate
    limit with the delay it announces, anything else is unavailability. *)
Definition category (reply : option Response) (now : time) : Failure :=
  match reply with
  | Some s => if negb (rs_Broken s) && (rs_StatusCode s =? 429)
              then MkFailure "provider_rate_limited" (retryAfter ParseTime (rs_Get s) now) else failed "provider_unavailable"
  | None => failed "provider_unavailable"
  end.

Lemma received_Some {A} (output : option (bytes → option A)) s now :
  (transient (Some s) = false ∧ received ParseTime output (Some s) now = Return (meaning output s)) ∨
  (transient (Some s) = true ∧ received ParseTime output (Some s) now = Retry (category (Some s) now)).
Proof.
  unfold category, received, transient, meaning, denied, success. fold (oversized s).
  destruct ((rs_StatusCode s =? 401) || (rs_StatusCode s =? 403)) eqn:Hd; [by left|].
  destruct (oversized s); cbn [negb andb]; [rewrite andb_false_r; by left|]. rewrite andb_true_r.
  destruct (rs_Broken s); [by right|]. cbn [orb negb andb].
  destruct ((200 <=? _) && _) eqn:H2.
  { left. split; [guards; apply orb_false_iff; rewrite Z.eqb_neq, Z.leb_gt; lia|]. by repeat case_match. }
  destruct (rs_StatusCode s =? 429); [by right|]. by destruct (500 <=? rs_StatusCode s); [right|left].
Qed.

Lemma received_cases {A} (output : option (bytes → option A)) reply now :
  (∃ s, reply = Some s ∧ transient reply = false ∧ received ParseTime output reply now = Return (meaning output s)) ∨
  (transient reply = true ∧ received ParseTime output reply now = Retry (category reply now)).
Proof. destruct reply as [s|]; [|by right]. destruct (received_Some output s now) as [[? ?]|?]; [left; by exists s|by right]. Qed.

Lemma category_range reply now : 0 <= fl_RetryAfter (category reply now) <= Hour.
Proof.
  destruct reply as [s|]; simpl; [|by vm_compute]. destruct (_ && _); [|by vm_compute]. simpl. unfold retryAfter.
  assert (0 < Hour) by reflexivity. repeat case_match; guards; lia.
Qed.

(** The wait after turn [k]: as long as announced, or a random share of a
    limit that doubles with every turn, whichever is longer. *)
Definition limit (k : nat) : duration := Z.shiftl 100000000 (Z.of_nat k).

Lemma backoff_bounds k w f : fl_RetryAfter f <= backoff k w f <= Z.max (fl_RetryAfter f) (limit k).
Proof.
  unfold backoff. fold (limit k). assert (0 < limit k + 1).
  { unfold limit. rewrite Z.shiftl_mul_pow2 by lia. pose proof (Z.pow_pos_nonneg 2 (Z.of_nat k)). lia. }
  pose proof (Z.mod_pos_bound (at_rand w) (limit k + 1)). case_match; guards; lia.
Qed.

Lemma limit_hour k : (k < 5)%nat → limit k <= Hour.
Proof. intros Hk. do 5 (destruct k as [|k]; [by vm_compute|]). lia. Qed.

(** Turn [i] was transient and was waited out, for [d]: at least what it announced. *)
Definition waited_out (c : Client) (request : Request) (world : nat → Attempt) (i : nat) (d : duration) : Prop :=
  let announced := fl_RetryAfter (category (answer c request (world i)) (at_now (world i))) in
  transient (answer c request (world i)) = true ∧ at_ended (world i) = false ∧ at_waited (world i) = true ∧
  announced <= d <= Z.max announced (limit i).

(** The turns from [k] on, each followed by its wait. *)
Fixpoint earlier_turns (c : Client) (request : Request) (world : nat → Attempt) (k : nat) (waits : list duration) : list event :=
  match waits with
  | [] => []
  | d :: waits => turn c request (world k) ++ [Waited d] ++ earlier_turns c request world (S k) waits
  end.

(** What the last turn makes of the call, and the wait it began in vain. *)
Definition settled {A} (output : option (bytes → option A)) (reply : option Response) (w : Attempt) (exhausted : bool)
  (r : result Failure (option A)) (vain : list event) : Prop :=
  (∃ s, reply = Some s ∧ transient reply = false ∧ r = meaning output s ∧ vain = []) ∨
  (transient reply = true ∧ (exhausted = true ∨ at_ended w = true) ∧ r = Err (category reply (at_now w)) ∧ vain = []) ∨
  (transient reply = true ∧ exhausted = false ∧ at_ended w = false ∧ at_waited w = false ∧
   r = Err (failed "provider_unavailable") ∧ ∃ d, vain = [Waited d] ∧ fl_RetryAfter (category reply (at_now w)) <= d).

Lemma attempts_from_settled {A} c request (output : option (bytes → option A)) world n k r tr :
  attempts_from ParseTime c request output world (S n) k = (r, tr) →
  ∃ waits vain, let j := (length waits + k)%nat in (length waits ≤ n)%nat ∧
    (∀ i d, waits !! i = Some d → waited_out c request world (i + k) d) ∧
    tr = earlier_turns c request world k waits ++ turn c request (world j) ++ vain ∧
    settled output (answer c request (world j)) (world j) (bool_decide (length waits = n)) r vain.
Proof.
  revert k r tr. induction n as [|n IH]; intros k r tr; rewrite attempts_from_S;
    (destruct (received_cases output (answer c request (world k)) (at_now (world k))) as [(s & Hs & Ht & ->)|(Ht & ->)];
      [intros [= <- <-]; exists [], []; simpl; split_and!; [lia|done|by rewrite app_nil_r|left; by exists s]|]).
  - intros [= <- <-]. exists [], []. simpl. split_and!; [lia|done|by rewrite app_nil_r|right; left; auto].
  - cbn [bool_decide decide orb]. destruct (at_ended (world k)) eqn:He.
    { intros [= <- <-]. exists [], []. simpl. split_and!; [lia|done|by rewrite app_nil_r|right; left; auto]. }
    pose proof (backoff_bounds k (world k) (category (answer c request (world k)) (at_now (world k)))) as Hb.
    destruct (at_waited (world k)) eqn:Hw; cbn [negb]; cycle 1.
    { intros [= <- <-]. eexists [], [Waited _]. simpl. split_and!; [lia|done|done|right; right].
      split_and!; [done..|]. eexists. split; [done|]. apply Hb. }
    destruct (attempts_from _ _ _ _ _ (S n) (S k)) as [r1 tr1] eqn:Hrec. intros [= <- <-].
    destruct (IH (S k) r1 tr1 Hrec) as (waits & vain & Hl & Hout & -> & Hset).
    exists (backoff k (world k) (category (answer c request (world k)) (at_now (world k))) :: waits), vain.
    cbn [length earlier_turns]. replace (S (length waits) + k)%nat with (length waits + S k)%nat by lia. split_and!; [lia| | |].
    + intros [|i] d Hd; [injection Hd as <-; unfold waited_out; cbv zeta; split_and!; [done..|apply Hb|apply Hb]|]. replace (S i + k)%nat with (i + S k)%nat by lia. by apply Hout.
    + by rewrite <-!app_assoc.
    + by rewrite (bool_decide_ext (S (length waits) = S n) (length waits = n)) by lia.
Qed.

(** ** What leaves the process *)

(** At most [n] requests, each of them this one, to a target its profile
    allows; every slot taken is given back before the next; waits within an hour. *)
Record contained (c : Client) (request : Request) (n : nat) (tr : list event) : Prop := {
  cn_count : (length (sent tr) ≤ n)%nat;
  cn_request : ∀ q status, Sent q status ∈ tr → q = request ∧ validate (cl_profile c) (rq_URL request) = Ok tt;
  cn_slots : ∃ m, (m ≤ n)%nat ∧ slots tr = concat (replicate m [Acquired; Released]);
  cn_waits : ∀ d, Waited d ∈ tr → 0 <= d <= Hour;
}.

Lemma Sent_sent tr q status : Sent q status ∈ tr ↔ Sent q status ∈ sent tr.
Proof. unfold sent. rewrite list_elem_of_filter. by intuition. Qed.

Lemma turn_contained c request w : contained c request 1 (turn c request w).
Proof.
  destruct (turn_correct c request w) as [Hs Hsl Hw]. split.
  - destruct Hs as [[-> _]|(_ & -> & _)]; simpl; lia.
  - intros q status. rewrite Sent_sent. destruct Hs as [[-> _]|(Hv & -> & _)]; [by intros ?%elem_of_nil|].
    by intros [= -> ->]%list_elem_of_singleton.
  - destruct Hsl as [->| ->]; [exists O|exists 1%nat]; split; [lia|done|lia|done].
  - by intros d Hd%Hw.
Qed.

Lemma contained_mono c request n n' tr : (n ≤ n')%nat → contained c request n tr → contained c request n' tr.
Proof. intros Hn [? ? (m & ? & ?) ?]. split; [lia|done|exists m; split; [lia|done]|done]. Qed.

Lemma contained_app c request n n' tr tr' :
  contained c request n tr → contained c request n' tr' → contained c request (n + n') (tr ++ tr').
Proof.
  intros [H1 H2 (m & Hm & H3) H4] [H1' H2' (m' & Hm' & H3') H4']. split.
  - unfold sent in *. rewrite filter_app, length_app. lia.
  - intros q st [?|?]%elem_of_app; eauto.
  - exists (m + m')%nat. split; [lia|]. unfold slots in *. by rewrite filter_app, H3, H3', replicate_add, concat_app.
  - intros d [?|?]%elem_of_app; eauto.
Qed.

Lemma wait_contained c request d : 0 <= d <= Hour → contained c request 0 [Waited d].
Proof.
  intros Hd. split; [done| |by exists O|].
  - by intros q st ?%list_elem_of_singleton.
  - by intros d' [= ->]%list_elem_of_singleton.
Qed.

Lemma attempts_from_contained {A} c request (output : option (bytes → option A)) world n k : (k + n ≤ 5)%nat →
  contained c request n (attempts_from ParseTime c request output world n k).2.
Proof.
  revert k. induction n as [|n IH]; intros k Hk.
  { split; [done|by intros q st ?%elem_of_nil|by exists O|by intros d ?%elem_of_nil]. }
  pose proof (turn_contained c request (world k)) as Hone.
  rewrite attempts_from_S.
  destruct (received_cases output (answer c request (world k)) (at_now (world k))) as [(s & _ & _ & ->)|(_ & ->)];
    [eapply contained_mono, Hone; lia|].
  destruct (_ || _); [eapply contained_mono, Hone; lia|].
  set (f := category _ _).
  assert (contained c request 1 (turn c request (world k) ++ [Waited (backoff k (world k) f)])) as Hwait.
  { apply (contained_app _ _ 1 0); [done|]. apply wait_contained.
    pose proof (category_range (answer c request (world k)) (at_now (world k))). pose proof (backoff_bounds k (world k) f).
    pose proof (limit_hour k ltac:(lia)). unfold f in *. lia. }
  destruct (negb _); [eapply contained_mono, Hwait; lia|].
  specialize (IH (S k) ltac:(lia)). destruct (attempts_from _ _ _ _ _ n (S k)) as [r tr].
  exact (contained_app _ _ 1 n _ _ Hwait IH).
Qed.
End turns.

(** ** The properties of a call *)

Lemma attempts_S method : ∃ n, attempts method = S n ∧ (n < 5)%nat ∧ (method ≠ "GET" → method ≠ "HEAD" → n = O).
Proof.
  unfold attempts. destruct (bool_decide_reflect (method = "GET")); [by exists 4%nat; split_and!; [|lia|]|].
  destruct (bool_decide_reflect (method = "HEAD")); [by exists 4%nat; split_and!; [|lia|]|].
  exists O. split_and!; [done|lia|done].
Qed.

(** C13. A call is its turns in order, each but the last answered transiently
    and followed by one wait of its own, at least as long as that answer
    announced (a 429's Retry-After and reset, within an hour) and no longer than
    that or the doubling limit.  The last turn settles it: its answer is final
    and decides the result (a denial first, even unread; then a body over the
    limit; then a success, decoded; everything else a rejection); or it is
    transient and no turn or time is left, and it is reported, a 429 with its
    delay; or its own wait outlived the call.  Only a read or a head has more
    than one turn, and five at most. *)
Theorem RequestJSON_settled {A} ParseTime c request (output : option (bytes → option A)) world r tr :
  RequestJSON ParseTime c request output world = (r, tr) →
  ∃ waits vain, let j := length waits in (j < attempts (rq_Method request))%nat ∧
    (rq_Method request ≠ "GET" → rq_Method request ≠ "HEAD" → j = O) ∧
    (∀ i d, waits !! i = Some d → waited_out ParseTime c request world i d) ∧
    tr = earlier_turns ParseTime c request world 0 waits ++ turn ParseTime c request (world j) ++ vain ∧
    settled ParseTime output (answer ParseTime c request (world j)) (world j)
      (bool_decide (S j = attempts (rq_Method request))) r vain.
Proof.
  unfold RequestJSON. destruct (attempts_S (rq_Method request)) as (n & -> & Hn & Hm). intros H.
  destruct (attempts_from_settled _ c request output world n 0 r tr H) as (waits & vain & Hj & Hout & Htr & Hset).
  rewrite Nat.add_0_r in *. exists waits, vain. split_and!; [lia| | |done|].
  - intros H1 H2. specialize (Hm H1 H2). lia.
  - intros i d Hd. specialize (Hout i d Hd). by rewrite Nat.add_0_r in Hout.
  - by rewrite (bool_decide_ext (S (length waits) = S n) (length waits = n)) by lia.
Qed.

(** Whatever the network does, a call sends its request at most five
    times, and once when the method is neither GET nor HEAD; only the given
    request leaves, and only to a target the client's profile allows; each
    budget slot it takes it gives back before it takes another. *)
Theorem RequestJSON_contained {A} ParseTime c request (output : option (bytes → option A)) world :
  contained c request (attempts (rq_Method request)) (RequestJSON ParseTime c request output world).2.
Proof.
  unfold RequestJSON. apply attempts_from_contained. destruct (attempts_S (rq_Method request)) as (n & -> & ? & _). lia.
Qed.

(** A busy provider, then a page. *)
Definition busy : Response :=
  MkResponse 429 (λ k, if decide (k = "Retry-After") then "2" else "") [] false.
Definition page : Response := MkResponse 200 (λ _, "") [123; 125]%N false.
Definition sample_request : Request := MkRequest "GET" servers_url "api.hetzner.cloud" "Bearer token" [].
Definition sample_client : Client := MkClient HetznerCloud false.
Definition sample_world (i : nat) : Attempt :=
  MkAttempt true (Some (if decide (i = O) then busy else page)) 0 false 5 true.
Definition sample_call : result Failure (option nat) * list event :=
  RequestJSON (λ _, None) sample_client sample_request (Some (λ b, Some (length b))) sample_world.

Example sample_trace : sample_call = (Ok (Some 2%nat),
  [Acquired; Sent sample_request (Some 429); Postponed (2 * Second); Released; Waited (2 * Second);
   Acquired; Sent sample_request (Some 200); Released]).
Proof. vm_compute. reflexivity. Qed.

Lemma RequestJSON_settled_witness : ∃ waits, (length waits < 5)%nat ∧ sample_call.1 = Ok (Some 2%nat) ∧
  answer (λ _, None) sample_client sample_request (sample_world (length waits)) = Some page ∧
  ∀ d, waits !! 0%nat = Some d → 2 * Second <= d.
Proof.
  destruct (RequestJSON_settled (λ _, None) sample_client sample_request (Some (λ b, Some (length b))) sample_world
    sample_call.1 sample_call.2 ltac:(vm_compute; reflexivity)) as (waits & vain & Hj & _ & Hout & _ & Hset).
  exists waits. split; [exact Hj|]. split; [vm_compute; reflexivity|]. split.
  - destruct waits as [|d waits]; [|vm_compute; reflexivity].
    destruct Hset as [(s & Hs & Ht & _)|[(_ & [H|H] & _)|(_ & _ & _ & H & _)]]; vm_compute in Hs || vm_compute in H;
      try discriminate.
  - intros d Hd. destruct (Hout _ _ Hd) as (_ & _ & _ & H & _). exact H.
Defined.

(** ** Mutations *)

Section mutations.
Context (ParseTime : string → option time).

Lemma definite_range code : code ∈ definite → 400 <= code <= 422.
Proof. intros Hd. repeat (apply elem_of_cons in Hd as [->|Hd]; [lia|]). by apply elem_of_nil in Hd. Qed.

Lemma recorded_sent tr : recorded tr = recorded (sent tr).
Proof.
  unfold recorded. generalize 0. induction tr as [|e tr IH]; intros n; [done|]. unfold sent in *.
  destruct e; rewrite ?filter_cons_True, ?filter_cons_False by done; simpl; apply IH.
Qed.

(** A request of any other method than GET and HEAD: one turn, no wait, and
    the recorded status is that of the one answer. *)
Lemma RequestJSON_once {A} c request (output : option (bytes → option A)) world r tr :
  rq_Method request ≠ "GET" → rq_Method request ≠ "HEAD" → RequestJSON ParseTime c request output world = (r, tr) →
  contained c request 1 tr ∧ (∀ d, Waited d ∉ tr) ∧
  (∀ q code, Sent q (Some code) ∈ tr → recorded tr = code) ∧
  (recorded tr ≠ 0 → Sent request (Some (recorded tr)) ∈ tr) ∧
  (∀ v, r = Ok v → 200 <= recorded tr < 300).
Proof.
  intros Hg Hh. unfold RequestJSON. destruct (attempts_S (rq_Method request)) as (n & -> & _ & Hn).
  rewrite (Hn Hg Hh), attempts_from_S. clear n Hn Hg Hh. set (w := world O). intros H.
  assert (tr = turn ParseTime c request w ∧ ∀ v, r = Ok v →
    ∃ s, answer ParseTime c request w = Some s ∧ success s = true) as [-> Hok].
  { destruct (received_cases ParseTime output (answer ParseTime c request w) (at_now w)) as [(s & Hs & _ & E)|(_ & E)];
      rewrite E in H; simplify_eq/=; split; try done.
    intros v. unfold meaning. destruct (success s) eqn:Hsu; [by eauto|]. by repeat case_match. }
  split; [apply turn_contained|]. destruct (turn_correct ParseTime c request w) as [Hs _ Hw]. split; [exact Hw|].
  rewrite recorded_sent. setoid_rewrite Sent_sent.
  destruct Hs as [[-> Hnone]|(_ & -> & Hsome)].
  - split_and!; [by intros q code ?%elem_of_nil|done|]. intros v (s & Hs & _)%Hok. congruence.
  - split_and!.
    + intros q code [= _ Hc]%list_elem_of_singleton. by rewrite <-Hc.
    + destruct (at_reply w); [intros _; by apply list_elem_of_singleton|done].
    + intros v (s & Hs & Hsu)%Hok. rewrite (Hsome s Hs). unfold success in Hsu. unfold recorded. simpl. guards. lia.
Qed.

Context (Parse : string → option URL) (String : URL → string).

Lemma prepared_Ok b expected client p method raw token body c request :
  prepared Parse String b expected client p method raw token body = Ok (c, request) →
  client = Some c ∧ b = expected ∧ rq_Method request = method ∧
  rq_Authorization request = "Bearer " +:+ token ∧ rq_Body request = body.
Proof.
  unfold prepared. destruct client as [c0|]; [|done]. intros [Hg H]%fail_if_bind. guards.
  destruct (Profile_URL Parse p raw); [|done]. cbn in H. unfold NewRequest in H.
  destruct (Parse _); [|done]. cbn in H. injection H as -> <-. by split_and!.
Qed.

(** What a mutation's receipt says of the one request that may have left. *)
Record receipt_ok (b expected : Binding) (client : option Client) (method token : string) (body : bytes)
  (receipt : Receipt) (tr : list event) : Prop := {
  rk_count : (length (sent tr) ≤ 1)%nat;
  rk_waits : ∀ d, Waited d ∉ tr;
  rk_request : ∀ q status, Sent q status ∈ tr →
    b = expected ∧ rq_Method q = method ∧ rq_Authorization q = "Bearer " +:+ token ∧ rq_Body q = body ∧
    ∃ c, client = Some c ∧ validate (cl_profile c) (rq_URL q) = Ok tt;
  rk_rejected : rc_Outcome receipt = "rejected" ↔ ∃ q code, Sent q (Some code) ∈ tr ∧ code ∈ definite;
  rk_slots : slots tr = [] ∨ slots tr = [Acquired; Released];
}.

Lemma nothing_sent b expected client method token body receipt : rc_Outcome receipt = "" →
  receipt_ok b expected client method token body receipt [].
Proof.
  intros Hr. split; [simpl; lia|by intros d ?%elem_of_nil|by intros q st ?%elem_of_nil| |by left].
  rewrite Hr. split; [done|]. by intros (q & code & ?%elem_of_nil & _).
Qed.

Lemma receipt_correct {A} b expected client p method raw token body c request (output : option (bytes → option A))
  world r tr receipt :
  method ≠ "GET" → method ≠ "HEAD" → prepared Parse String b expected client p method raw token body = Ok (c, request) →
  RequestJSON ParseTime c request output world = (r, tr) →
  (rc_Outcome receipt = "rejected" ↔ recorded tr ∈ definite ∧ ∃ f, r = Err f) →
  receipt_ok b expected client method token body receipt tr.
Proof.
  intros Hg Hh (Hc & -> & Hm & Hau & Hb)%prepared_Ok Hr Hrej. rewrite <-Hm in Hg, Hh.
  destruct (RequestJSON_once c request output world r tr Hg Hh Hr) as ([H1 H2 (m & Hlm & H3) _] & Hw & Hrec & Hsent & Hok).
  split; [done|done| | |].
  - intros q st [-> Hv]%H2. split_and!; [done..|]. by exists c.
  - rewrite Hrej. split.
    + intros [Hd _]. exists request, (recorded tr). split; [|done]. apply Hsent. intros E.
      apply definite_range in Hd. lia.
    + intros (q & code & Hq & Hd). pose proof (Hrec _ _ Hq) as Hcode. rewrite Hcode. split; [done|].
      destruct r as [v|f]; [|by eauto]. specialize (Hok v eq_refl). rewrite Hcode in Hok.
      exfalso. apply definite_range in Hd. lia.
  - rewrite H3. destruct m as [|[|m]]; [by left|by right|lia].
Qed.

(** A success was the answer to the request that left. *)
Definition answered (tr : list event) (good : Z → Prop) : Prop := ∃ q code, Sent q (Some code) ∈ tr ∧ good code.

Lemma PostMutation_receipt {A} b expected client p raw token body (out : option (bytes → option A)) world
  receipt err v tr :
  PostMutation ParseTime Parse String b expected p client raw token body out world = (receipt, err, v, tr) →
  receipt_ok b expected client "POST" token body receipt tr ∧ rc_Reference receipt = "" ∧
  (rc_Outcome receipt = "" ∧ sent tr = [] ∧ is_Some err ∨ rc_Outcome receipt = "rejected" ∧ err = None ∨
   rc_Outcome receipt = "ambiguous" ∧ (err = None → answered tr (λ code, 200 <= code < 300))).
Proof.
  unfold PostMutation. destruct (prepared _ _ _ _ _ _ "POST" _ _ _) as [[c request]|e] eqn:Hp.
  2: { intros [= <- <- <- <-]. split_and!; [by apply nothing_sent|done|by left]. }
  destruct (RequestJSON _ _ _ _ _) as [r t] eqn:Hr.
  pose proof (λ receipt, receipt_correct b expected client p "POST" raw token body c request out world r t receipt
    ltac:(done) ltac:(done) Hp Hr) as Hok.
  pose proof (prepared_Ok _ _ _ _ _ _ _ _ _ _ Hp) as (_ & _ & Hm & _).
  destruct r as [x|f]; [|case_decide]; intros [= <- <- <- <-];
    (split_and!; [apply Hok; simpl; naive_solver|done|try by auto]);
    (right; right; split; [done|]; intros Hnone; try done).
  clear Hnone. exists request, (recorded t).
  destruct (RequestJSON_once c request out world _ _ ltac:(by rewrite Hm) ltac:(by rewrite Hm) Hr) as (_ & _ & _ & Hs & H2).
  specialize (H2 x eq_refl). split; [apply Hs; lia|done].
Qed.

Lemma DeleteSnapshotRequest_receipt b expected client p raw token world receipt err tr :
  DeleteSnapshotRequest ParseTime Parse String b expected p client raw token world = (receipt, err, tr) →
  receipt_ok b expected client "DELETE" token [] receipt tr ∧ rc_Reference receipt = "" ∧
  (rc_Outcome receipt = "" ∧ sent tr = [] ∧ is_Some err ∨ rc_Outcome receipt = "rejected" ∧ err = None ∨
   rc_Outcome receipt = "ambiguous" ∧ is_Some err ∨
   rc_Outcome receipt = "accepted" ∧ err = None ∧ answered tr (λ code, code = 204)).
Proof.
  unfold DeleteSnapshotRequest. destruct (prepared _ _ _ _ _ _ "DELETE" _ _ _) as [[c request]|e] eqn:Hp.
  2: { intros [= <- <- <-]. split_and!; [by apply nothing_sent|done|by left]. }
  destruct (RequestJSON _ _ _ _ _) as [r t] eqn:Hr.
  pose proof (λ receipt, receipt_correct b expected client p "DELETE" raw token [] c request _ world r t receipt
    ltac:(done) ltac:(done) Hp Hr) as Hok.
  pose proof (prepared_Ok _ _ _ _ _ _ _ _ _ _ Hp) as (_ & _ & Hm & _).
  destruct r as [v|f]; [destruct (Z.eqb_spec (recorded t) 204) as [E|]|case_decide]; cbn [negb]; intros [= <- <- <-];
    (split_and!; [apply Hok; simpl; naive_solver|done|try by eauto 10]).
  right. right. right. split_and!; [done..|]. exists request, 204. split; [|done]. rewrite <-E.
  eapply RequestJSON_once; [by rewrite Hm..|exact Hr|by rewrite E].
Qed.

(** C12. A mutation leaves the process at most once, whatever the network
    does: with the given method, token and body, under the expected binding,
    to a target the profile allows, with no wait and its budget slot given
    back.  The receipt says [rejected] exactly when that request was answered
    with one of the definite denials; [POST] never says [accepted], and a
    deletion only when the provider answered 204. *)
Theorem mutation_at_most_once {A} b expected client p raw token body (out : option (bytes → option A)) world :
  (let '(receipt, err, _, tr) := PostMutation ParseTime Parse String b expected p client raw token body out world in
   receipt_ok b expected client "POST" token body receipt tr ∧ rc_Outcome receipt ≠ "accepted" ∧
   (rc_Outcome receipt = "" → sent tr = [])) ∧
  (let '(receipt, err, tr) := DeleteSnapshotRequest ParseTime Parse String b expected p client raw token world in
   receipt_ok b expected client "DELETE" token [] receipt tr ∧
   (rc_Outcome receipt = "accepted" → err = None ∧ answered tr (λ code, code = 204)) ∧
   (rc_Outcome receipt = "" → sent tr = [])).
Proof.
  split.
  - destruct (PostMutation _ _ _ _ _ _ _ _ _ _ _ _) as [[[receipt err] v] tr] eqn:H.
    destruct (PostMutation_receipt _ _ _ _ _ _ _ _ _ _ _ _ _ H) as (? & _ & [(->&?&?)|[(->&?)|(->&?)]]); done.
  - destruct (DeleteSnapshotRequest _ _ _ _ _ _ _ _ _ _) as [[receipt err] tr] eqn:H.
    destruct (DeleteSnapshotRequest_receipt _ _ _ _ _ _ _ _ _ _ H)
      as (? & _ & [(->&?&?)|[(->&?)|[(->&?)|(->&?&?)]]]); done.
Qed.
End mutations.
