(* ===== verification/Reviews.v ===== *)
(** [internal/operation]: the review service ([review.go], [accept.go],
    [reservation.go], [idempotency.go], [store.go]).  [Prepare] and [Confirm]
    are programs: local reads, a provider inspection outside any transaction,
    and one deciding transaction that reads authority again. *)
From S2P Require Import Prelude GoBase Identifier Roles Schema Tx TxLogic Wp AuditLog Jobs.
From S2P Require Import Membership Grants Enqueue Provider Intent Prog Recent.
Local Open Scope Z_scope.

(** [operation.Service]; a nil pointer is [None] where the code tests it. *)
Record Service := MkService {
  sv_pool : bool; sv_sessions : bool; sv_enabled : bool;
  sv_factories : list string; sv_policy : option Policy }.

Record Review := MkReview {
  rv_ID : uuid; rv_ResourceID : uuid; rv_Action : string; rv_TargetName : string;
  rv_HighImpact : bool; rv_ExpiresAt : time }.

Record Authority := MkAuthority {
  au_binding : Binding; au_provider : string; au_scope : string; au_native : string;
  au_name : string; au_role : string; au_kind : string; au_grants : list string;
  au_verified : list string; au_policy : Z; au_account : string }.

Record stored := MkStored {
  st_target : uuid; st_connection : uuid; st_intent : Intent; st_hash : bytes;
  st_preconditions : bytes; st_credential : Z; st_policy : Z; st_high : bool; st_name : string;
  st_expiry : time; st_consumed : option uuid }.

Record Confirmation := MkConfirmation { cf_ReviewID : uuid; cf_Confirmed : bool; cf_TypedTarget : string }.
Record Accepted := MkAccepted { ac_ID : uuid; ac_State : op_state }.
Record Target := MkTarget { tg_Kind : string; tg_Scope : string; tg_NativeID : string }.

(** ** Authority *)

(** The run that published the resource's generation. *)
Definition published (r : resource) (s : sync_run) : bool :=
  bool_decide (sy_workspace s = rs_workspace r ∧ sy_connection s = rs_connection r
    ∧ sy_scope s = rs_scope r ∧ sy_generation s = rs_generation r
    ∧ sy_status s = "succeeded" ∧ sy_resource_type s = rs_resource_type r).

(** The credential version a connection uses, when it is not revoked. *)
Definition active_credential (d : db) (scope conn : uuid) (c : connection) : option Z :=
  v ← cn_active_version c;
  cv ← credential_versions d !! (scope, conn, v);
  require (bool_decide (cv_revoked_at cv = None)) ;;
  Some v.

(** The joined row [Service.authority] scans: resource, connection, workspace,
    role, grants and credential version. *)
Definition authority_row (actor scope target : uuid) : time → db →
    option (resource * connection * workspace * string * list string * Z) := λ now d,
  r ← resources d !! target;
  require (bool_decide (rs_workspace r = scope ∧ rs_tombstoned_at r = None)) ;;
  c ← connection_in scope (rs_connection r) d;
  w ← workspaces d !! scope;
  m ← member_row scope actor now d;
  g ← connection_grants d !! (scope, rs_connection r, actor);
  v ← active_credential d scope (rs_connection r) c;
  require (exists_where (λ _ s, published r s) (sync_runs d)) ;;
  require (bool_decide ("read" ∈ g) && bool_decide (cn_status c = "active")) ;;
  Some (r, c, w, mb_role m, g, v).

(** [CASE WHEN permissions_verified_at IS NULL THEN '{}' ELSE verified_capabilities END] *)
Definition verified_capabilities (c : connection) : list string :=
  match cn_permissions_verified_at c with None => [] | Some _ => cn_verified_capabilities c end.

Definition authorized (a : Authority) (action : string) (high : bool) : bool :=
  let class := if high || snapshotAction action then "high_impact" else "operate" in
  bool_decide (au_kind a = targetType action) && WithinCeiling (au_role a) class
  && bool_decide (class ∈ au_grants a) && bool_decide (action ∈ au_verified a).

Definition registry_key (a : Authority) : string :=
  (au_provider a ++ "/" ++ bd_family (au_binding a))%string.

(** [s.policy != nil && !s.policy.permits(...)] *)
Definition policy_forbids (s : Service) (a : Authority) (action : string) : bool :=
  match sv_policy s with None => false | Some p => negb (permits p (registry_key a) action) end.

Section service.
Context `{U : UuidApi}.

Definition authority (s : Service) (actor scope target : uuid) : txm Authority :=
  query_row WsErrNotFound WsErrNotFound (rd (lock_workspace scope)) ;;
  '(r, c, w, role, grants, v) ← query_row WsErrNotFound OpErrStore (rd (authority_row actor scope target));
  match NewBinding scope (rs_connection r) (cn_api_family c) v with
  | Err _ => throw OpErrStore
  | Ok binding =>
      mret (MkAuthority binding (cn_provider c) (rs_scope r) (rs_native_id r) (rs_name r) role
              (rs_resource_type r) grants (verified_capabilities c)
              (policyVersion (sv_policy s) (ws_policy_version w)) (cn_account_identity c))
  end.

(** ** Inspection, outside any transaction *)

Definition checked_preconditions (action : string) (p : Preconditions) : go Preconditions :=
  if snapshotAction action && negb (pre_HighImpact p) then Err OpErrProvider
  else if negb (pre_Allowed p) || bool_decide (pre_Fingerprint p = zero_fingerprint) then Err OpErrStale
  else if bool_decide (pre_TargetName p = "") || negb (ValidString (pre_TargetName p))
          || (200 <? RuneCountInString (pre_TargetName p)) || has_control (pre_TargetName p)
  then Err OpErrProvider
  else Ok p.

Definition inspect (s : Service) (a : Authority) (i : Intent) : prog Preconditions :=
  preject (negb (sv_enabled s)) OpErrUnsupported ;;
  let key := factoryKey (registry_key a) (it_Action i) in
  preject (negb (bool_decide (key ∈ sv_factories s)) || policy_forbids s a (it_Action i)) OpErrUnsupported ;;
  reader ← ask (CReviewer key (au_binding a));
  preject (negb reader) OpErrProvider ;;
  answer ← ask (CInspect (au_binding a)
                  (quotaKey (au_provider a) (bd_family (au_binding a)) (au_account a))
                  (it_Action i) (au_native a));
  match answer with
  | Err _ => pthrow OpErrProvider
  | Ok p => Done (checked_preconditions (it_Action i) p)
  end.

(** ** [Prepare] *)

Definition review_check (now : time) (r : action_review) : bool :=
  bool_decide (ar_action r ∈ actions) && (length (ar_intent_hash r) =? 32)%nat
  && (length (ar_precondition_hash r) =? 32)%nat && (0 <? ar_credential_version r)
  && (0 <? ar_policy_version r) && (RuneCountInString (ar_target_name r) <=? 200)
  && (now <? ar_expires_at r) && (ar_expires_at r <=? now + (5 * Minute + 5 * Second)).

Definition insert_review (id : uuid) (r : time → action_review) : sql unit := λ now d,
  require (review_check now (r now)) ;;
  rs ← resources d !! ar_resource (r now);
  require (bool_decide (rs_workspace rs = ar_workspace (r now) ∧ rs_connection rs = ar_connection (r now))) ;;
  require (bool_decide (is_Some (credential_versions d !!
             (ar_workspace (r now), ar_connection (r now), ar_credential_version (r now))))) ;;
  t ← insert_new id (r now) (action_reviews d);
  Some (tt, d <| action_reviews := t |>).

(** Reviews of the workspace that are neither consumed nor expired. *)
Definition pending_reviews (scope : uuid) (now : time) (d : db) : Z :=
  count_where (λ _ r, bool_decide (ar_workspace r = scope) && bool_decide (ar_consumed_by r = None)
                      && (now <? ar_expires_at r)) (action_reviews d).

(** What [Prepare] does after the inspection. *)
Definition prepare_commit (s : Service) (p : Principal) (scope target : uuid) (i : Intent)
  (a : Authority) (pre : Preconditions) : txm Review :=
  now ← go_now;
  reject_if (pre_HighImpact pre && (negb (sv_sessions s) || negb (is_ok (RequireRecent p now))))
    IdErrRecentRequired ;;
  id ← new_id OpErrStore;
  hash ← lift (Digest i scope (pr_UserID p) (bd_connection (au_binding a)) target id);
  now ← go_now;
  let review := MkReview id target (it_Action i) (pre_TargetName pre) (pre_HighImpact pre)
                  (now + 5 * Minute) in
  begin_tx OpErrStore ;;
  current ← authority s (pr_UserID p) scope target;
  reject_if (negb (bd_version (au_binding current) =? bd_version (au_binding a))
             || negb (au_policy current =? au_policy a)
             || negb (authorized current (it_Action i) (pre_HighImpact pre))) OpErrStale ;;
  count ← exec OpErrStore (rd (pending_reviews scope));
  reject_if (100 <=? count) OpErrConflict ;;
  exec OpErrStore (insert_review id (λ now,
    ActionReview scope (pr_UserID p) (bd_connection (au_binding a)) target (it_Action i) hash
      (pre_Fingerprint pre) (bd_version (au_binding a)) (au_policy a) (pre_HighImpact pre)
      (pre_TargetName pre) (rv_ExpiresAt review) now None)) ;;
  commit OpErrStore ;;
  mret review.

Definition Prepare (s : option Service) (p : Principal) (scope target : uuid) (i : Intent) : prog Review :=
  preject (negb (is_ok (Validate i))) OpErrInvalid ;;
  match s with
  | None => pthrow OpErrUnsupported
  | Some s =>
      preject (negb (sv_pool s)) OpErrUnsupported ;;
      a ← tx (begin_tx OpErrStore ;; authority s (pr_UserID p) scope target);
      preject (negb (authorized a (it_Action i) false) && negb (authorized a (it_Action i) true)) OpErrDenied ;;
      pre ← inspect s a i;
      tx (prepare_commit s p scope target i a pre)
  end.

(** ** [Confirm] *)

Definition review_row (actor scope id : uuid) : time → db → option action_review := λ _ d,
  r ← action_reviews d !! id;
  require (bool_decide (ar_workspace r = scope ∧ ar_actor r = actor)) ;;
  Some r.

Definition stored_of (r : action_review) : stored :=
  MkStored (ar_resource r) (ar_connection r) (stored_intent (ar_action r)) (ar_intent_hash r)
    (ar_precondition_hash r) (ar_credential_version r) (ar_policy_version r) (ar_high_impact r)
    (ar_target_name r) (ar_expires_at r) (ar_consumed_by r).

Definition load (actor scope id : uuid) : txm stored :=
  r ← query_row WsErrNotFound OpErrStore (rd (review_row actor scope id));
  match DecodeStored (ar_action r) with
  | Err _ => throw OpErrStore
  | Ok _ => mret (stored_of r)
  end.

Definition check (s : Service) (p : Principal) (a : Authority) (r : stored) (c : Confirmation) (now : time)
  : go unit :=
  fail_if (negb (bool_decide (st_consumed r = None)) || negb (After (st_expiry r) now)
           || negb (bool_decide (st_connection r = bd_connection (au_binding a)))
           || negb (st_credential r =? bd_version (au_binding a))
           || negb (st_policy r =? au_policy a)) OpErrStale ;;
  fail_if (negb (authorized a (it_Action (st_intent r)) (st_high r))) OpErrDenied ;;
  if st_high r then
    fail_if (negb (bool_decide (cf_TypedTarget c = st_name r))) OpErrInvalid ;;
    fail_if (negb (sv_sessions s) || negb (is_ok (RequireRecent p now))) IdErrRecentRequired
  else Ok tt.

(** The operation this actor already submitted under this key. *)
Definition resolve_row (scope actor : uuid) (key : string) : time → db → option (uuid * operation) := λ now d,
  '(id, o) ← head (filter (λ '(_, o), op_workspace o = scope ∧ op_actor o = actor ∧ op_idempotency_key o = key)
                     (map_to_list (operations d)));
  require (bool_decide (is_Some (member_row scope actor now d)) && open_workspace d scope
           && bool_decide ("read" ∈ granted d scope (op_connection o) actor)) ;;
  Some (id, o).

Definition Resolve (scope actor : uuid) (key : string) (hash : bytes) : txm (option Accepted) :=
  reject_if (negb (ValidKey key)) OpErrInvalid ;;
  found ← exec OpErrStore (rd (resolve_row scope actor key));
  match found with
  | None => mret None
  | Some (id, o) =>
      reject_if (negb (bool_decide (op_intent_hash o = hash))) OpErrConflict ;;
      mret (Some (MkAccepted id (op_st o)))
  end.

(** ** Reservations ([reservation.go]) *)

Definition lock_of (workspace connection : uuid) (t : Target) (kind : string) : lock_key :=
  (workspace, connection, tg_Kind t, kind, tg_Scope t, tg_NativeID t).

(** [ON CONFLICT DO NOTHING RETURNING fencing_version]: the primary key and
    UNIQUE(workspace_id, operation_id). *)
Definition insert_lock (workspace id : uuid) (k : lock_key) : sql (option Z) := λ _ d,
  let n := fencing_sequence d + 1 in
  if bool_decide (is_Some (resource_locks d !! k))
     || exists_where (λ '(w, _, _, _, _, _) l, bool_decide (w = workspace ∧ rl_operation l = id)) (resource_locks d)
  then Some (None, d <| fencing_sequence := n |>)
  else Some (Some n, d <| resource_locks ::= <[k := ResourceLock id n]> |> <| fencing_sequence := n |>).

Definition Reserve (workspace connection id : uuid) (targets : list Target) : txm Z :=
  match targets with
  | [target] =>
      reject_if (negb (bool_decide (tg_Kind target = "resource")) && negb (bool_decide (tg_Kind target = "creation"))
                 || (len (tg_Scope target) =? 0) || (128 <? len (tg_Scope target))
                 || (len (tg_NativeID target) =? 0) || (512 <? len (tg_NativeID target))) OpErrInvalid ;;
      '(state, r) ← query_row OpErrStore OpErrStore (rd (λ _ d,
         o ← operations d !! id;
         require (bool_decide (op_workspace o = workspace ∧ op_connection o = connection)) ;;
         r ← resources d !! op_resource o;
         require (bool_decide (rs_workspace r = workspace ∧ rs_connection r = connection)) ;;
         Some (op_st o, r)));
      reject_if (negb (bool_decide (state = Queued))
                 || bool_decide (tg_Kind target = "resource")
                    && (negb (bool_decide (rs_scope r = tg_Scope target))
                        || negb (bool_decide (rs_native_id r = tg_NativeID target)))) OpErrInvalid ;;
      let k := lock_of workspace connection target (rs_resource_type r) in
      fence ← exec OpErrStore (insert_lock workspace id k);
      match fence with
      | Some fence => mret fence
      | None =>
          query_row OpErrBusy OpErrStore (rd (λ _ d,
            l ← resource_locks d !! k;
            require (bool_decide (rl_operation l = id)) ;;
            Some (rl_fencing_version l)))
      end
  | _ => throw OpErrInvalid
  end.

(** [DELETE FROM resource_locks WHERE workspace_id=$1 AND operation_id=$2] *)
Definition delete_locks (workspace id : uuid) : sql nat := λ _ d,
  let '(n, t) := delete_where (λ '(w, _, _, _, _, _) l, bool_decide (w = workspace ∧ rl_operation l = id))
                   (resource_locks d) in
  Some (n, d <| resource_locks := t |>).

Definition operation_in (workspace id : uuid) (d : db) : option operation :=
  o ← operations d !! id; require (bool_decide (op_workspace o = workspace)) ;; Some o.

Definition ReleaseTerminal (workspace id : uuid) : txm unit :=
  o ← query_row OpErrStore OpErrStore (rd (λ _ d, operation_in workspace id d));
  reject_if (negb (terminal (op_st o))) OpErrState ;;
  exec OpErrStore (delete_locks workspace id) ;;
  mret tt.

(** ** Events ([store.go]) *)

Definition insert_event (id workspace op : uuid) (sequence : Z) (from to : string) : sql unit := λ now d,
  require (bool_decide (is_Some (operation_in workspace op d))) ;;
  require (negb (exists_where (λ _ e, bool_decide (oe_workspace e = workspace ∧ oe_operation e = op
                                                   ∧ oe_sequence e = sequence)) (operation_events d))) ;;
  t ← insert_new id (OperationEvent workspace op sequence from to now) (operation_events d);
  Some (tt, d <| operation_events := t |>).

Definition AppendEvent (workspace id : uuid) (sequence : Z) (from to : string) : txm unit :=
  event ← new_id OpErrStore;
  reject_if (sequence <? 1) OpErrStore ;;
  exec OpErrStore (insert_event event workspace id sequence from to).

(** ** Acceptance ([accept.go]) *)

Definition insert_operation (id : uuid) (o : time → operation) : sql unit := λ now d,
  let o := o now in
  require ((length (op_intent_hash o) =? 32)%nat && (1 <=? RuneCountInString (op_idempotency_key o))
           && (RuneCountInString (op_idempotency_key o) <=? 128) && (now <? op_deadline o)) ;;
  r ← resources d !! op_resource o;
  require (bool_decide (rs_workspace r = op_workspace o ∧ rs_connection r = op_connection o)) ;;
  v ← action_reviews d !! op_review o;
  require (bool_decide (ar_workspace v = op_workspace o ∧ ar_connection v = op_connection o)) ;;
  require (bool_decide (is_Some (credential_versions d !!
             (op_workspace o, op_connection o, op_credential_version o)))) ;;
  require (negb (exists_where (λ _ p, bool_decide (op_workspace p = op_workspace o ∧
             (op_actor p = op_actor o ∧ op_idempotency_key p = op_idempotency_key o
              ∨ op_review p = op_review o))) (operations d))) ;;
  t ← insert_new id o (operations d);
  Some (tt, d <| operations := t |>).

(** The trigger [preserve_action_review]: a review is consumed once. *)
Definition consume_review (review id : uuid) : sql unit := λ _ d,
  match action_reviews d !! review with
  | None => Some (tt, d)
  | Some r =>
      require (bool_decide (ar_consumed_by r = None ∨ ar_consumed_by r = Some id)) ;;
      Some (tt, d <| action_reviews ::= <[review := r <| ar_consumed_by := Some id |>]> |>)
  end.

(** The first transaction: idempotent recovery, or what the inspection needs. *)
Definition confirm_load (s : Service) (p : Principal) (scope : uuid) (key : string) (c : Confirmation)
  : txm (Accepted + (Authority * stored * bytes)) :=
  begin_tx OpErrStore ;;
  query_row WsErrNotFound WsErrNotFound (rd (lock_workspace scope)) ;;
  r ← load (pr_UserID p) scope (cf_ReviewID c);
  hash ← or_fail OpErrStale
           (lift (Digest (st_intent r) scope (pr_UserID p) (st_connection r) (st_target r) (cf_ReviewID c)));
  reject_if (negb (bool_decide (hash = st_hash r))) OpErrStale ;;
  found ← Resolve scope (pr_UserID p) key hash;
  match found with
  | Some result => mret (inl result)
  | None =>
      a ← authority s (pr_UserID p) scope (st_target r);
      now ← go_now;
      lift (check s p a r c now) ;;
      mret (inr (a, r, hash))
  end.

(** The second: review, reservation, operation, job, event and audit together. *)
Definition accept (p : Principal) (scope : uuid) (key : string) (c : Confirmation) (request : string)
  (r : stored) (current : Authority) (hash : bytes) : txm Accepted :=
  limit ← query_row OpErrStore OpErrStore (rd (λ _ d, ws_queue_limit <$> workspaces d !! scope));
  count ← exec OpErrStore (rd (λ _ d, count_live scope d));
  reject_if (limit <=? count) OpErrQuota ;;
  id ← new_id OpErrStore;
  jobID ← new_id OpErrStore;
  now ← go_now;
  let deadline := now + 30 * Minute in
  exec OpErrStore (insert_operation id (λ now,
    Operation scope (pr_UserID p) (st_connection r) (st_target r) (it_Action (st_intent r)) hash key
      (cf_ReviewID c) (st_credential r) (st_policy r) Queued 1 1 deadline now now None)) ;;
  Reserve scope (st_connection r) id [MkTarget "resource" (au_scope current) (au_native current)] ;;
  or_fail OpErrStore
    (InsertOperation (MkRecord id jobID scope (st_connection r) "operation_dispatch" 3 deadline)) ;;
  exec OpErrStore (consume_review (cf_ReviewID c) id) ;;
  AppendEvent scope id 1 "" "queued" ;;
  event ← NewID OpErrStore;
  or_fail OpErrStore
    (Append (MkEvent event scope ActorUser (Some (pr_UserID p)) "operation.accepted" request
       {["operation_id" := uuid_String id; "resource_id" := uuid_String (st_target r)]})) ;;
  mret (MkAccepted id Queued).

Definition confirm_commit (s : Service) (p : Principal) (scope : uuid) (key : string) (c : Confirmation)
  (request : string) (hash : bytes) (pre : Preconditions) : txm Accepted :=
  begin_tx OpErrStore ;;
  query_row WsErrNotFound WsErrNotFound (rd (lock_workspace scope)) ;;
  found ← Resolve scope (pr_UserID p) key hash;
  match found with
  | Some result => mret result
  | None =>
      r ← load (pr_UserID p) scope (cf_ReviewID c);
      current ← authority s (pr_UserID p) scope (st_target r);
      now ← go_now;
      lift (check s p current r c now) ;;
      reject_if (negb (bool_decide (hash = st_hash r))
                 || negb (bool_decide (pre_Fingerprint pre = st_preconditions r))) OpErrStale ;;
      accepted ← accept p scope key c request r current hash;
      commit OpErrStore ;;
      mret accepted
  end.

Definition Confirm (s : option Service) (p : Principal) (scope : uuid) (key : string) (c : Confirmation)
  (request : string) : prog Accepted :=
  match s with
  | None => pthrow OpErrUnsupported
  | Some s =>
      preject (negb (sv_pool s)) OpErrUnsupported ;;
      preject (negb (ValidKey key) || negb (is_v7 (cf_ReviewID c)) || negb (cf_Confirmed c)) OpErrInvalid ;;
      first ← tx (confirm_load s p scope key c);
      match first with
      | inl result => mret result
      | inr (a, r, hash) =>
          pre ← inspect s a (st_intent r);
          preject (negb (bool_decide (pre_Fingerprint pre = st_preconditions r))
                   || negb (Bool.eqb (pre_HighImpact pre) (st_high r))
                   || negb (bool_decide (pre_TargetName pre = st_name r))) OpErrStale ;;
          tx (confirm_commit s p scope key c request hash pre)
      end
  end.
End service.
