(* ===== verification/History.v ===== *)
(** The histories a workspace shows: operations with their events
    ([internal/operation/read.go]) and audit entries
    ([internal/audit/read.go]).  Each is one statement outside a transaction,
    newest first, and its position is the text of a cursor struct in base64.

    How [time.Time] is written in JSON depends on the zone of the process:
    [time_json] is a parameter. *)
From S2P Require Import Prelude GoBase Identifier Sha256 Base64 Json Roles Schema Tx TxLogic.
From S2P Require Import Wp AuditLog Paging Membership Grants Provider Sample Reads.
Local Open Scope Z_scope.

(** ** [operation/read.go] *)

Record EventView := MkEventView { hv_Sequence : Z; hv_State : string; hv_CreatedAt : time }.

Record View := MkView {
  vw_id : uuid; vw_ConnectionID : uuid; vw_ResourceID : uuid; vw_ActorID : uuid; vw_Action : string;
  vw_State : string; vw_ReservationReleased : bool; vw_Uncertain : bool; vw_TargetName : string;
  vw_NativeID : string; vw_Provider : string; vw_AccountIdentity : string; vw_Region : string;
  vw_ProviderReference : option string; vw_CreatedAt : time; vw_UpdatedAt : time; vw_Events : list EventView }.

Record historyCursor := HistoryCursor { hc_Workspace : uuid; hc_Actor : uuid; hc_At : time; hc_ID : uuid }.

(** The last twenty events in the order of their sequence numbers. *)
Definition event_view (o : operation_event) : EventView :=
  MkEventView (oe_sequence o)
    (if decide (oe_to o ∈ ["queued"; "dispatching"; "waiting_provider"; "reconciling"; "unknown"; "succeeded"; "failed"; "cancelled"])
     then oe_to o else "unknown") (oe_created_at o).
Definition events_view (d : db) (scope id : uuid) : list EventView :=
  event_view <$> order_by Z.lt oe_sequence (take 20 (order_by newest oe_sequence
    (selected (λ _ o, require (bool_decide (oe_workspace o = scope) && bool_decide (oe_operation o = id)) ;; Some o)
       (operation_events d)))).

Definition operation_view (actor scope target : uuid) (d : db) (id : uuid) (o : operation) : option View :=
  require (bool_decide (op_workspace o = scope)) ;;
  read_authority d actor scope (op_connection o) ;;
  c ← connection_in scope (op_connection o) d;
  r ← resources d !! op_resource o;
  require (bool_decide (rs_workspace r = scope) && bool_decide (rs_connection r = op_connection o)) ;;
  ar ← action_reviews d !! op_review o;
  require (bool_decide (ar_workspace ar = scope) && bool_decide (ar_connection ar = op_connection o)) ;;
  require (bool_decide (target = Nil) || bool_decide (id = target)) ;;
  Some (MkView id (op_connection o) (op_resource o) (op_actor o) (op_action o) (op_state_text (op_st o))
          (exists_where (λ _ x, bool_decide (or_workspace x = scope) && bool_decide (or_operation x = id))
             (operation_resolutions d))
          (bool_decide (op_state_text (op_st o) = "unknown")) (ar_target_name ar) (rs_native_id r) (cn_provider c)
          (cn_account_identity c) (dt_region (rs_details r)) (op_provider_reference o) (op_created_at o) (op_updated_at o)
          (events_view d scope id)).

Definition operations_of (actor scope target : uuid) (d : db) : list View :=
  selected (operation_view actor scope target d) (operations d).

(** The position of a row, and the position SQL understands: the nil
    identifier stands for the start. *)
Definition view_key (v : View) : option (time * uuid) := Some (vw_CreatedAt v, vw_id v).
Definition sql_position (at_ : time) (id : uuid) : option (time * uuid) :=
  if decide (id = Nil) then None else Some (at_, id).

Section history.
Context `{U : UuidApi} (time_json : time → string).

Definition history_text (c : historyCursor) : string :=
  object [field "Workspace" (json_string (uuid_String (hc_Workspace c)));
          field "Actor" (json_string (uuid_String (hc_Actor c)));
          field "At" (json_string (time_json (hc_At c))); field "ID" (json_string (uuid_String (hc_ID c)))].

Context `{J : !CursorJSON history_text}.

Definition history_position (actor scope target : uuid) (position : string) : go historyCursor :=
  let after := HistoryCursor scope actor zero_time Nil in
  if decide (position = "") then Ok after
  else if negb (bool_decide (target = Nil)) then Err WsErrInvalid
  else match decode_position history_text after position with
       | None => Err WsErrInvalid
       | Some after =>
           if negb (bool_decide (hc_Workspace after = scope)) || negb (bool_decide (hc_Actor after = actor))
              || (hc_At after =? zero_time) || negb (is_v7 (hc_ID after))
           then Err WsErrInvalid else Ok after
       end.

Definition Read (actor scope target : uuid) (limit : Z) (position : string) : txm (list View * option string) :=
  reject_if ((limit <? 1) || (200 <? limit)) WsErrInvalid ;;
  after ← lift (history_position actor scope target position);
  rows ← pool_exec WsErrStore (rd (λ _ d,
    take (S (Z.to_nat limit)) (order_by recency view_key
      (beyond recency view_key (sql_position (hc_At after) (hc_ID after)) (operations_of actor scope target d)))));
  reject_if (negb (bool_decide (target = Nil)) && bool_decide (rows = [])) WsErrNotFound ;;
  let '(data, last) := cut (Z.to_nat limit) rows in
  mret (data, (λ v, encode_position history_text (HistoryCursor (hc_Workspace after) (hc_Actor after) (vw_CreatedAt v) (vw_id v)))
                <$> last).

(** ** [audit/read.go] *)

Record Filters := MkFilters { fl_Actor : uuid; fl_Action : string; fl_Target : uuid }.

Record Entry := MkEntry {
  en_id : uuid; en_ActorKind : string; en_ActorID : option uuid; en_Action : string; en_CreatedAt : time;
  en_Metadata : gmap string string }.

Record cursor := Cursor { cu_Workspace : uuid; cu_Actor : uuid; cu_Filter : string; cu_At : time; cu_ID : uuid }.

Definition filters_text (f : Filters) : string :=
  object [field "Actor" (json_string (uuid_String (fl_Actor f))); field "Action" (json_string (fl_Action f));
          field "Target" (json_string (uuid_String (fl_Target f)))].

Definition cursor_text (c : cursor) : string :=
  object [field "Workspace" (json_string (uuid_String (cu_Workspace c)));
          field "Actor" (json_string (uuid_String (cu_Actor c))); field "Filter" (json_string (cu_Filter c));
          field "At" (json_string (time_json (cu_At c))); field "ID" (json_string (uuid_String (cu_ID c)))].

Context `{JC : !CursorJSON cursor_text}.

(** [EXISTS(SELECT 1 FROM connection_grants g WHERE ... AND 'read'=ANY(g.actions))] *)
Definition reads_connection (d : db) (actor scope : uuid) (matches : uuid → bool) : bool :=
  exists_where (λ '(w, c, u) actions,
    bool_decide (w = scope) && bool_decide (u = actor) && matches c && bool_decide ("read" ∈ actions)) (connection_grants d).

(** The text an entry's metadata has for a field. *)
Definition named (e : audit_event) (name : string) (id : uuid) : bool :=
  bool_decide (ae_metadata e !! name = Some (uuid_String id)).

Definition audit_authority (d : db) (actor scope : uuid) (role : string) (e : audit_event) : bool :=
  (if String.prefix "connection." (ae_event_type e) then reads_connection d actor scope (named e "connection_id")
   else if String.prefix "operation." (ae_event_type e) then
     exists_where (λ id o,
       bool_decide (op_workspace o = scope) && named e "operation_id" id
       && bool_decide ("read" ∈ granted d scope (op_connection o) actor)) (operations d)
   else bool_decide (role ∈ ["owner"; "admin"]) || bool_decide (ae_actor_id e = Some actor))
  && (bool_decide (ae_metadata e !! "resource_id" = None)
      || exists_where (λ id r,
           bool_decide (rs_workspace r = scope) && named e "resource_id" id
           && bool_decide ("read" ∈ granted d scope (rs_connection r) actor)) (resources d)).

Definition audit_filtered (f : Filters) (e : audit_event) : bool :=
  (bool_decide (fl_Actor f = Nil) || bool_decide (ae_actor_id e = Some (fl_Actor f)))
  && (bool_decide (fl_Action f = "") || bool_decide (ae_event_type e = fl_Action f))
  && (bool_decide (fl_Target f = Nil)
      || existsb (λ name, named e name (fl_Target f)) ["connection_id"; "operation_id"; "resource_id"; "member_id"]).

Definition allowed_metadata (action : string) (m : gmap string string) : gmap string string :=
  filter (λ '(k, _), k ∈ default [] (metadataFields action)) m.

Definition audit_row (actor scope : uuid) (f : Filters) (d : db) (id : uuid) (e : audit_event) : option Entry :=
  require (bool_decide (ae_workspace e = scope) && open_workspace d scope) ;;
  m ← memberships d !! (scope, actor);
  require (enabled d actor && audit_filtered f e && audit_authority d actor scope (mb_role m) e) ;;
  Some (MkEntry id (ae_actor_kind e) (ae_actor_id e) (ae_event_type e) (ae_created_at e)
          (allowed_metadata (ae_event_type e) (ae_metadata e))).

Definition entries_of (actor scope : uuid) (f : Filters) (d : db) : list Entry :=
  selected (audit_row actor scope f d) (audit_events d).

Definition entry_key (e : Entry) : option (time * uuid) := Some (en_CreatedAt e, en_id e).

Definition audit_digest (f : Filters) : string := hex (Sum256 (string_bytes (filters_text f))).

Definition audit_position (actor scope : uuid) (f : Filters) (position : string) : go cursor :=
  let after := Cursor scope actor (audit_digest f) zero_time Nil in
  if decide (position = "") then Ok after
  else match decode_position cursor_text after position with
       | None => Err AuditErrReadInvalid
       | Some after =>
           if negb (bool_decide (cu_Workspace after = scope)) || negb (bool_decide (cu_Actor after = actor))
              || negb (bool_decide (cu_Filter after = audit_digest f)) || negb (isEntityID (cu_ID after))
              || (cu_At after =? zero_time)
           then Err AuditErrReadInvalid else Ok after
       end.

Definition List (actor scope : uuid) (f : Filters) (limit : Z) (position : string) : txm (list Entry * option string) :=
  reject_if ((limit <? 1) || (200 <? limit)
             || negb (bool_decide (fl_Action f = "")) && negb (safeCode (fl_Action f))
             || negb (bool_decide (fl_Actor f = Nil)) && negb (isEntityID (fl_Actor f))
             || negb (bool_decide (fl_Target f = Nil)) && negb (isEntityID (fl_Target f))) AuditErrReadInvalid ;;
  after ← lift (audit_position actor scope f position);
  rows ← pool_exec AuditErrReadStore (rd (λ _ d,
    take (S (Z.to_nat limit)) (order_by recency entry_key
      (beyond recency entry_key (sql_position (cu_At after) (cu_ID after)) (entries_of actor scope f d)))));
  let '(data, last) := cut (Z.to_nat limit) rows in
  mret (data, (λ e, encode_position cursor_text
                      (Cursor (cu_Workspace after) (cu_Actor after) (cu_Filter after) (en_CreatedAt e) (en_id e))) <$> last).

(** ** Both histories keep the promise of a paged reader *)

(** What a position relies on: the rows' identifiers and instants are ones a
    cursor can carry. *)
Definition operations_positioned (actor scope : uuid) (d : db) : Prop := map_Forall (λ id o,
  is_v7 id = true ∧ op_created_at o ≠ zero_time ∧ carried (HistoryCursor scope actor (op_created_at o) id))
  (operations d).
Definition audit_positioned (actor scope : uuid) (f : Filters) (d : db) : Prop := map_Forall (λ id e,
  isEntityID id = true ∧ ae_created_at e ≠ zero_time ∧
  carried (Cursor scope actor (audit_digest f) (ae_created_at e) id)) (audit_events d).

Definition history_key (actor scope : uuid) (position : string) : option (option (time * uuid)) :=
  match history_position actor scope Nil position with
  | Ok after => Some (sql_position (hc_At after) (hc_ID after)) | Err _ => None end.
Definition audit_key (actor scope : uuid) (f : Filters) (position : string) : option (option (time * uuid)) :=
  match audit_position actor scope f position with
  | Ok after => Some (sql_position (cu_At after) (cu_ID after)) | Err _ => None end.

Lemma operation_view_Some actor scope target d id o v : operation_view actor scope target d id o = Some v →
  vw_id v = id ∧ vw_CreatedAt v = op_created_at o ∧ vw_ConnectionID v = op_connection o ∧ op_workspace o = scope ∧
  is_Some (read_authority d actor scope (op_connection o)).
Proof. intros Hv. unfold operation_view in Hv. sql_inv Hv. guards; eauto. Qed.

Lemma history_next actor scope position after at_ id :
  history_position actor scope Nil position = Ok after → carried (HistoryCursor scope actor at_ id) →
  is_v7 id = true → at_ ≠ zero_time →
  history_key actor scope (encode_position history_text (HistoryCursor (hc_Workspace after) (hc_Actor after) at_ id))
    = Some (Some (at_, id)).
Proof.
  intros Hpos Hc Hv Hat.
  assert (hc_Workspace after = scope ∧ hc_Actor after = actor) as [-> ->].
  { unfold history_position in Hpos. case_decide; [by injection Hpos as <-|]. simpl in Hpos.
    case_match; [|done]. case_match eqn:Hb; [done|]. injection Hpos as <-. guards. done. }
  unfold history_key, history_position. rewrite decide_False by (by apply encode_position_nonempty).
  rewrite bool_decide_true by done. rewrite decode_encode by done. simpl.
  rewrite !bool_decide_true, Hv by done. rewrite (proj2 (Z.eqb_neq _ _) Hat). simpl.
  unfold sql_position. rewrite decide_False; [done|]. by apply is_v7_not_Nil.
Qed.

Lemma Read_reader actor scope limit : 1 <= limit <= 200 →
  KeysetReader recency view_key (Z.to_nat limit) (operations_positioned actor scope) (λ _, True)
    (operations_of actor scope Nil) id (Read actor scope Nil limit) "" (history_key actor scope).
Proof.
  intros Hl. split; [lia|..].
  - intros d _. apply selected_keys.
    intros k v k' v' x x' _ _ (<- & _)%operation_view_Some (<- & _)%operation_view_Some [= _ Hk]. exact Hk.
  - intros d _. exists None. split; [done|]. by apply Forall_forall.
  - intros pos d w e Hok. unfold Read. repeat read_prim; try done. rewrite list_fmap_id.
    match goal with H : history_position _ _ _ _ = Ok ?a |- _ => rename a into after; rename H into Hpos end.
    match goal with H : cut _ _ = (?l, ?o) |- _ => rename H into Hcut; rename l into data; rename o into last end.
    fold (page recency view_key (Z.to_nat limit) (sql_position (hc_At after) (hc_ID after)) (operations_of actor scope Nil d)) in Hcut.
    exists (sql_position (hc_At after) (hc_ID after)), last. unfold history_key at 1. rewrite Hpos. split_and!; [done|done|].
    destruct last as [v|]; [|done]. simpl.
    destruct (page_rows _ _ _ _ _ _ _ Hcut) as [Hsub Hin]. specialize (Hin v eq_refl). apply Hsub in Hin.
    apply elem_of_selected in Hin as (id & o & Ho & (Hid & Hat & _)%operation_view_Some).
    destruct (Hok _ _ Ho) as (? & ? & ?). unfold view_key. rewrite Hid, Hat in *. by eapply history_next.
  - intros pos k d w e _ _ Hk He. unfold Read. erewrite run_bind by (by apply run_reject_if, limit_ok).
    unfold history_key in Hk. destruct (history_position actor scope Nil pos) as [after|]; [|done].
    erewrite run_bind by done. erewrite run_bind by (by apply run_pool_exec). erewrite run_bind by done.
    by destruct (cut _ _).
Qed.

Lemma audit_row_Some actor scope f d id e x : audit_row actor scope f d id e = Some x →
  x = MkEntry id (ae_actor_kind e) (ae_actor_id e) (ae_event_type e) (ae_created_at e)
        (allowed_metadata (ae_event_type e) (ae_metadata e)) ∧
  ae_workspace e = scope ∧ open_workspace d scope = true ∧ enabled d actor = true ∧ audit_filtered f e = true ∧
  ∃ m, memberships d !! (scope, actor) = Some m ∧ audit_authority d actor scope (mb_role m) e = true.
Proof.
  intros Hx. unfold audit_row in Hx. sql_inv Hx.
  repeat match goal with H : _ && _ = true |- _ => apply andb_true_iff in H as [? ?] end.
  match goal with H : bool_decide _ = true |- _ => apply bool_decide_eq_true in H end. split_and!; eauto.
Qed.

Lemma isEntityID_not_Nil u : isEntityID u = true → u ≠ Nil.
Proof.
  unfold isEntityID. destruct (Parse (uuid_String u)) as [v|] eqn:Hp; [|done]. intros _.
  apply Parse_Ok in Hp as [Hs Hv]. intros ->. apply uuid_String_inj in Hs; [|done|apply Hv].
  subst v. by apply (is_v7_not_Nil Nil); [apply entity_id_v7|].
Qed.

Lemma audit_next actor scope f position after at_ id :
  audit_position actor scope f position = Ok after → carried (Cursor scope actor (audit_digest f) at_ id) →
  isEntityID id = true → at_ ≠ zero_time →
  audit_key actor scope f
    (encode_position cursor_text (Cursor (cu_Workspace after) (cu_Actor after) (cu_Filter after) at_ id))
    = Some (Some (at_, id)).
Proof.
  intros Hpos Hc Hv Hat.
  assert (cu_Workspace after = scope ∧ cu_Actor after = actor ∧ cu_Filter after = audit_digest f) as (-> & -> & ->).
  { unfold audit_position in Hpos. case_decide; [by injection Hpos as <-|].
    case_match; [|done]. case_match eqn:Hb; [done|]. injection Hpos as <-. guards. done. }
  unfold audit_key, audit_position. rewrite decide_False by (by apply encode_position_nonempty).
  rewrite decode_encode by done. simpl.
  rewrite !bool_decide_true, Hv by done. rewrite (proj2 (Z.eqb_neq _ _) Hat). simpl.
  unfold sql_position. rewrite decide_False; [done|]. by apply isEntityID_not_Nil.
Qed.

(** A query the reader accepts. *)
Definition well_filtered (f : Filters) : Prop :=
  (fl_Action f = "" ∨ safeCode (fl_Action f) = true) ∧ (fl_Actor f = Nil ∨ isEntityID (fl_Actor f) = true) ∧
  (fl_Target f = Nil ∨ isEntityID (fl_Target f) = true).

Lemma audit_reader actor scope f limit : 1 <= limit <= 200 → well_filtered f →
  KeysetReader recency entry_key (Z.to_nat limit) (audit_positioned actor scope f) (λ _, True)
    (entries_of actor scope f) id (List actor scope f limit) "" (audit_key actor scope f).
Proof.
  intros Hl Hf. split; [lia|..].
  - intros d _. apply selected_keys.
    intros k v k' v' x x' _ _ (-> & _)%audit_row_Some (-> & _)%audit_row_Some [= _ Hk]. exact Hk.
  - intros d _. exists None. split; [done|]. by apply Forall_forall.
  - intros pos d w e Hok. unfold List. repeat read_prim; try done. rewrite list_fmap_id.
    match goal with H : audit_position _ _ _ _ = Ok ?a |- _ => rename a into after; rename H into Hpos end.
    match goal with H : cut _ _ = (?l, ?o) |- _ => rename H into Hcut; rename l into data; rename o into last end.
    fold (page recency entry_key (Z.to_nat limit) (sql_position (cu_At after) (cu_ID after)) (entries_of actor scope f d)) in Hcut.
    exists (sql_position (cu_At after) (cu_ID after)), last. unfold audit_key at 1. rewrite Hpos. split_and!; [done|done|].
    destruct last as [v|]; [|done]. simpl.
    destruct (page_rows _ _ _ _ _ _ _ Hcut) as [Hsub Hin]. specialize (Hin v eq_refl). apply Hsub in Hin.
    apply elem_of_selected in Hin as (id & x & Hx & (-> & _)%audit_row_Some).
    destruct (Hok _ _ Hx) as (? & ? & ?). by eapply audit_next.
  - intros pos k d w e _ _ Hk He. unfold List. erewrite run_bind.
    2: { apply run_reject_if. rewrite (limit_ok 1 200) by done. destruct Hf as (Ha & Hb & Hc).
         assert (∀ (P : Prop) `{!Decision P} b, P ∨ b = true → negb (bool_decide P) && negb b = false) as Hn
           by (intros P ? b [HP| ->]; [by rewrite bool_decide_true|by rewrite andb_false_r]).
         by rewrite !Hn. }
    unfold audit_key in Hk. destruct (audit_position actor scope f pos) as [after|]; [|done].
    erewrite run_bind by done. erewrite run_bind by (by apply run_pool_exec). by destruct (cut _ _).
Qed.
End history.
