(* ===== verification/Browse.v ===== *)
(** The reads of [internal/inventory]: the resource list ([query.go]), one
    resource with what may be done to it ([detail.go]) and the state of a
    refresh ([status.go]).  Each is one statement outside a transaction. *)
From S2P Require Import Prelude GoBase Identifier Sha256 Base64 Json Roles Schema Tx TxLogic.
From S2P Require Import Wp AuditLog Paging Membership Grants Provider Sample Reads Enqueue Intent.
From S2P Require Import Prog Reviews.
Local Open Scope Z_scope.

(** ** [query.go] *)

Record Filters := MkFilters {
  fl_Connection : uuid; fl_Provider : string; fl_Type : string; fl_Region : string; fl_Account : string;
  fl_SourceID : string; fl_SourceType : string }.

Definition no_filters : Filters := MkFilters Nil "" "" "" "" "" "".

Record Resource := MkResource {
  re_ID : uuid; re_ConnectionID : uuid; re_Provider : string; re_APIFamily : string; re_AccountIdentity : string;
  re_Type : string; re_Scope : string; re_NativeID : string; re_Name : string; re_Region : string;
  re_Status : string; re_NativeStatus : string; re_ObservedAt : time; re_Inventory : Freshness;
  re_details : details; re_role : string; re_grants : list string; re_verified : list string;
  re_connectionStatus : string }.

Record resourceCursor := ResourceCursor { rc_Workspace : uuid; rc_Actor : uuid; rc_Filter : string; rc_ID : uuid }.

(** The refreshes of a resource's scope and type. *)
Definition resource_runs (r : resource) (y : sync_run) : bool :=
  bool_decide (sy_workspace y = rs_workspace r) && bool_decide (sy_connection y = rs_connection r)
  && bool_decide (sy_scope y = rs_scope r) && bool_decide (sy_resource_type y = rs_resource_type r).

(** [($n='' OR column=$n)] *)
Definition matches_text (wanted : string) (column : string) : bool :=
  bool_decide (wanted = "") || bool_decide (column = wanted).
Definition matches_id (wanted column : uuid) : bool := bool_decide (wanted = Nil) || bool_decide (column = wanted).

(** [details->'snapshot'->>...], null without a snapshot. *)
Definition matches_snapshot (wanted : string) (f : snapshot_details → string) (r : resource) : bool :=
  bool_decide (wanted = "") ||
  match dt_snapshot (rs_details r) with Some s => bool_decide (f s = wanted) | None => false end.

(** A row without the freshness state, which Go adds from its clock. *)
Definition resource_row (actor scope : uuid) (f : Filters) (target : uuid) (d : db) (id : uuid) (r : resource)
  : option Resource :=
  require (bool_decide (rs_workspace r = scope) && Reads.published d r && bool_decide (rs_tombstoned_at r = None)) ;;
  c ← connection_in scope (rs_connection r) d;
  '(m, g) ← read_authority d actor scope (rs_connection r);
  require (matches_text (fl_Type f) (rs_resource_type r) && matches_id (fl_Connection f) (rs_connection r)
           && matches_text (fl_Region f) (dt_region (rs_details r)) && matches_text (fl_Account f) (cn_account_identity c)
           && matches_id target id && matches_text (fl_Provider f) (cn_provider c)
           && matches_snapshot (fl_SourceID f) sd_source_native_id r
           && matches_snapshot (fl_SourceType f) sd_source_type r) ;;
  Some (MkResource id (rs_connection r) (cn_provider c) (rs_api_family r) (cn_account_identity c) (rs_resource_type r)
          (rs_scope r) (rs_native_id r) (rs_name r) (dt_region (rs_details r)) (rs_status r) (rs_native_status r)
          (rs_observed_at r) (MkFreshness (last_success (resource_runs r) d) (latest_failure (resource_runs r) d) "")
          (rs_details r) (mb_role m) g (verified_capabilities c) (cn_status c)).

Definition resources_of (actor scope : uuid) (f : Filters) (target : uuid) (d : db) : list Resource :=
  selected (resource_row actor scope f target d) (resources d).

(** [r.Inventory = NewFreshness(last, failure)] *)
Definition with_freshness (now : time) (r : Resource) : Resource :=
  let i := re_Inventory r in
  MkResource (re_ID r) (re_ConnectionID r) (re_Provider r) (re_APIFamily r) (re_AccountIdentity r) (re_Type r)
    (re_Scope r) (re_NativeID r) (re_Name r) (re_Region r) (re_Status r) (re_NativeStatus r) (re_ObservedAt r)
    (NewFreshness now (fr_LastSuccessAt i) (fr_FailureCode i)) (re_details r) (re_role r) (re_grants r) (re_verified r)
    (re_connectionStatus r).

Section browse.
Context `{U : UuidApi}.

Definition filters_text (f : Filters) : string :=
  object [field "Connection" (json_string (uuid_String (fl_Connection f))); field "Provider" (json_string (fl_Provider f));
          field "Type" (json_string (fl_Type f)); field "Region" (json_string (fl_Region f));
          field "Account" (json_string (fl_Account f)); field "SourceID" (json_string (fl_SourceID f));
          field "SourceType" (json_string (fl_SourceType f))].

Definition filterDigest (f : Filters) : string := hex (Sum256 (string_bytes (filters_text f))).

Definition cursor_text (c : resourceCursor) : string :=
  object [field "Workspace" (json_string (uuid_String (rc_Workspace c)));
          field "Actor" (json_string (uuid_String (rc_Actor c))); field "Filter" (json_string (rc_Filter c));
          field "ID" (json_string (uuid_String (rc_ID c)))].

Context `{J : !CursorJSON cursor_text}.

Definition resource_position (actor scope : uuid) (digest cursor : string) : go uuid :=
  if decide (cursor = "") then Ok Nil
  else match decode_position cursor_text (ResourceCursor Nil Nil "" Nil) cursor with
       | None => Err WsErrInvalid
       | Some value =>
           if negb (bool_decide (rc_Workspace value = scope)) || negb (bool_decide (rc_Actor value = actor))
              || negb (bool_decide (rc_Filter value = digest)) || negb (is_v7 (rc_ID value))
           then Err WsErrInvalid else Ok (rc_ID value)
       end.

Definition defaulted (f : Filters) (target : uuid) : Filters :=
  if decide (fl_Type f = "" ∧ target = Nil)
  then MkFilters (fl_Connection f) (fl_Provider f) "compute.server" (fl_Region f) (fl_Account f) (fl_SourceID f) (fl_SourceType f)
  else f.

Definition bad_filters (f : Filters) : bool :=
  negb (bool_decide (fl_Type f ∈ [""; "compute.server"; SnapshotType])) || (512 <? len (fl_SourceID f))
  || negb (bool_decide (fl_SourceType f ∈ [""; "compute.server"; "storage.volume"]))
  || (64 <? len (fl_Provider f)) || (128 <? len (fl_Region f)) || (512 <? len (fl_Account f))
  || negb (bool_decide (fl_Connection f = Nil)) && negb (is_v7 (fl_Connection f)).

Definition query (actor scope : uuid) (f : Filters) (limit : Z) (target : uuid) (cursor : string)
  : txm (list Resource * option string) :=
  let limit := if limit =? 0 then 50 else limit in
  let f := defaulted f target in
  reject_if (((limit <? 1) || (200 <? limit)) || bad_filters f) WsErrInvalid ;;
  let digest := filterDigest f in
  after ← lift (resource_position actor scope digest cursor);
  rows ← pool_exec WsErrStore (rd (λ _ d,
    take (S (Z.to_nat limit)) (order_by ascending re_ID (beyond ascending re_ID after (resources_of actor scope f target d)))));
  now ← go_now;
  let '(data, last) := cut (Z.to_nat limit) (with_freshness now <$> rows) in
  mret (data, (λ r, encode_position cursor_text (ResourceCursor scope actor digest (re_ID r))) <$> last).

Definition List (actor scope : uuid) (f : Filters) (limit : Z) (cursor : string) : txm (list Resource * option string) :=
  query actor scope f limit Nil cursor.

(** ** [detail.go] *)

Record ResourceDetail := MkResourceDetail {
  rd_Resource : Resource; rd_DetailsVersion : Z; rd_Details : details; rd_AvailableActions : list Capability }.

(** The actions a resource's state allows. *)
Definition state_allowed (r : Resource) : list string :=
  let active := bool_decide (re_connectionStatus r = "active") in
  let base := if decide (re_Type r = SnapshotType) then ["storage.snapshot.read"] else ["compute.server.read"] in
  base
  ++ (if active && bool_decide (re_Type r = "compute.server") then
        (if decide (re_Status r = "stopped") then ["compute.server.power_on"; SnapshotCreate] else [])
        ++ (if decide (re_Status r = "running")
            then ["compute.server.shutdown"; "compute.server.power_off"; "compute.server.reboot"; SnapshotCreate] else [])
      else [])
  ++ (if active && bool_decide (re_Type r = SnapshotType)
         && (bool_decide (re_Status r = "available")
             || bool_decide (re_Status r = "unknown")
                && match dt_snapshot (re_details r) with
                   | Some s => bool_decide (sd_status_reason s = "not_reported") | None => false end)
      then [SnapshotDelete] else []).

Definition detail_of (implemented : gmap string (list string)) (r : Resource) : ResourceDetail :=
  let grants := within_ceiling (re_role r) (re_grants r) in
  let catalog := if decide (re_Type r = SnapshotType) then SnapshotCatalog else ServerCatalog in
  MkResourceDetail r 1 (re_details r)
    (Effective catalog (default [] (implemented !! (re_Provider r +:+ "/" +:+ re_APIFamily r))) (re_verified r) grants
       (state_allowed r)).

Definition Detail (actor scope id : uuid) (implemented : gmap string (list string)) : txm ResourceDetail :=
  reject_if (negb (is_v7 id)) WsErrInvalid ;;
  '(data, _) ← query actor scope no_filters 1 id "";
  match data with
  | [] => throw WsErrNotFound
  | r :: _ => mret (detail_of implemented r)
  end.

(** ** [status.go] *)

Record SyncStatus := MkSyncStatus {
  ss_ID : uuid; ss_ConnectionID : uuid; ss_Status : string; ss_PageCount : Z; ss_StartedAt : option time;
  ss_CompletedAt : option time; ss_FailureCode : option string; ss_Inventory : Freshness }.

(** The refreshes of the same scope and type as [s]. *)
Definition sibling_runs (s y : sync_run) : bool :=
  bool_decide (sy_workspace y = sy_workspace s) && bool_decide (sy_connection y = sy_connection s)
  && bool_decide (sy_scope y = sy_scope s) && bool_decide (sy_resource_type y = sy_resource_type s).

Definition status_row (actor scope id : uuid) (d : db) : option (sync_run * option time * option string) :=
  s ← sync_runs d !! id;
  require (bool_decide (sy_workspace s = scope)) ;;
  read_authority d actor scope (sy_connection s) ;;
  Some (s, last_success (sibling_runs s) d, latest_failure (sibling_runs s) d).

Definition Status (actor scope id : uuid) : txm SyncStatus :=
  '(s, last, failure) ← pool_row WsErrNotFound WsErrStore (rd (λ _ d, status_row actor scope id d));
  now ← go_now;
  mret (MkSyncStatus id (sy_connection s) (sy_status s) (sy_page_count s) (sy_started_at s) (sy_completed_at s)
          (sy_failure_code s) (NewFreshness now last failure)).

(** ** The list keeps the promise of a paged reader *)

Definition resources_positioned (actor scope : uuid) (f : Filters) (d : db) : Prop := map_Forall (λ id _,
  is_v7 id = true ∧ carried (ResourceCursor scope actor (filterDigest f) id)) (resources d).

Definition resource_key (actor scope : uuid) (f : Filters) (cursor : string) : option uuid :=
  match resource_position actor scope (filterDigest f) cursor with Ok after => Some after | Err _ => None end.

(** A row without what depends on the reader's clock. *)
Definition undated (r : Resource) : Resource :=
  let i := re_Inventory r in
  MkResource (re_ID r) (re_ConnectionID r) (re_Provider r) (re_APIFamily r) (re_AccountIdentity r) (re_Type r)
    (re_Scope r) (re_NativeID r) (re_Name r) (re_Region r) (re_Status r) (re_NativeStatus r) (re_ObservedAt r)
    (MkFreshness (fr_LastSuccessAt i) (fr_FailureCode i) "") (re_details r) (re_role r) (re_grants r) (re_verified r)
    (re_connectionStatus r).

Lemma resource_row_Some actor scope f target d id r x : resource_row actor scope f target d id r = Some x →
  re_ID x = id ∧ (∀ now, undated (with_freshness now x) = x) ∧ rs_workspace r = scope ∧ matches_id target id = true ∧
  re_ConnectionID x = rs_connection r ∧ rs_tombstoned_at r = None ∧ Reads.published d r = true ∧
  ∃ c m, connection_in scope (rs_connection r) d = Some c ∧
    read_authority d actor scope (rs_connection r) = Some (m, re_grants x) ∧
    re_Provider x = cn_provider c ∧ re_APIFamily x = rs_api_family r ∧ re_Type x = rs_resource_type r ∧
    re_Status x = rs_status r ∧ re_details x = rs_details r ∧ re_role x = mb_role m ∧
    re_verified x = verified_capabilities c ∧ re_connectionStatus x = cn_status c.
Proof.
  intros Hx. unfold resource_row in Hx. sql_inv Hx.
  repeat match goal with H : _ && _ = true |- _ => apply andb_true_iff in H as [? ?] end.
  repeat match goal with H : bool_decide _ = true |- _ => apply bool_decide_eq_true in H end.
  split_and!; try done. eauto 12.
Qed.

Lemma undated_page actor scope f target d now rows : rows ⊆ resources_of actor scope f target d →
  undated <$> (with_freshness now <$> rows) = rows.
Proof.
  intros Hsub. rewrite <-list_fmap_compose. rewrite <-(list_fmap_id rows) at 2. apply list_fmap_ext.
  intros i x Hx%list_elem_of_lookup_2%Hsub. apply elem_of_selected in Hx as (id & r & _ & (_ & Hx & _)%resource_row_Some).
  apply Hx.
Qed.

Lemma resources_reader actor scope f limit : 1 <= limit <= 200 → bad_filters (defaulted f Nil) = false →
  KeysetReader ascending re_ID (Z.to_nat limit) (resources_positioned actor scope (defaulted f Nil)) (λ _, True)
    (resources_of actor scope (defaulted f Nil) Nil) undated (List actor scope f limit) ""
    (resource_key actor scope (defaulted f Nil)).
Proof.
  intros Hl Hf. assert ((limit =? 0) = false) as Hz by (apply Z.eqb_neq; lia). split; [lia|..].
  - intros d _. apply selected_keys.
    intros k v k' v' x x' _ _ (<- & _)%resource_row_Some (<- & _)%resource_row_Some Hk. exact Hk.
  - intros d Hok. exists Nil. split; [done|]. apply Forall_forall.
    intros x (id & r & Hr & (-> & _)%resource_row_Some)%elem_of_selected.
    destruct (Hok _ _ Hr) as [?%is_v7_not_Nil _]. unfold Nil in *. lia.
  - intros pos d w e Hok. unfold List, query. rewrite Hz. repeat read_prim; try done. simpl in *.
    match goal with H : resource_position _ _ _ _ = Ok ?a |- _ => rename a into after; rename H into Hpos end.
    match goal with H : cut _ _ = _ |- _ => rename H into Hcut end. rewrite cut_fmap in Hcut.
    fold (page ascending re_ID (Z.to_nat limit) after (resources_of actor scope (defaulted f Nil) Nil d)) in Hcut.
    destruct (page _ _ _ _ _) as [data last] eqn:Hpage. injection Hcut as <- <-.
    destruct (page_rows _ _ _ _ _ _ _ Hpage) as [Hsub Hin].
    exists after, last. unfold resource_key at 1. rewrite Hpos. split_and!; [done| |].
    { by rewrite (undated_page _ _ _ _ _ _ _ Hsub). }
    destruct last as [v|]; [|done]. simpl. specialize (Hin v eq_refl). apply Hsub in Hin.
    apply elem_of_selected in Hin as (id & r & Hr & (Hid & _)%resource_row_Some). destruct (Hok _ _ Hr) as [Hv Hc].
    unfold resource_key, resource_position. rewrite decide_False by (by apply encode_position_nonempty).
    rewrite Hid, decode_encode by done. simpl. by rewrite !bool_decide_true, Hv by done.
  - intros pos k d w e _ _ Hk He. unfold List, query. rewrite Hz. cbv zeta.
    erewrite run_bind by (apply run_reject_if; by rewrite (limit_ok 1 200), Hf).
    unfold resource_key in Hk. destruct (resource_position _ _ _ pos) as [after|]; [|done].
    erewrite run_bind by done. erewrite run_bind by (by apply run_pool_exec). erewrite run_bind by done.
    by destruct (cut _ _).
Qed.

(** ** What a resource's page offers, and what a review accepts *)

Lemma Detail_row actor scope id implemented d w e v s' : Detail actor scope id implemented (Txs d w e) = (Ok v, s') →
  ∃ r x now, resources d !! id = Some r ∧ resource_row actor scope no_filters id d id r = Some x ∧
    v = detail_of implemented (with_freshness now x).
Proof.
  intros Hd. assert (wp (Detail actor scope id implemented) (λ r _, match r with
    | Ok v => ∃ r x now, resources d !! id = Some r ∧ resource_row actor scope no_filters id d id r = Some x ∧
        v = detail_of implemented (with_freshness now x)
    | Err _ => True end) (Txs d w e)) as Hwp; [|by apply (wp_elim _ _ _ _ _ Hwp) in Hd].
  clear. unfold Detail, query. repeat read_prim; try done. simpl in *.
  match goal with H : cut _ _ = _ |- _ => rename H into Hcut end. rewrite cut_fmap in Hcut.
  fold (page ascending re_ID (Z.to_nat 1) a (resources_of actor scope (defaulted no_filters id) id d)) in Hcut.
  destruct (page _ _ _ _ _) as [[|x data] last] eqn:Hpage; [done|]. injection Hcut as <- _ _.
  destruct (page_rows _ _ _ _ _ _ _ Hpage) as [Hsub _].
  assert (x ∈ resources_of actor scope (defaulted no_filters id) id d) as Hx by (apply Hsub; left).
  unfold resources_of, defaulted in Hx. rewrite decide_False in Hx.
  2: { intros [_ ->]. guards. by apply (is_v7_not_Nil Nil). }
  apply elem_of_selected in Hx as (k & r & Hr & Hx). pose proof Hx as (_ & _ & _ & Hm & _)%resource_row_Some.
  assert (k = id) as ->.
  { unfold matches_id in Hm. apply orb_true_iff in Hm as [Hm|Hm]; apply bool_decide_eq_true in Hm; [|done].
    guards. by destruct (is_v7_not_Nil id). }
  exists r, x, (en_clock e' + en_skew e'). by split_and!.
Qed.

(** The classes of the catalogues are those reviews ask for. *)
Lemma catalog_class s catalog : s ∈ catalog → catalog = ServerCatalog ∨ catalog = SnapshotCatalog → su_Action s ∈ actions →
  su_Class s = (if snapshotAction (su_Action s) then "high_impact" else "operate") ∧
  catalog = (if decide (targetType (su_Action s) = SnapshotType) then SnapshotCatalog else ServerCatalog).
Proof.
  intros Hs Hc Ha.
  assert (forallb (λ s, negb (bool_decide (su_Action s ∈ actions))
    || bool_decide (su_Class s = if snapshotAction (su_Action s) then "high_impact" else "operate")
       && bool_decide (targetType (su_Action s) ≠ SnapshotType)) ServerCatalog = true) as H1 by (vm_compute; reflexivity).
  assert (forallb (λ s, negb (bool_decide (su_Action s ∈ actions))
    || bool_decide (su_Class s = if snapshotAction (su_Action s) then "high_impact" else "operate")
       && bool_decide (targetType (su_Action s) = SnapshotType)) SnapshotCatalog = true) as H2 by (vm_compute; reflexivity).
  rewrite forallb_forall in H1, H2. apply list_elem_of_In in Hs.
  destruct Hc as [-> | ->]; [specialize (H1 s Hs)|specialize (H2 s Hs)];
    rewrite bool_decide_true in * by done; simpl in *; guards; case_decide; done.
Qed.

(** Every mutation is in the catalogue of its target's type. *)
Lemma action_catalogued a : a ∈ actions →
  ∃ s, s ∈ (if decide (targetType a = SnapshotType) then SnapshotCatalog else ServerCatalog) ∧ su_Action s = a.
Proof.
  intros Ha. assert (forallb (λ a, existsb (λ s, bool_decide (su_Action s = a))
    (if decide (targetType a = SnapshotType) then SnapshotCatalog else ServerCatalog)) actions = true) as H
    by (vm_compute; reflexivity).
  rewrite forallb_forall in H. apply list_elem_of_In, H, existsb_exists in Ha as (s & Hs & Heq%bool_decide_eq_true).
  exists s. by rewrite list_elem_of_In.
Qed.

Definition offers (v : ResourceDetail) (a : string) : Prop :=
  ∃ c, c ∈ rd_AvailableActions v ∧ cp_Action c = a ∧ cp_Available c = true.

Lemma offers_iff implemented r a : offers (detail_of implemented r) a ↔
  ∃ s, s ∈ (if decide (re_Type r = SnapshotType) then SnapshotCatalog else ServerCatalog) ∧ su_Action s = a ∧
    a ∈ default [] (implemented !! (re_Provider r +:+ "/" +:+ re_APIFamily r)) ∧ a ∈ re_verified r ∧
    (WithinCeiling (re_role r) (su_Class s) = true ∧ su_Class s ∈ re_grants r) ∧ a ∈ state_allowed r.
Proof.
  unfold offers, detail_of. simpl. unfold Effective. split.
  - intros (c & (s & -> & Hs)%list_elem_of_fmap & <- & Hav%bool_decide_eq_true). simpl in *. exists s.
    unfold capability_reason in Hav. repeat (case_bool_decide; simpl in Hav; [|done]).
    match goal with H : su_Class s ∈ within_ceiling _ _ |- _ => apply list_elem_of_filter in H end. done.
  - intros (s & Hs & <- & Hi & Hv & Hg & Ha). eexists. split; [by apply list_elem_of_fmap_2|]. split; [done|]. simpl.
    apply bool_decide_eq_true. unfold capability_reason.
    rewrite !bool_decide_true; try done. by apply list_elem_of_filter.
Qed.

(** The state of a resource permits only actions on its kind. *)
Lemma state_allowed_kind r a : a ∈ actions → a ∈ state_allowed r → re_Type r = targetType a.
Proof.
  intros Ha Hs. unfold state_allowed in Hs. rewrite !elem_of_app in Hs.
  assert (a ≠ "compute.server.read" ∧ a ≠ "storage.snapshot.read") as [Hn1 Hn2].
  { unfold actions in Ha. rewrite !elem_of_cons, elem_of_nil in Ha. naive_solver. }
  destruct Hs as [Hs|[Hs|Hs]].
  - exfalso. case_decide; apply list_elem_of_singleton in Hs; done.
  - case_match eqn:Hg; [|by apply elem_of_nil in Hs]. guards. apply elem_of_app in Hs.
    destruct Hs as [Hs|Hs]; (case_decide; [|by apply elem_of_nil in Hs]); rewrite !elem_of_cons, elem_of_nil in Hs;
      naive_solver.
  - case_match eqn:Hg; [|by apply elem_of_nil in Hs]. apply list_elem_of_singleton in Hs as ->.
    apply andb_true_iff in Hg as [Hg _]. guards. done.
Qed.

End browse.

Definition sample_implemented : gmap string (list string) :=
  {["hetzner/hetzner-cloud" := ["compute.server.read"; "compute.server.power_on"]]}.

#[local] Instance sample_cursor_json : CursorJSON (@cursor_text rfc9562).
Proof.
  refine {| Unmarshal _ _ := None; carried _ := False |}; by intros.
Defined.

