(* ===== verification/Listings.v ===== *)
(** What holds of every list and page of [internal/workspace], [connection],
    [inventory], [operation] and [audit]: a client that follows the cursors
    sees exactly what it may see, and no cursor widens that. *)
From S2P Require Import Prelude GoBase Identifier Json Schema Tx TxLogic Wp AuditLog Paging.
From S2P Require Import Membership Grants Provider Sample Reads.
From S2P Require Import History Browse.
Local Open Scope Z_scope.

Section listings.
Context `{U : UuidApi} (time_json : time → string).
Context `{!CursorJSON (History.history_text time_json), !CursorJSON (History.cursor_text time_json),
          !CursorJSON Browse.cursor_text}.

(** C19. Each of the six paged lists can be read to its end and is faithful, for
    every page size its handler accepts: 1 to 200, for the list of workspaces 1
    to 100.  A client that starts without a cursor and follows each
    [next_cursor] sees rows in strictly increasing key order, so none twice;
    each page shows only rows its database showed the caller; a row that was
    there on every page's database, told by its key even where its other
    columns changed, is seen even if rows come and go between the pages; every
    page but the last is full; and if the database stands still the client sees
    exactly the listing. *)
Theorem listings_reliable actor scope limit implemented audit filters :
  1 <= limit <= 200 → History.well_filtered audit →
  Browse.bad_filters (Browse.defaulted filters Nil) = false →
  let size := Z.to_nat limit in
  (limit <= 100 →
   reliable ascending vw_ID size members_named (λ _, True) (workspaces_of actor) id (List_workspaces limit actor) Nil) ∧
  reliable ascending me_UserID size members_named (administers actor scope) (members_of actor scope) id
    (ListMembers actor scope limit) Nil ∧
  reliable ascending (md_ID ∘ cw_Metadata) size connections_named (λ _, True)
    (connections_of actor scope Nil implemented) Reads.undated (ReadAuthorized actor scope Nil implemented limit) Nil ∧
  reliable recency History.view_key size (History.operations_positioned time_json actor scope) (λ _, True)
    (History.operations_of actor scope Nil) id (History.Read time_json actor scope Nil limit) "" ∧
  reliable recency History.entry_key size (History.audit_positioned time_json actor scope audit) (λ _, True)
    (History.entries_of actor scope audit) id (History.List time_json actor scope audit limit) "" ∧
  reliable ascending Browse.re_ID size (Browse.resources_positioned actor scope (Browse.defaulted filters Nil)) (λ _, True)
    (Browse.resources_of actor scope (Browse.defaulted filters Nil) Nil) Browse.undated
    (Browse.List actor scope filters limit) "".
Proof.
  intros Hl Hf Hb. split_and!; intros; eapply keyset_reliable; try apply _.
  - apply List_workspaces_reader. lia.
  - by apply ListMembers_reader.
  - by apply ReadAuthorized_reader.
  - by apply History.Read_reader.
  - by apply History.audit_reader.
  - by apply Browse.resources_reader.
Qed.
End listings.

(** A decoder that knows one text: enough to follow the sample's cursors. *)
Definition one_text {C : Type} (text : C → string) (c0 : C) (short : (String.length (text c0) <= 700)%nat)
  : CursorJSON text.
Proof.
  refine {| Unmarshal _ b := if decide (b = string_bytes (text c0)) then Some c0 else None;
            carried c := c = c0 |}.
  - intros init c ->. case_decide; done.
  - intros c ->. exact short.
Defined.

Definition sample_time_json (t : time) : string := FormatInt t.



(** The first page of the sample's resources, in a workspace of one server. *)
#[local] Instance sample_history_json : CursorJSON (@History.history_text rfc9562 sample_time_json).
Proof. apply (one_text _ (History.HistoryCursor wid alice 1 rid)). vm_compute. lia. Defined.
#[local] Instance sample_audit_json : CursorJSON (@History.cursor_text rfc9562 sample_time_json).
Proof. apply (one_text _ (History.Cursor wid alice "" 1 rid)). vm_compute. lia. Defined.

Definition sample_filters : Browse.Filters := Browse.defaulted Browse.no_filters Nil.
Definition sample_digest : string := Eval vm_compute in @Browse.filterDigest rfc9562 sample_filters.
Lemma sample_digest_eq : @Browse.filterDigest rfc9562 sample_filters = sample_digest.
Proof. vm_compute. reflexivity. Qed.
#[local] Instance sample_resource_json : CursorJSON (@Browse.cursor_text rfc9562).
Proof. apply (one_text _ (Browse.ResourceCursor wid alice sample_digest rid)). vm_compute. lia. Defined.

(** The sample workspace after bob has left it and dave became a viewer. *)
Definition sample_moved : db :=
  sample_db <| memberships ::= λ m, <[(wid, dave) := Membership "viewer" 9]> (delete (wid, bob) m) |>.

Definition named_in (d : db) : bool :=
  forallb (λ '((w, u), _), negb (bool_decide (w = Nil)) && negb (bool_decide (u = Nil))) (map_to_list (memberships d)).

Lemma named_in_sound d : named_in d = true → members_named d.
Proof.
  unfold named_in. rewrite forallb_forall. intros H w u [m Hm%elem_of_map_to_list].
  apply list_elem_of_In, H in Hm. by guards.
Qed.

(** A page of two members and the user of its cursor. *)
Definition sample_members (d : db) (cursor : uuid) : list Member * option uuid :=
  match (ListMembers alice wid 2 cursor (sample_txs d 1)).1 with Ok page => page | Err _ => ([], None) end.

Lemma sample_members_eq d cursor : is_ok (ListMembers alice wid 2 cursor (sample_txs d 1)).1 = true →
  ListMembers alice wid 2 cursor (sample_txs d 1) =
  (Ok (sample_members d cursor), (ListMembers alice wid 2 cursor (sample_txs d 1)).2).
Proof. unfold sample_members. destruct (ListMembers _ _ _ _ _) as [[page|] s]; [done|discriminate 1]. Qed.

(** Two pages of the members, read before and after that change: carol and dave
    are seen although the row behind the cursor is gone and dave's has changed. *)
Lemma listings_reliable_witness :
  ∃ pages, traversal members_named id (ListMembers alice wid 2) Nil pages ∧ length pages = 2%nat ∧
    pages.*1 = [sample_db; sample_moved] ∧ dave ∈ me_UserID <$> mjoin pages.*2.
Proof.
  assert (Ht : traversal members_named id (ListMembers alice wid 2) Nil
    [(sample_db, id <$> (sample_members sample_db Nil).1); (sample_moved, id <$> (sample_members sample_moved bob).1)]).
  { assert (E1 : sample_members sample_db Nil = ((sample_members sample_db Nil).1, Some bob)) by (vm_compute; reflexivity).
    assert (E2 : sample_members sample_moved bob = ((sample_members sample_moved bob).1, None)) by (vm_compute; reflexivity).
    refine (traversal_next _ _ _ Nil (sample_txs sample_db 1) _ bob _ _ _ _ (traversal_end _ _ _ bob (sample_txs sample_moved 1) _ _ _ _)).
    - apply named_in_sound. vm_compute. reflexivity.
    - rewrite sample_members_eq by (vm_compute; reflexivity). rewrite E1. reflexivity.
    - apply named_in_sound. vm_compute. reflexivity.
    - rewrite sample_members_eq by (vm_compute; reflexivity). rewrite E2. reflexivity. }
  eexists. split; [exact Ht|]. split; [reflexivity|]. split; [reflexivity|].
  destruct (@listings_reliable rfc9562 sample_time_json sample_history_json sample_audit_json sample_resource_json
    alice wid 2 ∅ (History.MkFilters Nil "" Nil) Browse.no_filters) as (_ & [Hf _] & _).
  - lia.
  - split; [by left|]. split; by left.
  - vm_compute. reflexivity.
  - apply (fa_complete _ _ _ _ _ (Hf _ Ht)).
    apply Forall_cons; split; [|apply Forall_cons; split; [|apply Forall_nil; exact I]]; cbn [fst];
      apply list_elem_of_In; vm_compute; tauto.
Defined.

(** ** Authority *)

Section authority.
Context `{U : UuidApi} (time_json : time → string).
Context `{!CursorJSON (History.history_text time_json), !CursorJSON (History.cursor_text time_json),
          !CursorJSON Browse.cursor_text}.

(** A page of any reader, whatever the position, is part of its listing. *)
Ltac page_of_listing :=
  repeat read_prim; try done; simpl in *;
  match goal with H : cut _ _ = _ |- _ => try rewrite cut_fmap in H; rename H into Hcut end.

Lemma Read_shows actor scope target limit pos d w e :
  wp (History.Read time_json actor scope target limit pos)
    (λ r _, match r with Ok (rows, _) => rows ⊆ History.operations_of actor scope target d | Err _ => True end) (Txs d w e).
Proof.
  unfold History.Read. page_of_listing. by apply (page_rows recency History.view_key) in Hcut as [? _].
Qed.

Lemma audit_shows actor scope f limit pos d w e :
  wp (History.List time_json actor scope f limit pos)
    (λ r _, match r with Ok (rows, _) => rows ⊆ History.entries_of actor scope f d | Err _ => True end) (Txs d w e).
Proof.
  unfold History.List. page_of_listing. by apply (page_rows recency History.entry_key) in Hcut as [? _].
Qed.

Lemma query_shows actor scope f limit target pos d w e :
  wp (Browse.query actor scope f limit target pos)
    (λ r _, match r with
       | Ok (rows, _) => ∀ x, x ∈ rows → ∃ y now, x = Browse.with_freshness now y ∧
           y ∈ Browse.resources_of actor scope (Browse.defaulted f target) target d
       | Err _ => True end) (Txs d w e).
Proof.
  unfold Browse.query. page_of_listing.
  match type of Hcut with (_ <$> (cut ?n (take _ (order_by _ _ (beyond _ _ ?k ?rows)))).1, _) = _ =>
    fold (page ascending Browse.re_ID n k rows) in Hcut; destruct (page ascending Browse.re_ID n k rows) as [data last] eqn:Hpage end.
  injection Hcut as <- _. apply page_rows in Hpage as [Hsub _].
  intros x (y & -> & Hy%Hsub)%list_elem_of_fmap. eauto.
Qed.

Lemma ReadAuthorized_shows actor scope target implemented limit pos d w e :
  wp (ReadAuthorized actor scope target implemented limit pos)
    (λ r _, match r with
       | Ok (rows, _) => ∀ x, x ∈ rows → ∃ y now, x = connection_view implemented now y ∧
           y ∈ selected (connection_row actor scope target d) (connections d)
       | Err _ => True end) (Txs d w e).
Proof.
  unfold ReadAuthorized. page_of_listing.
  match type of Hcut with (_ <$> (cut ?n (take _ (order_by _ ?key (beyond _ _ ?k ?rows)))).1, _) = _ =>
    fold (page ascending key n k rows) in Hcut; destruct (page ascending key n k rows) as [data last] eqn:Hpage end.
  injection Hcut as <- _. apply page_rows in Hpage as [Hsub _].
  intros x (y & -> & Hy%Hsub)%list_elem_of_fmap. eauto.
Qed.

(** The caller's grant on [connection] has the action [read]. *)
Definition reads (d : db) (actor scope connection : uuid) : Prop :=
  ∃ g, connection_grants d !! (scope, connection, actor) = Some g ∧ "read" ∈ g.

Lemma granted_reads d actor scope c : "read" ∈ granted d scope c actor → reads d actor scope c.
Proof. unfold granted, reads. destruct (connection_grants d !! (scope, c, actor)) as [g|]; [eauto|by intros ?%not_elem_of_nil]. Qed.

(** The caller may read [connection] in [d]. *)
Definition readable (d : db) (actor scope connection : uuid) : Prop :=
  open_workspace d scope = true ∧ enabled d actor = true ∧ is_Some (memberships d !! (scope, actor)) ∧
  reads d actor scope connection.

Lemma readable_authority d actor scope connection m g :
  read_authority d actor scope connection = Some (m, g) → readable d actor scope connection.
Proof. intros (? & ? & ? & ? & ?)%read_authority_Some. unfold readable, reads. split_and!; eauto. Qed.

(** The authority an audit event [e] of the workspace asks of a member: an
    event of a connection or of an operation is shown to who reads that
    connection, any other to owners, administrators and its own actor; and an
    event that names a resource only to who reads the resource's connection. *)
Definition audit_granted (d : db) (actor scope : uuid) (role : string) (e : audit_event) : Prop :=
  (if String.prefix "connection." (ae_event_type e) then
     ∃ c, ae_metadata e !! "connection_id" = Some (uuid_String c) ∧ reads d actor scope c
   else if String.prefix "operation." (ae_event_type e) then
     ∃ id o, ae_metadata e !! "operation_id" = Some (uuid_String id) ∧ operations d !! id = Some o ∧
       op_workspace o = scope ∧ reads d actor scope (op_connection o)
   else role = "owner" ∨ role = "admin" ∨ ae_actor_id e = Some actor) ∧
  (∀ v, ae_metadata e !! "resource_id" = Some v → ∃ id r, v = uuid_String id ∧ resources d !! id = Some r ∧
     rs_workspace r = scope ∧ reads d actor scope (rs_connection r)).

Lemma audit_authority_granted d actor scope role e :
  History.audit_authority d actor scope role e = true → audit_granted d actor scope role e.
Proof.
  intros [Ha Hr]%andb_true_iff. split; clear - Ha Hr.
  - clear Hr. destruct (String.prefix "connection." _); [|destruct (String.prefix "operation." _)].
    + apply exists_where_true in Ha as ([[w c] u] & g & Hg & Hc).
      unfold History.named in Hc. guards. subst. unfold reads. eauto.
    + apply exists_where_true in Ha as (id & o & Ho & Hc). unfold History.named in Hc. guards.
      exists id, o. split_and!; try done. by apply granted_reads.
    + apply orb_true_iff in Ha as [Ha|Ha]; apply bool_decide_eq_true in Ha; [|auto].
      rewrite !elem_of_cons, elem_of_nil in Ha. naive_solver.
  - intros v Hv. apply orb_true_iff in Hr as [Hr|Hr]; [apply bool_decide_eq_true in Hr; congruence|].
    apply exists_where_true in Hr as (id & r & Hid & Hc). unfold History.named in Hc. guards.
    exists id, r. split_and!; try done; [congruence|by apply granted_reads].
Qed.

(** An entry the caller may see: the fields of an audit event of the
    workspace that it is granted, with the metadata its type allows. *)
Definition audit_readable (d : db) (actor scope : uuid) (x : History.Entry) : Prop :=
  open_workspace d scope = true ∧ enabled d actor = true ∧
  ∃ e m, audit_events d !! History.en_id x = Some e ∧ ae_workspace e = scope ∧ memberships d !! (scope, actor) = Some m ∧
    History.en_ActorKind x = ae_actor_kind e ∧ History.en_ActorID x = ae_actor_id e ∧
    History.en_Action x = ae_event_type e ∧ History.en_CreatedAt x = ae_created_at e ∧
    audit_granted d actor scope (mb_role m) e ∧
    (∀ k v, History.en_Metadata x !! k = Some v →
       ae_metadata e !! k = Some v ∧ k ∈ default [] (metadataFields (ae_event_type e))).

Lemma entries_readable actor scope f d x : x ∈ History.entries_of actor scope f d → audit_readable d actor scope x.
Proof.
  intros (id & e & He & (-> & Hw & Ho & Hen & _ & m & Hm & Ha)%History.audit_row_Some)%elem_of_selected.
  unfold audit_readable. simpl. split_and!; [done..|]. exists e, m. split_and!; try done.
  - by apply audit_authority_granted.
  - intros k v [Hk Hin]%map_lookup_filter_Some. done.
Qed.

(** C17. Cursors, filters and targets never widen authority: whatever text a
    caller sends, a history, audit, inventory or connection page shows only
    rows of the named workspace that the caller's current membership and
    grants make readable in the database the page was read from.  An audit entry
    is the event of that id: one of a connection is shown only with [read] on
    that connection, one of an operation only with [read] on the operation's
    connection, any other only to owners, administrators and its own actor, and
    one that names a resource only with [read] on the resource's connection
    too; of its metadata only the fields its event type allows. *)
Theorem reads_authorized actor scope target limit pos d w e s' :
  (∀ rows next, History.Read time_json actor scope target limit pos (Txs d w e) = (Ok (rows, next), s') →
     Forall (λ v, readable d actor scope (History.vw_ConnectionID v)) rows) ∧
  (∀ f rows next, History.List time_json actor scope f limit pos (Txs d w e) = (Ok (rows, next), s') →
     Forall (audit_readable d actor scope) rows) ∧
  (∀ f rows next, Browse.List actor scope f limit pos (Txs d w e) = (Ok (rows, next), s') →
     Forall (λ r, readable d actor scope (Browse.re_ConnectionID r)) rows) ∧
  (∀ implemented cursor rows next, ReadAuthorized actor scope target implemented limit cursor (Txs d w e) = (Ok (rows, next), s') →
     Forall (λ v, readable d actor scope (md_ID (cw_Metadata v))) rows) ∧
  (∀ status, Browse.Status actor scope target (Txs d w e) = (Ok status, s') →
     readable d actor scope (Browse.ss_ConnectionID status)).
Proof.
  split_and!.
  - intros rows next H. apply (wp_elim _ _ _ _ _ (Read_shows _ _ _ _ _ d w e)) in H. apply Forall_forall.
    intros v (id & o & _ & (_ & _ & -> & _ & [[m g] Ha])%History.operation_view_Some)%H%elem_of_selected.
    by eapply readable_authority.
  - intros f rows next H. apply (wp_elim _ _ _ _ _ (audit_shows _ _ _ _ _ d w e)) in H. apply Forall_forall.
    intros x Hx%H. by eapply entries_readable.
  - intros f rows next H. apply (wp_elim _ _ _ _ _ (query_shows _ _ _ _ _ _ d w e)) in H. apply Forall_forall.
    intros x (y & now & -> & (id & r & _ & Hr)%elem_of_selected)%H.
    apply Browse.resource_row_Some in Hr as (_ & _ & _ & _ & Hc & _ & _ & c & m & _ & Ha & _).
    simpl. rewrite Hc. by eapply readable_authority.
  - intros implemented cursor rows next H. apply (wp_elim _ _ _ _ _ (ReadAuthorized_shows _ _ _ _ _ _ d w e)) in H.
    apply Forall_forall. intros x (y & now & -> & (id & c & _ & Hr)%elem_of_selected)%H.
    apply connection_row_Some in Hr as (Hm & _ & _ & m & Ha & _). simpl. rewrite Hm. by eapply readable_authority.
  - intros status H. revert H. apply (wp_elim _ (λ r _, match r with
      | Ok status => readable d actor scope (Browse.ss_ConnectionID status) | Err _ => True end)).
    unfold Browse.Status. repeat read_prim; try done. simpl.
    match goal with H : Browse.status_row _ _ _ _ = Some _ |- _ => rename H into Hs end.
    unfold Browse.status_row in Hs. sql_inv Hs.
    match goal with H : read_authority _ _ _ _ = Some ?p |- _ => destruct p; by eapply readable_authority end.
Qed.
End authority.

Lemma reads_authorized_witness : readable sample_db alice wid cid.
Proof.
  destruct (@reads_authorized rfc9562 sample_time_json sample_history_json sample_audit_json sample_resource_json
    alice wid sid 50 "" sample_db sample_db (sample_env 1)
    (Browse.Status alice wid sid (sample_txs sample_db 1)).2) as (_ & _ & _ & _ & H).
  destruct (Browse.Status alice wid sid (sample_txs sample_db 1)).1 as [status|err] eqn:Hs; [|vm_compute in Hs; discriminate Hs].
  assert (Browse.ss_ConnectionID status = cid) as Hc by (vm_compute in Hs; injection Hs as <-; vm_compute; reflexivity).
  rewrite <-Hc. apply H. rewrite <-Hs. exact (surjective_pairing _).
Defined.
