(* ===== verification/Dispatch.v ===== *)
(** [internal/operation]: the dispatch worker ([dispatch.go],
    [dispatch_authority.go], [receipt.go], [observe.go], [recovery_gate.go]). *)
From S2P Require Import Prelude GoBase Identifier Roles Schema Tx TxLogic Wp AuditLog Jobs.
From S2P Require Import Membership Grants Enqueue Provider Intent Prog Recent Reviews.
Local Open Scope Z_scope.

(** [operation.dispatchPlan]; the loaded review and the authority travel beside it. *)
Record dispatchPlan := MkPlan {
  dp_id : uuid; dp_actor : uuid; dp_target : uuid; dp_state : op_state; dp_reference : option string }.

(** [operation.Dispatcher] *)
Record Dispatcher := MkDispatcher { ds_Service : option Service; ds_Factories : list string }.

Definition plan_of (id : uuid) (o : operation) : dispatchPlan :=
  MkPlan id (op_actor o) (op_resource o) (op_st o) (op_provider_reference o).

(** ** Statements *)

(** The operation this live lease works on. *)
Definition leased_operation (lease : Lease) : time → db → option (uuid * operation) := λ now d,
  j ← jobs d !! ls_ID lease;
  require (bool_decide (jb_workspace j = ls_Workspace lease ∧ jb_connection j = ls_Connection lease
             ∧ jb_type j = "operation_dispatch" ∧ jb_payload_version j = 3)
           && holds now lease (ls_ID lease) j) ;;
  id ← jb_operation j;
  o ← operations d !! id;
  require (bool_decide (op_workspace o = jb_workspace j ∧ op_connection o = jb_connection j)) ;;
  Some (id, o).

(** [UPDATE operations SET state=$3,version=version+1,event_sequence=event_sequence+1 ...
    WHERE state=$4 RETURNING event_sequence] *)
Definition transition_sql (workspace id : uuid) (from to : op_state) : sql (option Z) := λ now d,
  match operation_in workspace id d with
  | Some o =>
      if decide (op_st o = from) then
        v ← bigint (op_version o + 1);
        n ← bigint (op_event_sequence o + 1);
        Some (Some n, d <| operations ::= <[id := o <| op_st := to |> <| op_version := v |>
                             <| op_event_sequence := n |> <| op_updated_at := now |>]> |>)
      else Some (None, d)
  | None => Some (None, d)
  end.

(** The CHECK on [operations.provider_reference]. *)
Definition reference_check (action : string) (reference : option string) : bool :=
  match reference with
  | None => true
  | Some r => if snapshotAction action then snapshotReference r else nativeReference r
  end.

Definition set_reference (workspace id : uuid) (reference : option string) : sql unit := λ _ d,
  match operation_in workspace id d with
  | Some o =>
      require (reference_check (op_action o) reference) ;;
      Some (tt, d <| operations ::= <[id := o <| op_provider_reference := reference |>]> |>)
  | None => Some (tt, d)
  end.

(** The row [finishJob] leaves: queued again at [next], or completed now. *)
Definition finished (st : job_state) (next now : time) (j : job) : job :=
  clear_lease
    (match st with
     | JQueued => j <| jb_next_run_at := next |> <| jb_completed_at := None |>
     | _ => j <| jb_completed_at := Some now |>
     end <| jb_state := st |>).

Definition finish_sql (lease : Lease) (st : job_state) (next : time) : sql nat :=
  update_jobs (λ now, holds now lease) (finished st next).

Definition gate_open : time → db → option bool := λ _ d, rg_open <$> dispatch_recovery_gate d.

Definition checkRecoveryGate : txm unit :=
  open ← query_row OpErrStore OpErrStore (rd gate_open);
  reject_if (negb open) OpErrRecovery.

Definition pollDelay (n : option Z) : duration :=
  match n with None => 5 * Second | Some n => 2 * Second + n end.

(** The connection's account and unrevoked credential, whatever its status. *)
Definition observed_connection (lease : Lease) (target : uuid) : time → db → option (connection * resource * Z) :=
  λ _ d,
  c ← connection_in (ls_Workspace lease) (ls_Connection lease) d;
  r ← resources d !! target;
  require (bool_decide (rs_workspace r = ls_Workspace lease ∧ rs_connection r = ls_Connection lease)) ;;
  v ← active_credential d (ls_Workspace lease) (ls_Connection lease) c;
  Some (c, r, v).

Section dispatch.
Context `{U : UuidApi}.

Definition dispatchLoad (lease : Lease) : txm (dispatchPlan * stored) :=
  query_row OpErrDenied OpErrDenied (rd (lock_workspace (ls_Workspace lease))) ;;
  '(id, o) ← query_row JobErrLease OpErrStore (rd (leased_operation lease));
  r ← load (op_actor o) (ls_Workspace lease) (op_review o);
  mret (plan_of id o, r).

Definition dispatchCheck (s : Service) (lease : Lease) (p : dispatchPlan) (r : stored) : txm Authority :=
  a ← or_fail OpErrDenied (authority s (dp_actor p) (ls_Workspace lease) (dp_target p));
  reject_if (negb (bool_decide (dp_state p = Queued))
             || negb (bool_decide (bd_connection (au_binding a) = ls_Connection lease))
             || negb (bd_version (au_binding a) =? st_credential r)
             || negb (au_policy a =? st_policy r)) OpErrStale ;;
  reject_if (negb (authorized a (it_Action (st_intent r)) (st_high r))) OpErrDenied ;;
  reject_if (policy_forbids s a (it_Action (st_intent r))) OpErrUnsupported ;;
  mret a.

Definition inspectDispatch (s : Service) (lease : Lease)
  : prog (dispatchPlan * stored * Authority * Preconditions) :=
  '(p, r, a) ← tx (begin_tx OpErrStore ;;
                   '(p, r) ← dispatchLoad lease;
                   a ← dispatchCheck s lease p r;
                   mret (p, r, a));
  pre ← inspect s a (st_intent r);
  preject (negb (bool_decide (pre_Fingerprint pre = st_preconditions r))
           || negb (Bool.eqb (pre_HighImpact pre) (st_high r))
           || negb (bool_decide (pre_TargetName pre = st_name r))) OpErrStale ;;
  mret (p, r, a, pre).

Definition advance (lease : Lease) (p : dispatchPlan) (to : op_state) : txm unit :=
  reject_if (negb (Allowed (dp_state p) to)) OpErrState ;;
  sequence ← query_row OpErrState OpErrState (transition_sql (ls_Workspace lease) (dp_id p) (dp_state p) to);
  or_fail OpErrStore
    (AppendEvent (ls_Workspace lease) (dp_id p) sequence (op_state_text (dp_state p)) (op_state_text to)) ;;
  if terminal to then ReleaseTerminal (ls_Workspace lease) (dp_id p) else mret tt.

Definition finishJob (lease : Lease) (st : job_state) (next : time) : txm unit :=
  n ← exec JobErrLease (finish_sql lease st next);
  reject_if (negb (bool_decide (n = 1%nat))) JobErrLease.

Definition executionKind (outcome : op_state) : string :=
  match outcome with
  | Failed => "operation.failed"
  | Succeeded => "operation.completed"
  | _ => "operation.reconciled"
  end.

Definition executionAudit (lease : Lease) (p : dispatchPlan) (outcome : op_state) : txm unit :=
  id ← NewID OpErrStore;
  let base : gmap string string :=
    {["operation_id" := uuid_String (dp_id p); "resource_id" := uuid_String (dp_target p)]} in
  let metadata := if decide (outcome = Succeeded) then base
                  else <["reason_code" := op_state_text outcome]> base in
  or_fail OpErrStore
    (Append (MkEvent id (ls_Workspace lease) ActorSystem None (executionKind outcome) "operation-worker" metadata)).

(** [if next.After(lease.Deadline) { next = lease.Deadline }] *)
Definition bounded_next (lease : Lease) (next : time) : time :=
  if After next (ls_Deadline lease) then ls_Deadline lease else next.

(** ** Work that was never sent *)

Definition reject_commit (lease : Lease) : txm unit :=
  begin_tx OpErrStore ;;
  '(p, r) ← dispatchLoad lease;
  reject_if (negb (bool_decide (dp_state p = Queued))) OpErrState ;;
  advance lease p Failed ;;
  executionAudit lease p Failed ;;
  finishJob lease JFailed zero_time ;;
  commit OpErrStore ;;
  mret tt.

Definition rejectUnsent (lease : Lease) (cause : error) : prog unit :=
  if decide (cause ≠ OpErrDenied ∧ cause ≠ OpErrStale ∧ cause ≠ OpErrUnsupported)
  then pthrow cause
  else tx (reject_commit lease).

(** ** The marker *)

(** The last local checks and the committed [queued] to [dispatching] step. *)
Definition mark (s : Service) (lease : Lease) (pre : Preconditions) : txm (dispatchPlan * stored * Authority) :=
  begin_tx OpErrStore ;;
  '(current, r) ← dispatchLoad lease;
  a ← dispatchCheck s lease current r;
  checkRecoveryGate ;;
  reject_if (negb (bool_decide (pre_Fingerprint pre = st_preconditions r))) OpErrStale ;;
  advance lease current Dispatching ;;
  commit OpErrStore ;;
  mret (current, r, a).

(** ** The receipt *)

Definition receipt_commit (lease : Lease) (result : go Receipt) : txm unit :=
  begin_tx OpErrStore ;;
  '(p, r) ← dispatchLoad lease;
  reject_if (negb (bool_decide (dp_state p = Dispatching))) OpErrState ;;
  let '(to, reference) := classifyActionReceipt (it_Action (st_intent r)) result in
  exec OpErrStore (set_reference (ls_Workspace lease) (dp_id p) reference) ;;
  advance lease p to ;;
  executionAudit lease p to ;;
  now ← go_now;
  finishJob lease (if decide (to = Failed) then JFailed else JQueued)
    (bounded_next lease (now + 2 * Second)) ;;
  commit OpErrStore ;;
  mret tt.

(** ** Observation *)

(** Unknown is reached through reconciling. *)
Definition advance_observed (lease : Lease) (p : dispatchPlan) (to : op_state) : txm unit :=
  if (bool_decide (dp_state p = Dispatching) || bool_decide (dp_state p = WaitingProvider))
     && bool_decide (to = Unknown)
  then advance lease p Reconciling ;;
       advance lease (MkPlan (dp_id p) (dp_actor p) (dp_target p) Reconciling (dp_reference p)) to
  else advance lease p to.

(** A refresh that is not admitted is not an error of the observation. *)
Definition refresh_after (lease : Lease) (actor : uuid) : txm unit :=
  r ← attempt (Enqueue actor (ls_Workspace lease) (ls_Connection lease));
  match r with
  | Ok _ => mret tt
  | Err e => reject_if (negb (bool_decide (e ∈ [InvErrQuota; WsErrDenied; WsErrNotFound]))) OpErrStore
  end.

Definition observe_commit (lease : Lease) (p : dispatchPlan) (to : op_state) (delay : duration) : txm unit :=
  begin_tx OpErrStore ;;
  '(current, r) ← dispatchLoad lease;
  reject_if (negb (bool_decide (dp_state current = dp_state p))) OpErrState ;;
  advance_observed lease current to ;;
  executionAudit lease p to ;;
  (if decide (to = Succeeded) then refresh_after lease (dp_actor p) else mret tt) ;;
  now ← go_now;
  finishJob lease (if decide (to = Succeeded ∨ to = Failed ∨ to = Unknown) then JSucceeded else JQueued)
    (bounded_next lease (now + delay)) ;;
  commit OpErrStore ;;
  mret tt.

Definition observe (d : Dispatcher) (delay : duration) (lease : Lease) (p : dispatchPlan) (r : stored)
  : prog unit :=
  preject (negb (in_flight (dp_state p))) OpErrState ;;
  '(c, target, v) ← tx (pool_row OpErrProvider OpErrProvider (rd (observed_connection lease (dp_target p))));
  match NewBinding (ls_Workspace lease) (ls_Connection lease) (cn_api_family c) v with
  | Err _ => pthrow OpErrStore
  | Ok binding =>
      let action := it_Action (st_intent r) in
      let key := factoryKey (cn_provider c ++ "/" ++ cn_api_family c)%string action in
      preject (negb (bool_decide (key ∈ ds_Factories d))) OpErrUnsupported ;;
      adapter ← ask (CMutation key binding);
      preject (negb adapter) OpErrProvider ;;
      observation ← ask (CObserve binding (quotaKey (cn_provider c) (cn_api_family c) (cn_account_identity c))
                           action (rs_native_id target) (dp_reference p));
      tx (observe_commit lease p (observed_state (bool_decide (is_Some (dp_reference p))) observation) delay)
  end.

(** ** [Dispatcher.Work] *)

(** From a queued operation: inspect, mark, submit once, record the receipt. *)
Definition dispatch (d : Dispatcher) (s : Service) (lease : Lease) : prog unit :=
  inspected ← pattempt (inspectDispatch s lease);
  match inspected with
  | Err cause => rejectUnsent lease cause
  | Ok (p, r, a, pre) =>
      let key := factoryKey (registry_key a) (it_Action (st_intent r)) in
      if negb (bool_decide (key ∈ ds_Factories d)) then rejectUnsent lease OpErrUnsupported
      else
        adapter ← ask (CMutation key (au_binding a));
        preject (negb adapter) OpErrProvider ;;
        '(current, r, a) ← tx (mark s lease pre);
        cancelled ← ask CCtxErr;
        preject cancelled ContextErr ;;
        result ← Call (CSubmit (dp_id current) (au_binding a)
                         (quotaKey (au_provider a) (bd_family (au_binding a)) (au_account a))
                         (it_Action (st_intent r)) (au_native a) (pre_Fingerprint pre))
                   (λ r, Done (Ok r));
        tx (receipt_commit lease result)
  end.

Definition Work (d : Dispatcher) (delay : duration) (lease : Lease) : prog unit :=
  match ds_Service d with
  | None => pthrow OpErrUnsupported
  | Some s =>
      preject (negb (sv_pool s) || negb (sv_enabled s)) OpErrUnsupported ;;
      '(p, r) ← tx (begin_tx OpErrStore ;; dispatchLoad lease);
      if negb (bool_decide (dp_state p = Queued)) then observe d delay lease p r
      else dispatch d s lease
  end.

(** ** The recovery gate *)

Record RecoveryStatus := MkRecoveryStatus { rs_Open : bool; rs_Version : Z; rs_Unresolved : Z }.

(** Operations whose effect at the provider is not known to be settled. *)
Definition unresolved (d : db) (id : uuid) (o : operation) : bool :=
  in_flight (op_st o)
  || bool_decide (op_st o = Unknown)
     && exists_where (λ _ l, bool_decide (rl_operation l = id)) (resource_locks d).

Definition count_unresolved (d : db) : Z := count_where (unresolved d) (operations d).

Definition Recovery : txm RecoveryStatus :=
  pool_row OpErrStore OpErrStore (rd (λ _ d,
    (λ g, MkRecoveryStatus (rg_open g) (rg_version g) (count_unresolved d)) <$> dispatch_recovery_gate d)).

Definition set_gate (open : bool) : sql unit := λ now d,
  match dispatch_recovery_gate d with
  | None => Some (tt, d)
  | Some g => v ← bigint (rg_version g + 1);
              Some (tt, d <| dispatch_recovery_gate := Some (RecoveryGate open v now) |>)
  end.

Definition SetRecovery (open : bool) (version : Z) : txm unit :=
  begin_tx OpErrStore ;;
  current ← query_row OpErrStore OpErrStore (rd (λ _ d, rg_version <$> dispatch_recovery_gate d));
  (if open then
     reject_if (negb (version =? current)) OpErrStale ;;
     count ← exec OpErrStore (rd (λ _ d, count_unresolved d));
     reject_if (negb (count =? 0)) OpErrRecovery
   else mret tt) ;;
  exec OpErrStore (set_gate open) ;;
  commit OpErrStore ;;
  mret tt.
End dispatch.
