(* ===== verification/Control.v ===== *)
(** [internal/operation]: the controls beside dispatch ([control.go],
    [recheck.go], [resolution.go], [expire.go], [state.go], [prune.go]). *)
From S2P Require Import Prelude GoBase Identifier Roles Schema Tx TxLogic Wp AuditLog Jobs.
From S2P Require Import Membership Grants Enqueue Provider Intent Prog Recent Reviews Dispatch.
Local Open Scope Z_scope.

Record Resolution := MkResolution { rn_Acknowledged : bool; rn_Target : string }.

(** ** Statements *)

(** The operation with the caller's role and grant on its connection. *)
Definition control_row (actor scope id : uuid) : time → db → option (operation * action_review * string * list string) :=
  λ now d,
  o ← operation_in scope id d;
  r ← action_reviews d !! op_review o;
  require (bool_decide (ar_workspace r = scope ∧ ar_connection r = op_connection o)) ;;
  m ← member_row scope actor now d;
  let g := granted d scope (op_connection o) actor in
  require (bool_decide ("read" ∈ g)) ;;
  Some (o, r, mb_role m, g).

(** The jobs of an operation. *)
Definition job_of (scope id : uuid) (j : job) : bool :=
  bool_decide (jb_workspace j = scope ∧ jb_operation j = Some id).

Definition cancelled_row (now : time) (j : job) : job :=
  clear_lease (j <| jb_state := JCancelled |> <| jb_completed_at := Some now |>).

(** [state='queued', deadline=now+5m, next_run_at=now, attempts=0, ...] *)
Definition requeued_row (now : time) (j : job) : job :=
  clear_lease (j <| jb_state := JQueued |> <| jb_deadline := now + 5 * Minute |>
                 <| jb_next_run_at := now |> <| jb_attempts := 0 |> <| jb_completed_at := None |>).

Definition failed_row (now : time) (j : job) : job :=
  clear_lease (j <| jb_state := JFailed |> <| jb_completed_at := Some now |>).

Definition insert_resolution (id scope op actor audit : uuid) : sql unit := λ _ d,
  require (bool_decide (is_Some (operation_in scope op d)) && bool_decide (is_Some (users d !! actor))) ;;
  a ← audit_events d !! audit;
  require (bool_decide (ae_workspace a = scope)) ;;
  require (negb (exists_where (λ _ r, bool_decide (or_workspace r = scope ∧ or_operation r = op))
                  (operation_resolutions d))) ;;
  t ← insert_new id (OperationResolution scope op actor audit) (operation_resolutions d);
  Some (tt, d <| operation_resolutions := t |>).

(** Jobs [Expire] may checkpoint: exhausted, and no live lease can write. *)
Definition exhausted (now : time) (j : job) : bool :=
  live_job j && ((jb_deadline j <=? now) || (100 <=? jb_attempts j))
  && match jb_lease j with None => true | Some h => hl_expires_at h <=? now end.

(** [ORDER BY id] *)
Definition job_order (x y : uuid * job) : Prop := (fst x <= fst y)%N.
#[export] Instance job_order_dec : RelDecision job_order.
Proof. intros x y. unfold job_order. apply _. Defined.

Definition expirable (now : time) (d : db) : list Lease :=
  (λ '(id, j), MkLease (MkRecord Nil id (jb_workspace j) (jb_connection j) "" 0 zero_time) Nil Nil)
  <$> take 50 (merge_sort job_order
        (filter (λ '(_, j), bool_decide (jb_type j = "operation_dispatch") && exhausted now j = true)
           (map_to_list (jobs d)))).

Section control.
Context `{U : UuidApi}.

Definition controlLoad (actor scope id : uuid) : txm (dispatchPlan * string) :=
  query_row WsErrNotFound WsErrNotFound (rd (lock_workspace scope)) ;;
  '(o, r, role, grants) ← query_row WsErrNotFound OpErrStore (rd (control_row actor scope id));
  let class := if ar_high_impact r then "high_impact" else "operate" in
  reject_if (negb (WithinCeiling role class) || negb (bool_decide (class ∈ grants))) OpErrDenied ;;
  mret (plan_of id o, role).

Definition controlKind (reason : string) : string :=
  if decide (reason = "cancelled_before_dispatch") then "operation.cancelled"
  else if decide (reason = "reservation_released_residual_risk") then "operation.reservation_released"
  else "operation.reconciled".

Definition controlAudit (p : dispatchPlan) (actor scope : uuid) (request reason : string) : txm uuid :=
  id ← NewID OpErrStore;
  or_fail OpErrStore
    (Append (MkEvent id scope ActorUser (Some actor) (controlKind reason) request
       {["operation_id" := uuid_String (dp_id p); "resource_id" := uuid_String (dp_target p);
         "reason_code" := reason]})) ;;
  mret id.

(** ** [Cancel] *)

Definition Cancel (s : option Service) (p : Principal) (scope id : uuid) (request : string) : txm Accepted :=
  reject_if (match s with Some s => negb (sv_pool s) | None => true end) OpErrStore ;;
  begin_tx OpErrStore ;;
  '(pl, _) ← controlLoad (pr_UserID p) scope id;
  reject_if (negb (bool_decide (dp_state pl = Queued))) OpErrState ;;
  advance (workspace_lease scope) pl Cancelled ;;
  exec OpErrStore (update_jobs (λ _ _ j, job_of scope id j && live_job j) cancelled_row) ;;
  controlAudit pl (pr_UserID p) scope request "cancelled_before_dispatch" ;;
  commit OpErrStore ;;
  mret (MkAccepted id Cancelled).

(** ** [Recheck] *)

Definition recheck_pending (scope id : uuid) : time → db → bool := λ now d,
  exists_where (λ _ j, job_of scope id j && live_job j && (now <? jb_deadline j)) (jobs d).

Definition reserved (scope id : uuid) : time → db → bool := λ _ d,
  exists_where (λ '(w, _, _, _, _, _) l, bool_decide (w = scope ∧ rl_operation l = id)) (resource_locks d).

(** A reconciling operation whose job is still live is already being rechecked. *)
Definition already_rechecking (scope id : uuid) (state : op_state) : txm bool :=
  if decide (state = Reconciling)
  then exec OpErrStore (rd (recheck_pending scope id))
  else mret false.

Definition Recheck (s : option Service) (p : Principal) (scope id : uuid) (request : string) : txm Accepted :=
  reject_if (match s with Some s => negb (sv_pool s) | None => true end) OpErrStore ;;
  begin_tx OpErrStore ;;
  '(pl, _) ← controlLoad (pr_UserID p) scope id;
  pending ← already_rechecking scope id (dp_state pl);
  if (pending : bool) then mret (MkAccepted id Reconciling) else
  reject_if (negb (bool_decide (dp_state pl = Unknown))) OpErrState ;;
  held ← exec OpErrStore (rd (reserved scope id));
  reject_if (negb held) OpErrState ;;
  controlAudit pl (pr_UserID p) scope request "user_requested_recheck" ;;
  advance (workspace_lease scope) pl Reconciling ;;
  n ← exec OpErrStore (update_jobs (λ _ _ j, job_of scope id j
        && bool_decide (jb_type j = "operation_dispatch") && (jb_payload_version j =? 3)) requeued_row);
  reject_if (negb (bool_decide (n = 1%nat))) OpErrStore ;;
  commit OpErrStore ;;
  mret (MkAccepted id Reconciling).

(** ** [ReleaseUnknown] *)

Definition ReleaseUnknown (s : option Service) (p : Principal) (scope id : uuid) (input : Resolution)
  (request : string) : txm Accepted :=
  reject_if (match s with Some s => negb (sv_pool s) | None => true end) OpErrStore ;;
  reject_if (negb (rn_Acknowledged input)) OpErrInvalid ;;
  now ← go_now;
  reject_if (match s with Some s => negb (sv_sessions s) | None => true end
             || negb (is_ok (RequireRecent p now))) IdErrRecentRequired ;;
  begin_tx OpErrStore ;;
  '(pl, role) ← controlLoad (pr_UserID p) scope id;
  reject_if (negb (bool_decide (role = "owner"))) OpErrDenied ;;
  reject_if (negb (bool_decide (dp_state pl = Unknown))) OpErrState ;;
  '(name, high) ← query_row OpErrStore OpErrStore (rd (λ now d,
      '(o, r, _, g) ← control_row (pr_UserID p) scope id now d;
      Some (ar_target_name r, bool_decide ("high_impact" ∈ g))));
  reject_if (negb high) OpErrDenied ;;
  reject_if (negb (bool_decide (name = rn_Target input))) OpErrInvalid ;;
  auditID ← controlAudit pl (pr_UserID p) scope request "reservation_released_residual_risk";
  resolution ← new_id OpErrStore;
  exec OpErrState (insert_resolution resolution scope id (pr_UserID p) auditID) ;;
  n ← exec OpErrState (delete_locks scope id);
  reject_if (negb (bool_decide (n = 1%nat))) OpErrState ;;
  exec OpErrStore (update_jobs (λ _ _ j, job_of scope id j) cancelled_row) ;;
  commit OpErrStore ;;
  mret (MkAccepted id Unknown).

(** ** [Expire] *)

Definition expired_operation (l : Lease) : time → db → option (uuid * operation) := λ now d,
  j ← jobs d !! ls_ID l;
  require (exhausted now j) ;;
  id ← jb_operation j;
  o ← operations d !! id;
  require (bool_decide (op_workspace o = jb_workspace j ∧ op_connection o = jb_connection j)) ;;
  Some (id, o).

(** Unsent work fails; submitted work becomes unknown, through reconciling. *)
Definition checkpoint (l : Lease) (p : dispatchPlan) : txm unit :=
  let to := if decide (dp_state p = Queued) then Failed else Unknown in
  (if bool_decide (dp_state p = Dispatching) || bool_decide (dp_state p = WaitingProvider)
   then advance l p Reconciling else mret tt) ;;
  let p := if bool_decide (dp_state p = Dispatching) || bool_decide (dp_state p = WaitingProvider)
           then MkPlan (dp_id p) (dp_actor p) (dp_target p) Reconciling (dp_reference p) else p in
  if bool_decide (dp_state p = Unknown) || terminal (dp_state p) then mret tt
  else or_fail OpErrStore (advance l p to ;; executionAudit l p to).

Definition expire_one (l : Lease) : txm unit :=
  begin_tx OpErrStore ;;
  exec OpErrStore (rd (λ _ _, tt)) ;;
  found ← exec OpErrStore (rd (expired_operation l));
  match found with
  | None => mret tt
  | Some (id, o) =>
      checkpoint l (plan_of id o) ;;
      exec OpErrStore (update_jobs (λ _ k _, bool_decide (k = ls_ID l)) failed_row) ;;
      commit OpErrStore ;;
      mret tt
  end.

Fixpoint expire_all (ls : list Lease) : prog unit :=
  match ls with
  | [] => mret tt
  | l :: r => tx (expire_one l) ;; expire_all r
  end.

Definition Expire : prog unit :=
  ls ← tx (pool_exec OpErrStore (rd expirable));
  expire_all ls.

(** ** [Transition] *)

(** The fresh audit reference an unknown operation needs to be reopened. *)
Definition recovery_reference (recovery : uuid) (id : uuid) (o : operation) (d : db) : bool :=
  match audit_events d !! recovery with
  | Some a => bool_decide (ae_workspace a = op_workspace o ∧ ae_event_type a = "operation.reconciled"
                ∧ ae_metadata a !! "operation_id" = Some (uuid_String id)) && (op_updated_at o <=? ae_created_at a)
  | None => false
  end.

Definition transition_under_lease (lease : Lease) (id : uuid) (from to : op_state) (recovery : uuid)
  : sql (option Z) := λ now d,
  match leased_operation lease now d with
  | Some (id', o) =>
      if bool_decide (id' = id) && (negb (bool_decide (from = Unknown)) || recovery_reference recovery id o d)
      then transition_sql (ls_Workspace lease) id from to now d
      else Some (None, d)
  | None => Some (None, d)
  end.

Definition Transition (lease : Lease) (id : uuid) (from to : op_state) (recovery : uuid) : txm unit :=
  reject_if (negb (Allowed from to)) OpErrState ;;
  begin_tx OpErrStore ;;
  sequence ← query_row OpErrState OpErrStore (transition_under_lease lease id from to recovery);
  or_fail OpErrStore (AppendEvent (ls_Workspace lease) id sequence (op_state_text from) (op_state_text to)) ;;
  (if terminal to then or_fail OpErrStore (ReleaseTerminal (ls_Workspace lease) id) else mret tt) ;;
  commit OpErrStore ;;
  mret tt.

(** ** [PruneReviews] *)

Definition review_order (x y : uuid * action_review) : Prop :=
  ar_expires_at (snd x) < ar_expires_at (snd y)
  ∨ ar_expires_at (snd x) = ar_expires_at (snd y) ∧ (fst x <= fst y)%N.
#[export] Instance review_order_dec : RelDecision review_order.
Proof. intros x y. unfold review_order. apply _. Defined.

Definition prunable_review (now : time) (d : db) (id : uuid) (r : action_review) : bool :=
  bool_decide (ar_consumed_by r = None) && (ar_expires_at r <? now - 7 * Day)
  && negb (exists_where (λ _ o, bool_decide (op_workspace o = ar_workspace r ∧ op_review o = id)) (operations d)).

Definition PruneReviews (locked : uuid → bool) : txm Z :=
  pool_exec OpErrStore (λ now d,
    let expired := take 100 (merge_sort review_order
      (filter (λ '(id, r), prunable_review now d id r && negb (locked id) = true) (map_to_list (action_reviews d)))) in
    let ids := fst <$> expired in
    Some (Z.of_nat (length ids), d <| action_reviews ::= filter (λ '(id, _), id ∉ ids) |>)).
End control.
