(* ===== verification/Machine.v ===== *)
(** The operation machine: what every transaction of the operation package
    does to operations, their events and their reservations, as one step
    relation, and the invariants of that relation.  [Refinement] lemmas in the
    files that follow show that each handler commits a sequence of these
    steps. *)
From S2P Require Import Prelude GoBase Identifier Roles Schema Tx TxLogic Wp AuditLog Jobs.
From S2P Require Import Membership Grants Enqueue Provider Intent Prog Recent Reviews Dispatch.
Local Open Scope Z_scope.

(** ** Steps *)

(** The row [advance] leaves. *)
Definition moved (o : operation) (to : op_state) (now : time) : operation :=
  o <| op_st := to |> <| op_version := op_version o + 1 |>
    <| op_event_sequence := op_event_sequence o + 1 |> <| op_updated_at := now |>.

Definition lock_ws (k : lock_key) : uuid := let '(w, _, _, _, _, _) := k in w.

Definition holds_lock (d : db) (id : uuid) : Prop :=
  ∃ k l, resource_locks d !! k = Some l ∧ rl_operation l = id.

(** The locks without those of one operation. *)
Definition unlocked (workspace id : uuid) (t : gmap lock_key resource_lock) : gmap lock_key resource_lock :=
  (delete_where (λ '(w, _, _, _, _, _) l, bool_decide (w = workspace ∧ rl_operation l = id)) t).2.

Definition event_of (id : uuid) (sequence : Z) (e : operation_event) : Prop :=
  oe_operation e = id ∧ oe_sequence e = sequence.

(** What identifies the object a resource row stands for at its provider. *)
Definition target_of (r : resource) : uuid * uuid * string * string * string :=
  (rs_workspace r, rs_connection r, rs_resource_type r, rs_scope r, rs_native_id r).

(** The reservation of an operation's target. *)
Definition lock_key_of (o : operation) (r : resource) : lock_key :=
  (op_workspace o, op_connection o, "resource", rs_resource_type r, rs_scope r, rs_native_id r).

Definition holds_target (d : db) (k : lock_key) (o : operation) : Prop :=
  ∃ r, resources d !! op_resource o = Some r ∧ rs_workspace r = op_workspace o ∧
    rs_connection r = op_connection o ∧ k = lock_key_of o r.

(** The operation carries what its review says, and the review names it. *)
Definition reviewed (d : db) (id : uuid) (o : operation) : Prop :=
  ∃ ar, action_reviews d !! op_review o = Some ar ∧ ar_consumed_by ar = Some id ∧
    ar_workspace ar = op_workspace o ∧ ar_actor ar = op_actor o ∧ ar_connection ar = op_connection o ∧
    ar_resource ar = op_resource o ∧ ar_action ar = op_action o ∧ ar_intent_hash ar = op_intent_hash o ∧
    ar_credential_version ar = op_credential_version o ∧ ar_policy_version ar = op_policy_version o.

(** Resources keep their identity; consumed reviews are frozen; what an owner
    resolved stays recorded. *)
Record kept (d d' : db) : Prop := {
  kp_resource : ∀ id r, resources d !! id = Some r → ∃ r', resources d' !! id = Some r' ∧ target_of r' = target_of r;
  kp_review : ∀ id ar, action_reviews d !! id = Some ar → is_Some (ar_consumed_by ar) →
    action_reviews d' !! id = Some ar;
  kp_resolution : operation_resolutions d ⊆ operation_resolutions d';
}.

(** An owner has released the operation's reservation and acknowledged the
    risk: the resolution is recorded. *)
Definition resolved (d : db) (id : uuid) : Prop :=
  ∃ k r, operation_resolutions d !! k = Some r ∧ or_operation r = id.

#[export] Instance kept_preorder : PreOrder kept.
Proof.
  split.
  - intros d. split; eauto.
  - intros d1 d2 d3 [R1 V1 S1] [R2 V2 S2]. split; [|eauto|by etrans].
    intros id r Hr. destruct (R1 _ _ Hr) as (r1 & H1 & ?). destruct (R2 _ _ H1) as (r2 & ? & ?).
    exists r2. split; [done|congruence].
Qed.

Lemma kept_same d d' : resources d' = resources d → action_reviews d' = action_reviews d →
  operation_resolutions d' = operation_resolutions d → kept d d'.
Proof. intros Hr Hv Hs. split; rewrite ?Hr, ?Hv, ?Hs; eauto. Qed.

Lemma resolved_kept d d' id : kept d d' → resolved d id → resolved d' id.
Proof. intros K (k & r & Hk & Hr). exists k, r. split; [by apply (lookup_weaken _ _ _ _ Hk), K|done]. Qed.

Inductive omove (d d' : db) : Prop :=
| os_frame :
    operations d' = operations d → resource_locks d' = resource_locks d →
    operation_events d' = operation_events d → omove d d'
| os_reference id o ref :
    operations d !! id = Some o →
    operations d' = <[id := o <| op_provider_reference := ref |>]> (operations d) →
    resource_locks d' = resource_locks d → operation_events d' = operation_events d → omove d d'
| os_move id o to eid t1 t2 :
    operations d !! id = Some o → Allowed (op_st o) to = true →
    (op_st o = Unknown → holds_lock d id) →
    (∀ k e, operation_events d !! k = Some e → oe_workspace e = op_workspace o →
       ¬ event_of id (op_event_sequence o + 1) e) →
    operations d' = <[id := moved o to t1]> (operations d) →
    operation_events d !! eid = None →
    operation_events d' = <[eid := OperationEvent (op_workspace o) id (op_event_sequence o + 1)
                              (op_state_text (op_st o)) (op_state_text to) t2]> (operation_events d) →
    resource_locks d' = (if terminal to then unlocked (op_workspace o) id (resource_locks d)
                         else resource_locks d) → omove d d'
| os_accept id o k n eid t :
    operations d !! id = None → op_st o = Queued → op_event_sequence o = 1 →
    (∀ id' o', operations d !! id' = Some o' → op_workspace o' = op_workspace o →
       op_review o' ≠ op_review o ∧
       (op_actor o' = op_actor o → op_idempotency_key o' ≠ op_idempotency_key o)) →
    operations d' = <[id := o]> (operations d) →
    resource_locks d !! k = None → holds_target d k o → reviewed d' id o →
    resource_locks d' = <[k := ResourceLock id n]> (resource_locks d) →
    operation_events d !! eid = None →
    operation_events d' = <[eid := OperationEvent (op_workspace o) id 1 "" "queued" t]> (operation_events d) →
    omove d d'
| os_release id o :
    operations d !! id = Some o → op_st o = Unknown →
    operations d' = operations d → operation_events d' = operation_events d →
    resource_locks d' = unlocked (op_workspace o) id (resource_locks d) → resolved d' id → omove d d'.

(** One step of the package on its tables. *)
Definition ostep (d d' : db) : Prop := omove d d' ∧ kept d d'.

Definition osteps : db → db → Prop := rtc ostep.

Lemma osteps_frame d d' :
  operations d' = operations d → resource_locks d' = resource_locks d →
  operation_events d' = operation_events d → kept d d' → osteps d d'.
Proof. intros. apply rtc_once. split; [by apply os_frame|done]. Qed.

(** ** Facts about the machine *)

Lemma Allowed_not_queued s : Allowed s Queued = false.
Proof. by destruct s. Qed.

Lemma Allowed_terminal s s' : terminal s = true → Allowed s s' = false.
Proof. by destruct s, s'. Qed.

Definition allowed_step (s s' : op_state) : Prop := Allowed s s' = true.

Lemma rtc_allowed_queued s s' : rtc allowed_step s s' → s ≠ Queued → s' ≠ Queued.
Proof.
  induction 1 as [|a b c Hab _ IH]; [done|]. intros _. apply IH. intros ->.
  unfold allowed_step in Hab. by rewrite Allowed_not_queued in Hab.
Qed.

Lemma rtc_allowed_terminal s s' : rtc allowed_step s s' → terminal s = true → s' = s.
Proof.
  destruct 1 as [|a b c Hab _]; [done|]. intros Ht. unfold allowed_step in Hab.
  by rewrite Allowed_terminal in Hab.
Qed.

(** The columns [preserve_operation_intent] protects. *)
Definition same_intent (o o' : operation) : Prop :=
  op_workspace o' = op_workspace o ∧ op_actor o' = op_actor o ∧ op_connection o' = op_connection o ∧
  op_resource o' = op_resource o ∧ op_action o' = op_action o ∧ op_intent_hash o' = op_intent_hash o ∧
  op_idempotency_key o' = op_idempotency_key o ∧ op_review o' = op_review o ∧
  op_credential_version o' = op_credential_version o ∧ op_policy_version o' = op_policy_version o ∧
  op_deadline o' = op_deadline o.

#[export] Instance same_intent_preorder : PreOrder same_intent.
Proof. split; unfold same_intent; [intros o; by split_and!|intros o1 o2 o3; naive_solver congruence]. Qed.

Lemma holds_target_kept d d' k o o' : kept d d' → same_intent o o' → holds_target d k o → holds_target d' k o'.
Proof.
  intros K (Hw & _ & Hc & Hr & _) (r & Hres & ? & ? & ->). destruct (kp_resource _ _ K _ _ Hres) as (r' & ? & Ht).
  exists r'. rewrite Hr. injection Ht as ? ? Hty Hs Hn. unfold lock_key_of. rewrite Hty, Hs, Hn.
  split_and!; congruence.
Qed.

Lemma reviewed_kept d d' id o o' : kept d d' → same_intent o o' → reviewed d id o → reviewed d' id o'.
Proof.
  intros K (? & ? & ? & ? & ? & ? & ? & Hv & ? & ? & _) (ar & Har & Hc & ? & ? & ? & ? & ? & ? & ? & ?).
  exists ar. rewrite Hv. split_and!; try congruence. apply (kp_review _ _ K); [done|by rewrite Hc].
Qed.

(** A later version of the same operation. *)
Definition later (o o' : operation) : Prop :=
  same_intent o o' ∧ rtc allowed_step (op_st o) (op_st o') ∧ op_event_sequence o <= op_event_sequence o'.

#[export] Instance later_preorder : PreOrder later.
Proof.
  split; unfold later.
  - intros o. split_and!; [done|done|lia].
  - intros o1 o2 o3 (? & ? & ?) (? & ? & ?). split_and!; [by etrans|by etrans|lia].
Qed.

Lemma moved_later o to now : Allowed (op_st o) to = true → later o (moved o to now).
Proof. intros H. split_and!; simpl; [by split_and!|by apply rtc_once|lia]. Qed.

(** Operations are never lost, never rewritten, and move along the machine. *)
Lemma ostep_later d d' id o :
  ostep d d' → operations d !! id = Some o → ∃ o', operations d' !! id = Some o' ∧ later o o'.
Proof.
  intros [Hs _] Ho. destruct Hs as [Hops|id0 o0 ref Ho0 Hops|id0 o0 to eid t1 t2 Ho0 Hal _ _ Hops
    |id0 o0 k n eid t Hn _ _ _ Hops|id0 o0 _ _ Hops]; rewrite Hops.
  - by exists o.
  - destruct (decide (id0 = id)) as [->|Hne]; simplify_eq.
    + rewrite lookup_insert_eq. eexists. split; [done|]. split_and!; [by split_and!|done|simpl; lia].
    + rewrite lookup_insert_ne by done. by exists o.
  - destruct (decide (id0 = id)) as [->|Hne]; simplify_eq.
    + rewrite lookup_insert_eq. eauto using moved_later.
    + rewrite lookup_insert_ne by done. by exists o.
  - rewrite lookup_insert_ne by congruence. by exists o.
  - by exists o.
Qed.

Lemma osteps_later d d' id o :
  osteps d d' → operations d !! id = Some o → ∃ o', operations d' !! id = Some o' ∧ later o o'.
Proof.
  intros H. revert o. induction H as [|d1 d2 d3 H1 _ IH]; intros o Ho; [by exists o|].
  destruct (ostep_later _ _ _ _ H1 Ho) as (o2 & Ho2 & Hl). destruct (IH _ Ho2) as (o3 & ? & ?).
  exists o3. split; [done|by etrans].
Qed.
(** ** Invariants *)

(** What the event log says of an operation: a path of the machine from
    [queued] to its state, one event per step, numbered from 1 without gap. *)
Record logged (events : gmap uuid operation_event) (id : uuid) (o : operation) (path : list op_state) : Prop := {
  lg_first : path !! 0%nat = Some Queued;
  lg_last : last path = Some (op_st o);
  lg_length : Z.of_nat (length path) = op_event_sequence o;
  lg_step : ∀ n a b, path !! n = Some a → path !! S n = Some b → Allowed a b = true;
  lg_event : ∀ eid e, events !! eid = Some e → oe_operation e = id →
    oe_workspace e = op_workspace o ∧
    ∃ n s, path !! n = Some s ∧ oe_sequence e = Z.of_nat n + 1 ∧ oe_to e = op_state_text s ∧
      oe_from e = match n with O => "" | S m => default "" (op_state_text <$> path !! m) end;
  lg_complete : ∀ n, (n < length path)%nat → ∃ eid e, events !! eid = Some e ∧ event_of id (Z.of_nat n + 1) e;
  lg_unique : ∀ i j e e', events !! i = Some e → events !! j = Some e' →
    oe_operation e = id → oe_operation e' = id → oe_sequence e = oe_sequence e' → i = j;
}.

Record machine_inv (d : db) : Prop := {
  mi_lock : ∀ k l, resource_locks d !! k = Some l →
    ∃ o, operations d !! rl_operation l = Some o ∧ terminal (op_st o) = false ∧ holds_target d k o;
  mi_unique : ∀ k k' l l', resource_locks d !! k = Some l → resource_locks d !! k' = Some l' →
    rl_operation l = rl_operation l' → k = k';
  mi_reserved : ∀ id o, operations d !! id = Some o → terminal (op_st o) = false → op_st o ≠ Unknown →
    holds_lock d id;
  mi_log : ∀ id o, operations d !! id = Some o → ∃ path, logged (operation_events d) id o path;
  mi_event : ∀ eid e, operation_events d !! eid = Some e → is_Some (operations d !! oe_operation e);
  mi_key : ∀ id id' o o', operations d !! id = Some o → operations d !! id' = Some o' →
    op_workspace o = op_workspace o' →
    op_review o = op_review o' ∨ op_actor o = op_actor o' ∧ op_idempotency_key o = op_idempotency_key o' →
    id = id';
  mi_review : ∀ id o, operations d !! id = Some o → reviewed d id o;
}.

Lemma lookup_unlocked ws id t k :
  unlocked ws id t !! k = l ← t !! k; if bool_decide (lock_ws k = ws ∧ rl_operation l = id) then None else Some l.
Proof. unfold unlocked. rewrite lookup_delete_where. by destruct k as [[[[[? ?] ?] ?] ?] ?]. Qed.

(** Releasing one operation's locks removes exactly those. *)
Lemma unlocked_Some ws id t k l :
  unlocked ws id t !! k = Some l ↔ t !! k = Some l ∧ ¬ (lock_ws k = ws ∧ rl_operation l = id).
Proof.
  rewrite lookup_unlocked. destruct (t !! k) as [l'|]; simpl; [|naive_solver].
  case_bool_decide; naive_solver.
Qed.

(** Rows that differ only in what the invariants do not read. *)
Lemma logged_ext events id o o' path :
  op_st o' = op_st o → op_event_sequence o' = op_event_sequence o → op_workspace o' = op_workspace o →
  logged events id o path → logged events id o' path.
Proof. intros Hs Hn Hw [? ? ? ? He ? ?]. split; rewrite ?Hs, ?Hn, ?Hw; auto. Qed.

Lemma logged_other events eid e id o path :
  events !! eid = None → oe_operation e ≠ id → logged events id o path → logged (<[eid := e]> events) id o path.
Proof.
  intros Hn Hne [? ? ? ? He Hc Hu]. split; try done.
  - intros i e' [[<- <-]|[? ?]]%lookup_insert_Some Hid; [done|eauto].
  - intros n Hlt. destruct (Hc n Hlt) as (i & e' & Hi & ?). exists i, e'.
    rewrite lookup_insert_ne by congruence. done.
  - intros i j e1 e2 [[<- <-]|[? ?]]%lookup_insert_Some [[<- <-]|[? ?]]%lookup_insert_Some; eauto; congruence.
Qed.

(** One more step of the machine with its event. *)
Lemma logged_move events id o to eid t1 t2 path :
  events !! eid = None → Allowed (op_st o) to = true → logged events id o path →
  logged (<[eid := OperationEvent (op_workspace o) id (op_event_sequence o + 1)
             (op_state_text (op_st o)) (op_state_text to) t2]> events) id (moved o to t1) (path ++ [to]).
Proof.
  intros Hn Hal [Hf Hl Hlen Hst He Hc Hu].
  assert (Hpos : (0 < length path)%nat) by (apply lookup_lt_Some in Hf; done).
  assert (Hlast : path !! (length path - 1)%nat = Some (op_st o)).
  { rewrite last_lookup in Hl. by rewrite <-Nat.sub_1_r in Hl. }
  split; simpl.
  - by apply lookup_app_l_Some.
  - by rewrite last_snoc.
  - rewrite length_app. simpl. lia.
  - intros n a b Ha Hb. destruct (decide (S n < length path)%nat) as [Hlt|Hge].
    + rewrite lookup_app_l in Ha, Hb by lia. eauto.
    + assert (S n < length (path ++ [to]))%nat by (by eapply lookup_lt_Some).
      rewrite length_app in *. simpl in *. assert (n = length path - 1)%nat as -> by lia.
      rewrite lookup_app_l in Ha by lia. rewrite lookup_app_r in Hb by lia.
      replace (S (length path - 1) - length path)%nat with 0%nat in Hb by lia. by simplify_eq/=.
  - intros i e [[<- <-]|[? Hi]]%lookup_insert_Some Hid; simpl.
    + split; [done|]. exists (length path), to. rewrite lookup_app_r by lia. rewrite Nat.sub_diag.
      split_and!; [done|lia|done|]. destruct (length path) as [|m] eqn:Hm; [lia|].
      rewrite lookup_app_l by lia. simpl in Hlast. rewrite Nat.sub_0_r in Hlast. by rewrite Hlast.
    + destruct (He _ _ Hi Hid) as (Hw & n & s & Hp & Hseq & Hto & Hfr). split; [done|].
      exists n, s. apply lookup_lt_Some in Hp as Hlt. rewrite lookup_app_l by lia. split_and!; try done.
      rewrite Hfr. destruct n; [done|]. by rewrite lookup_app_l by lia.
  - intros n Hlt. rewrite length_app in Hlt. simpl in Hlt.
    destruct (decide (n < length path)%nat) as [Hl'|Hge].
    + destruct (Hc n Hl') as (i & e & Hi & ?). exists i, e. rewrite lookup_insert_ne by congruence. done.
    + exists eid. eexists. rewrite lookup_insert_eq. split; [done|]. split; [done|]. simpl. lia.
  - assert (Hold : ∀ i e, events !! i = Some e → oe_operation e = id → oe_sequence e <= op_event_sequence o).
    { intros i e Hi Hid. destruct (He _ _ Hi Hid) as (_ & n & s & Hp & Hseq & _).
      apply lookup_lt_Some in Hp. lia. }
    intros i j e1 e2 [[<- <-]|[? H1]]%lookup_insert_Some [[<- <-]|[? H2]]%lookup_insert_Some; simpl; intros; auto.
    + specialize (Hold _ _ H2 ltac:(done)). lia.
    + specialize (Hold _ _ H1 ltac:(done)). lia.
    + eauto.
Qed.

Lemma logged_accept events id o eid t :
  op_st o = Queued → op_event_sequence o = 1 → (∀ k e, events !! k = Some e → oe_operation e ≠ id) →
  logged (<[eid := OperationEvent (op_workspace o) id 1 "" "queued" t]> events) id o [Queued].
Proof.
  intros Hs Hq Hno. split.
  - done.
  - by rewrite Hs.
  - by rewrite Hq.
  - intros [|n] a b Ha Hb; simplify_eq/=.
  - intros i e [[<- <-]|[? Hi]]%lookup_insert_Some Hid; [|by destruct (Hno _ _ Hi)].
    split; [done|]. exists 0%nat, Queued. done.
  - intros n Hlt. simpl in Hlt. assert (n = 0%nat) as -> by lia. exists eid. eexists.
    rewrite lookup_insert_eq. done.
  - intros i j e1 e2 [[<- <-]|[? H1]]%lookup_insert_Some [[<- <-]|[? H2]]%lookup_insert_Some; intros; auto;
      try (by destruct (Hno _ _ H1)); by destruct (Hno _ _ H2).
Qed.

Lemma keys_insert (t : gmap uuid operation) id o o' :
  t !! id = Some o → same_intent o o' →
  (∀ i j p q, t !! i = Some p → t !! j = Some q → op_workspace p = op_workspace q →
     op_review p = op_review q ∨ op_actor p = op_actor q ∧ op_idempotency_key p = op_idempotency_key q → i = j) →
  ∀ i j p q, <[id := o']> t !! i = Some p → <[id := o']> t !! j = Some q → op_workspace p = op_workspace q →
     op_review p = op_review q ∨ op_actor p = op_actor q ∧ op_idempotency_key p = op_idempotency_key q → i = j.
Proof.
  intros Ho (Hw & Ha & _ & _ & _ & _ & Hk & Hr & _) HI i j p q Hp Hq Hws Hor.
  apply lookup_insert_Some in Hp as [[<- <-]|[? Hp]]; apply lookup_insert_Some in Hq as [[<- <-]|[? Hq]];
    [done|..]; eapply HI; eauto; naive_solver congruence.
Qed.

(** A row rewritten without moving: the provider's reference. *)
Lemma machine_inv_update d d' id o o' :
  machine_inv d → operations d !! id = Some o → same_intent o o' → op_st o' = op_st o →
  op_event_sequence o' = op_event_sequence o → operations d' = <[id := o']> (operations d) →
  resource_locks d' = resource_locks d → operation_events d' = operation_events d → kept d d' → machine_inv d'.
Proof.
  intros [IL IU IR IG IE IK IV] Ho Hsame Hst Hsq Hops Hlocks Hev K.
  assert (Hback : ∀ i p, operations d' !! i = Some p → ∃ q, operations d !! i = Some q ∧
            op_st p = op_st q ∧ op_event_sequence p = op_event_sequence q ∧ op_workspace p = op_workspace q).
  { intros i p. rewrite Hops. intros [[<- <-]|[? ?]]%lookup_insert_Some; [|by exists p].
    exists o. split_and!; try done. apply Hsame. }
  split.
  - intros k l. rewrite Hlocks. intros Hl. destruct (IL _ _ Hl) as (p & Hp & Ht & Hw). rewrite Hops.
    destruct (decide (rl_operation l = id)) as [Hid|Hne].
    + rewrite Hid in *. simplify_eq. rewrite lookup_insert_eq. exists o'. split_and!; [done|by rewrite Hst|by eapply holds_target_kept].
    + rewrite lookup_insert_ne by done. exists p. split_and!; [done..|by eapply holds_target_kept].
  - rewrite Hlocks. done.
  - intros i p Hp Ht Hu. destruct (Hback _ _ Hp) as (q & Hq & Hs & _).
    unfold holds_lock. rewrite Hlocks. apply (IR i q Hq); congruence.
  - intros i p Hp. destruct (Hback _ _ Hp) as (q & Hq & Hs & Hn & Hw). destruct (IG _ _ Hq) as [path Hg].
    exists path. rewrite Hev. by eapply logged_ext.
  - intros eid e. rewrite Hev, Hops. intros He. apply lookup_insert_is_Some'. eauto.
  - rewrite Hops. by eapply keys_insert.
  - rewrite Hops. intros i p [[<- <-]|[? Hp]]%lookup_insert_Some; (eapply reviewed_kept; [done| |eauto]; done).
Qed.

Lemma machine_inv_move d d' id o to eid t1 t2 :
  machine_inv d → operations d !! id = Some o → Allowed (op_st o) to = true →
  (op_st o = Unknown → holds_lock d id) → operations d' = <[id := moved o to t1]> (operations d) →
  operation_events d !! eid = None →
  operation_events d' = <[eid := OperationEvent (op_workspace o) id (op_event_sequence o + 1)
                            (op_state_text (op_st o)) (op_state_text to) t2]> (operation_events d) →
  resource_locks d' = (if terminal to then unlocked (op_workspace o) id (resource_locks d)
                       else resource_locks d) → kept d d' → machine_inv d'.
Proof.
  intros [IL IU IR IG IE IK IV] Ho Hal Hun Hops Hne Hev Hlocks K.
  assert (Hsame : same_intent o (moved o to t1)) by (by split_and!).
  assert (Hnt : terminal (op_st o) = false).
  { destruct (terminal (op_st o)) eqn:E; [|done]. by rewrite Allowed_terminal in Hal. }
  assert (Hsub : ∀ k l, resource_locks d' !! k = Some l → resource_locks d !! k = Some l ∧
            (terminal to = true → rl_operation l ≠ id)).
  { intros k l. rewrite Hlocks. destruct (terminal to); [|done].
    intros [Hl Hn]%unlocked_Some. split; [done|]. intros _ Hid. apply Hn. split; [|done].
    destruct (IL _ _ Hl) as (p & Hp & _ & r & _ & _ & _ & ->). simpl. congruence. }
  split.
  - intros k l Hl. destruct (Hsub _ _ Hl) as [Hl0 Hn]. destruct (IL _ _ Hl0) as (p & Hp & Ht & Hw).
    rewrite Hops. destruct (decide (rl_operation l = id)) as [Hid|Hid].
    + rewrite Hid in *. simplify_eq. rewrite lookup_insert_eq. eexists. split; [done|]. simpl.
      split; [|by eapply holds_target_kept]. destruct (terminal to); [|done]. by destruct Hn.
    + rewrite lookup_insert_ne by done. exists p. split_and!; [done..|by eapply holds_target_kept].
  - intros k k' l l' [Hl _]%Hsub [Hl' _]%Hsub. by eapply IU.
  - intros i p. rewrite Hops. intros [[<- <-]|[Hi Hp]]%lookup_insert_Some Ht Hu; simpl in *.
    + unfold holds_lock. rewrite Hlocks, Ht. destruct (decide (op_st o = Unknown)); [by apply Hun|by eapply IR].
    + destruct (IR _ _ Hp Ht Hu) as (k & l & Hl & Hid). exists k, l. split; [|done].
      rewrite Hlocks. destruct (terminal to); [|done]. apply unlocked_Some. naive_solver.
  - intros i p. rewrite Hops, Hev. intros [[<- <-]|[Hi Hp]]%lookup_insert_Some.
    + destruct (IG _ _ Ho) as [path Hg]. exists (path ++ [to]). by apply logged_move.
    + destruct (IG _ _ Hp) as [path Hg]. exists path. apply logged_other; [done|simpl; congruence|done].
  - intros i e. rewrite Hev, Hops. intros [[<- <-]|[? He]]%lookup_insert_Some; simpl.
    + rewrite lookup_insert_eq. by eexists.
    + apply lookup_insert_is_Some'. eauto.
  - rewrite Hops. by eapply keys_insert.
  - rewrite Hops. intros i p [[<- <-]|[? Hp]]%lookup_insert_Some; (eapply reviewed_kept; [done| |eauto]; done).
Qed.

Lemma machine_inv_accept d d' id o k n eid t :
  machine_inv d → operations d !! id = None → op_st o = Queued → op_event_sequence o = 1 →
  (∀ id' o', operations d !! id' = Some o' → op_workspace o' = op_workspace o →
     op_review o' ≠ op_review o ∧ (op_actor o' = op_actor o → op_idempotency_key o' ≠ op_idempotency_key o)) →
  operations d' = <[id := o]> (operations d) → resource_locks d !! k = None → holds_target d k o →
  reviewed d' id o →
  resource_locks d' = <[k := ResourceLock id n]> (resource_locks d) →
  operation_events d !! eid = None →
  operation_events d' = <[eid := OperationEvent (op_workspace o) id 1 "" "queued" t]> (operation_events d) →
  kept d d' → machine_inv d'.
Proof.
  intros I Hn Hst Hsq Hkey Hops Hk Hw Hrev Hlocks Hne Hev K.
  assert (Hnoev : ∀ i e, operation_events d !! i = Some e → oe_operation e ≠ id).
  { intros i e He Hid. destruct (mi_event _ I _ _ He) as [? ?]. congruence. }
  assert (Hnolk : ∀ k l, resource_locks d !! k = Some l → rl_operation l ≠ id).
  { intros k0 l Hl Hid. destruct (mi_lock _ I _ _ Hl) as (? & ? & _). congruence. }
  destruct I as [IL IU IR IG IE IK IV]. split.
  - intros k0 l. rewrite Hlocks, Hops. intros [[<- <-]|[? Hl]]%lookup_insert_Some; simpl.
    + rewrite lookup_insert_eq. exists o. rewrite Hst. split_and!; [done..|by eapply holds_target_kept].
    + rewrite lookup_insert_ne by (intros Hc; by apply (Hnolk _ _ Hl)).
      destruct (IL _ _ Hl) as (p & ? & ? & ?). exists p. split_and!; [done..|by eapply holds_target_kept].
  - intros k1 k2 l1 l2. rewrite Hlocks.
    intros [[<- <-]|[? H1]]%lookup_insert_Some [[<- <-]|[? H2]]%lookup_insert_Some; simpl; intros Hid.
    + done.
    + by destruct (Hnolk _ _ H2).
    + by destruct (Hnolk _ _ H1).
    + eauto.
  - intros i p. rewrite Hops. unfold holds_lock. rewrite Hlocks. intros [[<- <-]|[? Hp]]%lookup_insert_Some Ht Hu.
    + exists k, (ResourceLock id n). by rewrite lookup_insert_eq.
    + destruct (IR _ _ Hp Ht Hu) as (k0 & l & Hl & ?). exists k0, l.
      rewrite lookup_insert_ne by congruence. done.
  - intros i p. rewrite Hops, Hev. intros [[<- <-]|[? Hp]]%lookup_insert_Some.
    + exists [Queued]. by apply logged_accept.
    + destruct (IG _ _ Hp) as [path Hg]. exists path. apply logged_other; [done|simpl; congruence|done].
  - intros i e. rewrite Hev, Hops. intros [[<- <-]|[? He]]%lookup_insert_Some; simpl.
    + rewrite lookup_insert_eq. by eexists.
    + apply lookup_insert_is_Some'. eauto.
  - intros i j p q. rewrite Hops.
    intros [[<- <-]|[? Hp]]%lookup_insert_Some [[<- <-]|[? Hq]]%lookup_insert_Some Hws Hor; [done|..].
    + destruct (Hkey _ _ Hq (eq_sym Hws)) as [? Hc]. destruct Hor as [Hr|[Ha Hk']]; [congruence|].
      by destruct (Hc (eq_sym Ha)).
    + destruct (Hkey _ _ Hp Hws) as [? Hc]. destruct Hor as [Hr|[Ha Hk']]; [congruence|]. by destruct (Hc Ha).
    + eauto.
  - intros i p. rewrite Hops. intros [[<- <-]|[? Hp]]%lookup_insert_Some; [done|].
    (eapply reviewed_kept; [done| |eauto]; done).
Qed.

Lemma machine_inv_release d d' id o :
  machine_inv d → operations d !! id = Some o → op_st o = Unknown →
  operations d' = operations d → operation_events d' = operation_events d →
  resource_locks d' = unlocked (op_workspace o) id (resource_locks d) → kept d d' → machine_inv d'.
Proof.
  intros [IL IU IR IG IE IK IV] Ho Hst Hops Hev Hlocks K.
  split; rewrite ?Hops, ?Hev; try done.
  - intros k l. rewrite Hlocks. intros [Hl _]%unlocked_Some.
    destruct (IL _ _ Hl) as (p & ? & ? & ?). exists p. split_and!; [done..|by eapply holds_target_kept].
  - intros k k' l l'. rewrite Hlocks. intros [Hl _]%unlocked_Some [Hl' _]%unlocked_Some. by eapply IU.
  - intros i p Hp Ht Hu. destruct (IR _ _ Hp Ht Hu) as (k & l & Hl & Hid). exists k, l. split; [|done].
    rewrite Hlocks. apply unlocked_Some. split; [done|]. intros [_ Hc]. subst. congruence.
  - intros i p Hp. (eapply reviewed_kept; [done| |eauto]; done).
Qed.

Lemma ostep_inv d d' : ostep d d' → machine_inv d → machine_inv d'.
Proof.
  intros [Hs K] I. destruct Hs as [Hops Hlocks Hev|id o ref Ho Hops Hlocks Hev
    |id o to eid t1 t2 Ho Hal Hun Hfresh Hops Hne Hev Hlocks
    |id o k n eid t Hn Hst Hsq Hkey Hops Hk Hw Hrev Hlocks Hne Hev|id o Ho Hst Hops Hev Hlocks Hres].
  - destruct I as [IL IU IR IG IE IK IV]. split; unfold holds_lock in *; rewrite ?Hops, ?Hlocks, ?Hev; eauto.
    + intros k l Hl. destruct (IL _ _ Hl) as (o & ? & ? & ?). exists o.
      split_and!; [done..|by eapply holds_target_kept].
    + intros id o Ho. (eapply reviewed_kept; [done| |eauto]; done).
  - apply (machine_inv_update d d' id o (o <| op_provider_reference := ref |>)); try done; by split_and!.
  - by eapply machine_inv_move.
  - by eapply machine_inv_accept.
  - by eapply machine_inv_release.
Qed.

(** An operation whose result is unknown keeps its reservation until an owner
    resolves it. *)
Definition unknown_held (d : db) : Prop :=
  ∀ id o, operations d !! id = Some o → op_st o = Unknown → holds_lock d id ∨ resolved d id.

Lemma ostep_unknown d d' : ostep d d' → machine_inv d → unknown_held d → unknown_held d'.
Proof.
  intros [Hs K] I IN.
  assert (Hsub : ∀ i, resource_locks d ⊆ resource_locks d' → holds_lock d i ∨ resolved d i → holds_lock d' i ∨ resolved d' i).
  { intros i Hl [(k & l & Hk & Hi)|?]; [left|right; by eapply resolved_kept]. exists k, l.
    split; [by eapply lookup_weaken|done]. }
  assert (Hun : ∀ ws id i, i ≠ id → resource_locks d' = unlocked ws id (resource_locks d) →
    holds_lock d i ∨ resolved d i → holds_lock d' i ∨ resolved d' i).
  { intros ws id i Hne Hl [(k & l & Hk & Hi)|?]; [left|right; by eapply resolved_kept]. exists k, l.
    split; [|done]. rewrite Hl. apply unlocked_Some. split; [done|]. intros [_ Hc]. congruence. }
  destruct Hs as [Hops Hlocks _|id o ref Ho Hops Hlocks _|id o to eid t1 t2 Ho Hal Hu _ Hops _ _ Hlocks
    |id o k n eid t Hn Hst _ _ Hops Hk _ _ Hlocks|id o Ho Hst Hops _ Hlocks Hres]; intros i p; rewrite Hops.
  - intros Hp Hs. apply Hsub; [by rewrite Hlocks|by eapply IN].
  - intros [[<- <-]|[_ Hp]]%lookup_insert_Some Hs; (apply Hsub; [by rewrite Hlocks|by eapply IN]).
  - intros [[<- <-]|[Hne Hp]]%lookup_insert_Some Hs; simpl in *.
    + subst to. apply Hsub; [by rewrite Hlocks|]. left. destruct (decide (op_st o = Unknown)); [by apply Hu|].
      eapply (mi_reserved _ I); [exact Ho| |done]. destruct (terminal (op_st o)) eqn:E; [|done]. by rewrite Allowed_terminal in Hal.
    + destruct (terminal to); [eapply Hun; [|exact Hlocks|by eapply IN]; done|]. apply Hsub; [by rewrite Hlocks|by eapply IN].
  - intros [[<- <-]|[_ Hp]]%lookup_insert_Some Hs; [congruence|].
    apply Hsub; [rewrite Hlocks; by apply insert_subseteq|by eapply IN].
  - intros Hp Hs. destruct (decide (i = id)) as [->|Hne]; [by right|]. eapply Hun; [done|exact Hlocks|by eapply IN].
Qed.

(** An unfinished operation holds its reservation, unless its result is unknown
    and it has been resolved. *)
Lemma unfinished_holds d id o : machine_inv d → unknown_held d → operations d !! id = Some o →
  terminal (op_st o) = false → (op_st o = Unknown → ¬ resolved d id) → holds_lock d id.
Proof.
  intros I Hun Ho Ht Hu. destruct (decide (op_st o = Unknown)) as [He|Hne]; [|by eapply mi_reserved].
  destruct (Hun _ _ Ho He) as [?|Hr]; [done|]. by destruct (Hu He).
Qed.

Lemma osteps_unknown d d' : osteps d d' → machine_inv d → unknown_held d → unknown_held d'.
Proof. induction 1; eauto using ostep_inv, ostep_unknown. Qed.

Lemma osteps_inv d d' : osteps d d' → machine_inv d → machine_inv d'.
Proof. induction 1; eauto using ostep_inv. Qed.
