(* ===== verification/Steps.v ===== *)
(** What each shared operation of the package does inside its caller's
    transaction, in terms of the machine's steps. *)
From S2P Require Import Prelude GoBase Identifier Roles Schema Tx TxLogic Wp AuditLog Jobs.
From S2P Require Import Membership Grants Enqueue Provider Intent Prog Recent Reviews Dispatch.
From S2P Require Import Control Machine.
Local Open Scope Z_scope.

(** What decides authority is untouched, and so are the owners' resolutions. *)
Definition same_authority (d d' : db) : Prop :=
  workspaces d' = workspaces d ∧ memberships d' = memberships d ∧ users d' = users d ∧
  connection_grants d' = connection_grants d ∧ connections d' = connections d ∧
  credential_versions d' = credential_versions d ∧ dispatch_recovery_gate d' = dispatch_recovery_gate d ∧
  operation_resolutions d' = operation_resolutions d.

Lemma kept_authority d d' : resources d' = resources d → action_reviews d' = action_reviews d → same_authority d d' → kept d d'.
Proof. intros ? ? (_ & _ & _ & _ & _ & _ & _ & ?). by apply kept_same. Qed.

(** Statements that touch neither operations nor events nor reservations, nor
    any of these. *)
Record framed (d d' : db) : Prop := {
  fr_ops : operations d' = operations d;
  fr_locks : resource_locks d' = resource_locks d;
  fr_events : operation_events d' = operation_events d;
  fr_reviews : action_reviews d' = action_reviews d;
  fr_resources : resources d' = resources d;
  fr_authority : same_authority d d';
}.

#[export] Instance framed_preorder : PreOrder framed.
Proof.
  split.
  - intros d. by split.
  - intros d1 d2 d3 [? ? ? ? ? A] [? ? ? ? ? B]. split; try congruence.
    unfold same_authority in *. naive_solver congruence.
Qed.

Lemma framed_osteps d d' : framed d d' → osteps d d'.
Proof. intros [? ? ? ? ? ?]. apply osteps_frame; [done..|by apply kept_authority]. Qed.

Lemma audit_framed w t : framed w (w <| audit_events := t |>).
Proof. by split. Qed.

(** Solve [framed] goals from the facts along a transaction. *)
Lemma jobs_framed w t : framed w (w <| jobs := t |>).
Proof. by split. Qed.

Lemma operation_in_Some ws id d o :
  operation_in ws id d = Some o ↔ operations d !! id = Some o ∧ op_workspace o = ws.
Proof.
  unfold operation_in. destruct (operations d !! id) as [o'|]; simpl; [|naive_solver].
  case_bool_decide; simpl; naive_solver.
Qed.

(** Extend a chain of steps along the facts a transaction has collected. *)
Ltac framed_chain :=
  first [ done | assumption | apply audit_framed | apply jobs_framed
        | match goal with H : framed ?w ?w' |- framed _ ?w' => etrans; [|exact H]; framed_chain end
        | etrans; [|apply audit_framed]; framed_chain
        | etrans; [|apply jobs_framed]; framed_chain ].

Section steps.
Context `{U : UuidApi}.

#[export] Instance executionAudit_spec lease p outcome :
  TxSpec (executionAudit lease p outcome) rolled_back (λ w _ w' _, framed w w' ∧ jobs w' = jobs w).
Proof.
  intros d w e. unfold executionAudit. wp_run by tx_done.
Qed.

#[export] Instance controlAudit_spec p actor scope request reason :
  TxSpec (controlAudit p actor scope request reason) rolled_back
    (λ w id w' _, framed w w' ∧ jobs w' = jobs w ∧ is_Some (audit_events w' !! id)).
Proof.
  intros d w e. unfold controlAudit. wp_run by tx_done.
  simpl. split_and!; [done|env_solve|apply audit_framed|done|]. rewrite lookup_insert_eq. by eexists.
Qed.

(** Exactly the leased row is finished. *)
#[export] Instance finishJob_spec lease st next :
  TxSpec (finishJob lease st next) rolled_back
    (λ w _ w' e', framed w w' ∧
       jobs w' = (update_where (holds (en_clock e') lease) (finished st next (en_clock e')) (jobs w)).2 ∧
       (∃ j, jobs w !! ls_ID lease = Some j ∧ holds (en_clock e') lease (ls_ID lease) j = true)).
Proof.
  intros d w e. unfold finishJob. wp_run by tx_done. guards. subst.
  match goal with H : finish_sql _ _ _ _ _ = _ |- _ =>
    apply update_jobs_Some in H as (Hn & -> & _) end.
  simpl. split_and!; [done|env_solve|apply jobs_framed|done|].
  simpl in Hn. match type of Hn with _ = size ?f => set (m := f) in Hn end.
  assert (Hne : m ≠ ∅) by (intros E; rewrite E, map_size_empty in Hn; done).
  apply map_choose in Hne as (k & j & [Hk Hp]%map_lookup_filter_Some).
  assert (k = ls_ID lease) as -> by (unfold holds in Hp; by guards). eauto.
Qed.

Lemma load_review w actor ws id now r :
  review_row actor ws id now w = Some r →
  action_reviews w !! id = Some r ∧ ar_workspace r = ws ∧ ar_actor r = actor.
Proof.
  unfold review_row. destruct (action_reviews w !! id) as [r'|]; simpl; [|done].
  case_bool_decide; simpl; [|done]. naive_solver.
Qed.

#[export] Instance load_spec actor ws id :
  TxSpec (load actor ws id) rolled_back
    (λ w r w' _, w' = w ∧ ∃ ar, action_reviews w !! id = Some ar ∧ ar_workspace ar = ws ∧
       ar_actor ar = actor ∧ r = stored_of ar).
Proof.
  intros d w e. unfold load. wp_run by tx_done.
  match goal with H : review_row _ _ _ _ _ = _ |- _ => apply load_review in H end.
  simpl. split_and!; [done|env_solve|done|]. naive_solver.
Qed.

(** What a live lease finds. *)
Record leased (lease : Lease) (w : db) (now : time) (id : uuid) (o : operation) : Prop := {
  ld_op : operations w !! id = Some o;
  ld_workspace : op_workspace o = ls_Workspace lease;
  ld_connection : op_connection o = ls_Connection lease;
  ld_job : ∃ j, jobs w !! ls_ID lease = Some j ∧ jb_operation j = Some id ∧
    holds now lease (ls_ID lease) j = true;
}.

Lemma leased_operation_Some lease now w id o :
  leased_operation lease now w = Some (id, o) → leased lease w now id o.
Proof.
  unfold leased_operation. intros H. sql_inv H. simplify_eq. guards.
  split; [congruence..|]. eauto.
Qed.

(** ** Authority *)

(** What a successful [Service.authority] saw. *)
Record has_authority (s : Service) (w : db) (actor scope target : uuid) (a : Authority) : Prop := {
  ha_open : open_workspace w scope = true;
  ha_member : ∃ m, memberships w !! (scope, actor) = Some m ∧ enabled w actor = true ∧ au_role a = mb_role m;
  ha_grant : connection_grants w !! (scope, bd_connection (au_binding a), actor) = Some (au_grants a) ∧
    "read" ∈ au_grants a;
  ha_resource : ∃ r, resources w !! target = Some r ∧ rs_workspace r = scope ∧
    rs_connection r = bd_connection (au_binding a) ∧ rs_tombstoned_at r = None ∧
    rs_scope r = au_scope a ∧ rs_native_id r = au_native a ∧ rs_resource_type r = au_kind a;
  ha_connection : ∃ c, connections w !! bd_connection (au_binding a) = Some c ∧ cn_workspace c = scope ∧
    cn_status c = "active" ∧ cn_provider c = au_provider a ∧ cn_api_family c = bd_family (au_binding a) ∧
    cn_account_identity c = au_account a ∧ au_verified a = verified_capabilities c ∧
    active_credential w scope (bd_connection (au_binding a)) c = Some (bd_version (au_binding a));
  ha_policy : ∃ W, workspaces w !! scope = Some W ∧
    au_policy a = policyVersion (sv_policy s) (ws_policy_version W);
  ha_workspace : bd_workspace (au_binding a) = scope;
}.

#[export] Instance authority_spec s actor scope target :
  TxSpec (authority s actor scope target) rolled_back
    (λ w a w' _, w' = w ∧ has_authority s w actor scope target a).
Proof.
  intros d w e. unfold authority. wp_run by tx_done. simpl. split_and!; [done|env_solve|done|].
  unfold lock_workspace, authority_row in *.
  repeat match goal with H : _ = Some _ |- _ => progress sql_inv H end. simplify_eq/=.
  match goal with H : NewBinding _ _ _ _ = Ok _ |- _ => apply NewBinding_Ok in H as [-> _] end.
  match goal with H : connection_in _ _ _ = Some _ |- _ => apply connection_in_Some in H as [? ?] end.
  match goal with H : member_row _ _ _ _ = Some _ |- _ => apply member_row_Some in H as [? ?] end.
  guards. split; simpl; try done; eexists; by split_and!.
Qed.

(** What a successful [dispatchLoad] saw. *)
Record loaded (lease : Lease) (w : db) (now : time) (p : dispatchPlan) (r : stored) (o : operation)
  (ar : action_review) : Prop := {
  lo_open : open_workspace w (ls_Workspace lease) = true;
  lo_leased : leased lease w now (dp_id p) o;
  lo_plan : p = plan_of (dp_id p) o;
  lo_review : action_reviews w !! op_review o = Some ar ∧ ar_workspace ar = ls_Workspace lease ∧
    ar_actor ar = op_actor o;
  lo_stored : r = stored_of ar;
}.

#[export] Instance dispatchLoad_spec lease :
  TxSpec (dispatchLoad lease) rolled_back
    (λ w '(p, r) w' _, w' = w ∧ ∃ now o ar, loaded lease w now p r o ar).
Proof.
  intros d w e. unfold dispatchLoad. wp_run by tx_done. simpl.
  split_and!; [done|env_solve|done|].
  match goal with H : leased_operation _ _ _ = _ |- _ => apply leased_operation_Some in H end.
  unfold lock_workspace in *. rewrite require_Some in *. eexists _, _, _. by split.
Qed.

#[export] Instance dispatchCheck_spec s lease p r :
  TxSpec (dispatchCheck s lease p r) rolled_back
    (λ w a w' _, w' = w ∧ has_authority s w (dp_actor p) (ls_Workspace lease) (dp_target p) a ∧
       dp_state p = Queued ∧ bd_connection (au_binding a) = ls_Connection lease ∧
       bd_version (au_binding a) = st_credential r ∧ au_policy a = st_policy r ∧
       authorized a (it_Action (st_intent r)) (st_high r) = true ∧
       policy_forbids s a (it_Action (st_intent r)) = false).
Proof.
  intros d w e. unfold dispatchCheck. wp_run by tx_done. simpl. guards.
  split_and!; first [done|env_solve].
Qed.

#[export] Instance checkRecoveryGate_spec :
  TxSpec checkRecoveryGate rolled_back
    (λ w _ w' _, w' = w ∧ ∃ g, dispatch_recovery_gate w = Some g ∧ rg_open g = true).
Proof.
  intros d w e. unfold checkRecoveryGate. wp_run by tx_done. simpl. guards.
  unfold gate_open in *. destruct (dispatch_recovery_gate w) as [g|]; simplify_eq/=.
  split_and!; [done|env_solve|done|]. by exists g.
Qed.

(** ** Moves *)

(** A committed step of the machine, with everything else as it was. *)
Record moves (ws id : uuid) (from to : op_state) (w w' : db) : Prop := {
  mv_allowed : Allowed from to = true;
  mv_op : ∃ o t, operations w !! id = Some o ∧ op_workspace o = ws ∧ op_st o = from ∧
    operations w' = <[id := moved o to t]> (operations w) ∧
    ∃ eid t2, operation_events w !! eid = None ∧
      operation_events w' = <[eid := OperationEvent ws id (op_event_sequence o + 1)
        (op_state_text from) (op_state_text to) t2]> (operation_events w) ∧
      ∀ k e, operation_events w !! k = Some e → oe_workspace e = ws → ¬ event_of id (op_event_sequence o + 1) e;
  mv_locks : resource_locks w' = (if terminal to then unlocked ws id (resource_locks w) else resource_locks w);
  mv_frame : jobs w' = jobs w ∧ action_reviews w' = action_reviews w ∧ resources w' = resources w ∧
    same_authority w w';
}.

Lemma moves_ostep ws id from to w w' :
  moves ws id from to w w' → (from = Unknown → holds_lock w id) → ostep w w'.
Proof.
  intros [Hal (o & t & Ho & Hw & Hst & Hops & eid & t2 & Hn & Hev & Hfr) Hl (_ & ? & ? & ?)] Hu. subst.
  split; [by eapply (os_move w w' id o to eid t t2)|by apply kept_authority].
Qed.

Lemma insert_event_Some id ws op seq from to now d u d' :
  insert_event id ws op seq from to now d = Some (u, d') →
  operation_events d !! id = None ∧
  (∀ k e, operation_events d !! k = Some e → oe_workspace e = ws → ¬ event_of op seq e) ∧
  d' = d <| operation_events ::= <[id := OperationEvent ws op seq from to now]> |>.
Proof.
  unfold insert_event. intros H. sql_inv H. guards. split_and!; [done| |done].
  intros k e He Hw [Ho Hs].
  assert (exists_where (λ _ e, bool_decide (oe_workspace e = ws ∧ oe_operation e = op ∧ oe_sequence e = seq))
            (operation_events d) = true); [|congruence].
  apply exists_where_true. exists k, e. split; [done|]. by apply bool_decide_eq_true.
Qed.

#[export] Instance AppendEvent_spec ws id seq from to :
  TxSpec (AppendEvent ws id seq from to) rolled_back
    (λ w _ w' _, ∃ eid t, operation_events w !! eid = None ∧
       (∀ k e, operation_events w !! k = Some e → oe_workspace e = ws → ¬ event_of id seq e) ∧
       w' = w <| operation_events ::= <[eid := OperationEvent ws id seq from to t]> |>).
Proof.
  intros d w e. unfold AppendEvent. wp_run by tx_done.
  match goal with H : insert_event _ _ _ _ _ _ _ _ = _ |- _ => apply insert_event_Some in H as (? & ? & ->) end.
  simpl. split_and!; [done|env_solve|]. eexists _, _. by split_and!.
Qed.

#[export] Instance ReleaseTerminal_spec ws id :
  TxSpec (ReleaseTerminal ws id) rolled_back
    (λ w _ w' _, w' = w <| resource_locks := unlocked ws id (resource_locks w) |> ∧
       ∃ o, operations w !! id = Some o ∧ terminal (op_st o) = true).
Proof.
  intros d w e. unfold ReleaseTerminal. wp_run by tx_done. guards.
  match goal with H : operation_in _ _ _ = _ |- _ => apply operation_in_Some in H as [? ?] end.
  match goal with H : delete_locks _ _ _ _ = _ |- _ => unfold delete_locks in H; simplify_eq/= end.
  split_and!; [done|env_solve|done|eauto].
Qed.

Lemma transition_sql_Some ws id from to now d n d' :
  transition_sql ws id from to now d = Some (Some n, d') →
  ∃ o, operations d !! id = Some o ∧ op_workspace o = ws ∧ op_st o = from ∧ n = op_event_sequence o + 1 ∧
    d' = d <| operations ::= <[id := moved o to now]> |>.
Proof.
  unfold transition_sql. destruct (operation_in ws id d) as [o|] eqn:Ho; [|done].
  apply operation_in_Some in Ho as [Ho Hw]. case_decide; [|done]. intros Hq. sql_inv Hq.
  exists o. by split_and!.
Qed.

#[export] Instance advance_spec lease p to :
  TxSpec (advance lease p to) rolled_back
    (λ w _ w' _, moves (ls_Workspace lease) (dp_id p) (dp_state p) to w w').
Proof.
  intros d w e. unfold advance. wp_run by tx_done. all: guards.
  all: match goal with H : transition_sql _ _ _ _ _ _ = _ |- _ =>
         apply transition_sql_Some in H as (o & Ho & Hw & Hst & -> & ->) end.
  all: simpl; split_and!; [done|env_solve|].
  all: split; [done| |match goal with H : terminal _ = _ |- _ => by rewrite H end|by split_and!].
  all: exists o; eexists; split_and!; [done..|]; eexists _, _; split_and!; done.
Qed.

(** ** Reservations, refreshes and reads *)

(** An admitted refresh adds rows; it changes none. *)
Definition admits (w w' : db) : Prop :=
  framed w w' ∧ (∀ k j, jobs w !! k = Some j → jobs w' !! k = Some j) ∧
  ∀ k j, jobs w' !! k = Some j → jobs w !! k = Some j ∨ jb_operation j = None.

#[export] Instance admits_preorder : PreOrder admits.
Proof.
  split.
  - intros d. split_and!; [done|eauto..].
  - intros d1 d2 d3 (? & A & B) (? & C & D). split_and!; [by etrans|eauto|].
    intros k j [Hk|?]%D; eauto.
Qed.

Lemma insert_sync_admits id scope connection actor kind now d u d' :
  insert_sync id scope connection actor kind now d = Some (u, d') → admits d d'.
Proof. unfold insert_sync. intros H. sql_inv H. split_and!; [by split|eauto..]. Qed.

Lemma insert_refresh_admits jobID id scope connection deadline now d u d' :
  insert_refresh jobID id scope connection deadline now d = Some (u, d') → admits d d'.
Proof.
  unfold insert_refresh. intros (Hn & -> & _)%insert_job_Some. split_and!; [apply jobs_framed|..]; simpl.
  - intros k j Hk. rewrite lookup_insert_ne by congruence. done.
  - intros k j [[<- <-]|[? ?]]%lookup_insert_Some; auto.
Qed.

#[export] Instance enqueueLockedType_spec actor scope connection kind :
  TxSpec (enqueueLockedType actor scope connection kind) (λ w _ w', admits w w') (λ w _ w' _, admits w w').
Proof.
  intros d w e. unfold enqueueLockedType. wp_run by tx_done.
  all: repeat match goal with
    | H : insert_sync _ _ _ _ _ _ _ = _ |- _ => apply insert_sync_admits in H
    | H : insert_refresh _ _ _ _ _ _ _ = _ |- _ => apply insert_refresh_admits in H
    end.
  all: simpl; split_and!; [done|env_solve|]; by repeat (etrans; [eassumption|]).
Qed.

#[export] Instance Enqueue_spec actor scope connection :
  TxSpec (Enqueue actor scope connection) (λ w _ w', admits w w') (λ w _ w' _, admits w w').
Proof. intros d w e. unfold Enqueue, enqueueType. wp_run by tx_done. Qed.

#[export] Instance refresh_after_spec lease actor :
  TxSpec (refresh_after lease actor) rolled_back (λ w _ w' _, admits w w').
Proof. intros d w e. unfold refresh_after. wp_run by tx_done. Qed.

Lemma set_reference_Some ws id ref now d u d' :
  set_reference ws id ref now d = Some (u, d') →
  (d' = d ∨ ∃ o, operations d !! id = Some o ∧ op_workspace o = ws ∧
     d' = d <| operations ::= <[id := o <| op_provider_reference := ref |>]> |>).
Proof.
  unfold set_reference. destruct (operation_in ws id d) as [o|] eqn:Ho; intros H; sql_inv H; [|by left].
  apply operation_in_Some in Ho as [? ?]. simplify_eq. right. eauto.
Qed.

(** What a successful [Reserve] of one target leaves. *)
Lemma insert_lock_Some ws id k now d n d' :
  insert_lock ws id k now d = Some (n, d') →
  d' = d <| fencing_sequence := fencing_sequence d + 1 |> ∧ n = None ∨
  resource_locks d !! k = None ∧ n = Some (fencing_sequence d + 1) ∧
  d' = d <| resource_locks ::= <[k := ResourceLock id (fencing_sequence d + 1)]> |>
         <| fencing_sequence := fencing_sequence d + 1 |>.
Proof.
  unfold insert_lock. destruct (_ || _) eqn:E; intros [= <- <-]; [by left|right].
  guards. split_and!; [by apply eq_None_not_Some|done|done].
Qed.

#[export] Instance Reserve_spec ws connection id target :
  TxSpec (Reserve ws connection id [target]) rolled_back
    (λ w _ w' _, ∃ o r n, operations w !! id = Some o ∧ op_workspace o = ws ∧ op_connection o = connection ∧
       op_st o = Queued ∧ resources w !! op_resource o = Some r ∧
       (tg_Kind target = "resource" → rs_scope r = tg_Scope target ∧ rs_native_id r = tg_NativeID target) ∧
       let k := lock_of ws connection target (rs_resource_type r) in
       let w1 := w <| fencing_sequence := fencing_sequence w + 1 |> in
       (resource_locks w !! k = None ∧ w' = w1 <| resource_locks ::= <[k := ResourceLock id n]> |>
        ∨ (∃ l, resource_locks w !! k = Some l ∧ rl_operation l = id) ∧ w' = w1)).
Proof.
  intros d w e. unfold Reserve. wp_run by tx_done.
  all: match goal with H : insert_lock _ _ _ _ _ = _ |- _ => apply insert_lock_Some in H as [[-> ?]|(? & ? & ->)] end.
  all: simplify_eq/=.
  all: match goal with H : _ ≫= _ = Some (_, _) |- _ => sql_inv H end; simplify_eq/=; guards; subst.
  all: split_and!; [done|env_solve|]; eexists _, _, (fencing_sequence w + 1); split_and!;
    [done|done|done|done|done|intros Hk; first [by destruct Hk|congruence|by split]|].
  all: first [ left; split; [done|reflexivity]
             | right; split; [|done]; match goal with H : resource_locks _ !! _ ≫= _ = Some _ |- _ =>
                 sql_inv H; guards; eauto end ].
Qed.
End steps.
