(* ===== verification/Refine.v ===== *)
(** Every transaction of the operation package commits a sequence of machine
    steps, whatever fails on the way, together with what the individual
    handlers check before they write. *)
From S2P Require Import Prelude GoBase Identifier Roles Schema Tx TxLogic Wp AuditLog Jobs.
From S2P Require Import Membership Grants Enqueue Provider Intent Prog Recent Reviews Dispatch.
From S2P Require Import Control Machine Steps.
Local Open Scope Z_scope.

(** ** Chains of steps inside one transaction *)

Lemma osteps_trans_framed d w w' : osteps d w → framed w w' → osteps d w'.
Proof. intros H F. etrans; [done|by apply framed_osteps]. Qed.

Lemma osteps_trans_moves d w w' ws id from to :
  osteps d w → moves ws id from to w w' → from ≠ Unknown → osteps d w'.
Proof. intros H M Hf. etrans; [done|]. eapply rtc_once, moves_ostep; [done|congruence]. Qed.

Lemma osteps_trans_reference d w u w' ws id ref now :
  osteps d w → set_reference ws id ref now w = Some (u, w') → osteps d w'.
Proof.
  intros H [->|(o & Ho & _ & ->)]%set_reference_Some; [done|]. etrans; [done|].
  apply rtc_once. split; [by eapply os_reference|by apply kept_same].
Qed.

(** Follow the transaction's facts backwards from the committed view. *)
Ltac chase :=
  first
    [ done
    | match goal with
      | H : framed ?w ?w' |- osteps _ ?w' => eapply osteps_trans_framed; [|exact H]; chase
      | H : admits ?w ?w' |- osteps _ ?w' => eapply osteps_trans_framed; [|exact (proj1 H)]; chase
      | H : moves _ _ _ _ ?w ?w' |- osteps _ ?w' =>
          eapply osteps_trans_moves; [|exact H|simpl; congruence]; chase
      | H : set_reference _ _ _ _ ?w = Some (_, ?w') |- osteps _ ?w' =>
          eapply osteps_trans_reference; [|exact H]; chase
      | H : update_jobs _ _ _ ?w = Some (_, ?w') |- osteps _ ?w' =>
          let E := fresh in
          pose proof (proj1 (proj2 (update_jobs_Some _ _ _ _ _ _ H))) as E; rewrite E;
          eapply osteps_trans_framed; [|apply jobs_framed]; chase
      | H : _ → osteps ?w ?w' |- osteps ?w ?w' => apply H; simpl; congruence
      | H : osteps ?w ?w' |- osteps _ ?w' => etrans; [|exact H]; chase
      end ].

(** From the machine's invariant, every commit of the transaction is a
    sequence of machine steps. *)
Definition refines {A} (t : txm A) : Prop :=
  ∀ d e, machine_inv d → osteps d (tx_db (t (Txs d d e)).2).

Lemma refines_atomic {A} (t : txm A) fail P :
  (∀ d e, wp t (atomic fail P d) (Txs d d e)) → (∀ d a d', machine_inv d → P d a d' → osteps d d') → refines t.
Proof. intros Hw HP d e I. destruct (atomic_cases _ _ _ _ _ (Hw d e)) as [->|[a ?]]; [done|eauto]. Qed.

Lemma refines_wp {A} (t : txm A) : (∀ d e, wp t (λ _ s', osteps d (tx_db s')) (Txs d d e)) → refines t.
Proof. intros H d e _. apply H. Qed.

Lemma refines_nocommit {A} (t : txm A) : nocommit t → refines t.
Proof. intros H d e _. by rewrite H. Qed.

Section refine.
Context `{U : UuidApi}.

Lemma loaded_state lease w now p r o ar : loaded lease w now p r o ar → dp_state p = op_st o.
Proof. intros H. by rewrite (lo_plan _ _ _ _ _ _ _ H). Qed.
Lemma loaded_action lease w now p r o ar : loaded lease w now p r o ar → it_Action (st_intent r) = ar_action ar.
Proof. intros H. by rewrite (lo_stored _ _ _ _ _ _ _ H). Qed.

(** What the plan and the stored review say of the rows they were read from. *)
Ltac loaded_facts :=
  repeat match goal with
  | H : loaded _ _ _ _ _ _ _ |- _ =>
      lazymatch goal with
      | _ : dp_state _ = op_st _ |- _ => fail
      | _ => pose proof (loaded_state _ _ _ _ _ _ _ H); pose proof (loaded_action _ _ _ _ _ _ _ H)
      end
  end.

(** What the marker's transaction checked of [op] before its row moved. *)
Record marked (s : Service) (lease : Lease) (pre : Preconditions) (d : db) (p : dispatchPlan) (r : stored)
  (a : Authority) (d' : db) : Prop := {
  mk_loaded : ∃ now o ar, loaded lease d now p r o ar ∧ op_st o = Queued;
  mk_authority : has_authority s d (dp_actor p) (ls_Workspace lease) (dp_target p) a;
  mk_binding : bd_connection (au_binding a) = ls_Connection lease ∧ bd_version (au_binding a) = st_credential r ∧
    au_policy a = st_policy r;
  mk_authorized : authorized a (it_Action (st_intent r)) (st_high r) = true ∧
    policy_forbids s a (it_Action (st_intent r)) = false;
  mk_gate : ∃ g, dispatch_recovery_gate d = Some g ∧ rg_open g = true;
  mk_fingerprint : pre_Fingerprint pre = st_preconditions r;
  mk_moves : moves (ls_Workspace lease) (dp_id p) Queued Dispatching d d';
}.

Lemma mark_spec s lease pre d w e :
  wp (mark s lease pre) (atomic OpErrStore (λ d '(p, r, a) d', marked s lease pre d p r a d') d) (Txs d w e).
Proof.
  unfold mark. repeat wp_step. all: try solve [simpl; auto].
  all: guards. all: loaded_facts. split; try done; [|by eexists|congruence].
  eexists _, _, _. split; [done|congruence].
Qed.

Lemma marked_osteps s lease pre d p r a d' : marked s lease pre d p r a d' → osteps d d'.
Proof. intros M. eapply osteps_trans_moves; [done|apply M|done]. Qed.

(** A receipt moves a dispatching operation where [classifyActionReceipt] says. *)
Lemma receipt_commit_spec lease result d w e :
  wp (receipt_commit lease result)
     (atomic OpErrStore (λ d _ d', osteps d d' ∧ ∃ now p r o ar to ref,
        loaded lease d now p r o ar ∧ op_st o = Dispatching ∧
        classifyActionReceipt (ar_action ar) result = (to, ref)) d) (Txs d w e).
Proof.
  unfold receipt_commit. repeat wp_step. all: try solve [simpl; auto].
  all: guards. all: split; [chase|]. all: loaded_facts.
  all: eexists _, _, _, _, _, _, _; split_and!; [done|congruence|].
  all: match goal with E : _ = ar_action _ |- _ => by rewrite <-E end.
Qed.

Lemma reject_commit_spec lease d w e :
  wp (reject_commit lease)
     (atomic OpErrStore (λ d _ d', osteps d d' ∧ ∃ now p r o ar,
        loaded lease d now p r o ar ∧ op_st o = Queued) d) (Txs d w e).
Proof.
  unfold reject_commit. repeat wp_step. all: try solve [simpl; auto]. all: guards. all: split; [chase|].
  all: loaded_facts. all: eexists _, _, _, _, _; split; [eassumption|congruence].
Qed.

(** A reconciling or waiting operation is not unknown. *)
#[export] Instance advance_observed_spec lease p to :
  TxSpec (advance_observed lease p to) rolled_back
    (λ w _ w' _, (dp_state p ≠ Unknown → osteps w w')).
Proof.
  intros d w e. unfold advance_observed. wp_run by tx_done.
  all: simpl; split_and!; [done|env_solve|]; intros; chase.
Qed.

Lemma observe_commit_spec lease p to delay d w e : dp_state p ≠ Unknown →
  wp (observe_commit lease p to delay)
     (atomic OpErrStore (λ d _ d', osteps d d' ∧ ∃ now q r o ar,
        loaded lease d now q r o ar ∧ op_st o = dp_state p) d) (Txs d w e).
Proof.
  intros Hp. unfold observe_commit. repeat wp_step. all: try solve [simpl; auto]. all: guards.
  all: split; [chase|]. all: loaded_facts.
  all: eexists _, _, _, _, _; split; [eassumption|congruence].
Qed.

(** ** The controls *)

Lemma reserved_holds scope id now d : reserved scope id now d = true → holds_lock d id.
Proof.
  unfold reserved. intros ([[[[[w c] k] t] s] n] & l & Hl & Hp)%exists_where_true. guards.
  eexists _, l. by split.
Qed.

Lemma holds_lock_framed w w' id : framed w w' → holds_lock w id → holds_lock w' id.
Proof. intros [_ Hl _ _ _ _]. unfold holds_lock. by rewrite Hl. Qed.

(** Who may control an operation: a member with the class of the reviewed
    action in role and grant. *)
Record may_control (d : db) (actor scope id : uuid) (o : operation) (role : string) : Prop := {
  cl_open : open_workspace d scope = true;
  cl_op : operations d !! id = Some o ∧ op_workspace o = scope;
  cl_member : ∃ m, memberships d !! (scope, actor) = Some m ∧ enabled d actor = true ∧ role = mb_role m;
  cl_class : ∃ ar, action_reviews d !! op_review o = Some ar ∧
    let class := if ar_high_impact ar then "high_impact" else "operate" in
    "read" ∈ granted d scope (op_connection o) actor ∧ class ∈ granted d scope (op_connection o) actor ∧
    WithinCeiling role class = true;
}.

(** What a successful [controlLoad] saw. *)
#[export] Instance controlLoad_spec actor scope id :
  TxSpec (controlLoad actor scope id) rolled_back
    (λ w '(p, role) w' _, w' = w ∧ ∃ o, may_control w actor scope id o role ∧ p = plan_of id o).
Proof.
  intros d w e. unfold controlLoad. wp_run by tx_done. simpl.
  match goal with H : control_row _ _ _ _ _ = _ |- _ => unfold control_row in H; sql_inv H end.
  unfold lock_workspace in *. rewrite require_Some in *. simplify_eq. guards.
  match goal with H : operation_in _ _ _ = _ |- _ => apply operation_in_Some in H as [? ?] end.
  match goal with H : member_row _ _ _ _ = _ |- _ => apply member_row_Some in H as [? ?] end.
  split_and!; [done|env_solve|done|]. eexists. split; [|done].
  split; [done|done|eauto|]. eexists. by split_and!.
Qed.

(** A committed cancellation: the machine's step, and no job left to run it. *)
Record cancelled_op (actor scope id : uuid) (d d' : db) : Prop := {
  cd_actor : ∃ o role, may_control d actor scope id o role ∧ op_st o = Queued;
  cd_moves : ∃ w, moves scope id Queued Cancelled d w ∧ framed w d';
  cd_jobs : ∀ k j, jobs d' !! k = Some j → job_of scope id j = true → live_job j = false;
}.

Lemma cancelled_jobs ws id now w n w' k j :
  update_jobs (λ _ _ j, job_of ws id j && live_job j) cancelled_row now w = Some (n, w') →
  jobs w' !! k = Some j → job_of ws id j = true → live_job j = false.
Proof.
  intros ->%(update_jobs_lookup _ _ _ _ _ _ k).
  intros (j0 & Hk & ->)%fmap_Some Ho. destruct (job_of ws id j0 && live_job j0) eqn:E; subst; [done|].
  rewrite Ho in E. by guards.
Qed.

Lemma Cancel_spec s p scope id request d w e :
  wp (Cancel s p scope id request)
     (atomic OpErrStore (λ d a d', a = MkAccepted id Cancelled ∧ cancelled_op (pr_UserID p) scope id d d') d)
     (Txs d w e).
Proof.
  unfold Cancel. repeat wp_step. all: try solve [simpl; auto]. all: guards. all: simpl in *.
  split; [done|]. match goal with H : op_st _ = Queued |- _ => rewrite H in * end.
  split; [by eexists _, _| |].
  - eexists. split; [eassumption|]. etrans; [|eassumption].
    match goal with H : update_jobs _ _ _ _ = _ |- _ => apply update_jobs_Some in H as (_ & -> & _) end.
    apply jobs_framed.
  - match goal with H : jobs _ = jobs _ |- _ => rewrite H end. intros k j. by eapply cancelled_jobs.
Qed.

#[export] Instance already_rechecking_spec scope id state :
  TxSpec (already_rechecking scope id state) unchanged
    (λ w b w' e', w' = w ∧ (b = true → state = Reconciling)).
Proof. intros d w e. unfold already_rechecking. wp_run by tx_done. Qed.

(** A committed recheck reopens an unknown operation that still holds its lock. *)
Record rechecked (actor scope id : uuid) (d d' : db) : Prop := {
  rk_actor : ∃ o role, may_control d actor scope id o role ∧ op_st o = Unknown;
  rk_lock : holds_lock d id;
  rk_moves : ∃ w0 w, framed d w0 ∧ moves scope id Unknown Reconciling w0 w ∧ framed w d';
}.

Lemma Recheck_spec s p scope id request d w e :
  wp (Recheck s p scope id request)
     (atomic OpErrStore (λ d a d', a = MkAccepted id Reconciling ∧
        (d' = d ∧ (∃ o role, may_control d (pr_UserID p) scope id o role ∧ op_st o = Reconciling)
         ∨ rechecked (pr_UserID p) scope id d d')) d) (Txs d w e).
Proof.
  unfold Recheck. repeat wp_step. all: try solve [simpl; auto]. all: guards. all: simpl in *.
  - split; [done|]. left. split; [done|]. eexists _, _. split; [eassumption|eauto].
  - split; [done|]. right. match goal with H : op_st _ = Unknown |- _ => rewrite H in * end.
    split; [by eexists _, _|by eapply reserved_holds|].
    eexists _, _. split; [eassumption|]. split; [eassumption|].
    match goal with H : update_jobs _ _ _ _ = _ |- _ => apply update_jobs_Some in H as (_ & -> & _) end.
    apply jobs_framed.
Qed.

(** A committed release: the owner accepted the residual risk; only the
    reservation goes. *)
Record released (actor scope id : uuid) (input : Resolution) (d d' : db) : Prop := {
  rd_actor : ∃ o, may_control d actor scope id o "owner" ∧ op_st o = Unknown ∧
    "high_impact" ∈ granted d scope (op_connection o) actor ∧
    ∃ ar, action_reviews d !! op_review o = Some ar ∧ ar_target_name ar = rn_Target input;
  rd_acknowledged : rn_Acknowledged input = true;
  rd_held : holds_lock d id;
  rd_locks : resource_locks d' = unlocked scope id (resource_locks d);
  rd_frame : operations d' = operations d ∧ operation_events d' = operation_events d ∧
    action_reviews d' = action_reviews d ∧ resources d' = resources d;
  rd_resolution : ∃ k a, operation_resolutions d !! k = None ∧
    operation_resolutions d' = <[k := OperationResolution scope id actor a]> (operation_resolutions d) ∧
    is_Some (audit_events d' !! a);
}.

Lemma size_filter_pos `{Countable K} {V} (P : K * V → Prop) `{!∀ x, Decision (P x)} (m : gmap K V) :
  size (filter P m) ≠ 0%nat → ∃ k v, m !! k = Some v ∧ P (k, v).
Proof.
  intros Hn. assert (Hne : filter P m ≠ ∅) by (intros E; by rewrite E, map_size_empty in Hn).
  apply map_choose in Hne as (k & v & [? ?]%map_lookup_filter_Some). eauto.
Qed.

Lemma delete_locks_Some ws id now d n d' :
  delete_locks ws id now d = Some (n, d') →
  d' = d <| resource_locks := unlocked ws id (resource_locks d) |> ∧ (n ≠ 0%nat → holds_lock d id).
Proof.
  unfold delete_locks, delete_where. intros [= <- <-]. split; [done|].
  intros ([[[[[w c] k] t] s] x] & l & Hl & Hp)%size_filter_pos. guards. eexists _, l. by split.
Qed.

Lemma insert_resolution_Some u scope op actor a now d x d' :
  insert_resolution u scope op actor a now d = Some (x, d') →
  operation_resolutions d !! u = None ∧
  d' = d <| operation_resolutions ::= <[u := OperationResolution scope op actor a]> |>.
Proof. unfold insert_resolution. intros H. sql_inv H. done. Qed.

(** The second read of [ReleaseUnknown]: the target's name and the class. *)
Lemma control_row_high actor scope id now d x name high :
  operations d !! id = Some x →
  ('(o, r, _, g) ← control_row actor scope id now d;
   Some (ar_target_name r, bool_decide ("high_impact" ∈ g))) = Some (name, high) →
  ∃ ar, action_reviews d !! op_review x = Some ar ∧ name = ar_target_name ar ∧
    (high = true → "high_impact" ∈ granted d scope (op_connection x) actor).
Proof.
  intros Hx H. apply bind_Some in H as ([[[o r] role] g] & H & [= <- <-]).
  unfold control_row in H. sql_inv H. simplify_eq.
  match goal with H : operation_in _ _ _ = _ |- _ => apply operation_in_Some in H as [? ?] end. simplify_eq.
  eexists. split; [eassumption|]. split; [done|]. intros ?%bool_decide_eq_true. done.
Qed.

Lemma ReleaseUnknown_spec s p scope id input request d w e :
  wp (ReleaseUnknown s p scope id input request)
     (atomic OpErrStore (λ d a d', a = MkAccepted id Unknown ∧ released (pr_UserID p) scope id input d d') d)
     (Txs d w e).
Proof.
  unfold ReleaseUnknown. repeat wp_step. all: try solve [simpl; auto]. all: guards. all: simpl in *.
  subst. split; [done|].
  match goal with H : may_control _ _ _ _ _ _ |- _ => destruct (cl_op _ _ _ _ _ _ H) as [Hop ?] end.
  match goal with H : _ ≫= _ = Some (_, true) |- _ =>
    destruct (control_row_high _ _ _ _ _ _ _ _ Hop H) as (ar & Har & Hname & Hhigh) end.
  match goal with H : insert_resolution _ _ _ _ _ _ _ = _ |- _ =>
    apply insert_resolution_Some in H as (Hfresh & ->) end.
  match goal with H : delete_locks _ _ _ _ = _ |- _ => apply delete_locks_Some in H as [-> Hheld] end.
  match goal with H : update_jobs _ _ _ _ = _ |- _ => apply update_jobs_Some in H as (_ & -> & _) end.
  match goal with H : framed d ?w |- _ => destruct H as [Fo Fl Fe Fr Fs (_ & _ & _ & _ & _ & _ & _ & Fx)] end.
  split; simpl; try done.
  - eexists. split_and!; [eassumption|done|by apply Hhigh|]. eauto.
  - unfold holds_lock in *. simpl in *. rewrite <-Fl. by apply Hheld.
  - by rewrite Fl.
  - eexists _, _. rewrite <-Fx. by split_and!.
Qed.

Lemma released_osteps actor scope id input d d' : released actor scope id input d d' → osteps d d'.
Proof.
  intros [(o & [? [Ho Hw] ? ?] & Hst & _) _ _ Hl (Ho' & He & Hv & Hs) (k & a & Hk & Hx & _)]. apply rtc_once. split.
  - eapply os_release; [exact Ho|done..| |]; [by rewrite Hw|]. exists k. eexists. by rewrite Hx, lookup_insert_eq.
  - split; rewrite ?Hv, ?Hs, ?Hx; [eauto..|]. by apply insert_subseteq.
Qed.

Lemma rechecked_osteps actor scope id d d' : rechecked actor scope id d d' → osteps d d'.
Proof.
  intros [_ Hl (w0 & w & F & M & F')]. eapply osteps_trans_framed; [|done].
  etrans; [by apply framed_osteps|]. eapply rtc_once, moves_ostep; [done|]. intros _. by eapply holds_lock_framed.
Qed.

Lemma cancelled_osteps actor scope id d d' : cancelled_op actor scope id d d' → osteps d d'.
Proof.
  intros [_ (w & M & F) _]. eapply osteps_trans_framed; [|done]. by eapply osteps_trans_moves.
Qed.

(** ** Expiry *)

#[export] Instance checkpoint_spec l p :
  TxSpec (checkpoint l p) rolled_back (λ w _ w' _, osteps w w').
Proof.
  intros d w e. unfold checkpoint. wp_run by tx_done. all: guards.
  all: simpl; split_and!; [done|env_solve|]. all: chase.
Qed.

Lemma expire_one_spec l d w e :
  wp (expire_one l) (atomic OpErrStore (λ d _ d', osteps d d') d) (Txs d w e).
Proof. unfold expire_one. repeat wp_step. all: try solve [simpl; auto]. all: try (simpl; chase). Qed.

(** ** Acceptance *)

#[export] Instance InsertOperation_spec record :
  TxSpec (InsertOperation record) unchanged (λ w _ w' _,
    jobs w !! jr_ID record = None ∧ is_v7 (jr_ID record) = true ∧
    (∀ k j, jobs w !! k = Some j → jb_operation j ≠ Some (jr_Operation record)) ∧
    ∃ t, w' = w <| jobs ::= <[jr_ID record := new_job record None (Some (jr_Operation record)) t]> |>).
Proof.
  intros d w e. unfold InsertOperation. wp_run by tx_done.
  match goal with H : insert_job _ _ _ _ = _ |- _ => apply insert_job_Some in H as (? & -> & Hop) end.
  guards. simpl. split_and!; [done|env_solve|done|done| |eauto]. intros k j. by apply Hop.
Qed.

Lemma insert_operation_Some id o now d u d' :
  insert_operation id o now d = Some (u, d') →
  operations d !! id = None ∧ d' = d <| operations ::= <[id := o now]> |> ∧ now < op_deadline (o now) ∧
  ∀ k p, operations d !! k = Some p → op_workspace p = op_workspace (o now) →
    op_review p ≠ op_review (o now) ∧
    (op_actor p = op_actor (o now) → op_idempotency_key p ≠ op_idempotency_key (o now)).
Proof.
  unfold insert_operation. intros H. sql_inv H. guards. split_and!; [done|done|done|].
  intros k p Hk Hw.
  match goal with H : exists_where ?P _ = false |- _ =>
    assert (Hf : P k p = false); [apply not_true_is_false; intros Ht;
      assert (exists_where P (operations d) = true) by (apply exists_where_true; eauto); congruence|] end.
  apply bool_decide_eq_false in Hf. naive_solver.
Qed.

Lemma consume_review_Some review id now d u d' :
  consume_review review id now d = Some (u, d') →
  action_reviews d !! review = None ∧ d' = d ∨ ∃ r, action_reviews d !! review = Some r ∧ (ar_consumed_by r = None ∨ ar_consumed_by r = Some id) ∧
    d' = d <| action_reviews ::= <[review := r <| ar_consumed_by := Some id |>]> |>.
Proof.
  unfold consume_review. destruct (action_reviews d !! review) as [r|] eqn:Hr; intros H; sql_inv H; [|by left].
  simplify_eq. guards. right. eauto.
Qed.

(** What [accept] writes into its caller's transaction. *)
Record accepting (p : Principal) (scope : uuid) (key : string) (c : Confirmation) (r : stored)
  (current : Authority) (hash : bytes) (id : uuid) (w w' : db) : Prop := {
  ac_quota : ∃ W, workspaces w !! scope = Some W ∧ count_live scope w < ws_queue_limit W;
  ac_fresh : operations w !! id = None;
  ac_key : ∀ k o, operations w !! k = Some o → op_workspace o = scope →
    op_review o ≠ cf_ReviewID c ∧ (op_actor o = pr_UserID p → op_idempotency_key o ≠ key);
  ac_rows : ∃ t deadline jid tj,
    let o := Operation scope (pr_UserID p) (st_connection r) (st_target r) (it_Action (st_intent r)) hash key
      (cf_ReviewID c) (st_credential r) (st_policy r) Queued 1 1 deadline t t None in
    operations w' = <[id := o]> (operations w) ∧ t < deadline ∧
    jobs w !! jid = None ∧
    jobs w' = <[jid := new_job (MkRecord id jid scope (st_connection r) "operation_dispatch" 3 deadline)
                  None (Some id) tj]> (jobs w);
  ac_lock : ∃ n rs, resources w !! st_target r = Some rs ∧
    let k := lock_of scope (st_connection r) (MkTarget "resource" (au_scope current) (au_native current))
               (rs_resource_type rs) in
    rs_scope rs = au_scope current ∧ rs_native_id rs = au_native current ∧
    (resource_locks w !! k = None ∧ resource_locks w' = <[k := ResourceLock id n]> (resource_locks w)
     ∨ ∃ l, resource_locks w !! k = Some l ∧ rl_operation l = id ∧ resource_locks w' = resource_locks w);
  ac_review : action_reviews w !! cf_ReviewID c = None ∨ ∃ ar, action_reviews w !! cf_ReviewID c = Some ar ∧
    (ar_consumed_by ar = None ∨ ar_consumed_by ar = Some id) ∧
    action_reviews w' = <[cf_ReviewID c := ar <| ar_consumed_by := Some id |>]> (action_reviews w);
  ac_event : ∃ eid t, operation_events w !! eid = None ∧
    operation_events w' = <[eid := OperationEvent scope id 1 "" "queued" t]> (operation_events w);
  ac_frame : same_authority w w' ∧ resources w' = resources w;
}.

#[export] Instance accept_spec p scope key c request r current hash :
  TxSpec (accept p scope key c request r current hash) rolled_back
    (λ w a w' _, ac_State a = Queued ∧ accepting p scope key c r current hash (ac_ID a) w w').
Proof.
  intros d w e. unfold accept. wp_run by tx_done. all: simpl in *.
  match goal with H : insert_operation _ _ _ _ = _ |- _ =>
    apply insert_operation_Some in H as (Hn & -> & Hdl & Hkey) end.
  simpl in *. rewrite lookup_insert_eq in *. simplify_eq/=.
  match goal with H : _ = x, H' : resources _ !! op_resource x = _ |- _ => rewrite <-H in H'; simpl in H' end.
  match goal with H : consume_review _ _ _ _ = _ |- _ => apply consume_review_Some in H end.
  split_and!; [done|env_solve|done|].
  match goal with H : ws_queue_limit <$> _ = Some _ |- _ => apply fmap_Some in H as (W & HW & ->) end.
  match goal with H : _ ∨ (_ ∧ w'0 = _) |- _ => rename H into Hlock end.
  match goal with H : action_reviews _ !! cf_ReviewID c = None ∧ _ ∨ _ |- _ => rename H into Hreview end.
  match goal with H : "resource" = "resource" → _ |- _ => destruct (H eq_refl) as [Hsc Hna] end.
  destruct Hlock as [[Hfree ->]|[(l & Hl & Hlu) ->]]; destruct Hreview as [[Hnr ->]|(ar & Har & Hc & ->)]; simpl in *.
  all: split; simpl; [exists W; split; [done|lia]|done|done|do 4 eexists; by split_and!| | |by do 2 eexists|by split_and!].
  - exists x1, x0. split_and!; [done..|]. by left.
  - by left.
  - exists x1, x0. split_and!; [done..|]. by left.
  - right. by exists ar.
  - exists x1, x0. split_and!; [done..|]. right. by exists l.
  - by left.
  - exists x1, x0. split_and!; [done..|]. right. by exists l.
  - right. by exists ar.
Qed.

(** A committed confirmation. *)
Record confirmed (s : Service) (p : Principal) (scope : uuid) (key : string) (c : Confirmation)
  (hash : bytes) (pre : Preconditions) (id : uuid) (d d' : db) : Prop := {
  cm_review : ∃ ar, action_reviews d !! cf_ReviewID c = Some ar ∧ ar_workspace ar = scope ∧
    ar_actor ar = pr_UserID p ∧ hash = ar_intent_hash ar ∧ pre_Fingerprint pre = ar_precondition_hash ar ∧
    ∃ a t, has_authority s d (pr_UserID p) scope (ar_resource ar) a ∧ check s p a (stored_of ar) c t = Ok tt ∧
    accepting p scope key c (stored_of ar) a hash id d d';
}.

(** The answer of an earlier confirmation with the same key. *)
Definition repeated (actor scope : uuid) (key : string) (hash : bytes) (a : Accepted) (d : db) : Prop :=
  ∃ o, operations d !! ac_ID a = Some o ∧ op_workspace o = scope ∧ op_actor o = actor ∧
    op_idempotency_key o = key ∧ op_intent_hash o = hash ∧ op_st o = ac_State a.

#[export] Instance Resolve_spec scope actor key hash :
  TxSpec (Resolve scope actor key hash) unchanged
    (λ w r w' _, w' = w ∧ match r with Some a => repeated actor scope key hash a w | None => True end).
Proof.
  intros d w e. unfold Resolve. wp_run by tx_done.
  match goal with H : resolve_row _ _ _ _ _ = _ |- _ => unfold resolve_row in H; sql_inv H end.
  match goal with H : head _ = Some _ |- _ => apply head_filter_Some in H as (? & ? & ? & ?) end.
  guards. simpl. split_and!; [done|env_solve|done|]. eexists. by split_and!.
Qed.

Lemma confirm_commit_spec s p scope key c request hash pre d w e :
  wp (confirm_commit s p scope key c request hash pre)
     (atomic OpErrStore (λ d a d', d' = d ∧ repeated (pr_UserID p) scope key hash a d ∨
        ac_State a = Queued ∧ confirmed s p scope key c hash pre (ac_ID a) d d') d) (Txs d w e).
Proof.
  unfold confirm_commit. repeat wp_step. all: try solve [simpl; auto].
  right. guards. split; [done|]. split. eexists. split_and!; [eassumption|done..|].
  eexists _, _. split_and!; [eassumption| |eassumption].
  by match goal with H : check _ _ _ _ _ _ = Ok ?u |- _ => destruct u end.
Qed.

(** What a review, the current authority and the confirmation must agree on. *)
Lemma check_Ok s p a r c now : check s p a r c now = Ok tt →
  st_consumed r = None ∧ now < st_expiry r ∧ st_connection r = bd_connection (au_binding a) ∧
  st_credential r = bd_version (au_binding a) ∧ st_policy r = au_policy a ∧
  authorized a (it_Action (st_intent r)) (st_high r) = true ∧
  (st_high r = true → cf_TypedTarget c = st_name r ∧ sv_sessions s = true ∧ RequireRecent p now = Ok tt).
Proof.
  unfold check, fail_if, mbind, result_bind, After. intros H.
  destruct (_ || _) eqn:E1; [done|]. destruct (negb (authorized _ _ _)) eqn:E2; [done|]. guards.
  split_and!; try done. intros Hh. rewrite Hh in H.
  destruct (negb _) eqn:E3 in H; [done|]. destruct (_ || _) eqn:E4 in H; [done|]. guards.
  split_and!; [done|done|]. by destruct (RequireRecent p now) as [[]|].
Qed.

Lemma confirmed_osteps s p scope key c hash pre id d d' :
  machine_inv d → confirmed s p scope key c hash pre id d d' → osteps d d'.
Proof.
  intros I [(ar & Har & Hw & Hact & -> & _ & a & t & Hauth & Hchk & A)].
  destruct A as [_ Hn Hkey (t1 & dl & jid & tj & Hops & _) (n & rs & Hrs & Hsc & Hna & Hlock)
    [Hno|(ar' & Har' & _ & Hrev)] (eid & te & Hne & Hev) [Hau Hres]]; [congruence|]. simplify_eq.
  destruct Hlock as [[Hk Hl]|(l & Hl & Hid & _)].
  - apply rtc_once. split.
    + eapply (os_accept d d' id); [exact Hn|..|exact Hops|exact Hk| | |exact Hl|exact Hne|exact Hev]; try done.
      * destruct (ha_resource _ _ _ _ _ _ Hauth) as (r & Hr & ? & Hconn & _). simpl in *. simplify_eq.
        apply check_Ok in Hchk as (Hcons & _ & Hcn & _). simpl in Hcons, Hcn.
        exists rs. simpl. split_and!; [done|done|congruence|]. unfold lock_of, lock_key_of. simpl. congruence.
      * eexists. rewrite Hrev. simpl. rewrite lookup_insert_eq. by split_and!.
    + split; [rewrite Hres; eauto| |by destruct Hau as (_ & _ & _ & _ & _ & _ & _ & ->)]. intros i r Hr Hc. rewrite Hrev.
      rewrite lookup_insert_ne; [done|]. intros <-. simplify_eq.
      apply check_Ok in Hchk as (Hcons & _). simpl in Hcons. rewrite Hcons in Hc. by destruct Hc.
  - destruct (mi_lock _ I _ _ Hl) as (o & Ho & _). congruence.
Qed.

(** ** The rest of the package *)

Lemma insert_review_Some id r now d u d' :
  insert_review id r now d = Some (u, d') →
  action_reviews d !! id = None ∧ d' = d <| action_reviews ::= <[id := r now]> |> ∧ review_check now (r now) = true.
Proof. unfold insert_review. intros H. sql_inv H. by split_and!. Qed.

(** A committed review: what its author may confirm within five minutes. *)
Record prepared (s : Service) (p : Principal) (scope target : uuid) (i : Intent) (a : Authority)
  (pre : Preconditions) (v : Review) (d d' : db) : Prop := {
  pp_authority : ∃ current, has_authority s d (pr_UserID p) scope target current ∧
    bd_version (au_binding current) = bd_version (au_binding a) ∧ au_policy current = au_policy a ∧
    authorized current (it_Action i) (pre_HighImpact pre) = true;
  pp_elevated : pre_HighImpact pre = true → sv_sessions s = true ∧ ∃ now, RequireRecent p now = Ok tt;
  pp_quota : ∃ now, pending_reviews scope now d < 100;
  pp_view : rv_ResourceID v = target ∧ rv_Action v = it_Action i ∧ rv_TargetName v = pre_TargetName pre ∧
    rv_HighImpact v = pre_HighImpact pre;
  pp_row : ∃ hash t, Digest i scope (pr_UserID p) (bd_connection (au_binding a)) target (rv_ID v) = Ok hash ∧
    action_reviews d !! rv_ID v = None ∧
    action_reviews d' = <[rv_ID v := ActionReview scope (pr_UserID p) (bd_connection (au_binding a)) target
      (it_Action i) hash (pre_Fingerprint pre) (bd_version (au_binding a)) (au_policy a) (pre_HighImpact pre)
      (pre_TargetName pre) (rv_ExpiresAt v) t None]> (action_reviews d) ∧
    t < rv_ExpiresAt v <= t + (5 * Minute + 5 * Second);
  pp_frame : operations d' = operations d ∧ resource_locks d' = resource_locks d ∧
    operation_events d' = operation_events d ∧ jobs d' = jobs d ∧ resources d' = resources d ∧
    same_authority d d';
}.

Lemma is_ok_true {E} (r : result E unit) : is_ok r = true → r = Ok tt.
Proof. by destruct r as [[]|]. Qed.

Lemma prepare_commit_spec s p scope target i a pre d w e :
  wp (prepare_commit s p scope target i a pre)
     (atomic OpErrStore (λ d v d', prepared s p scope target i a pre v d d') d) (Txs d w e).
Proof.
  unfold prepare_commit. repeat wp_step. all: try solve [simpl; auto].
  match goal with H : insert_review _ _ _ _ = _ |- _ => apply insert_review_Some in H as (? & -> & Hc) end.
  match goal with H : pre_HighImpact _ && _ = false |- _ => rename H into Hel end.
  unfold review_check in Hc. guards; simpl in *.
  all: split; simpl; [by eexists|try congruence|eexists; eassumption|done| |by split_and!].
  all: try (intros _; split; [done|eauto using is_ok_true]).
  all: eexists _, _; split_and!; [eassumption|done|done|lia|lia].
Qed.

(** [unresolved] operations keep the gate closed. *)
Lemma SetRecovery_spec open version d w e :
  wp (SetRecovery open version)
     (atomic OpErrStore (λ d _ d', osteps d d' ∧
        (∃ g t v, dispatch_recovery_gate d = Some g ∧ v = rg_version g + 1 ∧
           dispatch_recovery_gate d' = Some (RecoveryGate open v t) ∧
           (open = true → version = rg_version g ∧ count_unresolved d = 0))) d) (Txs d w e).
Proof.
  unfold SetRecovery. repeat wp_step. all: try solve [simpl; auto].
  all: guards; destruct (dispatch_recovery_gate d) as [g|] eqn:Hg; simplify_eq/=.
  all: match goal with H : set_gate _ _ _ = Some _ |- _ => unfold set_gate in H; rewrite Hg in H; sql_inv H end.
  all: simplify_eq; split; [apply osteps_frame; [done..|by apply kept_same]|]; eexists g, _, _; simpl; split_and!; try done.
  all: by rewrite Hg.
Qed.

Lemma PruneReviews_spec locked d w e :
  wp (PruneReviews locked) (λ _ s', osteps d (tx_db s')) (Txs d w e).
Proof.
  unfold PruneReviews. repeat wp_step. all: simplify_eq/=. 1: done.
  all: apply osteps_frame; [done..|]; split; simpl; [eauto| |done].
  all: intros id ar Har Hc; apply map_lookup_filter_Some; split; [done|]; rewrite list_elem_of_fmap.
  all: intros ([k v] & -> & Hin%selected_Some).
  all: destruct Hin as [Hk Hp]; unfold prunable_review in Hp; guards; simplify_eq/=; destruct Hc; congruence.
Qed.

(** ** Every transaction refines the machine *)

Lemma refines_mark s lease pre : refines (mark s lease pre).
Proof. eapply refines_atomic; [intros; apply mark_spec|]. intros d [[p r] a] d' _. apply marked_osteps. Qed.
Lemma refines_receipt lease result : refines (receipt_commit lease result).
Proof. eapply refines_atomic; [intros; apply receipt_commit_spec|]. by intros d [] d' _ [? _]. Qed.
Lemma refines_reject lease : refines (reject_commit lease).
Proof. eapply refines_atomic; [intros; apply reject_commit_spec|]. by intros d [] d' _ [? _]. Qed.
Lemma refines_observe lease p to delay : dp_state p ≠ Unknown → refines (observe_commit lease p to delay).
Proof. intros. eapply refines_atomic; [intros; by apply observe_commit_spec|]. by intros d [] d' _ [? _]. Qed.
Lemma refines_Cancel s p scope id request : refines (Cancel s p scope id request).
Proof. eapply refines_atomic; [intros; apply Cancel_spec|]. intros d a d' _ [_ ?]. by eapply cancelled_osteps. Qed.
Lemma refines_Recheck s p scope id request : refines (Recheck s p scope id request).
Proof.
  eapply refines_atomic; [intros; apply Recheck_spec|]. intros d a d' _ [_ [[-> _]|?]]; [done|].
  by eapply rechecked_osteps.
Qed.
Lemma refines_ReleaseUnknown s p scope id input request : refines (ReleaseUnknown s p scope id input request).
Proof. eapply refines_atomic; [intros; apply ReleaseUnknown_spec|]. intros d a d' _ [_ ?]. by eapply released_osteps. Qed.
Lemma refines_expire l : refines (expire_one l).
Proof. eapply refines_atomic; [intros; apply expire_one_spec|done]. Qed.
Lemma refines_expirable : refines (pool_exec OpErrStore (rd expirable)).
Proof. apply refines_wp. intros d e. repeat wp_step; unfold rd in *; by simplify_eq. Qed.
Lemma refines_confirm_load s p scope key c : refines (confirm_load s p scope key c).
Proof. apply refines_nocommit. unfold confirm_load, load, Resolve, authority. tx_auto. Qed.
Lemma refines_confirm s p scope key c request hash pre : refines (confirm_commit s p scope key c request hash pre).
Proof.
  eapply refines_atomic; [intros; apply confirm_commit_spec|].
  intros d a d' I [[-> _]|[_ ?]]; [done|]. by eapply confirmed_osteps.
Qed.
Lemma refines_prepare s p scope target i a pre : refines (prepare_commit s p scope target i a pre).
Proof.
  eapply refines_atomic; [intros; apply prepare_commit_spec|].
  intros d v d' _ [_ _ _ _ (hash & t & _ & Hn & Hr & _) (? & ? & ? & _ & Hres & Hau)].
  apply osteps_frame; [done..|]. split; rewrite ?Hres, ?Hr; [eauto| |by destruct Hau as (_ & _ & _ & _ & _ & _ & _ & ->)].
  intros id ar Har _. rewrite lookup_insert_ne; [done|congruence].
Qed.
Lemma refines_authority s actor scope target : refines (begin_tx OpErrStore ;; authority s actor scope target).
Proof. apply refines_nocommit. unfold authority. tx_auto. Qed.
Lemma refines_load lease : refines (begin_tx OpErrStore ;; dispatchLoad lease).
Proof. apply refines_nocommit. unfold dispatchLoad, load. tx_auto. Qed.
Lemma refines_check s lease :
  refines (begin_tx OpErrStore ;; '(p, r) ← dispatchLoad lease; a ← dispatchCheck s lease p r; mret (p, r, a)).
Proof. apply refines_nocommit. unfold dispatchLoad, load, dispatchCheck, authority. tx_auto. Qed.
Lemma refines_observed lease target :
  refines (pool_row OpErrProvider OpErrProvider (rd (observed_connection lease target))).
Proof. apply refines_wp. intros d e. repeat wp_step; unfold rd in *; by simplify_eq. Qed.
Lemma refines_SetRecovery open version : refines (SetRecovery open version).
Proof. eapply refines_atomic; [intros; apply SetRecovery_spec|]. by intros d a d' _ [? _]. Qed.
Lemma refines_PruneReviews locked : refines (PruneReviews locked).
Proof. apply refines_wp. intros. apply PruneReviews_spec. Qed.
End refine.
