(* ===== verification/Stranded.v ===== *)
(** Operations left without a job: what no handler can change any more.

    An operation the provider may be performing is driven by its one job.  If
    that job reaches a final state first, nothing in the package can move the
    operation again; this file shows it of each transaction. *)
From S2P Require Import Prelude GoBase Identifier Roles Schema Tx TxLogic Wp AuditLog Jobs.
From S2P Require Import Membership Grants Enqueue Connection Provider Intent Prog Recent Reviews.
From S2P Require Import Dispatch Control Machine Steps Refine.
Local Open Scope Z_scope.

(** Its effect may be under way, and no job of it will run. *)
Definition stranded (d : db) (id : uuid) : Prop :=
  (∃ o, operations d !! id = Some o ∧ in_flight (op_st o) = true) ∧
  ∀ k j, jobs d !! k = Some j → jb_operation j = Some id → job_terminal (jb_state j) = true.

(** The operation's row is untouched, and none of its jobs comes back to life. *)
Definition spares (id : uuid) (d d' : db) : Prop :=
  operations d' !! id = operations d !! id ∧
  ∀ k j', jobs d' !! k = Some j' → jb_operation j' = Some id →
    ∃ j, jobs d !! k = Some j ∧ jb_operation j = Some id ∧
      (job_terminal (jb_state j) = true → job_terminal (jb_state j') = true).

#[export] Instance spares_preorder id : PreOrder (spares id).
Proof.
  split.
  - intros d. split; eauto.
  - intros d1 d2 d3 [O1 J1] [O2 J2]. split; [congruence|].
    intros k j3 H3 Hop. destruct (J2 _ _ H3 Hop) as (j2 & H2 & Hop2 & ?).
    destruct (J1 _ _ H2 Hop2) as (j1 & ? & ? & ?). exists j1. split_and!; auto.
Qed.

Lemma spares_stranded id d d' : spares id d d' → stranded d id → stranded d' id.
Proof.
  intros [Ho Hj] [Hop Hjobs]. split; [by rewrite Ho|].
  intros k j' Hk Hjo. destruct (Hj _ _ Hk Hjo) as (j & ? & ? & Ht). eauto.
Qed.

Lemma spares_same id w w' : operations w' = operations w → jobs w' = jobs w → spares id w w'.
Proof. intros Ho Hj. split; [by rewrite Ho|]. rewrite Hj. eauto. Qed.

Lemma spares_moves id ws id' from to w w' : moves ws id' from to w w' → id' ≠ id → spares id w w'.
Proof.
  intros [_ (o & t & _ & _ & _ & Hops & _) _ (Hj & _)] Hne. split; [by rewrite Hops, lookup_insert_ne|].
  rewrite Hj. eauto.
Qed.

Lemma spares_admits id w w' : admits w w' → spares id w w'.
Proof.
  intros (F & _ & Hnew). split; [by rewrite (fr_ops _ _ F)|].
  intros k j' Hk Hop. destruct (Hnew _ _ Hk) as [?|?]; [eauto|congruence].
Qed.

Lemma spares_reference id ws id' ref now u w w' :
  set_reference ws id' ref now w = Some (u, w') → id' ≠ id → spares id w w'.
Proof.
  intros [->|(o & Ho & _ & ->)]%set_reference_Some Hne; [done|].
  split; simpl; [by rewrite lookup_insert_ne|eauto].
Qed.

(** An update of jobs that keeps their operation, and ends or skips the jobs of [id]. *)
Lemma spares_jobs id p f now n w w' :
  update_jobs p f now w = Some (n, w') →
  (∀ j, jb_operation (f now j) = jb_operation j) →
  (∀ k j, jobs w !! k = Some j → jb_operation j = Some id → p now k j = true →
     job_terminal (jb_state j) = true → job_terminal (jb_state (f now j)) = true) →
  spares id w w'.
Proof.
  intros H Hf Hp.
  assert (Ho : operations w' = operations w) by (by apply update_jobs_Some in H as (_ & -> & _)).
  split; [by rewrite Ho|]. intros k j' Hk Hop. rewrite (update_jobs_lookup _ _ _ _ _ _ k H) in Hk.
  apply fmap_Some in Hk as (j & Hj & ->). exists j.
  destruct (p now k j) eqn:E; [rewrite Hf in Hop; eauto 6|eauto].
Qed.

Lemma spares_finish id lease st next now w w' :
  operations w' = operations w →
  jobs w' = (update_where (holds now lease) (finished st next now) (jobs w)).2 → spares id w w'.
Proof.
  intros Ho Hj. split; [by rewrite Ho|]. intros k j' Hk Hop. rewrite Hj, lookup_update_where in Hk.
  apply fmap_Some in Hk as (j & Hk & ->). exists j. destruct (holds now lease k j) eqn:E; [|eauto].
  split_and!; [done| |].
  - by destruct st.
  - unfold holds in E. guards. match goal with H : jb_state j = _ |- _ => by rewrite H end.
Qed.

(** A lease finds no stranded operation. *)
Lemma stranded_leased d id lease now id' o : stranded d id → leased lease d now id' o → id' ≠ id.
Proof.
  intros [_ Hj] [_ _ _ (j & Hk & Hop & Hh)] ->. specialize (Hj _ _ Hk Hop).
  unfold holds in Hh. guards. match goal with H : jb_state j = _ |- _ => by rewrite H in Hj end.
Qed.

Lemma stranded_state d id id' o : stranded d id → operations d !! id' = Some o → in_flight (op_st o) = false → id' ≠ id.
Proof. intros [(o' & Ho & Hf) _] Ho' Hn ->. congruence. Qed.

(** Follow the transaction's facts backwards, as [chase] does. *)
Ltac spare :=
  first
    [ done
    | match goal with
      | H : framed ?w ?w', J : jobs ?w' = jobs ?w |- spares _ _ ?w' =>
          etrans; [|apply (spares_same _ _ _ (fr_ops _ _ H) J)]; spare
      | H : framed ?w ?w', J : jobs ?w' = (update_where (holds _ _) _ _).2 |- spares _ _ ?w' =>
          etrans; [|apply (spares_finish _ _ _ _ _ _ _ (fr_ops _ _ H) J)]; spare
      | H : admits ?w ?w' |- spares _ _ ?w' => etrans; [|apply (spares_admits _ _ _ H)]; spare
      | H : moves _ _ _ _ ?w ?w' |- spares _ _ ?w' =>
          etrans; [|by apply (spares_moves _ _ _ _ _ _ _ H)]; spare
      | H : set_reference _ _ _ _ ?w = Some (_, ?w') |- spares _ _ ?w' =>
          etrans; [|by apply (spares_reference _ _ _ _ _ _ _ _ H)]; spare
      | H : update_jobs _ _ _ ?w = Some (_, ?w') |- spares _ _ ?w' =>
          etrans; [|eapply spares_jobs; [exact H|done|
            intros; first [done|unfold job_of in *; guards; congruence]]]; spare
      | H : ∀ i, i ≠ _ → spares i ?w ?w' |- spares _ _ ?w' => etrans; [|by apply H]; spare
      end ].

(** Every commit of the transaction spares what is stranded. *)
Definition leaves_stranded {A} (t : txm A) : Prop :=
  ∀ d e id, stranded d id → spares id d (tx_db (t (Txs d d e)).2).

Lemma leaves_wp {A} (t : txm A) :
  (∀ d e id, stranded d id → wp t (λ _ s', spares id d (tx_db s')) (Txs d d e)) → leaves_stranded t.
Proof. intros H d e id Hs. by apply H. Qed.

Lemma leaves_nocommit {A} (t : txm A) : nocommit t → leaves_stranded t.
Proof. intros H d e id _. by rewrite H. Qed.

Section leaves.
Context `{U : UuidApi}.

Lemma leaves_mark s lease pre : leaves_stranded (mark s lease pre).
Proof.
  apply leaves_wp. intros d e id Hs. eapply wp_mono; [apply mark_spec|].
  intros r s' [->|[[[p r'] a] M]]%atomic_cases; [done|].
  destruct M as [(now & o & ar & L & _) _ _ _ _ _ M].
  apply (spares_moves _ _ _ _ _ _ _ M). by eapply stranded_leased; [|apply L].
Qed.

Ltac leaves_lease :=
  apply leaves_wp; intros d e id Hs.
Ltac not_stranded :=
  match goal with H : loaded _ ?d _ ?p _ _ _, Hs : stranded ?d ?id |- _ =>
    assert (dp_id p ≠ id) by (by eapply stranded_leased; [|apply H]) end.

Lemma leaves_receipt lease result : leaves_stranded (receipt_commit lease result).
Proof.
  leaves_lease. unfold receipt_commit. repeat wp_step. all: try done. all: not_stranded. all: simpl.
  all: spare.
Qed.
Lemma leaves_reject lease : leaves_stranded (reject_commit lease).
Proof. leaves_lease. unfold reject_commit. repeat wp_step. all: try done. all: not_stranded. all: simpl. all: spare. Qed.

#[export] Instance advance_observed_spares lease p to :
  TxSpec (advance_observed lease p to) rolled_back (λ w _ w' _, ∀ i, i ≠ dp_id p → spares i w w').
Proof.
  intros d w e. unfold advance_observed. wp_run by tx_done.
  all: simpl; split_and!; [done|env_solve|]; intros i Hi; assert (dp_id p ≠ i) by done; spare.
Qed.

Lemma leaves_observe lease p to delay : leaves_stranded (observe_commit lease p to delay).
Proof.
  leaves_lease. unfold observe_commit. repeat wp_step. all: try done. all: not_stranded. all: simpl. all: spare.
Qed.

Lemma leaves_Cancel s p scope id' request : leaves_stranded (Cancel s p scope id' request).
Proof.
  leaves_lease. unfold Cancel. repeat wp_step. all: try done. all: guards; simpl in *.
  all: match goal with H : may_control _ _ _ _ _ _ |- _ => destruct (cl_op _ _ _ _ _ _ H) as [Hop ?] end.
  all: assert (id' ≠ id) by (eapply stranded_state; [done|done|by match goal with H : op_st _ = _ |- _ => rewrite H end]).
  all: spare.
Qed.

Lemma leaves_Recheck s p scope id' request : leaves_stranded (Recheck s p scope id' request).
Proof.
  leaves_lease. unfold Recheck. repeat wp_step. all: try done. all: guards; simpl in *.
  all: match goal with H : may_control _ _ _ _ _ _ |- _ => destruct (cl_op _ _ _ _ _ _ H) as [Hop ?] end.
  all: assert (id' ≠ id) by (eapply stranded_state; [done|done|by match goal with H : op_st _ = Unknown |- _ => rewrite H end]).
  all: spare.
Qed.

Lemma leaves_ReleaseUnknown s p scope id' input request : leaves_stranded (ReleaseUnknown s p scope id' input request).
Proof.
  leaves_lease. unfold ReleaseUnknown. repeat wp_step. all: try done. all: guards; simpl in *.
  all: match goal with H : insert_resolution _ _ _ _ _ _ _ = _ |- _ =>
    apply insert_resolution_Some in H as (_ & ->) end.
  all: match goal with H : delete_locks _ _ _ _ = _ |- _ => apply delete_locks_Some in H as [-> _] end.
  all: match goal with H : update_jobs _ _ _ _ = Some _ |- _ =>
    etrans; [|eapply spares_jobs; [exact H|done|done]] end.
  all: match goal with F : framed _ ?w |- _ => transitivity w; [spare|by apply spares_same] end.
Qed.

#[export] Instance checkpoint_spares l p :
  TxSpec (checkpoint l p) rolled_back (λ w _ w' _, ∀ i, i ≠ dp_id p → spares i w w').
Proof.
  intros d w e. unfold checkpoint. wp_run by tx_done.
  all: simpl; split_and!; [done|env_solve|]; intros i Hi; assert (dp_id p ≠ i) by done; simpl in *; spare.
Qed.

Lemma expired_live l now d id o id' : expired_operation l now d = Some (id', o) → stranded d id → id' ≠ id.
Proof.
  unfold expired_operation. intros H [_ Hs]. sql_inv H. simplify_eq. intros ->.
  specialize (Hs _ _ ltac:(eassumption) ltac:(eassumption)). unfold exhausted, live_job in *. guards.
  all: match goal with H : jb_state _ = _ |- _ => by rewrite H in Hs end.
Qed.

Lemma leaves_expire l : leaves_stranded (expire_one l).
Proof.
  leaves_lease. unfold expire_one. repeat wp_step. all: try done.
  all: match goal with H : expired_operation _ _ _ = _ |- _ => eapply expired_live in H; [|done] end.
  all: simpl in *; spare.
Qed.

Lemma leaves_confirm s p scope key c request hash pre : leaves_stranded (confirm_commit s p scope key c request hash pre).
Proof.
  apply leaves_wp. intros d e id Hs. eapply wp_mono; [apply confirm_commit_spec|].
  intros r s' [->|[a [[-> _]|[_ C]]]]%atomic_cases; [done..|].
  destruct C as [(ar & _ & _ & _ & _ & _ & au & t & _ & _ & A)].
  destruct A as [_ Hn _ (t1 & dl & jid & tj & Hops & _ & Hjn & Hjobs) _ _ _ _].
  assert (Hne : ac_ID a ≠ id) by (intros E; destruct Hs as [(o & Ho & _) _]; congruence).
  split; [by rewrite Hops, lookup_insert_ne|]. intros k j'. rewrite Hjobs.
  intros [[<- <-]|[? Hk]]%lookup_insert_Some; simpl; [congruence|eauto].
Qed.

Lemma leaves_prepare s p scope target i a pre : leaves_stranded (prepare_commit s p scope target i a pre).
Proof.
  apply leaves_wp. intros d e id Hs. eapply wp_mono; [apply prepare_commit_spec|].
  intros r s' [->|[v [_ _ _ _ _ (Ho & _ & _ & Hj & _)]]]%atomic_cases; [done|]. by apply spares_same.
Qed.

Lemma leaves_SetRecovery open version : leaves_stranded (SetRecovery open version).
Proof.
  leaves_lease. unfold SetRecovery. repeat wp_step. all: try done.
  all: match goal with H : set_gate _ _ _ = Some _ |- _ => unfold set_gate in H; sql_inv H end.
  all: simplify_eq; by apply spares_same.
Qed.

Lemma leaves_PruneReviews locked : leaves_stranded (PruneReviews locked).
Proof. leaves_lease. unfold PruneReviews. repeat wp_step. all: simplify_eq/=. 1: done. all: by apply spares_same. Qed.

Lemma leaves_read {A} none fail (q : time → db → option A) : leaves_stranded (pool_row none fail (rd q)).
Proof. leaves_lease. repeat wp_step; unfold rd in *; by simplify_eq. Qed.
Lemma leaves_read_all {A} fail (q : time → db → A) : leaves_stranded (pool_exec fail (rd q)).
Proof. leaves_lease. repeat wp_step; unfold rd in *; by simplify_eq. Qed.
End leaves.
