(* ===== verification/Frames.v ===== *)
(** The operations of the other components leave operations, their events,
    reservations and reviews alone, and bring no finished job back: statement
    by statement, and so as whole transactions, whatever fails. *)
From S2P Require Import Prelude GoBase Identifier Roles Schema Tx TxLogic Wp AesGcm Envelope Custody AuditLog Jobs.
From S2P Require Import Membership Grants Enqueue Connection Provider Intent Prog Recent Reviews.
From S2P Require Import Sessions Challenges Invitations Login Scan Publish Inventory.
From S2P Require Import Dispatch Control Machine Steps Refine Stranded.
Local Open Scope Z_scope.

Definition oframe (d d' : db) : Prop :=
  operations d' = operations d ∧ resource_locks d' = resource_locks d ∧ operation_events d' = operation_events d ∧
  resources d' = resources d ∧ action_reviews d' = action_reviews d ∧
  operation_resolutions d' = operation_resolutions d ∧ ∀ id, spares id d d'.

#[export] Instance oframe_preorder : PreOrder oframe.
Proof.
  split; [intros d|intros d1 d2 d3]; unfold oframe; [by split_and!; [..|intros id]|]. intros (? & ? & ? & ? & ? & ? & S1) (? & ? & ? & ? & ? & ? & S2).
  split_and!; try congruence. intros id. etrans; [apply S1|apply S2].
Qed.

(** Every transaction of the package is sound: it commits machine steps and
    spares what is stranded. *)
Definition sound {A} (t : txm A) : Prop := refines t ∧ leaves_stranded t.

Lemma oframe_sound {A} (t : txm A) : keeps oframe t → sound t.
Proof.
  intros Hk. split.
  - intros d e _. destruct (Hk d (Txs d d e)) as [(? & ? & ? & ? & ? & ? & _) _]; [by split|].
    apply osteps_frame; [done..|by apply kept_same].
  - intros d e id _. by destruct (Hk d (Txs d d e)) as [(_ & _ & _ & _ & _ & _ & ?) _]; [by split|].
Qed.

(** A statement that touches none of these tables. *)
Lemma oframe_same d d' : operations d' = operations d → resource_locks d' = resource_locks d →
  operation_events d' = operation_events d → resources d' = resources d →
  action_reviews d' = action_reviews d → operation_resolutions d' = operation_resolutions d →
  jobs d' = jobs d → oframe d d'.
Proof. intros. split_and!; try done. intros id. by apply spares_same. Qed.

(** A statement that cannot touch them. *)
Ltac frame_sql :=
  intros ? ? ? ? H; cbv beta in H;
  repeat match type of H with
  | _ = Some _ => progress sql_inv H
  end; simplify_eq; try done; try (apply oframe_same; done).

Section frames.
Context `{U : UuidApi}.

Lemma frame_Append event : keeps oframe (Append event).
Proof. apply keeps_Append; [apply _|intros d t; by apply oframe_same]. Qed.
Lemma frame_bump_policy scope : respects oframe (bump_policy scope).
Proof. unfold bump_policy. frame_sql. Qed.
Lemma frame_insert_membership scope user m : respects oframe (insert_membership scope user m).
Proof. unfold insert_membership. frame_sql. Qed.
Lemma frame_delete_membership scope user : respects oframe (delete_membership scope user).
Proof. unfold delete_membership. frame_sql. Qed.
Lemma frame_update_membership scope user m : respects oframe (update_membership scope user m).
Proof. unfold update_membership. frame_sql. Qed.
Lemma frame_delete_sessions user : respects oframe (delete_sessions user).
Proof. unfold delete_sessions. frame_sql. Qed.
Lemma frame_update_settings scope s : respects oframe (update_settings scope s).
Proof. unfold update_settings. frame_sql. Qed.
Lemma frame_insert_workspace id name : respects oframe (insert_workspace id name).
Proof. unfold insert_workspace. frame_sql. Qed.
Lemma frame_insert_user id issuer subject : respects oframe (insert_user id issuer subject).
Proof. unfold insert_user. frame_sql. Qed.
Lemma frame_upsert_grant scope connection target actions : respects oframe (upsert_grant scope connection target actions).
Proof. unfold upsert_grant. frame_sql. Qed.
Lemma frame_insert_sync id scope connection actor kind : respects oframe (insert_sync id scope connection actor kind).
Proof. unfold insert_sync. frame_sql. Qed.
Lemma frame_claim_sql ops locked owner token now : respects oframe (claim_sql ops locked owner token now).
Proof.
  unfold claim_sql, candidate. intros t d r d' H. destruct (head _) as [[k0 j0]|] eqn:Hh; sql_inv H; [|done].
  assert (Hin : (k0, j0) ∈ take 1 (merge_sort due_order (filter (λ '(id, j), due ops now j && negb (locked id) = true)
                (map_to_list (jobs d))))) by (destruct (merge_sort _ _); simplify_eq/=; constructor).
  apply selected_Some in Hin as [Hk Hd]. split_and!; try done. intros id. split; [done|]. simpl.
  intros k j' [[<- <-]|[? Hj]]%lookup_insert_Some Hop; [|eauto]. exists j0. split_and!; [done..|].
  unfold due in Hd. guards; by match goal with H : jb_state j0 = _ |- _ => rewrite H end.
Qed.
Lemma frame_renew_sql l now : respects oframe (renew_sql l now).
Proof.
  unfold renew_sql. intros t d r d' H. destruct (jobs d !! ls_ID l) as [j|] eqn:Hj; simplify_eq; [|done].
  destruct (holds now l (ls_ID l) j); simplify_eq; [|done]. split_and!; try done. intros id. split; [done|]. simpl.
  intros k j' [[<- <-]|[? Hk]]%lookup_insert_Some Hop; eauto.
Qed.
Lemma frame_ending p f : (∀ t j, jb_operation (f t j) = jb_operation j) →
  (∀ t k j, p t k j = true → job_terminal (jb_state j) = true → job_terminal (jb_state (f t j)) = true) →
  respects oframe (update_jobs p f).
Proof.
  intros Hf Hp t d n d' H. pose proof H as (_ & E & _)%update_jobs_Some.
  split_and!; try (by rewrite E). intros id. eapply spares_jobs; eauto.
Qed.
Lemma frame_finish l now st : respects oframe (update_jobs (λ _, holds now l) (λ at_ j, finish_row st at_ j)).
Proof.
  apply frame_ending; [done|]. intros t k j Hh. unfold holds in Hh. guards.
  by match goal with H : jb_state j = _ |- _ => rewrite H end.
Qed.
Lemma frame_disable scope id : respects oframe (update_jobs (λ _ _ j, queued_on scope id j) disabled_job).
Proof. by apply frame_ending. Qed.
Lemma frame_set_status scope id status : respects oframe (set_status scope id status).
Proof. unfold set_status. frame_sql. Qed.
Lemma frame_set_gate open : respects oframe (set_gate open).
Proof. unfold set_gate. frame_sql. Qed.
Lemma frame_insert_refresh jobID id scope connection deadline :
  respects oframe (insert_refresh jobID id scope connection deadline).
Proof.
  intros now d u d' H. pose proof H as A%insert_refresh_admits. unfold insert_refresh in H.
  apply insert_job_Some in H as (_ & -> & _). split_and!; try done. intros i. by apply spares_admits.
Qed.
End frames.
#[export] Hint Resolve frame_Append frame_bump_policy frame_insert_membership frame_delete_membership
  frame_update_membership frame_delete_sessions frame_update_settings frame_insert_workspace
  frame_insert_user frame_upsert_grant frame_insert_sync frame_claim_sql frame_renew_sql
  frame_finish frame_disable frame_insert_refresh frame_set_status frame_set_gate : tx.

Section handlers.
Context `{U : UuidApi}.

Lemma frame_LockAuthority actor scope : keeps oframe (LockAuthority actor scope).
Proof. unfold LockAuthority, memberInTx. tx_auto. Qed.
Lemma frame_memberAudit actor scope target role request : keeps oframe (memberAudit actor scope target role request).
Proof. unfold memberAudit, NewID. tx_auto. Qed.
Lemma frame_invalidateElevation user previous next : keeps oframe (invalidateElevation user previous next).
Proof. unfold invalidateElevation. tx_auto. Qed.
#[local] Hint Resolve frame_LockAuthority frame_memberAudit frame_invalidateElevation : tx.

Lemma frame_ChangeMember actor scope target role version request :
  keeps oframe (ChangeMember actor scope target role version request).
Proof. unfold ChangeMember, previous_member, memberInTx, require_other_owner, write_member. tx_auto. Qed.
Lemma frame_Transfer actor scope target av tv demote request :
  keeps oframe (Transfer actor scope target av tv demote request).
Proof. unfold Transfer, memberInTx. tx_auto. Qed.
Lemma frame_WorkspaceSettings actor scope update request : keeps oframe (WorkspaceSettings actor scope update request).
Proof. unfold WorkspaceSettings, NewID. tx_auto. Qed.
Lemma frame_Create user name request : keeps oframe (Create user name request).
Proof. unfold Create, NewID. tx_auto. Qed.
Lemma frame_Bootstrap locked configured issuer subject name : keeps oframe (Bootstrap locked configured issuer subject name).
Proof. unfold Bootstrap, NewID. tx_auto. frame_sql. Qed.
Lemma frame_SetGrant actor scope connection target actions request :
  keeps oframe (SetGrant actor scope connection target actions request).
Proof. unfold SetGrant, authority_failed, deny, own_actions, write_grant, grantAudit, memberInTx, NewID. tx_auto. Qed.
Lemma frame_RefreshType actor scope connection kind : keeps oframe (RefreshType actor scope connection kind).
Proof. unfold RefreshType, enqueueType, enqueueLockedType. tx_auto. Qed.
Lemma frame_Claim ops locked owner : keeps oframe (Claim ops locked owner).
Proof. unfold Claim. tx_auto. Qed.
Lemma frame_Renew l : keeps oframe (Renew l).
Proof. unfold Renew, renew. tx_auto. Qed.
Lemma frame_Finish l st : keeps oframe (Finish l st).
Proof. unfold Finish. tx_auto. Qed.
Lemma frame_PruneTerminal locked : keeps oframe (PruneTerminal locked).
Proof.
  unfold PruneTerminal. tx_auto. intros now d r d' H. simplify_eq. split_and!; try done. intros id.
  split; [done|]. simpl. intros k j' [? _]%map_lookup_filter_Some Hop. eauto.
Qed.
Lemma frame_Disable actor scope id request : keeps oframe (Disable actor scope id request).
Proof. unfold Disable, connectionAudit, NewID. tx_auto. Qed.
Lemma frame_Recovery : keeps oframe Recovery.
Proof. unfold Recovery. tx_auto. Qed.
End handlers.

(** ** Identity: sessions, challenges, invitations and the login *)

Section identity.
Context `{U : UuidApi}.

Lemma frame_delete_session digest p : respects oframe (delete_session digest p).
Proof. unfold delete_session. frame_sql. Qed.
Lemma frame_insert_session digest user csrf at_ now idle absolute :
  respects oframe (insert_session digest user csrf at_ now idle absolute).
Proof. unfold insert_session. frame_sql. Qed.
Lemma frame_mark_reauthenticated digest : respects oframe (mark_reauthenticated digest).
Proof. unfold mark_reauthenticated. frame_sql. Qed.
Lemma frame_resolve_sql digest now idle : respects oframe (resolve_sql digest now idle).
Proof. unfold resolve_sql. frame_sql. Qed.
Lemma frame_take_session digest : respects oframe (take_session digest).
Proof. unfold take_session. frame_sql. Qed.
Lemma frame_cleanup_sql now limit l : respects oframe (cleanup_sql now limit l).
Proof. unfold cleanup_sql. frame_sql. Qed.
Lemma frame_drop_expired now l : respects oframe (drop_expired now l).
Proof. unfold drop_expired. frame_sql. Qed.
Lemma frame_spend_sql now : respects oframe (spend_sql now).
Proof. unfold spend_sql. frame_sql. Qed.
Lemma frame_insert_challenge digest c : respects oframe (insert_challenge digest c).
Proof. unfold insert_challenge. frame_sql. Qed.
Lemma frame_take_challenge state browser now : respects oframe (take_challenge state browser now).
Proof. unfold take_challenge. frame_sql. Qed.
Lemma frame_expire_invitations scope now : respects oframe (expire_invitations scope now).
Proof. unfold expire_invitations. frame_sql. Qed.
Lemma frame_insert_invitation digest i : respects oframe (insert_invitation digest i).
Proof. unfold insert_invitation. frame_sql. Qed.
Lemma frame_take_invitation digest now : respects oframe (take_invitation digest now).
Proof. unfold take_invitation. frame_sql. Qed.
Lemma frame_admit_member scope user m : respects oframe (admit_member scope user m).
Proof. unfold admit_member. frame_sql. Qed.
#[local] Hint Resolve frame_delete_session frame_insert_session frame_mark_reauthenticated frame_resolve_sql
  frame_take_session frame_cleanup_sql frame_drop_expired frame_spend_sql frame_insert_challenge frame_take_challenge
  frame_expire_invitations frame_insert_invitation frame_take_invitation frame_admit_member frame_LockAuthority
  frame_memberAudit frame_invalidateElevation : tx.

Lemma frame_Resolve policy token : keeps oframe (Resolve_session policy token).
Proof. unfold Resolve_session. tx_auto. Qed.
Lemma frame_Revoke token : keeps oframe (Revoke token).
Proof. unfold Revoke. tx_auto. Qed.
Lemma frame_Logout token request : keeps oframe (Logout token request).
Proof. unfold Logout, NewID. tx_auto. Qed.
Lemma frame_Cleanup limit l : keeps oframe (Cleanup limit l).
Proof. unfold Cleanup. tx_auto. Qed.
Lemma frame_start locked l invitation session : keeps oframe (start locked l invitation session).
Proof. unfold start, randomToken. tx_auto. Qed.
Lemma frame_Consume state browser : keeps oframe (Consume state browser).
Proof. unfold Consume. tx_auto. Qed.
Lemma frame_IssueInvitation actor scope issuer subject role request now :
  keeps oframe (IssueInvitation actor scope issuer subject role request now).
Proof. unfold IssueInvitation, NewID. tx_auto. Qed.
Lemma frame_callback policy supported acr token challenge previous request :
  keeps oframe (callback policy supported acr token challenge previous request).
Proof.
  unfold callback, redeem, establish, RedeemInvitation, RotateRecent, Create_session, randomToken, NewID. tx_auto.
Qed.
End identity.

(** ** Inventory *)

Section inventory.
Context `{U : UuidApi} `{J : JsonbText} (encoded_len : list scanObservation → option Z).

Lemma frame_clear_staging w c run : respects oframe (clear_staging w c run).
Proof. unfold clear_staging. frame_sql. Qed.
Lemma frame_start_run run version generation : respects oframe (start_run run version generation).
Proof. unfold start_run. frame_sql. Qed.
Lemma frame_insert_staged lease id family run o : respects oframe (insert_staged lease id family run o).
Proof. unfold insert_staged. frame_sql. Qed.
Lemma frame_page_progress run number complete : respects oframe (page_progress run number complete).
Proof. unfold page_progress. frame_sql. Qed.
#[local] Hint Resolve frame_clear_staging frame_start_run frame_insert_staged frame_page_progress : tx.

Lemma frame_scanAuthority lease run actor version : keeps oframe (scanAuthority lease run actor version).
Proof. unfold scanAuthority. tx_auto. Qed.
#[local] Hint Resolve frame_scanAuthority : tx.
Lemma frame_guard lease run actor version start : keeps oframe (Scan.guard lease run actor version start).
Proof. unfold Scan.guard. tx_auto. Qed.
Lemma frame_stage lease run actor binding page number : keeps oframe (stage lease run actor binding page number).
Proof. unfold stage, stage_row. tx_auto. Qed.
Lemma frame_renew l : keeps oframe (renew l).
Proof. unfold renew. tx_auto. Qed.
Lemma frame_PruneStaging locked : keeps oframe (PruneStaging locked).
Proof. unfold PruneStaging. tx_auto. frame_sql. Qed.

Lemma frame_scan_pages pages lease run actor b kind number cursor count bytes seen :
  each (λ B t, keeps oframe t) reads (scan_pages encoded_len pages lease run actor b kind number cursor count bytes seen).
Proof.
  revert number cursor count bytes seen. induction pages as [|pages IH]; intros; cbn [scan_pages]; [done|].
  unfold readPage. repeat each_rule; try done.
  - apply frame_guard.
  - apply frame_stage.
Qed.

Lemma frame_Scan s lease : each (λ B t, keeps oframe t) reads (Scan encoded_len s lease).
Proof.
  unfold Scan, run_leased, pageReader. repeat each_rule.
  all: first [apply frame_guard|apply frame_scan_pages|apply frame_renew|tx_auto].
Qed.

(** A scan only stages: none of its transactions, whatever the adapter
    answers and whatever fails, changes a public resource, an operation, a
    reservation, a review or the jobs of an operation, and it calls no port
    through which a mutation could be submitted. *)
Theorem Scan_stages_only s lease : each (λ B t, keeps oframe t) reads (Scan encoded_len s lease).
Proof. apply frame_Scan. Qed.

(** Publication keeps the target of every resource. *)
Lemma completed_kept lease scanErr d d' : completed lease scanErr d d' → kept d d'.
Proof.
  intros [(run & s & j & state & now & now' & _ & _ & _ & _ & _ & _ & _ & _ & Hcon & _ & _) _ (t1 & t2 & t3 & ->)].
  split; [|by eauto|done]. simpl in *.
  assert (∀ id r, resources d !! id = Some r → ∃ r', t1 !! id = Some r' ∧ native_key r' = native_key r) as Hk.
  { unfold concluded in Hcon. destruct scanErr; [destruct Hcon as [_ ->]; eauto|].
    destruct Hcon as [_ (actor & version & b & t & _ & _ & _ & [(_ & _ & ->)|(_ & _ & at_ & Hd & Hi & ->)])]; [eauto|].
    intros id r Hr. rewrite replaced_lookup.
    destruct (publication_keeps d _ _ _ (sy_generation_number s) Hd Hi id r Hr) as (r' & -> & Hk & _).
    simpl. destruct (missing _ _ _ _ _ _ _ _ _); eauto. }
  intros id r (r' & Hr' & E)%Hk. exists r'. split; [done|]. unfold native_key, target_of in *. congruence.
Qed.

Lemma completed_spares lease scanErr d d' id : completed lease scanErr d d' → spares id d d'.
Proof.
  intros [(run & s & j & state & now & now' & Hj & _ & Hst & _ & _ & _ & _ & _ & _ & _ & Hj') Hjs (t1 & t2 & t3 & ->)].
  split; [done|]. intros k j' Hk Hop. destruct (decide (k = ls_ID lease)) as [->|Hne].
  - simplify_eq. exists j. split_and!; [done|done|by rewrite Hst].
  - rewrite (Hjs _ Hne) in Hk. eauto.
Qed.

Lemma sound_Complete lease scanErr : sound (Complete lease scanErr).
Proof.
  split.
  - eapply refines_atomic; [intros; apply Complete_spec|]. intros d a d' _ C.
    pose proof (completed_kept _ _ _ _ C). destruct C as [_ _ (t1 & t2 & t3 & ->)]. by apply osteps_frame.
  - intros d e id _. destruct (atomic_cases _ _ _ _ _ (Complete_spec lease scanErr d e)) as [->|[a C]]; [done|].
    by eapply completed_spares.
Qed.
End inventory.

(** ** Credentials *)

Section custody.
Context `{U : UuidApi, C : AEAD}.

Lemma frame_insert_version scope id version cv : respects oframe (insert_version scope id version cv).
Proof. unfold insert_version. frame_sql. Qed.
Lemma frame_insert_connection id scope c : respects oframe (insert_connection id scope c).
Proof. unfold insert_connection. frame_sql. Qed.
Lemma frame_activate scope id version at_ verified : respects oframe (activate scope id version at_ verified).
Proof. unfold activate. frame_sql. Qed.
Lemma frame_rewrap_row w c v next newID oldID : respects oframe (rewrap_row w c v next newID oldID).
Proof. unfold rewrap_row. frame_sql. Qed.
#[local] Hint Resolve frame_insert_version frame_insert_connection frame_activate frame_rewrap_row frame_LockAuthority : tx.

Lemma frame_connectionAudit actor scope id kind request : keeps oframe (connectionAudit actor scope id kind request).
Proof. unfold connectionAudit, NewID. tx_auto. Qed.
Lemma frame_Initial actor scope id : keeps oframe (Initial actor scope id).
Proof. unfold Initial, enqueueLocked, enqueueLockedType. tx_auto. Qed.
#[local] Hint Resolve frame_connectionAudit frame_Initial : tx.

Lemma frame_save_commit actor scope id family label p envelope request :
  keeps oframe (save_commit actor scope id family label p envelope request).
Proof. unfold save_commit, storeEnvelope. tx_auto. Qed.
Lemma frame_rotate_commit actor scope id old p envelope request :
  keeps oframe (rotate_commit actor scope id old p envelope request).
Proof. unfold rotate_commit, storeEnvelope. tx_auto. Qed.
Lemma frame_rewrap_each ring rand oldID newID i l : keeps oframe (rewrap_each ring rand oldID newID i l).
Proof. revert i. induction l as [|[[[[w c] v] cv] family] l IH]; intros i; cbn [rewrap_each]; tx_auto. Qed.
#[local] Hint Resolve frame_rewrap_each : tx.
Lemma frame_RewrapBatch ring rand oldID newID limit : keeps oframe (RewrapBatch ring rand oldID newID limit).
Proof. unfold RewrapBatch. tx_auto. Qed.

Lemma frame_Preview s actor scope family input : each (λ B t, keeps oframe t) reads (Preview s actor scope family input).
Proof. unfold Preview. repeat each_rule. all: tx_auto. Qed.
Lemma frame_Save s rand actor scope family label credential request :
  each (λ B t, keeps oframe t) reads (Save s rand actor scope family label credential request).
Proof.
  unfold Save, encrypted. repeat each_rule. all: first [apply frame_Preview|apply frame_save_commit|tx_auto].
Qed.
Lemma frame_Rotate s rand actor scope id input request :
  each (λ B t, keeps oframe t) reads (Rotate s rand actor scope id input request).
Proof.
  unfold Rotate, encrypted. repeat each_rule.
  all: first [apply frame_Preview|apply frame_rotate_commit|unfold ConnectionAuthority; tx_auto].
Qed.
End custody.
