(* ===== verification/JsonInj.v ===== *)
(** The texts [encoding/json] writes are unambiguous: a string, an integer or a
    member of an object can be read back from the front of a longer text, so
    two structs with the same text have the same fields. *)
From stdpp Require Import pretty.
From S2P Require Import Prelude GoBase Json.
Local Open Scope Z_scope.

(** ** Strings as bytes *)

Lemma append_cons c (a b : string) : String c a +:+ b = String c (a +:+ b).
Proof. done. Qed.

Lemma string_bytes_app s t : string_bytes (s +:+ t) = string_bytes s ++ string_bytes t.
Proof. induction s as [|c s IH]; [done|]. rewrite append_cons. unfold string_bytes in *. simpl. by f_equal. Qed.

Lemma string_app_assoc (a b c : string) : (a +:+ b) +:+ c = a +:+ (b +:+ c).
Proof. induction a as [|x a IH]; [done|]. rewrite !append_cons. by f_equal. Qed.

Lemma string_app_inj_l (a s t : string) : a +:+ s = a +:+ t → s = t.
Proof. induction a as [|c a IH]; [done|]. rewrite !append_cons. intros [= H]. auto. Qed.

Lemma bytes_string_app a b : bytes_string (a ++ b) = bytes_string a +:+ bytes_string b.
Proof. unfold bytes_string. rewrite fmap_app. induction a as [|x a IH]; [done|]. simpl. rewrite append_cons. by f_equal. Qed.

Lemma string_bytes_string b : Forall (λ x, x < 256)%N b → string_bytes (bytes_string b) = b.
Proof.
  unfold string_bytes, bytes_string. rewrite String.list_ascii_of_string_of_list_ascii.
  induction 1 as [|x b Hx _ IH]; [done|]. cbn [fmap list_fmap]. rewrite N_ascii_embedding by done. f_equal. exact IH.
Qed.

Lemma string_app_inj_r (a b t : string) : a +:+ t = b +:+ t → a = b.
Proof.
  intros H%(f_equal string_bytes). rewrite !string_bytes_app in H. apply app_inv_tail in H.
  by rewrite <-(bytes_string_bytes a), H, bytes_string_bytes.
Qed.

(** ** Runes

    The elements of [runes] are the code points of a valid string with their
    encodings; a valid encoding is read back from the front of any text. *)

Definition rune : Type := N * bool * bytes.
Definition utf8 (c : N) : bytes :=
  if (c <? 128)%N then [c]
  else if (c <? 2048)%N then [192 + c / 64; 128 + c mod 64]%N
  else if (c <? 65536)%N then [224 + c / 4096; 128 + c / 64 mod 64; 128 + c mod 64]%N
  else [240 + c / 262144; 128 + c / 4096 mod 64; 128 + c / 64 mod 64; 128 + c mod 64]%N.
Definition whole (r : rune) : Prop :=
  r.1.2 = true ∧ r.2 = utf8 r.1.1 ∧ Forall (λ b, b < 256)%N r.2 ∧ ∀ t, runes (r.2 ++ t) = r :: runes t.

#[local] Ltac Zify.zify_post_hook ::= Z.to_euclidean_division_equations.

Lemma utf8_2 b b1 : cont 194 223 b = true → cont 128 191 b1 = true →
  [b; b1] = utf8 ((b - 192) * 64 + (b1 - 128)).
Proof.
  unfold cont, utf8. rewrite !andb_true_iff, !N.leb_le. intros [??] [??].
  rewrite (proj2 (N.ltb_ge _ 128)), (proj2 (N.ltb_lt _ 2048)) by lia. repeat f_equal; lia.
Qed.

Lemma utf8_3 b b1 b2 : cont 224 239 b = true → cont (if (b =? 224)%N then 160 else 128) 191 b1 = true →
  cont 128 191 b2 = true → [b; b1; b2] = utf8 ((b - 224) * 4096 + (b1 - 128) * 64 + (b2 - 128)).
Proof.
  unfold cont, utf8. rewrite !andb_true_iff, !N.leb_le. intros [??] [??] [??].
  assert (2048 <= (b - 224) * 4096 + (b1 - 128) * 64 + (b2 - 128) < 65536)%N as [Hlo Hhi] by (destruct (N.eqb_spec b 224); lia).
  rewrite (proj2 (N.ltb_ge _ 128)), (proj2 (N.ltb_ge _ 2048) Hlo), (proj2 (N.ltb_lt _ 65536) Hhi) by lia.
  clear Hlo Hhi. assert (128 <= b1)%N by (destruct (b =? 224)%N; lia). repeat f_equal; lia.
Qed.

Lemma utf8_4 b b1 b2 b3 : cont 240 244 b = true → cont (if (b =? 240)%N then 144 else 128) 191 b1 = true →
  cont 128 191 b2 = true → cont 128 191 b3 = true →
  [b; b1; b2; b3] = utf8 ((b - 240) * 262144 + (b1 - 128) * 4096 + (b2 - 128) * 64 + (b3 - 128)).
Proof.
  unfold cont, utf8. rewrite !andb_true_iff, !N.leb_le. intros [??] [??] [??] [??].
  assert (65536 <= (b - 240) * 262144 + (b1 - 128) * 4096 + (b2 - 128) * 64 + (b3 - 128))%N as Hlo
    by (destruct (N.eqb_spec b 240); lia).
  rewrite (proj2 (N.ltb_ge _ 128)), (proj2 (N.ltb_ge _ 2048)), (proj2 (N.ltb_ge _ 65536) Hlo) by lia.
  clear Hlo. assert (128 <= b1)%N by (destruct (b =? 240)%N; lia). repeat f_equal; lia.
Qed.

Lemma cont_byte lo hi b : (hi < 256)%N → cont lo hi b = true → (b < 256)%N.
Proof. unfold cont. rewrite andb_true_iff, !N.leb_le. lia. Qed.

Lemma cont_lo lo lo' hi hi' b : (lo' <= lo)%N → (hi <= hi')%N → cont lo hi b = true → cont lo' hi' b = true.
Proof. unfold cont. rewrite !andb_true_iff, !N.leb_le. lia. Qed.

Lemma runes_head b l : ∃ r t, b :: l = r.2 ++ t ∧ runes (b :: l) = r :: runes t ∧ r.2 ≠ [] ∧ (r.1.2 = true → whole r).
Proof.
  pose (bad := (65533%N, false, [b]) : rune).
  assert (Hbad : runes (b :: l) = bad :: runes l → ∃ r t, b :: l = r.2 ++ t ∧ runes (b :: l) = r :: runes t ∧
    r.2 ≠ [] ∧ (r.1.2 = true → whole r)) by (intros H; by exists bad, l).
  cbn [runes] in *. destruct (b <? 128)%N eqn:E0.
  { exists (b, true, [b]), l. split_and!; [done..|]. intros _. split; [done|]. cbn [runes app snd fst]. unfold utf8.
    rewrite E0. split_and!; [done| |done]. apply N.ltb_lt in E0. repeat constructor. lia. }
  destruct (cont 194 223 b) eqn:E1.
  { destruct l as [|b1 l]; [auto|]. destruct (cont 128 191 b1) eqn:E2; [|auto].
    eexists (_, true, [b; b1]), l. split_and!; [done..|]. intros _. split; [done|]. cbn [runes app snd fst].
    rewrite E0, E1, E2. split_and!; [by apply utf8_2| |done].
    repeat (constructor; [eapply cont_byte; [|eassumption]; done|]). done. }
  destruct (cont 224 239 b) eqn:E2.
  { destruct l as [|b1 [|b2 l]]; [auto..|]. cbv zeta in *. destruct (cont _ _ b1 && cont 128 191 b2) eqn:E3; [|auto].
    eexists (_, true, [b; b1; b2]), l. split_and!; [done..|]. intros _. split; [done|]. cbn [runes app snd fst].
    rewrite E0, E1, E2. cbv zeta. rewrite E3. apply andb_true_iff in E3 as [E3 E4]. split_and!; [| |done].
    2: { repeat (constructor; [eapply cont_byte; [|eassumption]; by repeat case_match|]). done. }
    apply utf8_3; [done| |done]. eapply cont_lo, E3; [done|]. by destruct (b =? 237)%N. }
  destruct (cont 240 244 b) eqn:E3; [|auto].
  destruct l as [|b1 [|b2 [|b3 l]]]; [auto..|]. cbv zeta in *.
  destruct (cont _ _ b1 && cont 128 191 b2 && cont 128 191 b3) eqn:E4; [|auto].
  eexists (_, true, [b; b1; b2; b3]), l. split_and!; [done..|]. intros _. split; [done|]. cbn [runes app snd fst].
  rewrite E0, E1, E2, E3. cbv zeta. rewrite E4. rewrite !andb_true_iff in E4. destruct E4 as [[E4 E5] E6]. split_and!; [| |done].
  2: { repeat (constructor; [eapply cont_byte; [|eassumption]; by repeat case_match|]). done. }
  apply utf8_4; [done| |done..]. eapply cont_lo, E4; [done|]. by destruct (b =? 244)%N.
Qed.

Lemma runes_shape l : concat (snd <$> runes l) = l ∧ Forall (λ r : rune, r.1.2 = true → whole r) (runes l).
Proof.
  induction l as [l IH] using (induction_ltof1 _ (@length N)). unfold ltof in IH. destruct l as [|b l]; [done|].
  destruct (runes_head b l) as (r & t & Hl & Hr & Hne & Hw). rewrite Hr, Hl. cbn [fmap list_fmap concat].
  destruct (IH t) as [IH1 IH2]. { rewrite Hl, length_app. destruct r.2; [done|simpl; lia]. }
  split; [by f_equal|by constructor].
Qed.

Lemma valid_runes s : ValidString s = true → Forall whole (string_runes s).
Proof.
  unfold ValidString. intros H%Is_true_eq_left%forallb_True. destruct (runes_shape (string_bytes s)) as [_ Hw].
  unfold string_runes in *. induction Hw as [|[[c ok] e] l Hr _ IH]; [done|].
  apply Forall_cons in H as [Hok H]. constructor; [|by apply IH]. apply Hr. by destruct ok.
Qed.

(** ** Strings *)

(** The escape of a code point, if it has one. *)
Definition escape_of (c : N) : option string :=
  if ((c =? 34) || (c =? 92))%N then Some (escape +:+ bytes_string [c])
  else if (c =? 8)%N then Some (escape +:+ "b")
  else if (c =? 12)%N then Some (escape +:+ "f")
  else if (c =? 10)%N then Some (escape +:+ "n")
  else if (c =? 13)%N then Some (escape +:+ "r")
  else if (c =? 9)%N then Some (escape +:+ "t")
  else if ((c <? 32) || (c =? 60) || (c =? 62) || (c =? 38))%N then Some (escape +:+ "u00" +:+ hex_byte c)
  else if ((c =? 8232) || (c =? 8233))%N then Some (escape +:+ "u" +:+ hex_byte (c / 256) +:+ hex_byte (c mod 256))
  else None.

Lemma json_rune_whole c e : whole (c, true, e) → json_rune (c, true, e) = default (bytes_string (utf8 c)) (escape_of c).
Proof.
  intros (_ & He & _ & _). cbn [fst snd] in He. subst e. unfold json_rune, escape_of. cbn [negb].
  destruct ((c =? 34) || (c =? 92))%N eqn:E; [|by repeat case_match].
  apply orb_true_iff in E as [->%N.eqb_eq | ->%N.eqb_eq]; done.
Qed.

Definition escapes : list N := (N.of_nat <$> seq 0 32) ++ [34; 38; 60; 62; 92; 8232; 8233]%N.

Lemma escape_of_in c x : escape_of c = Some x → c ∈ escapes ∧ ∃ t, x = escape +:+ t.
Proof.
  unfold escape_of. intros H. split.
  - destruct (N.lt_ge_cases c 32).
    + apply elem_of_app. left. apply list_elem_of_fmap. exists (N.to_nat c). split; [lia|]. apply elem_of_seq. lia.
    + apply elem_of_app. right. repeat case_match; simplify_eq; repeat rewrite orb_true_iff in *;
        rewrite ?N.eqb_eq, ?N.ltb_lt in *; try lia; set_solver by lia.
  - repeat case_match; simplify_eq; eauto.
Qed.

(** No escape begins with another. *)
Lemma escapes_prefix_free : forallb (λ c, forallb (λ d, (c =? d)%N ||
  match escape_of c, escape_of d with Some x, Some y => negb (String.prefix x y) && negb (String.prefix y x) | _, _ => true end)
  escapes) escapes = true.
Proof. vm_compute. reflexivity. Qed.

Lemma prefix_apps (x y s t : string) : x +:+ s = y +:+ t → String.prefix x y = true ∨ String.prefix y x = true.
Proof.
  revert y. induction x as [|a x IH]; intros [|b y]; simpl; [by left|by left|by right|].
  rewrite !append_cons. intros [= -> H]. destruct (ascii_dec b b); [|done]. auto.
Qed.

Lemma escapes_inj c d x y s t : escape_of c = Some x → escape_of d = Some y → x +:+ s = y +:+ t → c = d ∧ s = t.
Proof.
  intros Hc Hd H. pose proof (escape_of_in _ _ Hc) as [Hic _]. pose proof (escape_of_in _ _ Hd) as [Hid _].
  pose proof escapes_prefix_free as Hf. rewrite forallb_forall in Hf. setoid_rewrite forallb_forall in Hf.
  specialize (Hf c (proj1 (list_elem_of_In _ _) Hic) d (proj1 (list_elem_of_In _ _) Hid)).
  destruct (N.eqb_spec c d) as [->|]; [|exfalso].
  - split; [done|]. rewrite Hc in Hd. injection Hd as ->. by apply string_app_inj_l in H.
  - rewrite Hc, Hd in Hf. cbn [orb] in Hf. apply prefix_apps in H as [H|H]; rewrite H in Hf; simpl in Hf; [done|].
    by rewrite andb_false_r in Hf.
Qed.

Lemma utf8_head c b l : utf8 c = b :: l → (b < 128)%N → c = b.
Proof. unfold utf8. repeat case_match; intros [= <- _]; [done| | |]; intros H'; exfalso; revert H'; rewrite N.lt_nge; intros H'; apply H'; lia. Qed.

Lemma literal_head c e b (s t : string) : whole (c, true, e) → escape_of c = None → (b < 128)%N →
  bytes_string (utf8 c) +:+ s = String (ascii_of_N b) t → c = b.
Proof.
  intros (_ & He & Hs & _) _ Hb H. cbn [fst snd] in He, Hs. subst e.
  apply (f_equal string_bytes) in H. rewrite string_bytes_app, string_bytes_string in H by done.
  unfold string_bytes in H at 2. simpl in H. rewrite N_ascii_embedding in H by lia.
  destruct (utf8 c) as [|x l] eqn:E. { unfold utf8 in E. by repeat case_match. }
  injection H as -> _. eapply utf8_head; eauto.
Qed.

Lemma json_rune_inj r r' s t : whole r → whole r' → json_rune r +:+ s = json_rune r' +:+ t → r = r' ∧ s = t.
Proof.
  destruct r as [[c ok] e], r' as [[d ok'] e']. intros Hr Hr'.
  pose proof (proj1 Hr) as Ho. pose proof (proj1 Hr') as Ho'. cbn [fst snd] in Ho, Ho'. subst ok ok'.
  rewrite !json_rune_whole by done. destruct (escape_of c) as [x|] eqn:Ec, (escape_of d) as [y|] eqn:Ed; simpl; intros H.
  - destruct (escapes_inj _ _ _ _ _ _ Ec Ed H) as [-> ->]. destruct Hr as (_ & He & _), Hr' as (_ & He' & _).
    cbn [fst snd] in He, He'. by subst.
  - apply escape_of_in in Ec as [_ [u ->]]. symmetry in H. change (escape +:+ u) with (String (ascii_of_N 92) u) in H.
    rewrite append_cons in H. apply (literal_head d e' 92) in H; [by subst|done..].
  - apply escape_of_in in Ed as [_ [u ->]]. change (escape +:+ u) with (String (ascii_of_N 92) u) in H.
    rewrite append_cons in H. apply (literal_head c e 92) in H; [by subst|done..].
  - destruct Hr as (_ & He & Hs & Hp), Hr' as (_ & He' & Hs' & Hp'). cbn [fst snd] in *. subst e e'.
    pose proof (f_equal string_bytes H) as Hb. rewrite !string_bytes_app, !string_bytes_string in Hb by done.
    apply (f_equal runes) in Hb. rewrite Hp, Hp' in Hb. injection Hb as -> _ _.
    split; [done|]. by apply string_app_inj_l in H.
Qed.

Lemma json_rune_quote r s t : whole r → json_rune r +:+ s ≠ quote +:+ t.
Proof.
  destruct r as [[c ok] e]. intros Hr. pose proof (proj1 Hr) as Ho. cbn [fst snd] in Ho. subst ok.
  rewrite json_rune_whole by done. change (quote +:+ t) with (String (ascii_of_N 34) t).
  destruct (escape_of c) as [x|] eqn:Ec; simpl; intros H.
  - by apply escape_of_in in Ec as [_ [u ->]].
  - apply (literal_head c e 34) in H; [by subst|done..].
Qed.

Lemma foldr_runes (l : list rune) u :
  foldr (λ r t, json_rune r +:+ t) "" l +:+ u = foldr (λ r t, json_rune r +:+ t) u l.
Proof. induction l as [|r l IH]; [done|]. cbn [foldr]. by rewrite string_app_assoc, IH. Qed.

(** A valid string is read back from the front of any text. *)
Lemma json_string_inj s s' t t' : ValidString s = true → ValidString s' = true →
  json_string s +:+ t = json_string s' +:+ t' → s = s' ∧ t = t'.
Proof.
  intros Hv%valid_runes Hv'%valid_runes. unfold json_string. rewrite !string_app_assoc, !foldr_runes.
  intros H%string_app_inj_l.
  assert (string_runes s = string_runes s' ∧ t = t') as [Hr ->].
  { revert Hv' H. generalize (string_runes s'). induction Hv as [|r l Hr _ IH]; intros [|r' l'] Hv' H; cbn [foldr] in H.
    - by apply string_app_inj_l in H.
    - apply Forall_cons in Hv' as [Hr' _]. symmetry in H. by apply json_rune_quote in H.
    - by apply json_rune_quote in H.
    - apply Forall_cons in Hv' as [Hr' Hv']. apply json_rune_inj in H as [-> H]; [|done..].
      by destruct (IH _ Hv' H) as [-> ->]. }
  split; [|done]. unfold string_runes in Hr. apply (f_equal (λ l, concat (snd <$> l))) in Hr.
  rewrite !(proj1 (runes_shape _)) in Hr. rewrite <-(bytes_string_bytes s), Hr. apply bytes_string_bytes.
Qed.

(** ** Values within an object

    What follows a value is a comma or a closing bracket. *)

Definition closer (c : ascii) : bool := match c with "," | "}" | "]" => true | _ => false end%char.
Definition stops (t : string) : Prop := ∃ c u, t = String c u ∧ closer c = true.

Lemma stops_cons c u : closer c = true → stops (String c u).
Proof. by exists c, u. Qed.

Definition delimits (v v' : string) : Prop :=
  ∀ t t', stops t → stops t' → v +:+ t = v' +:+ t' → v = v' ∧ t = t'.

Lemma delimits_string s s' : ValidString s = true → ValidString s' = true → delimits (json_string s) (json_string s').
Proof. intros Hs Hs' t t' _ _ H. by destruct (json_string_inj s s' t t' Hs Hs' H) as [-> ->]. Qed.

Lemma delimits_plain v v' : Forall (λ c, closer c = false) (String.list_ascii_of_string v) →
  Forall (λ c, closer c = false) (String.list_ascii_of_string v') → delimits v v'.
Proof.
  intros Hv Hv' t t' (c & u & -> & Hc) (c' & u' & -> & Hc'). revert v' Hv'.
  induction v as [|a v IH]; intros [|b v'] Hv' H; rewrite ?append_cons in H; simpl in *.
  - by split.
  - apply Forall_cons in Hv' as [Hb _]. injection H as -> _. congruence.
  - apply Forall_cons in Hv as [Ha _]. injection H as -> _. congruence.
  - apply Forall_cons in Hv as [Ha Hv]. apply Forall_cons in Hv' as [Hb Hv']. injection H as -> H.
    destruct (IH Hv v' Hv' H) as [-> ->]. done.
Qed.

(** The characters of a decimal integer. *)
Definition numeral (c : ascii) : bool := in_range "0" "9" c || bool_decide (c = "-"%char).

Lemma digit_numeral x : numeral (pretty_N_char x) = true.
Proof. unfold pretty_N_char. by repeat case_match. Qed.

Lemma pretty_go_numerals x s : Forall (λ c, numeral c = true) (String.list_ascii_of_string s) →
  Forall (λ c, numeral c = true) (String.list_ascii_of_string (pretty_N_go x s)).
Proof.
  revert s. induction (N.lt_wf_0 x) as [x _ IH]. intros s Hs. destruct (decide (0 < x)%N).
  - rewrite pretty_N_go_step by done. apply IH; [by apply N.div_lt|]. constructor; [apply digit_numeral|done].
  - assert (x = 0)%N as -> by lia. by rewrite pretty_N_go_0.
Qed.

Lemma FormatInt_numerals n : Forall (λ c, numeral c = true) (String.list_ascii_of_string (FormatInt n)).
Proof.
  assert (∀ m : N, Forall (λ c, numeral c = true) (String.list_ascii_of_string (pretty m))) as Hn.
  { intros m. unfold pretty, pretty_N. case_match; [by repeat constructor|]. by apply pretty_go_numerals. }
  destruct n as [|p|p]; [by repeat constructor|apply (Hn (Npos p))|]. constructor; [done|apply (Hn (Npos p))].
Qed.

Lemma FormatInt_avoids (p : ascii → Prop) n : (∀ c, numeral c = true → p c) →
  Forall p (String.list_ascii_of_string (FormatInt n)).
Proof. intros Hp. eapply Forall_impl; [apply FormatInt_numerals|exact Hp]. Qed.

Lemma FormatInt_plain n : Forall (λ c, closer c = false) (String.list_ascii_of_string (FormatInt n)).
Proof. apply FormatInt_avoids. intros c Hc. destruct (closer c) eqn:E; [|done]. unfold closer in E. by repeat case_match. Qed.

Lemma delimits_int n n' : delimits (FormatInt n) (FormatInt n').
Proof. apply delimits_plain; apply FormatInt_plain. Qed.

(** ** Objects

    An object as its names and the texts of their values. *)

Definition members (l : list (string * string)) : string := object ((λ '(n, v), field n v) <$> l).

(** The text after the first member. *)
Fixpoint further (l : list (string * string)) : string :=
  match l with [] => "}" | (n, v) :: r => "," +:+ field n v +:+ further r end.

Lemma field_cons n v : ∃ t, field n v = quote +:+ t.
Proof. unfold field, json_string. rewrite !string_app_assoc. eauto. Qed.

Lemma members_cons n v l : members ((n, v) :: l) = "{" +:+ field n v +:+ further l.
Proof.
  unfold members, object. cbn [fmap list_fmap]. f_equal. revert n v.
  induction l as [|[n' v'] l IH]; intros n v; cbn [fmap list_fmap foldr further]; [done|].
  rewrite <-IH. cbn [foldr]. destruct (field_cons n' v') as [t Ht].
  rewrite decide_False; [by rewrite !string_app_assoc|]. rewrite Ht. destruct (fmap _ _) as [|x r]; simpl; [done|].
  by case_decide.
Qed.

Lemma further_stops l t : stops (further l +:+ t).
Proof. destruct l as [|[n v] l]; cbn [further]; by apply stops_cons. Qed.

(** What two objects have to offer for their texts to decide them: valid
    names, and for each name values that end where they end. *)
Definition comparable (l l' : list (string * string)) : Prop :=
  Forall (λ p, ValidString p.1 = true) l ∧ Forall (λ p, ValidString p.1 = true) l' ∧
  ∀ n v v', (n, v) ∈ l → (n, v') ∈ l' → delimits v v'.

Lemma comparable_cons p l p' l' : comparable (p :: l) (p' :: l') → comparable l l'.
Proof.
  intros (H1 & H2 & H3). split_and!; [by eapply Forall_inv_tail|by eapply Forall_inv_tail|].
  intros n v v' Hv Hv'. eapply H3; by right.
Qed.

Lemma members_one_inj n v l n' v' l' s t : comparable ((n, v) :: l) ((n', v') :: l') → stops s → stops t →
  field n v +:+ s = field n' v' +:+ t → n = n' ∧ v = v' ∧ s = t.
Proof.
  intros (H1 & H2 & H3) Hs Ht. unfold field. rewrite !string_app_assoc. intros H.
  apply json_string_inj in H as [<- H]; [|exact (Forall_inv H1)|exact (Forall_inv H2)]. apply string_app_inj_l in H.
  split; [done|]. eapply H3; eauto; left.
Qed.

Lemma further_inj l l' t t' : comparable l l' → further l +:+ t = further l' +:+ t' → l = l' ∧ t = t'.
Proof.
  revert l'. induction l as [|[n v] l IH]; intros [|[n' v'] l'] Hc H; try done.
  - by apply string_app_inj_l in H.
  - cbn [further] in H. rewrite !string_app_assoc in H. apply string_app_inj_l in H.
    apply (members_one_inj _ _ _ _ _ _ _ _ Hc) in H as (-> & -> & H); [|apply further_stops..].
    by destruct (IH l' (comparable_cons _ _ _ _ Hc) H) as [-> ->].
Qed.

(** Objects with one text are the same object, and end where they end. *)
Lemma members_inj l l' t t' : comparable l l' → members l +:+ t = members l' +:+ t' → l = l' ∧ t = t'.
Proof.
  destruct l as [|[n v] l], l' as [|[n' v'] l']; intros Hc.
  - by intros H%string_app_inj_l.
  - rewrite members_cons, !string_app_assoc. intros H. apply (f_equal (String.get 1)) in H.
    destruct (field_cons n' v') as [x Hx]. by rewrite Hx in H.
  - rewrite members_cons, !string_app_assoc. intros H. apply (f_equal (String.get 1)) in H.
    destruct (field_cons n v) as [x Hx]. by rewrite Hx in H.
  - rewrite !members_cons, !string_app_assoc. intros H%string_app_inj_l.
    apply (members_one_inj _ _ _ _ _ _ _ _ Hc) in H as (-> & -> & H); [|apply further_stops..].
    by destruct (further_inj l l' t t' (comparable_cons _ _ _ _ Hc) H) as [-> ->].
Qed.

Lemma members_eq l l' : comparable l l' → members l = members l' → l = l'.
Proof. intros Hc H. apply (f_equal (λ x, x +:+ "")) in H. by apply members_inj in H as [-> _]. Qed.

Lemma delimits_members l l' : comparable l l' → delimits (members l) (members l').
Proof. intros Hc t t' _ _ H. by destruct (members_inj l l' t t' Hc H) as [-> ->]. Qed.

Lemma json_string_eq s s' : ValidString s = true → ValidString s' = true → json_string s = json_string s' → s = s'.
Proof.
  intros Hs Hs' H. apply (f_equal (λ x, x +:+ "")) in H. by apply json_string_inj in H as [-> _].
Qed.

Lemma comparable_aligned l l' : Forall (λ p, ValidString p.1 = true) l → NoDup l.*1 → l.*1 = l'.*1 →
  Forall2 delimits l.*2 l'.*2 → comparable l l'.
Proof.
  intros Hv Hnd Hn Hd. split; [done|]. split.
  { assert (Forall (λ n, ValidString n = true) l.*1) as Hf by by apply Forall_fmap.
    rewrite Hn in Hf. by apply Forall_fmap in Hf. }
  intros n v v' (i & Hi)%list_elem_of_lookup (j & Hj)%list_elem_of_lookup.
  pose proof (list_lookup_fmap fst l i) as Hi1. pose proof (list_lookup_fmap fst l' j) as Hj1.
  rewrite Hi in Hi1. rewrite Hj in Hj1. rewrite <-Hn in Hj1. simpl in *.
  assert (i = j) as <- by (eapply NoDup_lookup; eauto).
  eapply Forall2_lookup_lr; [exact Hd| |]; rewrite list_lookup_fmap; [by rewrite Hi|by rewrite Hj].
Qed.

(** Members whose values are valid strings. *)
Definition stringy (l : list (string * string)) : Prop :=
  Forall (λ p, ValidString p.1 = true ∧ ∃ s, p.2 = json_string s ∧ ValidString s = true) l.

Lemma comparable_stringy l l' : stringy l → stringy l' → comparable l l'.
Proof.
  unfold stringy. intros Hl Hl'. split_and!; [by eapply Forall_impl; [exact Hl|]; intros ? []|by eapply Forall_impl; [exact Hl'|]; intros ? []|].
  intros n v v' Hv Hv'. rewrite Forall_forall in Hl, Hl'.
  destruct (Hl _ Hv) as (_ & s & Hs & Hvs), (Hl' _ Hv') as (_ & s' & Hs' & Hvs'). simpl in Hs, Hs'. subst.
  by apply delimits_string.
Qed.
