(* ===== verification/Facts.v ===== *)
(** [internal/provider/http.go], [power.go] and [snapshot_review.go]: native
    identifiers, the links a provider returns, and the facts of a target that
    the fingerprint of a review binds.

    [net/url]'s query parser and [encoding/json]'s objects are written out; how
    [encoding/json] prints an instant and a [float64] is a parameter, [None]
    where it refuses the value. *)
From Stdlib Require Import Floats.SpecFloat.
From S2P Require Import Prelude GoBase Sha256 Json JsonInj Identifier Endpoint Provider.
Local Open Scope Z_scope.

(** ** Native identifiers *)

Definition numericNativeID (s : string) : bool :=
  match s with
  | EmptyString => false
  | String c r => in_range "1" "9" c && string_forallb (in_range "0" "9") r && (String.length r <=? 19)%nat
  end.

Definition NumericID (id : string) : go string :=
  if negb (numericNativeID id) then Err InvalidResponse else Ok id.

(** ** Queries *)

(** [strings.Cut] at one character: what precedes it and what follows. *)
Fixpoint Cut (c : ascii) (s : string) : string * string :=
  match s with
  | EmptyString => ("", "")
  | String d r => if decide (d = c) then ("", r) else let '(a, b) := Cut c r in (String d a, b)
  end.

Fixpoint Split (c : ascii) (s : string) : list string :=
  match s with
  | EmptyString => [""]
  | String d r =>
      if decide (d = c) then "" :: Split c r
      else match Split c r with x :: l => String d x :: l | [] => [String d ""] end
  end.

Definition unhex (c : ascii) : option N :=
  let n := N_of_ascii c in
  if ((48 <=? n) && (n <=? 57))%N then Some (n - 48)%N
  else if ((97 <=? n) && (n <=? 102))%N then Some (n - 87)%N
  else if ((65 <=? n) && (n <=? 70))%N then Some (n - 55)%N
  else None.

Fixpoint QueryUnescape (s : string) : option string :=
  match s with
  | EmptyString => Some ""
  | String "%" (String a (String b r)) =>
      x ← unhex a; y ← unhex b; t ← QueryUnescape r; Some (String (ascii_of_N (16 * x + y)) t)
  | String "%" _ => None
  | String "+" r => String " " <$> QueryUnescape r
  | String c r => String c <$> QueryUnescape r
  end.

Definition hex_upper (n : N) : ascii := ascii_of_N (if (n <? 10)%N then 48 + n else 55 + n)%N.
Fixpoint QueryEscape (s : string) : string :=
  match s with
  | EmptyString => ""
  | String c r =>
      if is_alnum c || is_one_of "-_.~" c then String c (QueryEscape r)
      else if decide (c = " "%char) then String "+" (QueryEscape r)
      else String "%" (String (hex_upper (N_of_ascii c / 16)) (String (hex_upper (N_of_ascii c mod 16)) (QueryEscape r)))
  end.

(** [url.ParseQuery]: the pairs in order, or its error. *)
Definition query_pair (part : string) : option (list (string * string)) :=
  if GoBase.Contains part ";" then None
  else if decide (part = "") then Some []
  else let '(k, v) := Cut "=" part in k ← QueryUnescape k; v ← QueryUnescape v; Some [(k, v)].
Definition ParseQuery (raw : string) : option (list (string * string)) :=
  @mjoin list _ _ <$> mapM query_pair (Split "&" raw).

(** [url.Values]: the values of a key, and the first of them. *)
Definition values_of (q : list (string * string)) (key : string) : list string :=
  snd <$> filter (λ p, p.1 = key) q.
Definition Values_Get (q : list (string * string)) (key : string) : string := default "" (head (values_of q key)).

Definition StrictQuery (raw : string) (allowed : list string) : go (list (string * string)) :=
  match ParseQuery raw with
  | None => Err InvalidResponse
  | Some q =>
      if forallb (λ '(key, _), bool_decide (key ∈ allowed)
           && match values_of q key with [v] => negb (bool_decide (v = "")) | _ => false end) q
      then Ok q else Err InvalidResponse
  end.

Example query_examples :
  StrictQuery "page=2&per_page=50" ["page"; "per_page"] = Ok [("page", "2"); ("per_page", "50")] ∧
  StrictQuery "page=2&page=3" ["page"; "per_page"] = Err InvalidResponse ∧
  StrictQuery "page=2&token=x" ["page"; "per_page"] = Err InvalidResponse ∧
  StrictQuery "page=%32&&per_page=5+0" ["page"; "per_page"] = Ok [("page", "2"); ("per_page", "5 0")] ∧
  StrictQuery "page=%3" ["page"] = Err InvalidResponse ∧ StrictQuery "page=2;a=b" ["page"] = Err InvalidResponse ∧
  QueryEscape "a=b-c_d" = "a%3Db-c_d".
Proof. vm_compute. split_and!; reflexivity. Qed.

(** ** Texts *)

(** [json.Number]: its digits when they form a number, 0 when it is empty. *)
Fixpoint skip_digits (l : chars) : chars :=
  match l with c :: r => if is_digit c then skip_digits r else l | [] => [] end.
Definition exponent (l : chars) : bool :=
  match l with
  | c :: ((d :: r) as t) =>
      if bool_decide (c ∈ ["e"; "E"]%char) then
        if bool_decide (d ∈ ["+"; "-"]%char)
        then negb (bool_decide (r = [])) && bool_decide (skip_digits r = [])
        else bool_decide (skip_digits t = [])
      else false
  | [] => true
  | _ => false
  end.
Definition fraction (l : chars) : bool :=
  match l with
  | "."%char :: d :: r => if is_digit d then exponent (skip_digits r) else false
  | _ => exponent l
  end.
Definition unsigned (l : chars) : bool :=
  match l with
  | "0"%char :: r => fraction r
  | d :: r => if is_digit d then fraction (skip_digits r) else false
  | [] => false
  end.
Definition isValidNumber (s : string) : bool :=
  match of_string s with "-"%char :: r => unsigned r | l => unsigned l end.
Definition json_number (s : string) : option string :=
  if decide (s = "") then Some "0" else if isValidNumber s then Some s else None.

Definition json_bool (b : bool) : string := if b then "true" else "false".
Definition nullable {A} (text : A → option string) (v : option A) : option string :=
  match v with Some a => text a | None => Some "null" end.
Definition json_array (l : list string) : string :=
  "[" +:+ foldr (λ v t, if decide (t = "") then v else v +:+ "," +:+ t) "" l +:+ "]".

Definition omitempty (name s : string) : list (string * option string) :=
  if decide (s = "") then [] else [(name, Some (json_string s))].
(** An object, unless one of its values has no text. *)
Definition marshal (l : list (string * option string)) : option string :=
  members <$> mapM (λ '(n, v), pair n <$> v) l.

Class ValueText := { time_text : stamp → option string; float_text : spec_float → option string }.

Definition details_text (d : ServerDetails) : option string :=
  marshal (omitempty "region" (pd_Region d) ++ omitempty "machine_type" (pd_MachineType d)).

(** ** Reviews *)

Section reviews.
Context `{U : UuidApi} `{T : ValueText}.

Definition power_allowed (action : string) (o : Observation) : option bool :=
  if decide (action = "compute.server.power_on") then Some (bool_decide (ob_Status o = "stopped"))
  else if decide (action ∈ ["compute.server.shutdown"; "compute.server.power_off"; "compute.server.reboot"])
  then Some (bool_decide (ob_Status o = "running"))
  else None.

Definition binding_texts (b : Binding) : list (string * option string) :=
  [("Workspace", Some (json_string (uuid_String (bd_workspace b))));
   ("Connection", Some (json_string (uuid_String (bd_connection b))));
   ("Family", Some (json_string (bd_family b)));
   ("Version", Some (FormatInt (bd_version b)))].

Definition power_text (b : Binding) (action : string) (o : Observation) : option string :=
  marshal (binding_texts b ++
    [("Action", Some (json_string action)); ("NativeID", Some (json_string (ob_NativeID o)));
     ("NativeStatus", Some (json_string (ob_NativeStatus o))); ("Status", Some (json_string (ob_Status o)));
     ("Name", Some (json_string (ob_Name o))); ("Details", details_text (ob_Details o))]).

Definition PowerPreconditions (b : Binding) (action : string) (o : Observation) : go Preconditions :=
  match power_allowed action o with
  | None => Err ProvErrActionUnsupported
  | Some allowed =>
      match power_text b action o with
      | None => Err InvalidResponse
      | Some data =>
          Ok (MkPreconditions (Sum256 (string_bytes data)) (ob_Name o) allowed
                (bool_decide (action = "compute.server.power_off")))
      end
  end.

(** [facts] is the text of the facts, [None] when it cannot be encoded. *)
Definition review_text (b : Binding) (action id : string) (facts : option string) : option string :=
  marshal (binding_texts b ++
    [("Action", Some (json_string action)); ("NativeID", Some (json_string id)); ("Facts", facts)]).

Definition snapshotPreconditions (b : Binding) (action id name : string) (facts : option string) (allowed : bool)
  : go Preconditions :=
  match review_text b action id facts with
  | None => Err InvalidResponse
  | Some data =>
      Ok (MkPreconditions (Sum256 (string_bytes data)) (if decide (name = "") then id else name) allowed true)
  end.

(** [time.Time{}] *)
Definition unset : option string := time_text (MkStamp zero_time 0).

Definition server_facts (o : Observation) (locked : bool) : option string :=
  marshal [("NativeID", Some (json_string (ob_NativeID o))); ("NativeStatus", Some (json_string (ob_NativeStatus o)));
           ("Status", Some (json_string (ob_Status o))); ("Name", Some (json_string (ob_Name o)));
           ("ObservedAt", unset); ("Details", details_text (ob_Details o)); ("Locked", Some (json_bool locked))].

Definition SnapshotServerReview (b : Binding) (action : string) (o : Observation) (locked : bool) : go Preconditions :=
  if negb (bool_decide (action = SnapshotCreate)) then Err ProvErrActionUnsupported
  else
    snapshotPreconditions b action (ob_NativeID o) (ob_Name o) (server_facts o locked)
      (negb locked && (bool_decide (ob_Status o = "running") || bool_decide (ob_Status o = "stopped"))).

Definition regions_text (l : option (list string)) : string :=
  match l with None => "null" | Some l => json_array (json_string <$> l) end.

(** [ObservedAt] is cleared before. *)
Definition image_facts (o : SnapshotObservation) : option string :=
  marshal ([("native_id", Some (json_string (so_NativeID o))); ("name", Some (json_string (so_Name o)))]
    ++ omitempty "source_native_id" (so_SourceNativeID o) ++ omitempty "source_type" (so_SourceType o)
    ++ [("status", Some (json_string (so_Status o))); ("native_status", Some (json_string (so_NativeStatus o)))]
    ++ omitempty "status_reason" (so_StatusReason o)
    ++ [("created_at", nullable time_text (so_CreatedAt o))]
    ++ omitempty "native_created_at" (so_NativeCreatedAt o)
    ++ omitempty "creation_time_reason" (so_CreationTimeReason o)
    ++ [("size_bytes", nullable (Some ∘ FormatInt) (so_SizeBytes o)); ("size_gb", nullable float_text (so_SizeGB o));
        ("minimum_disk_gb", nullable float_text (so_MinimumDiskGB o)); ("regions", Some (regions_text (so_Regions o)));
        ("observed_at", unset)]).

Definition SnapshotImageReview (b : Binding) (action : string) (o : SnapshotObservation) : go Preconditions :=
  if negb (bool_decide (action = SnapshotDelete)) then Err ProvErrActionUnsupported
  else
    snapshotPreconditions b action (so_NativeID o) (so_Name o) (image_facts o)
      (bool_decide (so_Status o = "available")
       || bool_decide (so_Status o = "unknown") && bool_decide (so_StatusReason o = "not_reported")).

(** ** What a fingerprint binds *)

Lemma ascii_valid s : Forall (λ c, N_of_ascii c < 128)%N (String.list_ascii_of_string s) → ValidString s = true.
Proof.
  unfold ValidString, string_runes, string_bytes. induction 1 as [|c l Hc _ IH]; [done|]. cbn [fmap list_fmap runes].
  rewrite (proj2 (N.ltb_lt _ _) Hc). cbn [forallb]. exact IH.
Qed.

Lemma uuid_String_valid u : ValidString (uuid_String u) = true.
Proof. apply ascii_valid, uuid_String_ascii. Qed.
End reviews.

(** ** Injectivity *)

Ltac delimited :=
  cbn [fmap list_fmap fst snd];
  repeat first [apply Forall2_nil_2 | apply Forall2_cons_2];
  first [assumption | apply delimits_int | apply delimits_string; first [assumption | apply uuid_String_valid | done]].

Section binding.
Context `{U : UuidApi} `{T : ValueText}.

Definition details_members (d : ServerDetails) : list (string * string) :=
  (if decide (pd_Region d = "") then [] else [("region", json_string (pd_Region d))]) ++
  (if decide (pd_MachineType d = "") then [] else [("machine_type", json_string (pd_MachineType d))]).

Lemma details_Some d : details_text d = Some (members (details_members d)).
Proof. unfold details_text, details_members, omitempty. by repeat case_decide. Qed.

Definition valid_details (d : ServerDetails) : Prop :=
  ValidString (pd_Region d) = true ∧ ValidString (pd_MachineType d) = true.

Lemma details_comparable d d' : valid_details d → valid_details d' → comparable (details_members d) (details_members d').
Proof.
  intros [??] [??]. apply comparable_stringy; unfold stringy, details_members; repeat case_decide; repeat constructor; eauto.
Qed.

Lemma details_members_inj d d' : valid_details d → valid_details d' → details_members d = details_members d' → d = d'.
Proof.
  destruct d as [r m], d' as [r' m']. unfold details_members, valid_details. cbn [pd_Region pd_MachineType].
  intros [Hr Hm] [Hr' Hm']. generalize (json_string_eq r r' Hr Hr') (json_string_eq m m' Hm Hm'). generalize json_string.
  intros text Er Em. repeat case_decide; simpl; intros; simplify_eq; auto using f_equal2.
Qed.

Definition binding_members (b : Binding) : list (string * string) :=
  [("Workspace", json_string (uuid_String (bd_workspace b))); ("Connection", json_string (uuid_String (bd_connection b)));
   ("Family", json_string (bd_family b)); ("Version", FormatInt (bd_version b))].

Definition valid_binding (b : Binding) : Prop :=
  (bd_workspace b < uuid_limit)%N ∧ (bd_connection b < uuid_limit)%N ∧ ValidString (bd_family b) = true.

Lemma binding_members_inj b b' : valid_binding b → valid_binding b' → binding_members b = binding_members b' → b = b'.
Proof.
  destruct b as [w c f v], b' as [w' c' f' v']. unfold valid_binding, binding_members. simpl.
  intros (?&?&Hf) (?&?&Hf').
  generalize (json_string_eq _ _ (uuid_String_valid w) (uuid_String_valid w')),
    (json_string_eq _ _ (uuid_String_valid c) (uuid_String_valid c')), (json_string_eq _ _ Hf Hf'), (inj FormatInt v v').
  generalize json_string, FormatInt. intros text int Hw Hc Hff Hv [= E1 E2 E3 E4]. f_equal;
    [apply uuid_String_inj; auto|apply uuid_String_inj; auto|auto|auto].
Qed.

Lemma binding_delimits b b' : valid_binding b → valid_binding b' →
  Forall2 delimits (binding_members b).*2 (binding_members b').*2.
Proof.
  intros (?&?&?) (?&?&?). unfold binding_members. delimited.
Qed.

(** Strings as [encoding/json] decodes them: valid UTF-8. *)
Definition textual (o : Observation) : Prop :=
  ValidString (ob_NativeID o) = true ∧ ValidString (ob_NativeStatus o) = true ∧ ValidString (ob_Status o) = true ∧
  ValidString (ob_Name o) = true ∧ valid_details (ob_Details o).

(** What [PowerPreconditions] hashes, apart from the clock. *)
Definition power_facts (b : Binding) (action : string) (o : Observation) :=
  (b, action, ob_NativeID o, ob_NativeStatus o, ob_Status o, ob_Name o, ob_Details o).

Definition power_members (b : Binding) (action : string) (o : Observation) : list (string * string) :=
  binding_members b ++
    [("Action", json_string action); ("NativeID", json_string (ob_NativeID o));
     ("NativeStatus", json_string (ob_NativeStatus o)); ("Status", json_string (ob_Status o));
     ("Name", json_string (ob_Name o)); ("Details", members (details_members (ob_Details o)))].

Lemma power_text_Some b action o : power_text b action o = Some (members (power_members b action o)).
Proof. unfold power_text, marshal. rewrite details_Some. done. Qed.

Lemma app_inj_lengths {A} (a a' b b' : list A) : length a = length a' → a ++ b = a' ++ b' → a = a' ∧ b = b'.
Proof. intros Hl H. by apply app_inj_1. Qed.

Lemma power_text_inj b action o b' action' o' : valid_binding b → valid_binding b' →
  ValidString action = true → ValidString action' = true → textual o → textual o' →
  members (power_members b action o) = members (power_members b' action' o') →
  power_facts b action o = power_facts b' action' o'.
Proof.
  intros Hb Hb' Ha Ha' (H1 & H2 & H3 & H4 & H5) (H1' & H2' & H3' & H4' & H5') H.
  apply members_eq in H.
  2: { apply comparable_aligned; [by repeat constructor|apply (bool_decide_unpack _); vm_compute; exact I|done|].
       unfold power_members. rewrite !fmap_app. apply Forall2_app; [by apply binding_delimits|].
       pose proof (delimits_members _ _ (details_comparable _ _ H5 H5')). delimited. }
  apply app_inj_lengths in H as [Hbb H]; [|done]. apply binding_members_inj in Hbb as <-; [|done..].
  unfold power_facts. revert H.
  generalize (json_string_eq _ _ Ha Ha'), (json_string_eq _ _ H1 H1'), (json_string_eq _ _ H2 H2'),
    (json_string_eq _ _ H3 H3'), (json_string_eq _ _ H4 H4'),
    (λ E, details_members_inj _ _ H5 H5' (members_eq _ _ (details_comparable _ _ H5 H5') E)).
  generalize (members (details_members (ob_Details o))) (members (details_members (ob_Details o'))) json_string.
  intros d d' text E1 E2 E3 E4 E5 E6 [= F1 F2 F3 F4 F5 F6].
  by rewrite (E1 F1), (E2 F2), (E3 F3), (E4 F4), (E5 F5), (E6 F6).
Qed.

Lemma power_allowed_action action o allowed : power_allowed action o = Some allowed →
  ValidString action = true ∧
  allowed = bool_decide (ob_Status o = if decide (action = "compute.server.power_on") then "stopped" else "running").
Proof.
  unfold power_allowed. case_decide as Hon; [intros [= <-]; by subst|]. case_decide as Hin; [|done]. intros [= <-].
  split; [|done]. revert Hin. clear. rewrite !elem_of_cons. by intros [->|[->|[->|?%elem_of_nil]]].
Qed.

(** The fingerprint of a power review binds every reviewed fact: two
    inspections with one fingerprint agree on the workspace, connection,
    family and credential version, on the action, and on the target's
    identifier, native status, status, name, region and machine type, unless
    their two texts are a SHA-256 collision.  The action is allowed exactly
    when the target is stopped (to power it on) or running (to stop or reboot
    it), only an abrupt power-off is of high impact, and the target is named. *)
Theorem power_review_binds b action o p b' action' o' p' :
  valid_binding b → valid_binding b' → textual o → textual o' →
  PowerPreconditions b action o = Ok p → PowerPreconditions b' action' o' = Ok p' →
  (pre_Allowed p = true ↔ ob_Status o = if decide (action = "compute.server.power_on") then "stopped" else "running") ∧
  (pre_HighImpact p = true ↔ action = "compute.server.power_off") ∧ pre_TargetName p = ob_Name o ∧
  (pre_Fingerprint p = pre_Fingerprint p' →
    power_facts b action o = power_facts b' action' o' ∨
    ∃ x x', power_text b action o = Some x ∧ power_text b' action' o' = Some x' ∧
      x ≠ x' ∧ Sum256 (string_bytes x) = Sum256 (string_bytes x')).
Proof.
  intros Hb Hb' Ho Ho'. unfold PowerPreconditions. rewrite !power_text_Some.
  destruct (power_allowed action o) as [a|] eqn:E; [|done]. destruct (power_allowed action' o') as [a'|] eqn:E'; [|done].
  apply power_allowed_action in E as [Hv ->], E' as [Hv' ->]. intros [= <-] [= <-].
  cbn [pre_Allowed pre_HighImpact pre_TargetName pre_Fingerprint]. rewrite !bool_decide_eq_true. split_and!; [done..|].
  intros Hf. destruct (decide (members (power_members b action o) = members (power_members b' action' o'))) as [Ht|Ht].
  - left. by apply power_text_inj.
  - right. eexists _, _. split_and!; [reflexivity..|exact Ht|exact Hf].
Qed.
End binding.

(** A concrete printer of instants, and no floats. *)
Definition sample_texts : ValueText :=
  {| time_text t := Some (FormatInt (sm_Time t) +:+ "@" +:+ FormatInt (sm_Offset t)); float_text _ := None |}.

Definition sample_binding : Binding := MkBinding (sample_id 1) (sample_id 2) "hetzner.cloud" 3.
Definition sample_server (at_ : time) : Observation :=
  MkObservation "42" "running" "running" "web <1>" at_ (MkServerDetails "nbg1" "cx22").

(** Two inspections at different times agree. *)
Lemma power_review_binds_witness : ∃ p p',
  PowerPreconditions (U := rfc9562) sample_binding "compute.server.reboot" (sample_server 1) = Ok p ∧
  PowerPreconditions (U := rfc9562) sample_binding "compute.server.reboot" (sample_server 2) = Ok p' ∧
  pre_Fingerprint p = pre_Fingerprint p' ∧ pre_Allowed p = true.
Proof.
  eexists _, _. split; [vm_compute; reflexivity|]. split; [vm_compute; reflexivity|].
  split; [reflexivity|].
  eapply (power_review_binds (U := rfc9562) sample_binding "compute.server.reboot" (sample_server 1) _
    sample_binding "compute.server.reboot" (sample_server 2));
    [by split_and!|by split_and!|by repeat split|by repeat split|vm_compute; reflexivity|vm_compute; reflexivity|
     reflexivity].
Defined.
