(* ===== verification/Paths.v ===== *)
(** Prefixes, segments and the strings they make: [strings.CutPrefix],
    [strings.Split] and [strings.Join] on paths. *)
From S2P Require Import Prelude GoBase JsonInj Facts.

Definition CutPrefix (s pre : string) : option string :=
  if String.prefix pre s then Some (String.substring (String.length pre) (String.length s - String.length pre) s) else None.
Definition TrimPrefix (s pre : string) : string := default s (CutPrefix s pre).

(** [strings.Join(l, "/")], and a path's rest as its segments spell it. *)
Fixpoint join (l : list string) : string :=
  match l with [] => "" | [a] => a | a :: r => a +:+ "/" +:+ join r end.
Definition rest (segments : list string) : string := match segments with [] => "" | _ => "/" +:+ join segments end.

Definition is_slash (c : ascii) : bool := bool_decide (c = "/"%char).
Definition segment (s : string) : Prop := string_forallb (λ c, negb (is_slash c)) s = true.

Lemma prefix_spec x s : String.prefix x s = true ↔ ∃ t, s = x +:+ t.
Proof.
  revert s. induction x as [|c x IH]; intros s.
  - split; [by exists s|by destruct s].
  - destruct s as [|d s]; [split; [done|by intros [t [=]]]|]. simpl. setoid_rewrite append_cons.
    destruct (Ascii.ascii_dec c d) as [->|Hn].
    + rewrite IH. split; intros [t Ht]; exists t; congruence.
    + split; [done|]. intros [t [= ? _]]. by subst.
Qed.

Lemma substring_all s : String.substring 0 (String.length s) s = s.
Proof. induction s as [|c s IH]; simpl; [done|by rewrite IH]. Qed.

Lemma CutPrefix_app x s : CutPrefix (x +:+ s) x = Some s.
Proof.
  unfold CutPrefix. rewrite (proj2 (prefix_spec _ _)) by eauto. rewrite length_app_string.
  replace (_ - _)%nat with (String.length s) by lia. f_equal.
  induction x as [|c x IH]; simpl; [by apply substring_all|exact IH].
Qed.

Lemma CutPrefix_Some s x t : CutPrefix s x = Some t ↔ s = x +:+ t.
Proof.
  split; [|intros ->; apply CutPrefix_app]. intros H. unfold CutPrefix in H.
  destruct (String.prefix x s) eqn:E; [|done]. apply prefix_spec in E as [t' ->]. f_equal.
  assert (CutPrefix (x +:+ t') x = Some t) as H'; [unfold CutPrefix; rewrite (proj2 (prefix_spec _ _)) by eauto; done|].
  rewrite CutPrefix_app in H'. by injection H'.
Qed.

Lemma append_eq x s t : x +:+ s = x +:+ t ↔ s = t.
Proof. split; [apply string_app_inj_l|by intros ->]. Qed.

Lemma CutPrefix_below x s t : CutPrefix (x +:+ s) (x +:+ t) = CutPrefix s t.
Proof. apply option_eq. intros u. rewrite !CutPrefix_Some, string_app_assoc. apply append_eq. Qed.

Lemma TrimPrefix_app x s : TrimPrefix (x +:+ s) x = s.
Proof. unfold TrimPrefix. by rewrite CutPrefix_app. Qed.

Lemma split_segment w t : segment w → Split "/" (w +:+ "/" +:+ t) = w :: Split "/" t.
Proof.
  induction w as [|c w IH]; [done|]. unfold segment, string_forallb. cbn [String.list_ascii_of_string forallb].
  rewrite andb_true_iff. intros [Hc Hw]. rewrite append_cons. cbn [Split]. rewrite IH by done.
  rewrite decide_False; [done|]. intros ->. done.
Qed.

Lemma split_one w : segment w → Split "/" w = [w].
Proof.
  induction w as [|c w IH]; [done|]. unfold segment, string_forallb. cbn [String.list_ascii_of_string forallb].
  rewrite andb_true_iff. intros [Hc Hw]. cbn [Split]. rewrite IH by done. rewrite decide_False; [done|]. intros ->. done.
Qed.

Lemma segments_join l : l ≠ [] → Forall segment l → Split "/" (join l) = l.
Proof.
  intros Hl H. induction H as [|w l Hw _ IH]; [done|]. destruct l as [|v l]; [by apply split_one|].
  cbn [join]. rewrite split_segment by done. f_equal. by apply IH.
Qed.

Lemma split_spec s : Split "/" s ≠ [] ∧ Forall segment (Split "/" s) ∧ join (Split "/" s) = s.
Proof.
  induction s as [|c s (Hn & Hs & Hj)]; [split_and!; [done|by repeat constructor|done]|]. cbn [Split].
  destruct (decide (c = "/"%char)) as [->|Hc].
  - split_and!; [done|by constructor|]. rewrite <-Hj at 2. destruct (Split "/" s); done.
  - destruct (Split "/" s) as [|x l] eqn:E; [done|]. apply Forall_cons in Hs as [Hx Hl]. split_and!; [done| |].
    + constructor; [|done]. unfold segment, string_forallb, is_slash in *. cbn [String.list_ascii_of_string forallb].
      by rewrite bool_decide_eq_false_2.
    + rewrite <-Hj. by destruct l.
Qed.

Lemma join_inj l l' : l ≠ [] → l' ≠ [] → Forall segment l → Forall segment l' → join l = join l' → l = l'.
Proof. intros ? ? ? ? H. rewrite <-(segments_join l), <-(segments_join l'), H by done. done. Qed.

(** ** What follows a workspace in a path *)
Section below.
Context (ws r_path : string) (segs : list string).
Hypothesis (Hpath : r_path = ws +:+ rest segs) (Hsegs : Forall segment segs).

Lemma rest_cons a l : rest (a :: l) = "/" +:+ join (a :: l).
Proof. done. Qed.

Lemma exact_segments w : segment w → r_path = ws +:+ ("/" +:+ w) ↔ segs = [w].
Proof using Hpath Hsegs.
  intros Hw. rewrite Hpath, append_eq. split; [|by intros ->]. destruct segs as [|a l]; [done|].
  rewrite rest_cons, append_eq. intros H. apply join_inj; [done|done|done|by repeat constructor|done].
Qed.

Lemma cut_segments w : segment w → CutPrefix r_path (ws +:+ ("/" +:+ w +:+ "/")) =
  match segs with a :: b :: l => if decide (a = w) then Some (join (b :: l)) else None | _ => None end.
Proof using Hpath Hsegs.
  intros Hw. rewrite Hpath, CutPrefix_below. destruct segs as [|a l]; [done|]. rewrite rest_cons, CutPrefix_below.
  apply option_eq. intros t. rewrite CutPrefix_Some. split.
  - intros H. assert (Split "/" (join (a :: l)) = w :: Split "/" t) as Hsp by (rewrite H, string_app_assoc; by apply split_segment).
    rewrite segments_join in Hsp by done. injection Hsp as -> ->. destruct (split_spec t) as (Hn & _ & Hj).
    destruct (Split "/" t) eqn:E; [done|]. rewrite decide_True by done. by rewrite Hj.
  - destruct l as [|b l]; [done|]. case_decide; [|done]. intros [= <-]. subst a. by rewrite string_app_assoc.
Qed.

Lemma trim_segments : TrimPrefix r_path ws = rest segs.
Proof using Hpath. rewrite Hpath. apply TrimPrefix_app. Qed.
End below.

(** A rest that starts with a word, and what follows it. *)
Lemma rest_is segs w : Forall segment segs → segment w → rest segs = "/" +:+ w ↔ segs = [w].
Proof. intros Hs Hw. by apply (exact_segments "" (rest segs)). Qed.
Lemma rest_cut segs w : Forall segment segs → segment w → CutPrefix (rest segs) ("/" +:+ w +:+ "/") =
  match segs with a :: b :: l => if decide (a = w) then Some (join (b :: l)) else None | _ => None end.
Proof. intros Hs Hw. by apply (cut_segments "" (rest segs)). Qed.

Lemma prefix_cut x s : String.prefix x s = match CutPrefix s x with Some _ => true | None => false end.
Proof. unfold CutPrefix. by destruct (String.prefix x s). Qed.

Lemma contains_slash s : GoBase.Contains s "/" = negb (string_forallb (λ c, negb (is_slash c)) s).
Proof.
  induction s as [|c s IH]; [done|]. unfold string_forallb in *. cbn [GoBase.Contains String.list_ascii_of_string forallb].
  rewrite IH, negb_andb, negb_involutive. f_equal. unfold is_slash. cbn [String.prefix]. destruct (Ascii.ascii_dec "/" c) as [<-|Hn].
  - rewrite bool_decide_eq_true_2 by done. by destruct s.
  - by rewrite bool_decide_eq_false_2 by congruence.
Qed.

Lemma contains_join b l : Forall segment (b :: l) → GoBase.Contains (join (b :: l)) "/" = match l with [] => false | _ => true end.
Proof.
  intros Hs. rewrite contains_slash. destruct l as [|c l].
  - apply Forall_cons in Hs as [Hb _]. simpl. by rewrite Hb.
  - apply negb_true_iff, not_true_iff_false. intros H. pose proof (split_one _ H) as H'. by rewrite segments_join in H'.
Qed.

Lemma decide_rest {A} a w (x y : A) : (if decide (rest [a] = "/" +:+ w) then x else y) = if decide (a = w) then x else y.
Proof. apply decide_ext. exact (append_eq "/" a w). Qed.

(** [strings.Cut] at a slash: there is none, or what follows the first. *)
Lemma cut_spec s : (Cut "/" s).1 = s ∨ ∃ r, s = (Cut "/" s).1 +:+ "/" +:+ r.
Proof.
  induction s as [|c s IH]; [by left|]. cbn [Cut]. case_decide as Hc.
  - right. exists s. by subst c.
  - destruct (Cut "/" s) as [a b]. destruct IH as [H|[r H]]; [left|right; exists r]; simpl in *.
    + by rewrite H.
    + rewrite append_cons. by rewrite <-H.
Qed.

Lemma string_app_nil s : s +:+ "" = s.
Proof. induction s as [|c s IH]; [done|]. by rewrite append_cons, IH. Qed.
