(* ===== verification/Http.v ===== *)
(** [internal/httpapi]: what stands before every handler — request identifiers
    ([router.go]), bounds and client addresses ([request_limits.go]), origin and
    CSRF policy ([csrf.go]) — and the bodies and problems handlers share. *)
From S2P Require Import Prelude GoBase Base64 Identifier Recent Sessions Endpoint Facts Paths Login.
Local Open Scope Z_scope.

(** ** Requests *)

(** [http.Header]: the values of each canonical key, in order. *)
Abbreviation header := (gmap string (list string)).
Definition Values (h : header) (key : string) : list string := default [] (h !! key).
Definition Get (h : header) (key : string) : string := default "" (head (Values h key)).

(** The bytes a body yields; a broken one fails at their end. *)
Record body := MkBody { by_bytes : bytes; by_broken : bool }.

(** A request of the server, whose body is never nil. *)
Record Request := MkRequest {
  hq_Method : string; hq_Path : string; hq_RawQuery : string; hq_Host : string; hq_RemoteAddr : string;
  hq_Header : header; hq_ContentLength : Z; hq_Body : body }.

(** What is used of [mime], [net] and [net/http]: the media type of a header
    that parses, the host of [net.SplitHostPort] (empty when it fails),
    [netip.ParseAddr], [Request.Cookie] over the lines of the header, and
    [http.ParseTime]. *)
Class HttpLib := {
  lib_MediaType : string → option string;
  lib_SplitHost : string → string;
  lib_ParseAddr : string → option Addr;
  lib_Cookie : list string → string → option string;
  lib_ParseTime : string → option time }.

(** [Request.URL.Query]: the pairs that parse. *)
Definition Query (raw : string) : list (string * string) := mjoin (omap query_pair (Split "&" raw)).

(** [strings.TrimSuffix(s, "/")] *)
Definition trim_slash (s : string) : string :=
  match reverse (String.list_ascii_of_string s) with
  | "/"%char :: r => String.string_of_list_ascii (reverse r)
  | _ => s
  end.

(** ** Problems *)

Record problem := MkProblem { pm_Status : Z; pm_Code : string; pm_Title : string }.

Definition StatusText (status : Z) : string :=
  if decide (status = 400) then "Bad Request" else if decide (status = 401) then "Unauthorized"
  else if decide (status = 403) then "Forbidden" else if decide (status = 404) then "Not Found"
  else if decide (status = 405) then "Method Not Allowed" else if decide (status = 409) then "Conflict"
  else if decide (status = 422) then "Unprocessable Entity" else if decide (status = 429) then "Too Many Requests"
  else if decide (status = 503) then "Service Unavailable" else "".
Definition failure (status : Z) (code : string) : problem := MkProblem status code (StatusText status).

Definition invalid_request : problem := failure 400 "invalid_request".
Definition forbidden : problem := failure 403 "permission_denied".
Definition not_allowed : problem := failure 405 "method_not_allowed".
Definition not_found : problem := failure 404 "not_found".

(** [a.loginFailure] *)
Definition login_problem (err : error) : problem := let '(status, code, title) := loginFailure err in MkProblem status code title.

(** ** Request identifiers *)

Definition validRequestID (value : string) : bool :=
  negb (len value =? 0) && negb (64 <? len value) && string_forallb (λ c, is_alnum c || is_one_of "-._" c) value.

(** [withRequestID]: [fresh] is [uuid.NewRandom] as text, if it succeeds. *)
Definition request_id (fresh : option string) (r : Request) : string :=
  let id := Get (hq_Header r) "X-Request-Id" in
  if validRequestID id then id else default "request-id-unavailable" fresh.

(** ** Bounds *)

Definition MaxJSONBody : Z := Z.shiftl 1 20.
Definition MaxHeaderBytes : Z := Z.shiftl 32 10.

Definition headerSize (r : Request) : Z :=
  len (hq_Host r) + 8 +
  foldr (λ '(key, values) n, foldr (λ value n, len key + len value + 4 + n) n values) 0 (map_to_list (hq_Header r)).

(** [http.MaxBytesReader] read to its end: what is read, or whether the limit was hit. *)
Definition read_all (limit : Z) (b : body) : bytes + bool :=
  if limit <? Z.of_nat (length (by_bytes b)) then inr true else if by_broken b then inr false else inl (by_bytes b).

(** [original] is the size noted by [WithClientIP]; [ended] whether the
    request's context is done when reading fails. *)
Definition BoundRequests (original : option Z) (ended : bool) (r : Request) : result problem Request :=
  let size := match original with Some n => Z.max n (headerSize r) | None => headerSize r end in
  if MaxHeaderBytes <? size then Err (MkProblem 431 "headers_too_large" "Request Header Fields Too Large")
  else if bool_decide (hq_Method r = "GET") || bool_decide (hq_Method r = "HEAD") then Ok r
  else if MaxJSONBody <? hq_ContentLength r then Err (MkProblem 413 "body_too_large" "Content Too Large")
  else
    match read_all MaxJSONBody (hq_Body r) with
    | inl b => Ok (MkRequest (hq_Method r) (hq_Path r) (hq_RawQuery r) (hq_Host r) (hq_RemoteAddr r) (hq_Header r)
                     (hq_ContentLength r) (MkBody b false))
    | inr exceeded =>
        Err (if ended then MkProblem 408 "request_cancelled" "Request Timeout"
             else if exceeded : bool then MkProblem 413 "body_too_large" "Content Too Large"
             else invalid_request)
    end.

Section boundary.
Context `{L : HttpLib}.

(** ** Client addresses *)

Definition isTrusted (trusted : list Prefix) (ip : Addr) : bool := existsb (λ p, Contains p (Unmap ip)) trusted.

(** The walk from the right of the forwarding chain, [chain] reversed: it
    stops at the first address that is not trusted, and falls back to the
    peer when a hop does not parse. *)
Fixpoint walk (peer : Addr) (trusted : list Prefix) (chain : list string) (candidate : Addr) : Addr :=
  match chain with
  | [] => candidate
  | hop :: chain =>
      if isTrusted trusted candidate then
        match lib_ParseAddr (TrimSpace hop) with Some ip => walk peer trusted chain ip | None => peer end
      else candidate
  end.

Definition peer_address (r : Request) : Addr := default AddrInvalid (lib_ParseAddr (lib_SplitHost (hq_RemoteAddr r))).

Definition client_ip (trusted : list Prefix) (r : Request) : Addr :=
  let ip := peer_address r in
  if isTrusted trusted ip then
    let chain := Split "," (Get (hq_Header r) "X-Forwarded-For") in
    if (length (Values (hq_Header r) "X-Forwarded-For") =? 1)%nat && (length chain <=? 32)%nat
    then walk ip trusted (reverse chain) ip else ip
  else ip.

Definition forwarding : list string := ["Forwarded"; "X-Forwarded-For"; "X-Forwarded-Host"; "X-Forwarded-Proto"; "X-Real-Ip"].

(** [WithClientIP]: the size of the headers it was given, the address, and
    the request without its forwarding headers. *)
Definition WithClientIP (trusted : list Prefix) (r : Request) : Z * Addr * Request :=
  (headerSize r, client_ip trusted r,
   MkRequest (hq_Method r) (hq_Path r) (hq_RawQuery r) (hq_Host r) (hq_RemoteAddr r)
     (foldr delete (hq_Header r) forwarding) (hq_ContentLength r) (hq_Body r)).

(** ** Origin and CSRF *)

(** The fields of [identity.OIDC] the handlers use. *)
Record OIDC := MkOIDC {
  oc_Issuer : string; oc_PublicOrigin : string; oc_Development : bool; oc_ReauthACR : string;
  oc_ReauthenticationSupported : bool }.

Definition singleHeader (r : Request) (name : string) : string :=
  match Values (hq_Header r) name with [value] => value | _ => "" end.

Definition validOriginJSON (c : OIDC) (r : Request) : bool :=
  let origin := singleHeader r "Origin" in
  negb (bool_decide (origin = "")) && bool_decide (origin = trim_slash (oc_PublicOrigin c))
  && bool_decide (lib_MediaType (singleHeader r "Content-Type") = Some "application/json").

Definition validMutation (c : OIDC) (r : Request) (p : Principal) : bool :=
  validOriginJSON c r && ValidCSRF p (singleHeader r "X-Csrf-Token").

Definition safe_method (method : string) : bool :=
  bool_decide (method = "GET") || bool_decide (method = "HEAD") || bool_decide (method = "OPTIONS").

Definition requireMutation (c : OIDC) (r : Request) (p : Principal) : result problem unit :=
  fail_if (negb (safe_method (hq_Method r)) && negb (validMutation c r p)) forbidden.

(** ** Cookies *)

Definition cookie_name (c : OIDC) (kind : string) : string :=
  (if oc_Development c then "sama_" else "__Host-sama_") +:+ kind.
Definition Cookie (c : OIDC) (r : Request) (kind : string) : option string :=
  lib_Cookie (Values (hq_Header r) "Cookie") (cookie_name c kind).

(** ** Bodies *)

(** A body of at most [limit] bytes, decoded strictly to its end: reading on
    past the value for the end of the body fails beyond the limit. *)
Definition strict {A} (limit : Z) (decode : bytes → option A) (r : Request) : option A :=
  match read_all limit (hq_Body r) with inl b => decode b | inr _ => None end.
End boundary.

(** ** What the walk vouches for *)

Section addresses.
Context `{L : HttpLib} (trusted : list Prefix).

(** A hop that names a trusted proxy. *)
Definition vouched (hop : string) : Prop := ∃ ip, lib_ParseAddr (TrimSpace hop) = Some ip ∧ isTrusted trusted ip = true.

Definition vouched_by (chain : list string) (ip : Addr) : Prop := ∃ post hop pre,
  chain = post ++ hop :: pre ∧ lib_ParseAddr (TrimSpace hop) = Some ip ∧ Forall vouched post ∧
  (pre = [] ∨ isTrusted trusted ip = false).

Lemma walk_untrusted peer chain ip : isTrusted trusted ip = false → walk peer trusted chain ip = ip.
Proof. intros Ht. destruct chain; simpl; by rewrite ?Ht. Qed.

Lemma walk_vouched peer chain candidate : isTrusted trusted candidate = true →
  let ip := walk peer trusted chain candidate in
  ip = peer ∨ (chain = [] ∧ ip = candidate) ∨ vouched_by chain ip.
Proof.
  revert candidate. induction chain as [|hop chain IH]; intros candidate Hc; cbn [walk]; [by right; left|].
  rewrite Hc. destruct (lib_ParseAddr (TrimSpace hop)) as [ip|] eqn:Hp; [|by left].
  destruct (isTrusted trusted ip) eqn:Ht.
  - destruct (IH ip Ht) as [H|[[-> H]|(post & h & pre & -> & Hh & Hv & He)]]; [by left|right; right..].
    + rewrite H. exists [], hop, []. split_and!; [done..|by constructor|by left].
    + exists (hop :: post), h, pre. split_and!; [done..|constructor; [by exists ip|done]|done].
  - rewrite walk_untrusted by done. right. right. exists [], hop, chain. split_and!; [done..|by constructor|by right].
Qed.

Lemma walk_stops peer post hop pre candidate ip : isTrusted trusted candidate = true → Forall vouched post →
  lib_ParseAddr (TrimSpace hop) = Some ip → isTrusted trusted ip = false →
  walk peer trusted (post ++ hop :: pre) candidate = ip.
Proof.
  intros Hc Hpost Hh Ht. revert candidate Hc. induction Hpost as [|h post (a & Ha & Hta) _ IH]; intros candidate Hc; simpl; rewrite Hc.
  - rewrite Hh. by apply walk_untrusted.
  - rewrite Ha. by apply IH.
Qed.

(** C38. A client address is the peer's, or one that trusted proxies vouch
    for: behind a trusted peer, it stands in the single forwarding header with
    nothing but trusted proxies to its right, and it is untrusted itself
    unless it is the first; and whatever a client writes before an untrusted
    address so vouched for, in a chain of at most 32 hops, that address is
    the one reported. *)
Theorem client_ip_vouched r : let ip := client_ip trusted r in
  (ip = peer_address r ∨ isTrusted trusted (peer_address r) = true ∧ ∃ line,
     Values (hq_Header r) "X-Forwarded-For" = [line] ∧ vouched_by (reverse (Split "," line)) ip) ∧
  ∀ line pre hop post a, Values (hq_Header r) "X-Forwarded-For" = [line] → Split "," line = pre ++ hop :: post →
    (length (Split "," line) ≤ 32)%nat → isTrusted trusted (peer_address r) = true →
    Forall vouched post → lib_ParseAddr (TrimSpace hop) = Some a → isTrusted trusted a = false → ip = a.
Proof.
  unfold client_ip, Get. split.
  - destruct (isTrusted _ _) eqn:Ht; [|by left]. destruct (Values _ _) as [|line [|]] eqn:Hv; [by left| |by left]. simpl.
    destruct (_ <=? 32)%nat; [|by left].
    destruct (walk_vouched (peer_address r) (reverse (Split "," line)) (peer_address r) Ht) as [H|[[Hn H]|H]]; [by left..|].
    right. split; [done|]. by exists line.
  - intros line pre hop post a Hv Hs Hl Ht Hpost Hh Ha. rewrite Ht, Hv. simpl. rewrite (proj2 (Nat.leb_le _ _)) by done.
    rewrite Hs, reverse_app, reverse_cons, <-app_assoc. apply walk_stops; [done|by apply Forall_reverse|done..].
Qed.
End addresses.

(** ** What the bounds leave *)

Definition with_body (r : Request) (b : body) : Request :=
  MkRequest (hq_Method r) (hq_Path r) (hq_RawQuery r) (hq_Host r) (hq_RemoteAddr r) (hq_Header r) (hq_ContentLength r) b.

(** What passes has headers of at most 32 KiB, as they were sent, and,
    unless its method is GET or HEAD, a body of at most 1 MiB that arrived
    whole; nothing of the request changes.  What does not pass is answered
    with one of four statuses. *)
Theorem requests_bounded original ended r :
  match BoundRequests original ended r with
  | Ok r' =>
      headerSize r <= 32768 ∧ (∀ n, original = Some n → n <= 32768) ∧
      (r' = r ∧ hq_Method r ∈ ["GET"; "HEAD"] ∨
       r' = with_body r (MkBody (by_bytes (hq_Body r)) false) ∧ by_broken (hq_Body r) = false ∧
       Z.of_nat (length (by_bytes (hq_Body r))) <= 1048576 ∧ hq_ContentLength r <= 1048576)
  | Err p => pm_Status p ∈ [400; 408; 413; 431]
  end.
Proof.
  unfold BoundRequests. change MaxHeaderBytes with 32768. change MaxJSONBody with 1048576.
  destruct (Z.ltb_spec 32768 (match original with Some n => Z.max n (headerSize r) | None => headerSize r end)) as [H|H]; [set_solver|].
  assert (headerSize r <= 32768 ∧ ∀ n, original = Some n → n <= 32768) as [H1 H2].
  { destruct original; split; [lia|intros ? [= <-]; lia|lia|done]. }
  destruct (_ || _) eqn:Hm; [split_and!; [done..|left; split; [done|guards; set_solver]]|].
  destruct (Z.ltb_spec 1048576 (hq_ContentLength r)); [set_solver|]. unfold read_all.
  destruct (Z.ltb_spec 1048576 (Z.of_nat (length (by_bytes (hq_Body r))))); [destruct ended; set_solver|].
  destruct (by_broken (hq_Body r)) eqn:Hb; [destruct ended; set_solver|].
  split_and!; [done..|right; split_and!; done].
Qed.

(** ** A sample boundary *)

(** Two proxies and a client. *)
Definition sample_address (text : string) : option Addr :=
  if decide (text = "10.0.0.1") then Some (AddrV4 167772161) else if decide (text = "10.0.0.2") then Some (AddrV4 167772162)
  else if decide (text = "192.0.2.7") then Some (AddrV4 3221225991) else None.
Definition sample_http : HttpLib :=
  {| lib_MediaType := Some; lib_SplitHost := id; lib_ParseAddr := sample_address; lib_Cookie lines _ := head lines;
     lib_ParseTime _ := None |}.
Definition sample_proxies : list Prefix := [MkPrefix true 167772160 8].

(** The token whose 32 bytes are zero, as the session's and the CSRF token of a sample request. *)
Definition sample_token : string := Eval vm_compute in EncodeToString (replicate 32 0%N).
Definition sample_oidc : OIDC := MkOIDC "https://issuer.example" "https://sama.example/" false "" true.
Definition sample_header : header :=
  {["Cookie" := [sample_token]; "Origin" := ["https://sama.example"]; "Content-Type" := ["application/json"];
    "X-Csrf-Token" := [sample_token]; "X-Forwarded-For" := ["203.0.113.9, 192.0.2.7, 10.0.0.2"]]}.
Definition sample_request (method path : string) : Request :=
  MkRequest method path "" "sama.example" "10.0.0.1" sample_header 2 (MkBody (string_bytes "{}") false).

Lemma client_ip_vouched_witness :
  client_ip (L := sample_http) sample_proxies (sample_request "GET" "/") = AddrV4 3221225991.
Proof.
  destruct (client_ip_vouched (L := sample_http) sample_proxies (sample_request "GET" "/")) as [_ H].
  apply (H "203.0.113.9, 192.0.2.7, 10.0.0.2" ["203.0.113.9"] " 192.0.2.7" [" 10.0.0.2"] (AddrV4 3221225991)).
  - reflexivity.
  - vm_compute. reflexivity.
  - vm_compute. lia.
  - vm_compute. reflexivity.
  - constructor; [|constructor]. exists (AddrV4 167772162). split; vm_compute; reflexivity.
  - vm_compute. reflexivity.
  - vm_compute. reflexivity.
Defined.

Lemma requests_bounded_witness : headerSize (sample_request "PUT" "/") <= 32768 ∧
  BoundRequests (Some 40000) false (sample_request "PUT" "/") = Err (MkProblem 431 "headers_too_large" "Request Header Fields Too Large").
Proof.
  split; [|vm_compute; reflexivity].
  pose proof (requests_bounded (Some 300) false (sample_request "PUT" "/")) as H.
  destruct (BoundRequests _ _ _) as [r|p] eqn:E; [exact (proj1 H)|vm_compute in E; discriminate E].
Defined.
