(* ===== verification/Content.v ===== *)
(** [http.ServeContent], as [static.go] uses it: a file's answer to conditional
    requests and to requests of ranges, with the status each has.  The handler
    sets no [Etag], so no entity tag of a request ever matches. *)
From S2P Require Import Prelude GoBase Endpoint Outbound Facts Paths Http.
Local Open Scope Z_scope.

(** A regular file: when it was modified, and its size unless seeking fails. *)
Record asset := MkAsset { as_modtime : time; as_size : option Z }.

(** What of a file an answer carries. *)
Inductive content :=
| Whole
| Parts (ranges : list (Z * Z))      (* starts and lengths *)
| NotModified
| PreconditionFailed
| NotSatisfiable
| SeekFailed.

Definition content_status (c : content) : Z :=
  match c with
  | Whole => 200 | Parts _ => 206 | NotModified => 304 | PreconditionFailed => 412 | NotSatisfiable => 416 | SeekFailed => 500
  end.

(** [textproto.TrimString] *)
Definition is_ascii_space (c : ascii) : bool := bool_decide (N_of_ascii c ∈ [32; 9; 10; 13]%N).
Fixpoint trim_left (l : list ascii) : list ascii :=
  match l with c :: r => if is_ascii_space c then trim_left r else l | [] => [] end.
Definition TrimString (s : string) : string :=
  String.string_of_list_ascii (reverse (trim_left (reverse (trim_left (String.list_ascii_of_string s))))).

(** *** Entity tags *)

Definition is_quote (c : ascii) : bool := bool_decide (N_of_ascii c = 34%N).
Definition tag_char (c : ascii) : bool :=
  let n := N_of_ascii c in (bool_decide (n = 33) || (35 <=? n) && (n <=? 126) || (128 <=? n))%N.
Fixpoint closing_quote (s : string) : option string :=
  match s with
  | EmptyString => None
  | String c r => if is_quote c then Some r else if tag_char c then closing_quote r else None
  end.

(** [scanETag]: what follows the tag [s] begins with, if it begins with one. *)
Definition scanETag (s : string) : option string :=
  let s := TrimString s in
  match default s (CutPrefix s "W/") with
  | String c r => if is_quote c then closing_quote r else None
  | EmptyString => None
  end.

(** The loop of [checkIfMatch] and [checkIfNoneMatch]: whether a list of tags,
    none of which matches, comes to a star.  Each turn shortens the list. *)
Fixpoint any_tag (fuel : nat) (s : string) : bool :=
  match fuel with
  | O => false
  | S fuel =>
      match TrimString s with
      | EmptyString => false
      | String c r as s =>
          if decide (c = ","%char) then any_tag fuel r
          else if decide (c = "*"%char) then true
          else match scanETag s with Some r => any_tag fuel r | None => false end
      end
  end.
Definition has_star (s : string) : bool := any_tag (S (String.length s)) s.

(** *** Preconditions *)

Inductive condResult := condNone | condTrue | condFalse.
#[export] Instance condResult_eq_dec : EqDecision condResult.
Proof. solve_decision. Defined.

Section preconditions.
Context `{L : HttpLib}.

(** [isZeroTime]: no time, or the Unix epoch. *)
Definition isZeroTime (t : time) : bool := bool_decide (t = zero_time) || bool_decide (t = 0).
(** [t.Truncate(time.Second)] *)
Definition to_second (t : time) : time := t / Second * Second.

Definition checkIfMatch (h : header) : condResult :=
  let im := Get h "If-Match" in
  if decide (im = "") then condNone else if has_star im then condTrue else condFalse.

Definition checkIfUnmodifiedSince (h : header) (modtime : time) : condResult :=
  let ius := Get h "If-Unmodified-Since" in
  if bool_decide (ius = "") || isZeroTime modtime then condNone
  else match lib_ParseTime ius with
       | None => condNone
       | Some t => if to_second modtime <=? t then condTrue else condFalse
       end.

Definition checkIfNoneMatch (h : header) : condResult :=
  let inm := Get h "If-None-Match" in
  if decide (inm = "") then condNone else if has_star inm then condFalse else condTrue.

Definition checkIfModifiedSince (h : header) (modtime : time) : condResult :=
  let ims := Get h "If-Modified-Since" in
  if bool_decide (ims = "") || isZeroTime modtime then condNone
  else match lib_ParseTime ims with
       | None => condNone
       | Some t => if to_second modtime <=? t then condFalse else condTrue
       end.

Definition checkIfRange (h : header) (modtime : time) : condResult :=
  let ir := Get h "If-Range" in
  if decide (ir = "") then condNone
  else if decide (is_Some (scanETag ir)) then condFalse
  else if decide (modtime = zero_time) then condFalse
  else match lib_ParseTime ir with
       | None => condFalse
       | Some t => if decide (t / Second = modtime / Second) then condTrue else condFalse
       end.

(** [checkPreconditions] of a GET or HEAD: an answer without content, or the
    ranges asked for. *)
Definition checkPreconditions (h : header) (modtime : time) : content + string :=
  let ch := checkIfMatch h in
  let ch := if decide (ch = condNone) then checkIfUnmodifiedSince h modtime else ch in
  if decide (ch = condFalse) then inl PreconditionFailed
  else
    let inm := checkIfNoneMatch h in
    if bool_decide (inm = condFalse) || bool_decide (inm = condNone) && bool_decide (checkIfModifiedSince h modtime = condFalse)
    then inl NotModified
    else
      let range := Get h "Range" in
      inr (if negb (bool_decide (range = "")) && bool_decide (checkIfRange h modtime = condFalse) then "" else range).
End preconditions.

(** *** Ranges *)

(** One element of a [Range] header: invalid, beyond the content, or a range. *)
Inductive range_spec := BadRange | Beyond | Range_ (start length : Z).

Definition range_of (size : Z) (ra : string) : range_spec :=
  if negb (GoBase.Contains ra "-") then BadRange
  else
    let '(start, end_) := Cut "-" ra in
    let '(start, end_) := (TrimString start, TrimString end_) in
    if decide (start = "") then
      if bool_decide (end_ = "") || String.prefix "-" end_ then BadRange
      else match ParseInt end_ with
           | None => BadRange
           | Some i => if i <? 0 then BadRange else let n := Z.min i size in Range_ (size - n) n
           end
    else
      match ParseInt start with
      | None => BadRange
      | Some i =>
          if i <? 0 then BadRange
          else if size <=? i then Beyond
          else if decide (end_ = "") then Range_ i (size - i)
          else match ParseInt end_ with
               | None => BadRange
               | Some j => if j <? i then BadRange else Range_ i (Z.min j (size - 1) - i + 1)
               end
      end.

(** The ranges of the elements, [None] when one is invalid, and whether some
    element lay beyond the content. *)
Fixpoint ranges_of (size : Z) (specs : list string) : option (list (Z * Z) * bool) :=
  match specs with
  | [] => Some ([], false)
  | ra :: specs =>
      let ra := TrimString ra in
      if decide (ra = "") then ranges_of size specs
      else
        match range_of size ra with
        | BadRange => None
        | Beyond => '(l, _) ← ranges_of size specs; Some (l, true)
        | Range_ start n => '(l, b) ← ranges_of size specs; Some ((start, n) :: l, b)
        end
  end.

(** [parseRange]: [None] is an invalid header, [Some None] no overlap. *)
Definition parseRange (s : string) (size : Z) : option (option (list (Z * Z))) :=
  if decide (s = "") then Some (Some [])
  else
    specs ← CutPrefix s "bytes=";
    '(l, beyond) ← ranges_of size (Split "," specs);
    Some (if beyond && bool_decide (l = []) then None else Some l).

Definition sumRangesSize (l : list (Z * Z)) : Z := foldr (λ r n, r.2 + n) 0 l.

(** The ranges [serveContent] sends: all of the file when there are none or
    they are more than it. *)
Definition send_ranges (size : Z) (l : list (Z * Z)) : content :=
  if bool_decide (l = []) || (size <? sumRangesSize l) then Whole else Parts l.

Definition ServeContent `{L : HttpLib} (h : header) (f : asset) : content :=
  match checkPreconditions h (as_modtime f) with
  | inl c => c
  | inr range =>
      match as_size f with
      | None => SeekFailed
      | Some size =>
          if size <? 0 then SeekFailed
          else
            match parseRange range size with
            | None => NotSatisfiable
            | Some None => if size =? 0 then Whole else NotSatisfiable
            | Some (Some l) => send_ranges size l
            end
      end
  end.

(** *** What is sent *)

(** A range of a file of [size] bytes. *)
Definition within (size : Z) (r : Z * Z) : Prop := 0 <= r.1 ∧ 0 <= r.2 ∧ r.1 + r.2 <= size.

Lemma range_of_within size ra start n : 0 <= size → range_of size ra = Range_ start n → within size (start, n).
Proof.
  intros Hs. unfold range_of, within. destruct (negb _); [done|]. destruct (Cut _ _) as [a b]. case_decide; simpl.
  - destruct (_ || _); [done|]. destruct (ParseInt _) as [i|]; [|done]. destruct (Z.ltb_spec i 0); [done|].
    intros [= <- <-]. lia.
  - destruct (ParseInt _) as [i|]; [|done]. destruct (Z.ltb_spec i 0); [done|]. destruct (Z.leb_spec size i); [done|].
    case_decide; [intros [= <- <-]; lia|]. destruct (ParseInt _) as [j|]; [|done]. destruct (Z.ltb_spec j i); [done|].
    intros [= <- <-]. lia.
Qed.

Lemma ranges_of_within size specs l b : 0 <= size → ranges_of size specs = Some (l, b) → Forall (within size) l.
Proof.
  intros Hs. revert l b. induction specs as [|ra specs IH]; intros l b; simpl; [intros [= <- <-]; constructor|].
  case_decide; [by apply IH|]. destruct (range_of size (TrimString ra)) as [| |start n] eqn:E; [done|..];
    destruct (ranges_of size specs) as [[l' b']|] eqn:E'; try done; intros [= <- <-]; [by eapply IH|].
  constructor; [by eapply range_of_within|by eapply IH].
Qed.

Section sent.
Context `{L : HttpLib}.

Lemma checkPreconditions_inl h modtime c : checkPreconditions h modtime = inl c → c = PreconditionFailed ∨ c = NotModified.
Proof. unfold checkPreconditions. intros H. repeat case_match; simplify_eq; auto. Qed.

(** Partial content is parts of the file, and not more than all of it. *)
Lemma ServeContent_parts h f l : ServeContent h f = Parts l →
  ∃ size, as_size f = Some size ∧ l ≠ [] ∧ Forall (within size) l ∧ sumRangesSize l <= size.
Proof.
  unfold ServeContent. intros H. destruct (checkPreconditions h (as_modtime f)) as [c|range] eqn:Ec.
  { by destruct (checkPreconditions_inl _ _ _ Ec); subst. }
  destruct (as_size f) as [size|]; [|done]. destruct (Z.ltb_spec size 0); [done|]. exists size.
  destruct (parseRange _ size) as [[l'|]|] eqn:E; [| |done]; [|by destruct (size =? 0)].
  unfold send_ranges in H. destruct (_ || _) eqn:El; [done|]. injection H as ->.
  apply orb_false_iff in El as [Hl%bool_decide_eq_false Hsum%Z.ltb_ge]. split_and!; [done|done| |done].
  unfold parseRange in E. case_decide; [by injection E as <-|]. destruct (CutPrefix _ _) as [specs|]; [|done]. simpl in E.
  destruct (ranges_of size _) as [[l' b]|] eqn:Er; [|done]. simpl in E. destruct (_ && _); [done|]. injection E as ->.
  by eapply ranges_of_within.
Qed.

(** A request without conditions and ranges is sent the whole file. *)
Lemma ServeContent_plain h f size : as_size f = Some size → 0 <= size →
  (∀ key, key ∈ ["If-Match"; "If-Unmodified-Since"; "If-None-Match"; "If-Modified-Since"; "Range"] → Get h key = "") →
  ServeContent h f = Whole.
Proof.
  intros Hs Hpos Hh. unfold ServeContent, checkPreconditions, checkIfMatch, checkIfUnmodifiedSince, checkIfNoneMatch,
    checkIfModifiedSince. rewrite !Hh by set_solver. simpl. rewrite Hs.
  destruct (Z.ltb_spec size 0); [lia|]. done.
Qed.

(** Every answer about a file has one of six statuses. *)
Lemma content_statuses c : content_status c ∈ [200; 206; 304; 412; 416; 500].
Proof. destruct c; simpl; set_solver. Qed.
End sent.

(** *** The loop over tags ends *)

Lemma trim_left_length l : (length (trim_left l) ≤ length l)%nat.
Proof. induction l as [|c l IH]; simpl; [done|]. destruct (is_ascii_space c); simpl; lia. Qed.

Lemma length_list_of s : length (String.list_ascii_of_string s) = String.length s.
Proof. induction s as [|c s IH]; simpl; [done|by rewrite IH]. Qed.
Lemma length_of_list l : String.length (String.string_of_list_ascii l) = length l.
Proof. induction l as [|c l IH]; simpl; [done|by rewrite IH]. Qed.

Lemma TrimString_length s : (String.length (TrimString s) ≤ String.length s)%nat.
Proof.
  unfold TrimString. rewrite length_of_list, length_reverse. etrans; [apply trim_left_length|].
  rewrite length_reverse. etrans; [apply trim_left_length|]. by rewrite length_list_of.
Qed.

Lemma closing_quote_length s r : closing_quote s = Some r → (String.length r < String.length s)%nat.
Proof.
  induction s as [|c s IH]; simpl; [done|]. destruct (is_quote c); [intros [= <-]; lia|].
  destruct (tag_char c); [intros H%IH; lia|done].
Qed.

Lemma substring_length n m s : (String.length (String.substring n m s) ≤ String.length s)%nat.
Proof.
  revert n m. induction s as [|c s IH]; intros [|n] [|m]; simpl; try lia; [specialize (IH 0%nat m)|specialize (IH n 0%nat)|specialize (IH n (S m))]; lia.
Qed.

Lemma scanETag_length s r : scanETag s = Some r → (String.length r < String.length s)%nat.
Proof.
  unfold scanETag. intros H. pose proof (TrimString_length s) as Ht. set (t := TrimString s) in *.
  assert (String.length (default t (CutPrefix t "W/")) ≤ String.length t)%nat as Hd.
  { unfold CutPrefix. destruct (String.prefix _ _); [apply substring_length|done]. }
  destruct (default t (CutPrefix t "W/")) as [|c u]; [done|]. destruct (is_quote c); [|done].
  apply closing_quote_length in H. simpl in Hd. lia.
Qed.

Lemma any_tag_fuel n m s : (String.length s < n)%nat → (String.length s < m)%nat → any_tag n s = any_tag m s.
Proof.
  revert m s. induction n as [|n IH]; intros [|m] s Hn Hm; try lia. simpl.
  pose proof (TrimString_length s) as Ht. destruct (TrimString s) as [|c r] eqn:Es; [done|]. simpl in Ht.
  case_decide; [apply IH; lia|]. case_decide; [done|].
  destruct (scanETag (String c r)) as [u|] eqn:Eu; [|done]. apply scanETag_length in Eu. simpl in Eu. apply IH; lia.
Qed.

(** [has_star] is the loop however long it may run. *)
Lemma has_star_loop s n : (String.length s < n)%nat → any_tag n s = has_star s.
Proof. intros Hn. apply any_tag_fuel; [done|lia]. Qed.

(** *** Examples *)

#[local] Existing Instance sample_http.
Definition sample_asset : asset := MkAsset Hour (Some 1000).
Definition asking (key value : string) : header := {[key := [value]]}.
Example asset_range : ServeContent (asking "Range" "bytes=0-99, -50,2000-") sample_asset = Parts [(0, 100); (950, 50)].
Proof. vm_compute. reflexivity. Qed.
Example asset_beyond : ServeContent (asking "Range" "bytes=1000-") sample_asset = NotSatisfiable.
Proof. vm_compute. reflexivity. Qed.
Example asset_match : ServeContent (asking "If-Match" "W/tag") sample_asset = PreconditionFailed.
Proof. vm_compute. reflexivity. Qed.
Example asset_star : ServeContent (asking "If-None-Match" " , *") sample_asset = NotModified.
Proof. vm_compute. reflexivity. Qed.
Example asset_overlap : ServeContent (asking "Range" "bytes=0-,0-") sample_asset = Whole.
Proof. vm_compute. reflexivity. Qed.
