(* ===== verification/Routes.v ===== *)
(** [internal/httpapi]: the handlers of the API, each from its path test to
    the service call it decides on, and their order in [readers.go].  A call is
    a [command]; [Gateway] carries it out.  What [encoding/json] decodes a body
    into, strictly and to its end, is a parameter. *)
From S2P Require Import Prelude GoBase Identifier Recent Sessions Schema Membership Connection Intent Reviews Control.
From S2P Require Import Browse History Endpoint Outbound Facts JsonInj Paths Http.
Local Open Scope Z_scope.

(** ** Bodies *)

Record change_input := MkChangeInput { ci_Role : string; ci_Version : option Z }.
Record transfer_input := MkTransferInput {
  ti_UserID : string; ti_ActorVersion : Z; ti_TargetVersion : Z; ti_Demote : bool }.
Record grant_input := MkGrantInput { gi_UserID : string; gi_Actions : option (list string) }.
Record confirm_input := MkConfirmInput { fi_ReviewID : string; fi_Confirmed : bool; fi_TypedTarget : string }.
Record SaveInput := MkSaveInput { si_Family : string; si_Label : string; si_Credential : Credential }.

(** [un_sync] yields the raw [resource_type]: absent, something other than a
    string, or a string. *)
Class Bodies := {
  un_empty : bytes → option unit;
  un_change : bytes → option change_input;
  un_settings : bytes → option Settings;
  un_invitation : bytes → option (string * string);
  un_transfer : bytes → option transfer_input;
  un_grant : bytes → option grant_input;
  un_name : bytes → option string;
  un_save : bytes → option SaveInput;
  un_preview : bytes → option (string * Credential);
  un_rotation : bytes → option Credential;
  un_sync : bytes → option (option (option string));
  un_intent : bytes → option Intent;
  un_confirm : bytes → option confirm_input;
  un_resolution : bytes → option Resolution;
}.

(** ** Commands *)

(** A service call with the arguments a request supplies; the actor, the
    workspace and the request identifier come from the context. *)
Inductive command :=
| GetMe
| ListWorkspaces (cursor : uuid) (limit : Z)
| CreateWorkspace (name : string)
| Settings_ (update : option Settings)
| Invite (subject role : string)
| TransferOwnership (target : uuid) (actorVersion targetVersion : Z) (demote : bool)
| ChangeMember_ (target : uuid) (role : string) (version : Z)
| ListMembers_ (cursor : uuid) (limit : Z)
| GetGrant (connection : uuid)
| GetGrantView (connection target : uuid)
| PutGrant (connection target : uuid) (actions : list string)
| ReadConnections (cursor target : uuid) (limit : Z) (capabilities : bool)
| SaveConnection (input : SaveInput)
| PreviewCredential (family : string) (credential : Credential)
| RotateCredential (connection : uuid) (credential : Credential)
| DisableConnection (connection : uuid)
| SyncConnection (connection : uuid) (kind : string)
| GetOverview
| ListAudit (f : History.Filters) (cursor : string) (limit : Z)
| ListResources (f : Browse.Filters) (cursor : string) (limit : Z)
| GetResource (id : uuid)
| GetSync (id : uuid)
| ReadOperations (target : uuid) (cursor : string) (limit : Z)
| PrepareAction (resource : uuid) (intent : Intent)
| ConfirmAction (key : string) (confirmation : Confirmation)
| CancelOperation (id : uuid)
| RecheckOperation (id : uuid)
| ReleaseReservation (id : uuid) (resolution : Resolution).

(** What a handler does: answer a problem, call a service, or leave the
    answer to [route]. *)
Inductive reply := Problem (p : problem) | Invoke (c : command) | Fallback.

(** ** Failures *)

Definition memberFailure (err : error) : problem :=
  if decide (err = WsErrLimit) then failure 429 "rate_limited"
  else if decide (err = WsErrConflict) then failure 409 "membership_conflict"
  else if decide (err = WsErrInvalid) then failure 400 "invalid_request"
  else if decide (err = WsErrDenied) then failure 403 "permission_denied"
  else if decide (err = WsErrNotFound) then failure 404 "not_found"
  else failure 503 "identity_unavailable".

Definition operationFailure (err : error) : problem :=
  if decide (err = OpErrState) then failure 409 "operation_state_conflict"
  else if decide (err = OpErrInvalid) then failure 422 "invalid_request"
  else if decide (err = OpErrUnsupported) then failure 422 "unsupported_capability"
  else if decide (err = OpErrDenied) then failure 403 "permission_denied"
  else if decide (err = IdErrRecentRequired) then failure 403 "recent_authentication_required"
  else if decide (err = OpErrStale) then failure 409 "stale_review"
  else if decide (err = OpErrConflict) then failure 409 "idempotency_conflict"
  else if decide (err = OpErrQuota) then failure 429 "queue_quota_reached"
  else if decide (err = OpErrProvider ∨ err = OpErrStore) then failure 503 "provider_unavailable"
  else if decide (err = OpErrBusy) then failure 409 "resource_busy"
  else memberFailure err.

Definition connectionWriteFailure (err : error) : problem :=
  if decide (err = ConnErrUnsupported) then failure 422 "unsupported_capability"
  else if decide (err = ConnErrCredential ∨ err = WsErrInvalid) then failure 400 "invalid_request"
  else if decide (err = ConnErrValidationLimit) then failure 429 "rate_limited"
  else if decide (err = ConnErrVersion) then failure 409 "credential_version_changed"
  else if decide (err = WsErrDenied) then failure 403 "permission_denied"
  else if decide (err = WsErrNotFound) then failure 404 "not_found"
  else failure 503 "provider_unavailable".

(** The failures of a preview, in [connection_validation.go]. *)
Definition validationFailure (err : error) : problem :=
  if decide (err = WsErrDenied) then failure 403 "permission_denied"
  else if decide (err = ConnErrUnsupported) then failure 422 "unsupported_capability"
  else if decide (err = ConnErrCredential) then failure 400 "invalid_request"
  else if decide (err = ConnErrValidationLimit) then failure 429 "rate_limited"
  else failure 503 "provider_unavailable".

(** The failures of [workspace.Create], in [create_workspace.go]. *)
Definition creationFailure (err : error) : problem :=
  if decide (err = WsErrInvalid) then failure 422 "invalid_workspace"
  else if decide (err = WsErrLimit) then failure 429 "workspace_limit"
  else if decide (err = WsErrDenied) then failure 403 "permission_denied"
  else failure 503 "identity_unavailable".

(** ** Handlers *)

(** What [Protect] puts in the request's context. *)
Record context := MkContext { cx_principal : Principal; cx_workspace : option uuid; cx_request : string }.

Section handlers.
Context `{U : UuidApi} `{L : HttpLib} `{B : Bodies} (config : OIDC).
Implicit Types (cx : context) (r : Request).

Definition invalid : reply := Problem (memberFailure WsErrInvalid).
Definition with_id (text : string) (k : uuid → reply) : reply :=
  match Parse text with Ok id => k id | Err _ => invalid end.
Definition when_method (method : string) r (k : reply) : reply :=
  if decide (hq_Method r = method) then k else Problem not_allowed.

Definition decodeMutation {A} cx r (decode : bytes → option A) (k : A → reply) : reply :=
  if negb (validMutation config r (cx_principal cx)) then Problem forbidden
  else match strict 4096 decode r with Some input => k input | None => invalid end.

(** A list's [limit], from 1 to [most], and the [cursor] that is an identifier. *)
Definition query_limit (q : list (string * string)) (standard most : Z) : option Z :=
  let value := Values_Get q "limit" in
  if decide (value = "") then Some standard
  else match ParseInt value with Some n => if (n <? 1) || (most <? n) then None else Some n | None => None end.
Definition query_id (q : list (string * string)) (key : string) : option uuid :=
  let value := Values_Get q key in
  if decide (value = "") then Some Nil else match Parse value with Ok id => Some id | Err _ => None end.
Definition repeated (q : list (string * string)) : bool :=
  (1 <? length (values_of q "limit"))%nat || (1 <? length (values_of q "cursor"))%nat.

(** [identifier.Parse] of a page's [cursor] after its [limit]. *)
Definition paged r (standard most : Z) (k : Z → uuid → reply) : reply :=
  let q := Query (hq_RawQuery r) in
  if repeated q then invalid
  else
    match query_limit q standard most, query_id q "cursor" with
    | Some limit, Some cursor => k limit cursor
    | _, _ => invalid
    end.

(** A query whose keys are all [allowed], each with one value that is not
    empty; a query that does not parse is refused by its error. *)
Definition plain_query r (allowed : list string) : option (list (string * string)) :=
  match StrictQuery (hq_RawQuery r) allowed with Ok q => Some q | Err _ => None end.

(** *** Reads *)

Definition overview_at r : reply :=
  when_method "GET" r (if decide (hq_RawQuery r = "") then Invoke GetOverview else invalid).

Definition audit_at r : reply :=
  when_method "GET" r (
    match plain_query r ["actor_id"; "action"; "target_id"; "cursor"; "limit"] with
    | None => invalid
    | Some q =>
        match query_limit q 50 200, query_id q "actor_id", query_id q "target_id" with
        | Some limit, Some actor, Some target =>
            Invoke (ListAudit (History.MkFilters actor (Values_Get q "action") target) (Values_Get q "cursor") limit)
        | _, _, _ => invalid
        end
    end).

Definition operations_at (target : option string) r : reply :=
  when_method "GET" r (
    match plain_query r ["limit"; "cursor"] with
    | None => invalid
    | Some q =>
        match query_limit q 50 200 with
        | None => invalid
        | Some limit =>
            match target with
            | None => Invoke (ReadOperations Nil (Values_Get q "cursor") limit)
            | Some text =>
                with_id text (λ id, if (0 <? length q)%nat then invalid else Invoke (ReadOperations id (Values_Get q "cursor") 1))
            end
        end
    end).

Definition resource_keys : list string :=
  ["limit"; "cursor"; "connection_id"; "type"; "region"; "account"; "provider"; "source_native_id"; "source_type"].
Definition resources_at r : reply :=
  when_method "GET" r (
    match plain_query r resource_keys with
    | None => invalid
    | Some q =>
        match query_limit q 50 200, query_id q "connection_id" with
        | Some limit, Some connection =>
            Invoke (ListResources (Browse.MkFilters connection (Values_Get q "provider") (Values_Get q "type")
                      (Values_Get q "region") (Values_Get q "account") (Values_Get q "source_native_id")
                      (Values_Get q "source_type")) (Values_Get q "cursor") limit)
        | _, _ => invalid
        end
    end).

(** A read of one thing, without a query. *)
Definition detail_at (text : string) r (c : uuid → command) : reply :=
  when_method "GET" r (with_id text (λ id, if decide (hq_RawQuery r = "") then Invoke (c id) else invalid)).

Definition connections_at (target : option (string * bool)) r : reply :=
  let read (id : uuid) (capabilities : bool) :=
    when_method "GET" r (
      paged r 50 200 (λ limit cursor,
        if negb (bool_decide (id = Nil)) && (0 <? length (Query (hq_RawQuery r)))%nat then invalid
        else Invoke (ReadConnections cursor id limit capabilities))) in
  match target with
  | None => read Nil false
  | Some (text, capabilities) => with_id text (λ id, read id capabilities)
  end.

Definition members_at r : reply := when_method "GET" r (paged r 50 200 (λ limit cursor, Invoke (ListMembers_ cursor limit))).

(** *** Writes *)

Definition changeMember cx r (target : string) : reply :=
  if decide (hq_Method r = "PUT" ∨ hq_Method r = "DELETE") then
    with_id target (λ user,
      decodeMutation cx r un_change (λ input,
        match ci_Version input with
        | None => invalid
        | Some version =>
            if bool_decide (hq_Method r = "PUT") && bool_decide (ci_Role input = "")
               || bool_decide (hq_Method r = "DELETE") && negb (bool_decide (ci_Role input = ""))
            then invalid else Invoke (ChangeMember_ user (ci_Role input) version)
        end))
  else Problem not_allowed.

Definition workspaceSettings cx r : reply :=
  if decide (hq_Method r = "GET") then Invoke (Settings_ None)
  else if decide (hq_Method r = "PUT") then decodeMutation cx r un_settings (λ update, Invoke (Settings_ (Some update)))
  else Problem not_allowed.

Definition issueInvitation cx r : reply :=
  when_method "POST" r (decodeMutation cx r un_invitation (λ '(subject, role), Invoke (Invite subject role))).

Definition transferOwnership cx r : reply :=
  when_method "POST" r (
    decodeMutation cx r un_transfer (λ input,
      with_id (ti_UserID input) (λ target,
        Invoke (TransferOwnership target (ti_ActorVersion input) (ti_TargetVersion input) (ti_Demote input))))).

Definition grants_at cx (text : string) r : reply :=
  with_id text (λ connection,
    if decide (hq_Method r = "GET") then
      if decide (hq_RawQuery r = "") then Invoke (GetGrant connection)
      else
        match ParseQuery (hq_RawQuery r) with
        | Some q =>
            with_id (Values_Get q "user_id") (λ target,
              if forallb (λ '(key, _), bool_decide (key = "user_id")) q && (length (values_of q "user_id") =? 1)%nat
              then Invoke (GetGrantView connection target) else invalid)
        | None => invalid
        end
    else if decide (hq_Method r = "PUT") then
      decodeMutation cx r un_grant (λ input,
        with_id (gi_UserID input) (λ user,
          match gi_Actions input with Some actions => Invoke (PutGrant connection user actions) | None => invalid end))
    else Problem not_allowed).

Definition connectionDisable cx (text : string) r : reply :=
  when_method "POST" r (with_id text (λ id, decodeMutation cx r un_empty (λ _, Invoke (DisableConnection id)))).

Definition connectionRotation cx (text : string) r : reply :=
  when_method "POST" r (with_id text (λ id, decodeMutation cx r un_rotation (λ c, Invoke (RotateCredential id c)))).

Definition connectionSyncs cx (text : string) r : reply :=
  when_method "POST" r (
    with_id text (λ id,
      if decide (hq_RawQuery r = "") then
        decodeMutation cx r un_sync (λ kind,
          match kind with
          | None => Invoke (SyncConnection id "compute.server")
          | Some (Some kind) => if decide (kind = "") then invalid else Invoke (SyncConnection id kind)
          | Some None => invalid
          end)
      else invalid)).

Definition connectionWrites cx r : reply := decodeMutation cx r un_save (λ input, Invoke (SaveConnection input)).

Definition validations_at cx r : reply :=
  when_method "POST" r (decodeMutation cx r un_preview (λ '(family, c), Invoke (PreviewCredential family c))).

Definition actionReview cx (text : string) r : reply :=
  when_method "POST" r (
    with_id text (λ id,
      if decide (hq_RawQuery r = "") then decodeMutation cx r un_intent (λ intent, Invoke (PrepareAction id intent)) else invalid)).

Definition operationAcceptance cx r : reply :=
  when_method "POST" r (
    let keys := Values (hq_Header r) "Idempotency-Key" in
    if negb (bool_decide (hq_RawQuery r = "")) || negb (length keys =? 1)%nat
       || negb (ValidKey (Get (hq_Header r) "Idempotency-Key"))
    then invalid
    else
      decodeMutation cx r un_confirm (λ input,
        with_id (fi_ReviewID input) (λ id,
          Invoke (ConfirmAction (Get (hq_Header r) "Idempotency-Key")
                    (MkConfirmation id (fi_Confirmed input) (fi_TypedTarget input)))))).

Definition controls : list string := ["cancel"; "reconciliations"; "reservation-release"].
Definition operationControls cx (text verb : string) r : reply :=
  when_method "POST" r (
    with_id text (λ id,
      if decide (hq_RawQuery r = "") then
        if decide (verb = "reservation-release") then
          decodeMutation cx r un_resolution (λ input, Invoke (ReleaseReservation id input))
        else
          decodeMutation cx r un_empty (λ _,
            Invoke (if decide (verb = "cancel") then CancelOperation id else RecheckOperation id))
      else invalid)).

Definition createWorkspace cx r : reply :=
  if negb (validMutation config r (cx_principal cx)) then Problem forbidden
  else match strict 1024 un_name r with Some name => Invoke (CreateWorkspace name) | None => invalid end.

(** ** Paths *)

(** The path of a workspace, and what follows it in a request's path. *)
Definition workspace_path (ws : uuid) : string := "/api/v1/workspaces/" +:+ uuid_String ws.

(** A handler in [apiRoutes] tries the path and answers, or does not. *)
Definition handler : Type := context → Request → option reply.

(** [CurrentMembership], then a test of the path. *)
Definition tenant (h : uuid → context → Request → option reply) : handler := λ cx r,
  match cx_workspace cx with Some ws => h ws cx r | None => None end.

(** Exactly [suffix] below the workspace. *)
Definition exact (suffix : string) (k : context → Request → reply) : handler :=
  tenant (λ ws cx r, if decide (hq_Path r = workspace_path ws +:+ suffix) then Some (k cx r) else None).

(** [{id}] or [{id}/verb] below [collection]. *)
Definition below (collection : string) (k : list string → context → Request → option reply) : handler :=
  tenant (λ ws cx r,
    match CutPrefix (hq_Path r) (workspace_path ws +:+ collection) with
    | Some suffix => k (Split "/" suffix) cx r
    | None => None
    end).

Definition one (k : string → context → Request → reply) (parts : list string) cx r : option reply :=
  match parts with [text] => Some (k text cx r) | _ => None end.
Definition verb (name : string) (k : string → context → Request → reply) (parts : list string) cx r : option reply :=
  match parts with [text; v] => if decide (v = name) then Some (k text cx r) else None | _ => None end.

Definition overview : handler := exact "/overview" (λ _, overview_at).
Definition auditHistory : handler := exact "/audit-events" (λ _, audit_at).

Definition operationReads : handler := tenant (λ ws cx r,
  match CutPrefix (hq_Path r) (workspace_path ws +:+ "/operations") with
  | None => None
  | Some suffix =>
      if decide (suffix = "") then if decide (hq_Method r = "POST") then None else Some (operations_at None r)
      else
        match CutPrefix suffix "/" with
        | Some text => if GoBase.Contains text "/" then None else Some (operations_at (Some text) r)
        | None => None
        end
  end).

Definition operationControls_route : handler := below "/operations/" (λ parts cx r,
  match parts with
  | [text; v] => if decide (v ∈ controls) then Some (operationControls cx text v r) else None
  | _ => None
  end).
Definition operationAcceptance_route : handler := exact "/operations" operationAcceptance.
Definition actionReview_route : handler := below "/resources/" (verb "action-reviews" (λ text cx r, actionReview cx text r)).
Definition resourceDetail : handler := below "/resources/" (one (λ text _ r, detail_at text r GetResource)).
Definition resourceList : handler := exact "/resources" (λ _, resources_at).
Definition syncStatus : handler := below "/syncs/" (one (λ text _ r, detail_at text r GetSync)).
Definition connectionRotation_route : handler :=
  below "/connections/" (verb "credential-rotations" (λ text cx r, connectionRotation cx text r)).
Definition connectionWrites_route : handler := tenant (λ ws cx r,
  if decide (hq_Path r = workspace_path ws +:+ "/connections" ∧ hq_Method r = "POST") then Some (connectionWrites cx r) else None).
Definition connectionSyncs_route : handler := below "/connections/" (verb "syncs" (λ text cx r, connectionSyncs cx text r)).
Definition connectionDisable_route : handler := below "/connections/" (verb "disable" (λ text cx r, connectionDisable cx text r)).

Definition validationRoutes : handler := tenant (λ ws cx r,
  if decide (TrimPrefix (hq_Path r) (workspace_path ws) = "/connection-validations") then Some (validations_at cx r) else None).

Definition grantRoutes : handler := tenant (λ ws cx r,
  verb "grants" (λ text cx r, grants_at cx text r)
    (Split "/" (TrimPrefix (hq_Path r) (workspace_path ws +:+ "/connections/"))) cx r).

Definition connectionReads : handler := tenant (λ ws cx r,
  let suffix := TrimPrefix (hq_Path r) (workspace_path ws) in
  if decide (suffix = "/connections") then Some (connections_at None r)
  else if negb (String.prefix "/connections/" suffix) then None
  else
    match Split "/" (TrimPrefix suffix "/connections/") with
    | [text] => Some (connections_at (Some (text, false)) r)
    | [text; v] => if decide (v = "capabilities") then Some (connections_at (Some (text, true)) r) else None
    | _ => None
    end).

Definition memberRoutes : handler := tenant (λ ws cx r,
  let suffix := TrimPrefix (hq_Path r) (workspace_path ws) in
  if decide (suffix = "/settings") then Some (workspaceSettings cx r)
  else if decide (suffix = "/invitations") then Some (issueInvitation cx r)
  else if decide (suffix = "/ownership-transfers") then Some (transferOwnership cx r)
  else
    match CutPrefix suffix "/members/" with
    | Some target => Some (changeMember cx r target)
    | None => if decide (suffix = "/members") then Some (members_at r) else None
    end).

(** The handlers in the order [apiRoutes] tries them. *)
Definition handlers : list handler := [
  overview; operationReads; auditHistory;
  operationControls_route; operationAcceptance_route; actionReview_route; resourceDetail; resourceList; syncStatus;
  connectionRotation_route; connectionWrites_route; connectionSyncs_route; validationRoutes; grantRoutes;
  connectionDisable_route; connectionReads; memberRoutes].

Fixpoint first_of (l : list handler) cx r : option reply :=
  match l with [] => None | h :: l => match h cx r with Some p => Some p | None => first_of l cx r end end.

Definition apiRoutes cx r : reply :=
  match first_of handlers cx r with
  | Some p => p
  | None =>
      if decide (hq_Path r ≠ "/api/v1/me" ∧ hq_Path r ≠ "/api/v1/workspaces") then Fallback
      else if decide (hq_Path r = "/api/v1/workspaces" ∧ hq_Method r = "POST") then createWorkspace cx r
      else
        when_method "GET" r (
          if decide (hq_Path r = "/api/v1/me") then Invoke GetMe
          else paged r 20 100 (λ limit cursor, Invoke (ListWorkspaces cursor limit)))
  end.
End handlers.

(** ** The routes as a table *)

Section table.
Context `{U : UuidApi} `{L : HttpLib} `{B : Bodies} (config : OIDC).

(** What answers below a workspace, by the segments of the path. *)
Definition table (cx : context) (r : Request) (segments : list string) : option reply :=
  match segments with
  | [a] =>
      if decide (a = "overview") then Some (overview_at r)
      else if decide (a = "audit-events") then Some (audit_at r)
      else if decide (a = "operations") then
        Some (if decide (hq_Method r = "POST") then operationAcceptance config cx r else operations_at None r)
      else if decide (a = "resources") then Some (resources_at r)
      else if decide (a = "connections") then
        Some (if decide (hq_Method r = "POST") then connectionWrites config cx r else connections_at None r)
      else if decide (a = "connection-validations") then Some (validations_at config cx r)
      else if decide (a = "settings") then Some (workspaceSettings config cx r)
      else if decide (a = "invitations") then Some (issueInvitation config cx r)
      else if decide (a = "ownership-transfers") then Some (transferOwnership config cx r)
      else if decide (a = "members") then Some (members_at r)
      else None
  | [a; id] =>
      if decide (a = "operations") then Some (operations_at (Some id) r)
      else if decide (a = "resources") then Some (detail_at id r GetResource)
      else if decide (a = "syncs") then Some (detail_at id r GetSync)
      else if decide (a = "connections") then Some (connections_at (Some (id, false)) r)
      else if decide (a = "members") then Some (changeMember config cx r id)
      else None
  | a :: id :: v :: more =>
      if decide (a = "members") then Some (changeMember config cx r (join (id :: v :: more)))
      else if decide (more ≠ []) then None
      else if decide (a = "operations") then
        if decide (v ∈ controls) then Some (operationControls config cx id v r) else None
      else if decide (a = "resources") then
        if decide (v = "action-reviews") then Some (actionReview config cx id r) else None
      else if decide (a = "connections") then
        if decide (v = "credential-rotations") then Some (connectionRotation config cx id r)
        else if decide (v = "syncs") then Some (connectionSyncs config cx id r)
        else if decide (v = "grants") then Some (grants_at config cx id r)
        else if decide (v = "disable") then Some (connectionDisable config cx id r)
        else if decide (v = "capabilities") then Some (connections_at (Some (id, true)) r)
        else None
      else None
  | [] => None
  end.

End table.

Section routing.
Context `{U : UuidApi} `{L : HttpLib} `{B : Bodies} (config : OIDC).

Lemma grants_parts ws segs : Forall segment segs →
  let parts := Split "/" (TrimPrefix (workspace_path ws +:+ rest segs) (workspace_path ws +:+ "/connections/")) in
  match segs with
  | a :: b :: l => if decide (a = "connections") then parts = b :: l else (3 < length parts)%nat
  | _ => (3 < length parts)%nat
  end.
Proof.
  intros Hs parts. unfold TrimPrefix in parts.
  pose proof (cut_segments (workspace_path ws) _ segs eq_refl Hs "connections" eq_refl) as Hc.
  change ("/" +:+ "connections" +:+ "/") with "/connections/" in Hc. unfold parts. rewrite Hc. clear parts Hc.
  assert (∀ s, (3 < length (Split "/" (workspace_path ws +:+ s)))%nat) as Hlong.
  { intros s. unfold workspace_path. generalize (uuid_String ws). intros x.
    change (("/api/v1/workspaces/" +:+ x) +:+ s) with ("" +:+ "/" +:+ "api" +:+ "/" +:+ "v1" +:+ "/" +:+ "workspaces" +:+ "/" +:+ (x +:+ s)).
    rewrite !split_segment by done. simpl. destruct (split_spec (x +:+ s)) as [Hn _]. destruct (Split "/" (x +:+ s)); [done|]. simpl. lia. }
  destruct segs as [|a [|b l]]; [apply Hlong..|]. case_decide; [|apply Hlong]. cbn [default].
  apply Forall_cons in Hs as [_ Hs]. change (Split "/" (join (b :: l)) = b :: l). by apply segments_join.
Qed.

Section path.
Context (cx : context) (r : Request) (ws : uuid) (segs : list string).
Hypotheses (Hws : cx_workspace cx = Some ws) (Hp : hq_Path r = workspace_path ws +:+ rest segs) (Hs : Forall segment segs).

Lemma exact_at w k : segment w → exact ("/" +:+ w) k cx r =
  match segs with [a] => if decide (a = w) then Some (k cx r) else None | _ => None end.
Proof using Hws Hp Hs.
  intros Hw. unfold exact, tenant. rewrite Hws.
  pose proof (exact_segments _ _ _ Hp Hs w Hw) as He. destruct (decide (hq_Path r = _)) as [E|E].
  - apply He in E. rewrite E. by rewrite decide_True.
  - rewrite He in E. destruct segs as [|a [|]]; [done| |done]. rewrite decide_False by congruence. done.
Qed.

Lemma below_at w k : segment w → below ("/" +:+ w +:+ "/") k cx r =
  match segs with a :: b :: l => if decide (a = w) then k (b :: l) cx r else None | _ => None end.
Proof using Hws Hp Hs.
  intros Hw. unfold below, tenant. rewrite Hws, (cut_segments _ _ _ Hp Hs w Hw).
  destruct segs as [|a [|b l]]; [done..|]. case_decide; [|done]. rewrite segments_join; [done..|]. by apply Forall_cons in Hs as [_ ?].
Qed.

Lemma grants_at_route : grantRoutes config cx r =
  match segs with
  | [a; b; c] => if decide (a = "connections") then if decide (c = "grants") then Some (grants_at config cx b r) else None else None
  | _ => None
  end.
Proof using Hws Hp Hs.
  unfold grantRoutes, tenant. rewrite Hws, Hp. pose proof (grants_parts ws segs Hs) as Hg. cbv zeta in Hg.
  assert (∀ parts, (3 < length parts)%nat → verb "grants" (λ text cx r, grants_at config cx text r) parts cx r = None) as Hlong.
  { intros [|? [|? [|? ?]]]; simpl; [lia..|done]. }
  destruct segs as [|a [|b l]]; [by apply Hlong..|]. case_decide; [|rewrite Hlong by done; by destruct l as [|? [|]]].
  rewrite Hg. destruct l as [|c [|d l]]; [done..|done].
Qed.

Lemma operations_route : operationReads cx r =
  match segs with
  | [a] => if decide (a = "operations") then if decide (hq_Method r = "POST") then None else Some (operations_at None r) else None
  | [a; id] => if decide (a = "operations") then Some (operations_at (Some id) r) else None
  | _ => None
  end.
Proof using Hws Hp Hs.
  unfold operationReads, tenant. rewrite Hws, Hp, CutPrefix_below. destruct segs as [|a l]; [done|].
  rewrite rest_cons. change "/operations" with ("/" +:+ "operations"). rewrite CutPrefix_below.
  destruct (CutPrefix (join (a :: l)) "operations") as [suffix|] eqn:E.
  2: { destruct l as [|b [|c l]]; [| |done]; (rewrite decide_False; [done|]; intros ->; simpl in E).
       - by vm_compute in E.
       - by rewrite CutPrefix_app in E. }
  apply CutPrefix_Some in E. case_decide as Hn.
  { subst suffix. assert (a :: l = ["operations"]) as [= -> ->] by (apply join_inj; [done|done|done|by repeat constructor|by rewrite E]).
    by rewrite (decide_True (P := "operations" = "operations")). }
  destruct (CutPrefix suffix "/") as [text|] eqn:E'.
  - apply CutPrefix_Some in E'. subst suffix.
    assert (a :: l = "operations" :: Split "/" text) as [= -> ->].
    { rewrite <-(segments_join (a :: l)), E by done. by apply split_segment. }
    destruct (split_spec text) as (Hn' & Hsp & Hj). apply Forall_cons in Hs as [_ Hl].
    destruct (Split "/" text) as [|b m] eqn:Em; [done|]. rewrite <-Hj, contains_join by done. rewrite decide_True by done.
    destruct m; done.
  - destruct l as [|b [|c l]]; [| |done]; (rewrite decide_False; [done|]; intros ->; simpl in E).
    + apply Hn. by apply (string_app_inj_l "operations").
    + apply (string_app_inj_l "operations") in E. subst suffix. by rewrite CutPrefix_app in E'.
Qed.

Lemma connections_route : connectionReads cx r =
  match segs with
  | [a] => if decide (a = "connections") then Some (connections_at None r) else None
  | [a; id] => if decide (a = "connections") then Some (connections_at (Some (id, false)) r) else None
  | [a; id; v] => if decide (a = "connections") then
                    if decide (v = "capabilities") then Some (connections_at (Some (id, true)) r) else None
                  else None
  | _ => None
  end.
Proof using Hws Hp Hs.
  unfold connectionReads, tenant. rewrite Hws, Hp, TrimPrefix_app. cbv zeta.
  pose proof (rest_is segs "connections" Hs eq_refl) as He. pose proof (rest_cut segs "connections" Hs eq_refl) as Hc.
  change ("/" +:+ "connections" +:+ "/") with "/connections/" in Hc.
  rewrite prefix_cut. unfold TrimPrefix. rewrite Hc. destruct (decide (rest segs = "/connections")) as [E|E].
  - apply He in E. rewrite E. by rewrite decide_True.
  - change "/connections" with ("/" +:+ "connections") in E. rewrite He in E.
    destruct segs as [|a [|b l]]; [done|rewrite decide_False by congruence; done|].
    case_decide; [|by destruct l as [|? []]]. cbn [negb default]. change (id (join (b :: l))) with (join (b :: l)).
    rewrite segments_join; [|done|by apply Forall_cons in Hs as [_ ?]]. by destruct l as [|? []].
Qed.

Lemma members_route : memberRoutes config cx r =
  match segs with
  | [a] =>
      if decide (a = "settings") then Some (workspaceSettings config cx r)
      else if decide (a = "invitations") then Some (issueInvitation config cx r)
      else if decide (a = "ownership-transfers") then Some (transferOwnership config cx r)
      else if decide (a = "members") then Some (members_at r) else None
  | a :: l => if decide (a = "members") then Some (changeMember config cx r (join l)) else None
  | [] => None
  end.
Proof using Hws Hp Hs.
  unfold memberRoutes, tenant. rewrite Hws, Hp, TrimPrefix_app. cbv zeta.
  pose proof (λ w, rest_is segs w Hs) as He. pose proof (rest_cut segs "members" Hs eq_refl) as Hc.
  change ("/" +:+ "members" +:+ "/") with "/members/" in Hc. rewrite Hc.
  destruct segs as [|a [|b l]]; [done| |].
  - by rewrite (decide_rest a "settings"), (decide_rest a "invitations"), (decide_rest a "ownership-transfers"),
      (decide_rest a "members").
  - assert (∀ w, segment w → rest (a :: b :: l) ≠ "/" +:+ w) as Hne by (intros w Hw ?%He; done).
    rewrite (decide_False (P := _ = "/settings")) by (by apply (Hne "settings")).
    rewrite (decide_False (P := _ = "/invitations")) by (by apply (Hne "invitations")).
    rewrite (decide_False (P := _ = "/ownership-transfers")) by (by apply (Hne "ownership-transfers")).
    rewrite (decide_False (P := _ = "/members")) by (by apply (Hne "members")).
    by case_decide.
Qed.

Lemma validation_route : validationRoutes config cx r =
  match segs with [a] => if decide (a = "connection-validations") then Some (validations_at config cx r) else None | _ => None end.
Proof using Hws Hp Hs.
  unfold validationRoutes, tenant. rewrite Hws, Hp, TrimPrefix_app.
  pose proof (rest_is segs "connection-validations" Hs eq_refl) as He. destruct (decide (rest segs = _)) as [E|E].
  - apply He in E. rewrite E. by rewrite decide_True.
  - change "/connection-validations" with ("/" +:+ "connection-validations") in E. rewrite He in E.
    destruct segs as [|a [|]]; [done| |done]. by rewrite decide_False by congruence.
Qed.

Lemma writes_route : connectionWrites_route config cx r =
  match segs with
  | [a] => if decide (a = "connections") then if decide (hq_Method r = "POST") then Some (connectionWrites config cx r) else None else None
  | _ => None
  end.
Proof using Hws Hp Hs.
  unfold connectionWrites_route, tenant. rewrite Hws. pose proof (exact_segments _ _ _ Hp Hs "connections" eq_refl) as He.
  destruct (decide (hq_Path r = _ ∧ _)) as [[E Hm]|E].
  - apply He in E. rewrite E. by rewrite !decide_True.
  - destruct segs as [|a [|]]; [done| |done]. repeat case_decide; [|done..]. subst. exfalso. apply E. split; [|done]. by apply He.
Qed.
End path.

(** C37. The handlers answer by a table over the segments of the path below
    the workspace: whatever the order in which they are tried and however they
    test the path, each request below a workspace reaches exactly the entry of
    its segments and method, and no other path reaches any. *)
Theorem routes_by_table cx r ws segs :
  cx_workspace cx = Some ws → hq_Path r = workspace_path ws +:+ rest segs → Forall segment segs →
  apiRoutes config cx r = default Fallback (table config cx r segs).
Proof.
  intros Hws Hp Hs. unfold apiRoutes.
  assert (first_of (handlers config) cx r = table config cx r segs) as ->.
  { unfold handlers. cbn [first_of]. unfold overview, auditHistory, operationControls_route, operationAcceptance_route,
      actionReview_route, resourceDetail, resourceList, syncStatus, connectionRotation_route, connectionSyncs_route,
      connectionDisable_route.
    rewrite (exact_at _ _ _ _ Hws Hp Hs "overview") by done. rewrite (operations_route _ _ _ _ Hws Hp Hs).
    rewrite (exact_at _ _ _ _ Hws Hp Hs "audit-events") by done.
    rewrite (below_at _ _ _ _ Hws Hp Hs "operations") by done. rewrite (exact_at _ _ _ _ Hws Hp Hs "operations") by done.
    rewrite !(below_at _ _ _ _ Hws Hp Hs "resources") by done. rewrite (exact_at _ _ _ _ Hws Hp Hs "resources") by done.
    rewrite (below_at _ _ _ _ Hws Hp Hs "syncs") by done. rewrite !(below_at _ _ _ _ Hws Hp Hs "connections") by done.
    rewrite (writes_route _ _ _ _ Hws Hp Hs), (validation_route _ _ _ _ Hws Hp Hs), (grants_at_route _ _ _ _ Hws Hp Hs),
      (connections_route _ _ _ _ Hws Hp Hs), (members_route _ _ _ _ Hws Hp Hs).
    clear Hp Hs. unfold one, verb, table.
    destruct segs as [|a [|b [|c [|d l]]]]; repeat case_decide; subst; done. }
  destruct (table config cx r segs); [done|]. rewrite decide_True; [done|]. rewrite Hp. unfold workspace_path.
  rewrite string_app_assoc. generalize (uuid_String ws +:+ rest segs). intros y. split; intros H; vm_compute in H; discriminate.
Qed.

(** A path under [Protect]'s prefix names a workspace and its segments. *)
Lemma protected_path path id ws : CutPrefix path "/api/v1/workspaces/" = Some id → Parse (Cut "/" id).1 = Ok ws →
  ∃ segs, path = workspace_path ws +:+ rest segs ∧ Forall segment segs.
Proof.
  intros ->%CutPrefix_Some [Hid _]%Parse_Ok. unfold workspace_path. rewrite <-Hid. setoid_rewrite string_app_assoc.
  destruct (cut_spec id) as [Hn|[r Hr]].
  - exists []. rewrite Hn. split; [|done]. simpl. by rewrite string_app_nil.
  - exists (Split "/" r). destruct (split_spec r) as (Hne & Hsp & Hj). split; [|done].
    destruct (Split "/" r) eqn:E; [done|]. rewrite rest_cons, Hj. by rewrite <-Hr.
Qed.
End routing.

(** ** What reaches a service *)

Definition mutating (c : command) : bool :=
  match c with
  | GetMe | ListWorkspaces _ _ | Settings_ None | ListMembers_ _ _ | GetGrant _ | GetGrantView _ _
  | ReadConnections _ _ _ _ | GetOverview | ListAudit _ _ _ | ListResources _ _ _ | GetResource _ | GetSync _
  | ReadOperations _ _ _ => false
  | _ => true
  end.

Section admission.
Context `{U : UuidApi} `{L : HttpLib} `{B : Bodies} (config : OIDC).

Definition page_limit (most limit : Z) : Prop := 1 <= limit <= most.
Definition id_or_nil (id : uuid) : Prop := id = Nil ∨ entity_id id.

(** What the handlers have checked of a command's arguments. *)
Definition well_formed (c : command) : Prop :=
  match c with
  | GetMe | CreateWorkspace _ | Settings_ _ | Invite _ _ | SaveConnection _ | PreviewCredential _ _ | GetOverview => True
  | ListWorkspaces cursor limit => id_or_nil cursor ∧ page_limit 100 limit
  | TransferOwnership target _ _ _ => entity_id target
  | ChangeMember_ target role _ => entity_id target
  | ListMembers_ cursor limit => id_or_nil cursor ∧ page_limit 200 limit
  | GetGrant connection | DisableConnection connection | RotateCredential connection _ => entity_id connection
  | SyncConnection connection kind => entity_id connection ∧ kind ≠ ""
  | GetGrantView connection target | PutGrant connection target _ => entity_id connection ∧ entity_id target
  | ReadConnections cursor target limit capabilities =>
      id_or_nil cursor ∧ id_or_nil target ∧ page_limit 200 limit ∧ (capabilities = true → entity_id target)
      ∧ (target ≠ Nil → cursor = Nil)
  | ListAudit f _ limit => id_or_nil (History.fl_Actor f) ∧ id_or_nil (History.fl_Target f) ∧ page_limit 200 limit
  | ListResources f _ limit => id_or_nil (Browse.fl_Connection f) ∧ page_limit 200 limit
  | GetResource id | GetSync id | PrepareAction id _ | CancelOperation id | RecheckOperation id
  | ReleaseReservation id _ => entity_id id
  | ReadOperations target cursor limit => id_or_nil target ∧ page_limit 200 limit ∧ (target ≠ Nil → cursor = "" ∧ limit = 1)
  | ConfirmAction key confirmation => ValidKey key = true ∧ entity_id (cf_ReviewID confirmation)
  end.

Definition admitted (cx : context) (r : Request) (c : command) : Prop :=
  well_formed c ∧
  (mutating c = true → validMutation config r (cx_principal cx) = true ∧ hq_Method r ∈ ["POST"; "PUT"; "DELETE"]).

Definition admits (cx : context) (r : Request) (p : reply) : Prop := ∀ c, p = Invoke c → admitted cx r c.

Section rules.
Context (cx : context) (r : Request).

Lemma admits_problem p : admits cx r (Problem p).
Proof. done. Qed.

Lemma admits_method method k : (hq_Method r = method → admits cx r k) → admits cx r (when_method method r k).
Proof. intros Hk. unfold when_method. case_decide; [auto|done]. Qed.

Lemma admits_id text k : (∀ id, entity_id id → admits cx r (k id)) → admits cx r (with_id text k).
Proof. intros Hk. unfold with_id. destruct (Parse text) as [id|e] eqn:E; [|done]. apply Hk. by apply Parse_Ok in E as [_ ?]. Qed.

Lemma admits_decode {A} (decode : bytes → option A) k :
  (validMutation config r (cx_principal cx) = true → ∀ a, admits cx r (k a)) → admits cx r (decodeMutation config cx r decode k).
Proof.
  intros Hk. unfold decodeMutation. destruct (validMutation _ _ _) eqn:E; [|done]. simpl.
  destruct (strict 4096 decode r); [by apply Hk|done].
Qed.

Lemma query_limit_range q standard most n : 1 <= standard <= most → query_limit q standard most = Some n → page_limit most n.
Proof. unfold query_limit, page_limit. intros Hs H. repeat case_match; simplify_eq; guards; lia. Qed.

Lemma query_id_ok q key id : query_id q key = Some id → id_or_nil id.
Proof.
  unfold query_id, id_or_nil. case_decide; [intros [= <-]; by left|]. destruct (Parse _) eqn:E; [|done].
  intros [= <-]. right. by apply Parse_Ok in E as [_ ?].
Qed.

Lemma admits_paged standard most k : 1 <= standard <= most →
  (∀ limit cursor, page_limit most limit → id_or_nil cursor → query_id (Query (hq_RawQuery r)) "cursor" = Some cursor →
     admits cx r (k limit cursor)) → admits cx r (paged r standard most k).
Proof.
  intros Hs Hk. unfold paged. destruct (repeated _); [done|]. destruct (query_limit _ _ _) eqn:E1; [|done].
  destruct (query_id _ _) eqn:E2; [|done]. apply Hk; [by eapply query_limit_range|by eapply query_id_ok|done].
Qed.

Lemma no_query {A} (q : list A) : (0 <? length q)%nat = false → q = [].
Proof. by destruct q. Qed.

Lemma admits_invoke c : admitted cx r c → admits cx r (Invoke c).
Proof. by intros Hc c' [= <-]. Qed.
End rules.

Ltac admit_rule :=
  lazymatch goal with
  | |- admits _ _ (when_method _ _ _) => apply admits_method; intros ?
  | |- admits _ _ (with_id _ _) => apply admits_id; intros ? ?
  | |- admits _ _ (decodeMutation _ _ _ _ _) => apply admits_decode; intros ? ?
  | |- admits _ _ (paged _ _ _ _) => apply admits_paged; [lia|intros ? ? ? ? ?]
  | |- admits _ _ (Problem _) => apply admits_problem
  | |- admits _ _ invalid => apply admits_problem
  | |- admits _ _ (Invoke _) => apply admits_invoke; split; [simpl|intros ?; try done]
  | |- admits _ _ (match ?x with _ => _ end) => destruct x eqn:?
  end.
Ltac admitted_done :=
  split_and?; try done; eauto using query_id_ok;
  try (by eapply query_limit_range; [|eassumption]; lia); try (unfold page_limit; lia); try (by left); try (by right);
  try (by match goal with H : hq_Method _ = _ |- _ => rewrite H; set_solver end); try set_solver.
Ltac admission := repeat admit_rule; admitted_done.

Create HintDb admits.
Section endpoints.
Context (cx : context) (r : Request).

Lemma overview_admits : admits cx r (overview_at r).
Proof. unfold overview_at. admission. Qed.
Lemma audit_admits : admits cx r (audit_at r).
Proof. unfold audit_at. admission. Qed.
Lemma operations_admits target : admits cx r (operations_at target r).
Proof.
  unfold operations_at. repeat admit_rule; admitted_done.
  all: try (match goal with H : (0 <? _)%nat = false |- _ => apply no_query in H as -> end; intros _; split; reflexivity).
Qed.
Lemma resources_admits : admits cx r (resources_at r).
Proof. unfold resources_at. admission. Qed.
Lemma detail_admits text c : (∀ id, mutating (c id) = false ∧ (entity_id id → well_formed (c id))) → admits cx r (detail_at text r c).
Proof.
  intros Hc. unfold detail_at. repeat lazymatch goal with |- admits _ _ (Invoke _) => fail | _ => admit_rule end.
  intros c' [= <-]. split; [by apply Hc|]. by rewrite (proj1 (Hc id)).
Qed.
Lemma connections_admits target : admits cx r (connections_at target r).
Proof.
  unfold connections_at. repeat admit_rule; admitted_done. intros Hn. rewrite bool_decide_eq_false_2 in Heqb0 by done.
  apply no_query in Heqb0 as E. rewrite E in H3. by injection H3.
Qed.
Lemma members_admits : admits cx r (members_at r).
Proof. unfold members_at. admission. Qed.
Lemma change_admits target : admits cx r (changeMember config cx r target).
Proof. unfold changeMember. admission. Qed.
Lemma settings_admits : admits cx r (workspaceSettings config cx r).
Proof. unfold workspaceSettings. admission. Qed.
Lemma invitation_admits : admits cx r (issueInvitation config cx r).
Proof. unfold issueInvitation. admission. Qed.
Lemma transfer_admits : admits cx r (transferOwnership config cx r).
Proof. unfold transferOwnership. admission. Qed.
Lemma grants_admits text : admits cx r (grants_at config cx text r).
Proof. unfold grants_at. admission. Qed.
Lemma disable_admits text : admits cx r (connectionDisable config cx text r).
Proof. unfold connectionDisable. admission. Qed.
Lemma rotation_admits text : admits cx r (connectionRotation config cx text r).
Proof. unfold connectionRotation. admission. Qed.
Lemma syncs_admits text : admits cx r (connectionSyncs config cx text r).
Proof. unfold connectionSyncs. admission. Qed.
Lemma writes_admits : hq_Method r = "POST" → admits cx r (connectionWrites config cx r).
Proof. intros Hm. unfold connectionWrites. admission. Qed.
Lemma validations_admits : admits cx r (validations_at config cx r).
Proof. unfold validations_at. admission. Qed.
Lemma review_admits text : admits cx r (actionReview config cx text r).
Proof. unfold actionReview. admission. Qed.
Lemma acceptance_admits : admits cx r (operationAcceptance config cx r).
Proof. unfold operationAcceptance. admission; guards; done. Qed.
Lemma controls_admits text v : admits cx r (operationControls config cx text v r).
Proof. unfold operationControls. destruct (decide (v = "cancel")); admission. Qed.
Lemma creation_admits : hq_Method r = "POST" → admits cx r (createWorkspace config cx r).
Proof.
  intros Hm. unfold createWorkspace. destruct (validMutation _ _ _) eqn:E; [|done]. simpl.
  destruct (strict _ _ _); [|done]. apply admits_invoke. split; [done|]. intros _. split; [done|]. rewrite Hm. set_solver.
Qed.
Hint Resolve overview_admits audit_admits operations_admits resources_admits connections_admits members_admits
  change_admits settings_admits invitation_admits transfer_admits grants_admits disable_admits rotation_admits
  syncs_admits writes_admits validations_admits review_admits acceptance_admits controls_admits creation_admits : admits.

Lemma handlers_admit : Forall (λ h : handler, ∀ p, h cx r = Some p → admits cx r p) (handlers config).
Proof.
  unfold handlers. repeat (apply Forall_cons; split); [..|by apply Forall_nil_2]; intros p; unfold overview, operationReads, auditHistory, operationControls_route,
    operationAcceptance_route, actionReview_route, resourceDetail, resourceList, syncStatus, connectionRotation_route,
    connectionWrites_route, connectionSyncs_route, validationRoutes, grantRoutes, connectionDisable_route,
    connectionReads, memberRoutes, exact, below, tenant, one, verb; intros H; repeat case_match; simplify_eq; auto with admits;
    try (by apply detail_admits). naive_solver auto with admits.
Qed.

Lemma api_admits : admits cx r (apiRoutes config cx r).
Proof.
  unfold apiRoutes.
  destruct (first_of (handlers config) cx r) as [p|] eqn:E.
  - pose proof handlers_admit as Hh. induction Hh as [|h l Hh _ IH]; [done|]. cbn [first_of] in E.
    destruct (h cx r) eqn:Eh; [simplify_eq; by apply Hh|by apply IH].
  - case_decide; [done|]. case_decide as Hp; [apply creation_admits; naive_solver|]. repeat admit_rule; admitted_done.
Qed.

(** A request reaches a service only with arguments that were checked:
    identifiers that are entity identifiers, limits in range, keys that are
    valid; and it reaches one that changes anything only by POST, PUT or
    DELETE, from the configured origin, as JSON, with the CSRF token of the
    session. *)
Theorem admission_checked c : apiRoutes config cx r = Invoke c → admitted cx r c.
Proof. intros H. by apply api_admits. Qed.
End endpoints.
End admission.

(** ** A sample request *)

#[local] Existing Instances rfc9562 sample_http.

(** Empty bodies are decoded. *)
Definition sample_bodies : Bodies := {|
  un_empty _ := Some tt; un_change _ := None; un_settings _ := None; un_invitation _ := None; un_transfer _ := None;
  un_grant _ := None; un_name _ := None; un_save _ := None; un_preview _ := None; un_rotation _ := None;
  un_sync _ := Some None; un_intent _ := None; un_confirm _ := None; un_resolution _ := None |}.
Definition sample_principal : Principal := MkPrincipal (sample_id 1) 0 (digest_of sample_token) false.
Definition sample_context : context := MkContext sample_principal (Some (sample_id 10)) "r1".
Definition sample_segments : list string := ["connections"; uuid_String (sample_id 20); "syncs"].
Definition sample_sync : Request := sample_request "POST" (workspace_path (sample_id 10) +:+ rest sample_segments).

Lemma routes_by_table_witness :
  apiRoutes (B := sample_bodies) sample_oidc sample_context sample_sync
  = Invoke (SyncConnection (sample_id 20) "compute.server").
Proof.
  rewrite (routes_by_table (B := sample_bodies) sample_oidc sample_context sample_sync (sample_id 10) sample_segments).
  - vm_compute. reflexivity.
  - reflexivity.
  - reflexivity.
  - repeat constructor.
Defined.

Lemma admission_checked_witness :
  entity_id (sample_id 20) ∧
  validMutation sample_oidc sample_sync sample_principal = true.
Proof.
  destruct (admission_checked (B := sample_bodies) sample_oidc sample_context sample_sync
    (SyncConnection (sample_id 20) "compute.server")) as [[H _] Hm].
  - vm_compute. reflexivity.
  - split; [exact H|]. exact (proj1 (Hm eq_refl)).
Defined.
