(* ===== verification/Gateway.v ===== *)
(** [internal/httpapi]: from a request to its answer — the sessions and
    memberships that stand before the API ([principal.go]), the service each
    command calls and the failures it maps, the paths outside the API
    ([router.go], [auth.go], [logout.go], [reauthenticate.go], [callback.go])
    and the files of the frontend ([static.go]). *)
From S2P Require Import Prelude GoBase Identifier Json Schema Tx TxLogic Wp Prog Recent Sessions Challenges Membership.
From S2P Require Import AesGcm Connection Custody Enqueue Grants Invitations Intent Reviews Control Provider Envelope.
From S2P Require Import Reads Browse History Login Endpoint Facts Paths Http Content Routes.
Local Open Scope Z_scope.

(** ** Answers *)

(** What the body of a success encodes. *)
Inductive payload :=
| Nothing
| UserBody (u : UserView)
| WorkspacesBody (page : list WorkspaceView * option uuid)
| WorkspaceBody (w : WorkspaceView)
| SettingsBody (s : Settings)
| TokenBody (proof : string)
| MembersBody (page : list Member * option uuid)
| ActionsBody (actions : list string)
| GrantBody (view : GrantView)
| ConnectionsBody (page : list ConnectionView * option uuid)
| ConnectionBody (view : ConnectionView)
| CapabilitiesBody (l : list Capability)
| SavedBody (saved : uuid * uuid * preview)
| PreviewBody (p : preview)
| VersionBody (version : Z)
| DisabledBody
| SyncBody (id : uuid)
| OverviewBody (o : Overview)
| AuditBody (page : list Entry * option string)
| ResourcesBody (page : list Resource * option string)
| ResourceBody (r : ResourceDetail)
| StatusBody (s : SyncStatus)
| OperationsBody (page : list View * option string)
| OperationBody (v : View)
| ReviewBody (r : Review)
| AcceptedBody (a : Accepted)
| HealthBody.

(** A success with its [Location], a problem, a file of the frontend with its
    [Cache-Control] and what of it is sent, the redirect that starts a login (as
    JSON or as 302) or ends one, the end of a session, and an index out of
    range. *)
Inductive response :=
| Success (status : Z) (location : string) (body : payload)
| Refused (p : problem)
| File (name cache : string) (sent : content)
| LoginStarted (c : Challenge) (json : bool)
| SignedIn (c : SessionCredential)
| SignedOut
| Panicked.

Definition status_of (r : response) : Z :=
  match r with
  | Success status _ _ => status
  | Refused p => pm_Status p
  | File _ _ sent => content_status sent
  | LoginStarted _ json => if json then 200 else 302
  | SignedIn _ => 302
  | SignedOut => 204
  | Panicked => 500
  end.

(** What the composition root injects. *)
Record Auth := MkAuth {
  ha_OIDC : OIDC; ha_Operations : option Service; ha_Support : gmap string (list string);
  ha_Validation : option ValidationService; ha_Policy : SessionPolicy }.

(** The surroundings of one request: the randomness of [Save] and [Rotate], what
    the login transaction finds of its lock and of expired challenges, and the
    issuer's answer to a code. *)
Record Surroundings := MkSurroundings {
  su_rand : Rand; su_locked : bool; su_expired : list bytes; su_exchange : string → Challenge → go IDToken }.

Section gateway.
Context `{U : UuidApi} `{L : HttpLib} `{B : Bodies} `{A : AEAD} (time_json : time → string).
Context `{!CursorJSON (History.cursor_text time_json), !CursorJSON (history_text time_json), !CursorJSON Browse.cursor_text}.
Context (a : Auth) (su : Surroundings).

(** [x, err := service; if err != nil { failure }]. *)
Definition respond {X} (service : prog X) (fail : error → problem) (ok : X → response) : prog response :=
  r ← pattempt service; mret (match r with Ok x => ok x | Err e => Refused (fail e) end).

Definition ok (body : payload) : response := Success 200 "" body.
Definition the_first {X} (l : list X) (k : X → response) : response := match l with x :: _ => k x | [] => Panicked end.

(** The failures of [WorkspaceSettings] and [RefreshType], with their own codes first. *)
Definition settingsFailure (err : error) : problem :=
  if decide (err = WsErrPolicyConflict) then failure 409 "policy_conflict" else memberFailure err.
Definition syncFailure (err : error) : problem :=
  if decide (err = InvErrQuota) then failure 429 "queue_quota_reached" else memberFailure err.
Definition auditFailure (err : error) : problem :=
  memberFailure (if decide (err = AuditErrReadInvalid) then WsErrInvalid else err).

(** The service a command calls: [p] the principal, [ws] the workspace of its
    membership, [request] the request identifier. *)
Definition answer (p : Principal) (ws : uuid) (request : string) (c : command) : prog response :=
  let user := pr_UserID p in
  match c with
  | GetMe => respond (tx (CurrentUser user)) login_problem (λ u, ok (UserBody u))
  | ListWorkspaces cursor limit =>
      respond (tx (List_workspaces limit user cursor)) (λ _, login_problem IdErrStore) (λ page, ok (WorkspacesBody page))
  | CreateWorkspace name =>
      respond (tx (Create user name request)) creationFailure
        (λ w, Success 201 (workspace_path (vw_ID w)) (WorkspaceBody w))
  | Settings_ update =>
      respond (tx (WorkspaceSettings user ws update request)) settingsFailure (λ s, ok (SettingsBody s))
  | Invite subject role =>
      now ← ask CNow;
      respond (tx (IssueInvitation user ws (oc_Issuer (ha_OIDC a)) subject role request now)) memberFailure
        (λ proof, Success 201 "" (TokenBody proof))
  | TransferOwnership target actorVersion targetVersion demote =>
      respond (tx (Transfer user ws target actorVersion targetVersion demote request)) memberFailure
        (λ _, Success 204 "" Nothing)
  | ChangeMember_ target role version =>
      respond (tx (ChangeMember user ws target role version request)) memberFailure (λ _, Success 204 "" Nothing)
  | ListMembers_ cursor limit =>
      respond (tx (ListMembers user ws limit cursor)) memberFailure (λ page, ok (MembersBody page))
  | GetGrant connection => respond (tx (ReadGrant user ws connection)) memberFailure (λ l, ok (ActionsBody l))
  | GetGrantView connection target =>
      respond (tx (ReadGrantView user ws connection target)) memberFailure (λ v, ok (GrantBody v))
  | PutGrant connection target actions =>
      respond (tx (SetGrant user ws connection target actions request)) memberFailure (λ _, Success 204 "" Nothing)
  | ReadConnections cursor target limit capabilities =>
      respond (tx (ReadAuthorized user ws target (ha_Support a) limit cursor)) memberFailure (λ page,
        if decide (target = Nil) then ok (ConnectionsBody page)
        else the_first page.1 (λ v, ok (if capabilities : bool then CapabilitiesBody (cw_Capabilities v) else ConnectionBody v)))
  | SaveConnection input =>
      respond (Save (ha_Validation a) (su_rand su) user ws (si_Family input) (si_Label input) (si_Credential input) request)
        connectionWriteFailure (λ saved, Success 201 "" (SavedBody saved))
  | PreviewCredential family credential =>
      respond (Preview (ha_Validation a) user ws family credential) validationFailure (λ p, ok (PreviewBody p))
  | RotateCredential connection credential =>
      respond (Rotate (ha_Validation a) (su_rand su) user ws connection credential request) connectionWriteFailure
        (λ version, ok (VersionBody version))
  | DisableConnection connection =>
      respond (tx (Disable user ws connection request)) memberFailure (λ _, ok DisabledBody)
  | SyncConnection connection kind =>
      respond (tx (RefreshType user ws connection kind)) syncFailure (λ id, Success 202 "" (SyncBody id))
  | GetOverview => respond (tx (ReadOverview user ws)) memberFailure (λ o, ok (OverviewBody o))
  | ListAudit f cursor limit =>
      respond (tx (History.List time_json user ws f limit cursor)) auditFailure (λ page, ok (AuditBody page))
  | ListResources f cursor limit =>
      respond (tx (Browse.List user ws f limit cursor)) memberFailure (λ page, ok (ResourcesBody page))
  | GetResource id => respond (tx (Detail user ws id (ha_Support a))) memberFailure (λ r, ok (ResourceBody r))
  | GetSync id => respond (tx (Status user ws id)) memberFailure (λ s, ok (StatusBody s))
  | ReadOperations target cursor limit =>
      respond (tx (History.Read time_json user ws target limit cursor)) memberFailure (λ page,
        if decide (target = Nil) then ok (OperationsBody page) else the_first page.1 (λ v, ok (OperationBody v)))
  | PrepareAction resource intent =>
      respond (Prepare (ha_Operations a) p ws resource intent) operationFailure (λ r, ok (ReviewBody r))
  | ConfirmAction key confirmation =>
      respond (Confirm (ha_Operations a) p ws key confirmation request) operationFailure
        (λ x, Success 202 (workspace_path ws +:+ "/operations/" +:+ uuid_String (ac_ID x)) (AcceptedBody x))
  | CancelOperation id =>
      respond (tx (Cancel (ha_Operations a) p ws id request)) operationFailure (λ x, ok (AcceptedBody x))
  | RecheckOperation id =>
      respond (tx (Recheck (ha_Operations a) p ws id request)) operationFailure (λ x, ok (AcceptedBody x))
  | ReleaseReservation id resolution =>
      respond (tx (ReleaseUnknown (ha_Operations a) p ws id resolution request)) operationFailure (λ x, ok (AcceptedBody x))
  end.

(** [route]: liveness, and nothing else. *)
Definition route (r : Request) : response :=
  if decide (hq_Path r = "/health") then
    if decide (hq_Method r = "GET" ∨ hq_Method r = "HEAD") then ok HealthBody else Refused not_allowed
  else Refused not_found.

(** [apiRoutes], carried out. *)
Definition dispatch (cx : context) (r : Request) : prog response :=
  match apiRoutes (ha_OIDC a) cx r with
  | Problem p => mret (Refused p)
  | Invoke c => answer (cx_principal cx) (default Nil (cx_workspace cx)) (cx_request cx) c
  | Fallback => mret (route r)
  end.

(** The failures of [ResolveMembership], in [Protect]. *)
Definition membershipFailure (err : error) : problem :=
  if decide (err = WsErrNotFound) then not_found else if decide (err = WsErrDenied) then forbidden
  else failure 503 "identity_unavailable".

(** The workspace a path names. *)
Definition tenant_of (path : string) : option string :=
  match CutPrefix path "/api/v1/workspaces/" with
  | Some id => if decide (id = "") then None else Some (Cut "/" id).1
  | None => None
  end.

Definition Protect (request : string) (r : Request) (minimumRole : string) (next : context → prog response) : prog response :=
  let guarded cx := match requireMutation (ha_OIDC a) r (cx_principal cx) with
                    | Err p => mret (Refused p)
                    | Ok _ => next cx
                    end in
  match Cookie (ha_OIDC a) r "session" with
  | None => mret (Refused (login_problem IdErrUnauthenticated))
  | Some token =>
      p ← pattempt (tx (Resolve_session (ha_Policy a) token));
      match p with
      | Err e => mret (Refused (login_problem e))
      | Ok p =>
          match tenant_of (hq_Path r) with
          | None => guarded (MkContext p None request)
          | Some text =>
              match Parse text with
              | Err _ => mret (Refused invalid_request)
              | Ok ws =>
                  m ← pattempt (tx (ResolveMembership (pr_UserID p) ws minimumRole));
                  match m with
                  | Err e => mret (Refused (membershipFailure e))
                  | Ok _ => guarded (MkContext p (Some ws) request)
                  end
              end
          end
      end
  end.

(** *** Logins *)

(** The bodies of [login] and [logout]: an invitation; an object without
    fields, [null], or nothing at all but white space. *)
Context (un_login : bytes → option string) (un_logout : bytes → option (option unit)).

Definition blank (b : bytes) : bool := forallb (λ x, bool_decide (x ∈ [32; 9; 10; 13]%N)) b.

Definition loginStartFailure (err : error) : problem :=
  if decide (err = IdErrRateLimited) then failure 429 "rate_limited"
  else if decide (err = IdErrUnauthenticated) then invalid_request else failure 503 "identity_unavailable".

Definition login (r : Request) : prog response :=
  if negb (bool_decide (hq_Method r = "GET")) && negb (bool_decide (hq_Method r = "POST")) then mret (Refused not_allowed)
  else if negb (bool_decide (hq_RawQuery r = "")) then mret (Refused invalid_request)
  else if decide (hq_Method r = "POST") then
    if negb (validOriginJSON (ha_OIDC a) r) then mret (Refused forbidden)
    else
      match strict 1024 un_login r with
      | None => mret (Refused invalid_request)
      | Some invitation =>
          respond (tx (StartInvitation (su_locked su) (su_expired su) invitation)) loginStartFailure
            (λ c, LoginStarted c (bool_decide (Get (hq_Header r) "Accept" = "application/json")))
      end
  else respond (tx (Start (su_locked su) (su_expired su))) loginStartFailure (λ c, LoginStarted c false).

(** Whether the body asks for nothing. *)
Definition empty_logout (r : Request) : bool :=
  match read_all 4096 (hq_Body r) with
  | inl b => blank b || bool_decide (un_logout b = Some (Some tt))
  | inr _ => false
  end.

Definition logout (request : string) (r : Request) : prog response :=
  if negb (bool_decide (hq_Method r = "POST")) then mret (Refused not_allowed)
  else if negb (validOriginJSON (ha_OIDC a) r) then mret (Refused forbidden)
  else if negb (empty_logout r) then mret (Refused invalid_request)
  else
    match Cookie (ha_OIDC a) r "session" with
    | None => mret SignedOut
    | Some token =>
        p ← pattempt (tx (Resolve_session (ha_Policy a) token));
        match p with
        | Err e => mret (if decide (e = IdErrUnauthenticated) then SignedOut else Refused (login_problem e))
        | Ok p =>
            if negb (validMutation (ha_OIDC a) r p) then mret (Refused forbidden)
            else respond (tx (Logout token request)) login_problem (λ _, SignedOut)
        end
    end.

Definition reauthenticate (cx : context) (r : Request) : prog response :=
  if negb (bool_decide (hq_Method r = "POST")) then mret (Refused not_allowed)
  else if negb (validMutation (ha_OIDC a) r (cx_principal cx)) then mret (Refused forbidden)
  else
    match strict 4096 un_empty r with
    | None => mret (Refused (memberFailure WsErrInvalid))
    | Some _ =>
        if negb (oc_ReauthenticationSupported (ha_OIDC a)) then mret (Refused (login_problem IdErrReauthUnsupported))
        else
          match Cookie (ha_OIDC a) r "session" with
          | None => mret (Refused (login_problem IdErrUnauthenticated))
          | Some token =>
              respond (tx (StartReauthentication (su_locked su) (su_expired su) token)) login_problem
                (λ c, LoginStarted c false)
          end
    end.

Definition unauthenticated : problem := failure 401 "unauthenticated".

(** The code and the state of a callback that carries each once and no error. *)
Definition callback_query (r : Request) : option (string * string) :=
  let q := Query (hq_RawQuery r) in
  match values_of q "state", values_of q "code" with
  | [state], [code] =>
      if negb (bool_decide (Values_Get q "error" = "")) || (len code =? 0) || (4096 <? len code) then None
      else Some (state, code)
  | _, _ => None
  end.

Definition callback_at (request : string) (r : Request) : prog response :=
  if negb (bool_decide (hq_Method r = "GET")) then mret (Refused not_allowed)
  else
    match Cookie (ha_OIDC a) r "login", callback_query r with
    | Some browser, Some (state, code) =>
        challenge ← pattempt (tx (Consume state browser));
        match challenge with
        | Err e => mret (Refused (login_problem e))
        | Ok challenge =>
            match su_exchange su code challenge with
            | Err e => mret (Refused (login_problem e))
            | Ok token =>
                respond (tx (callback (ha_Policy a) (oc_ReauthenticationSupported (ha_OIDC a)) (oc_ReauthACR (ha_OIDC a))
                               token challenge (default "" (Cookie (ha_OIDC a) r "session")) request))
                  login_problem SignedIn
            end
        end
    | _, _ => mret (Refused unauthenticated)
    end.

(** *** Files *)

Section assets.
Context (regular : string → option asset).

(** [path.Ext]: from the last dot of the last segment. *)
Fixpoint ext_of (reversed : list ascii) (seen : list ascii) : string :=
  match reversed with
  | [] => ""
  | c :: r =>
      if decide (c = "/"%char) then ""
      else if decide (c = "."%char) then String c (String.string_of_list_ascii seen)
      else ext_of r (c :: seen)
  end.
Definition Ext (name : string) : string := ext_of (reverse (String.list_ascii_of_string name)) [].

Definition lower_hex (c : ascii) : bool := let n := N_of_ascii c in ((48 <=? n) && (n <=? 57) || (97 <=? n) && (n <=? 102))%N.

(** [^[A-Za-z0-9_-]+\.[0-9a-f]{20}\.(js|css)$] *)
Definition hashedAsset (name : string) : bool :=
  match Split "." name with
  | [stem; hash; ext] =>
      negb (bool_decide (stem = "")) && string_forallb (λ c, is_alnum c || is_one_of "_-" c) stem
      && (String.length hash =? 20)%nat && string_forallb lower_hex hash
      && (bool_decide (ext = "js") || bool_decide (ext = "css"))
  | _ => false
  end.

Definition asset_types : list string := [".html"; ".js"; ".css"; ".svg"; ".png"; ".ico"; ".woff2"].

(** An error of [serveContent] goes without the header for caches. *)
Definition serve_content (name cache : string) (c : content) : response :=
  File name (match c with NotSatisfiable | SeekFailed => "" | _ => cache end) c.

(** [Assets.ServeHTTP]: [regular] opens the regular files below the root. *)
Definition serve_asset (r : Request) : response :=
  if negb (bool_decide (hq_Method r = "GET")) && negb (bool_decide (hq_Method r = "HEAD")) then Refused not_allowed
  else
    let name := TrimPrefix (hq_Path r) "/" in
    if GoBase.Contains name backslash || GoBase.Contains name nul
       || negb (bool_decide (name = "")) && negb (bool_decide (Clean name = name)) then route r
    else if existsb (String.prefix ".") (Split "/" name) then route r
    else
      let entry := bool_decide (name = "") || bool_decide (Ext name = "") in
      let '(name, ext) := if entry : bool then ("index.html", ".html") else (name, Ext name) in
      if negb (bool_decide (ext ∈ asset_types)) then route r
      else if bool_decide (ext = ".html") && negb (bool_decide (name = "index.html")) then route r
      else
        match regular name with
        | None => route r
        | Some f =>
            let cache := if decide (name = "index.html") then "no-store"
                         else if hashedAsset name then "public, max-age=31536000, immutable" else "no-cache" in
            serve_content name cache (ServeContent (hq_Header r) f)
        end.
End assets.

(** *** Readiness *)

(** [CredentialReadiness]: the distinct keys of all stored versions, 65 at
    most, must be on the keyring. *)
Definition key_ids (d : db) : gset string := list_to_set ((cv_master_key_id ∘ snd) <$> map_to_list (credential_versions d)).
Definition readyz (ring : option Keyring) (r : Request) : prog response :=
  if negb (bool_decide (hq_Method r = "GET")) && negb (bool_decide (hq_Method r = "HEAD")) then mret (Refused not_allowed)
  else
    let unavailable := Refused (MkProblem 503 "credentials_unavailable" "Credential readiness unavailable") in
    match Require ring [] with
    | Err _ => mret unavailable
    | Ok _ =>
        ids ← pattempt (tx (pool_exec IdErrStore (rd (λ _ d, take 65 (base.elements (key_ids d))))));
        mret (match ids with
              | Ok ids => if is_ok (Require ring ids) then ok HealthBody else unavailable
              | Err _ => unavailable
              end)
    end.

(** *** The application *)

(** [NewAppHandler] behind its bounds: [assets] tells the frontend's regular
    files, when there is a frontend. *)
Definition under (path prefix : string) : bool := bool_decide (path = prefix) || String.prefix (prefix +:+ "/") path.

Definition app (assets : option (string → option asset)) (request : string) (r : Request) : prog response :=
  let path := hq_Path r in
  if decide (path = "/auth/login") then login r
  else if decide (path = "/auth/callback") then callback_at request r
  else if decide (path = "/auth/logout") then logout request r
  else if decide (path = "/auth/reauthenticate") then Protect request r "viewer" (λ cx, reauthenticate cx r)
  else if under path "/api" then Protect request r "viewer" (λ cx, dispatch cx r)
  else
    mret (match assets with
          | Some regular =>
              if negb (bool_decide (path = "/health")) && negb (bool_decide (path = "/readyz")) && negb (under path "/auth")
              then serve_asset regular r else route r
          | None => route r
          end).

(** A request as the server receives it: the client address, the identifier,
    readiness, the bounds, and the application.  [fresh] is a new identifier, [ended]
    whether reading the body outlived the request. *)
Definition serve (trusted : list Prefix) (ring : option Keyring) (assets : option (string → option asset)) (fresh : option string) (ended : bool) (r : Request)
  : prog response :=
  let '(original, _, r) := WithClientIP trusted r in
  let request := request_id fresh r in
  if decide (hq_Path r = "/readyz") then readyz ring r
  else
    match BoundRequests (Some original) ended r with
    | Err p => mret (Refused p)
    | Ok r => app assets request r
    end.
End gateway.

(** ** Commands that only read *)

Section reading.
Context `{U : UuidApi} `{L : HttpLib} `{B : Bodies} `{A : AEAD} (time_json : time → string).
Context `{!CursorJSON (History.cursor_text time_json), !CursorJSON (history_text time_json), !CursorJSON Browse.cursor_text}.

Lemma each_mono {X} (P P' : ∀ T, txm T → Prop) (C C' : call → Prop) (p : prog X) :
  each P C p → (∀ T t, P T t → P' T t) → (∀ c, C c → C' c) → each P' C' p.
Proof. intros Hp HP HC. induction p as [r|T t k IH|c k IH]; simpl in *; [done|..]; destruct Hp; split; auto. Qed.

Lemma reads_only (R : db → db → Prop) `{!PreOrder R} a su p ws request c : mutating c = false →
  each (λ _ t, keeps R t) (λ _, False) (answer time_json a su p ws request c).
Proof.
  intros Hc. assert (∀ X (t : txm X) fail k, keeps R t →
    each (λ _ t, keeps R t) (λ _, False) (respond (tx t) fail k)) as Hr by (intros; unfold respond; simpl; auto).
  destruct c; try discriminate Hc; try (destruct update; [discriminate Hc|]); unfold answer; apply Hr;
    unfold CurrentUser, List_workspaces, WorkspaceSettings, ListMembers, ReadGrant, ReadGrantView, ReadAuthorized, ReadOverview,
      History.List, Browse.List, Detail, Status, History.Read, query, ResolveMembership, LockAuthority, memberInTx; tx_auto.
Qed.
End reading.
