(* ===== verification/Runner.v ===== *)
(** [internal/job/runner.go] and the registrations of [cmd/sama/main.go]: what
    a worker does between two claims.  [Run] starts the workers and drains
    them; they are threads of [System], cancelled where [ask CCtxErr] says so. *)
From S2P Require Import Prelude GoBase Identifier Schema Tx Prog Jobs Scan Publish Dispatch Control.
Local Open Scope Z_scope.

Record Key := MkKey { k_Type : string; k_Version : Z }.
#[export] Instance Key_eq_dec : EqDecision Key.
Proof. solve_decision. Defined.
#[export] Instance Key_countable : Countable Key.
Proof. by refine (inj_countable' (λ k, (k_Type k, k_Version k)) (λ '(t, v), MkKey t v) _); intros []. Defined.

(** [Finish] is given the error of the work, if any. *)
Record Handler := MkHandler { hn_Work : Lease → prog unit; hn_Finish : Lease → option error → prog unit }.

Record Scheduler := MkScheduler { sc_Operations : bool; sc_Maintenance : option (prog unit); sc_Pool : bool; sc_Now : bool }.

Record Runner := MkRunner {
  rn_scheduler : Scheduler; rn_workers : Z; rn_drain : duration; rn_handlers : gmap Key Handler;
  rn_reject : Lease → prog unit }.

(** The functions of the handlers are present. *)
Definition NewRunner (s : Scheduler) (workers : Z) (drain : duration) (handlers : gmap Key Handler)
    (reject : option (Lease → prog unit)) : go Runner :=
  match reject with
  | None => Err JobErrJob
  | Some reject =>
      fail_if (negb (sc_Pool s) || negb (sc_Now s) || (workers <? 1) || (32 <? workers) || (drain <=? 0) || (Minute <? drain)
               || (16 <? size handlers)%nat) JobErrJob ;;
      fail_if (existsb (λ '(key, _), bool_decide (k_Type key = "") || (k_Version key <? 1)) (map_to_list handlers)) JobErrJob ;;
      Ok (MkRunner s workers drain handlers reject)
  end.

Section worker.
Context `{U : UuidApi} (r : Runner).

(** [Scheduler.Claim]: [locked] is what the statement skips. *)
Definition claim (locked : uuid → bool) (owner : uuid) : prog Lease :=
  preject (bool_decide (owner = Nil)) JobErrLease ;;
  match sc_Maintenance (rn_scheduler r) with Some maintenance => maintenance | None => mret tt end ;;
  tx (Claim (sc_Operations (rn_scheduler r)) locked owner).

Definition error_of {A} (r : go A) : option error := match r with Ok _ => None | Err e => Some e end.

(** One turn of [worker]'s loop: whether it goes on.  The wait after [ErrNoJob]
    ends with the timer or the context, which the next turn inspects. *)
Definition turn (locked : uuid → bool) (owner : uuid) : prog bool :=
  cancelled ← ask CCtxErr;
  if cancelled : bool then mret false
  else
    claimed ← pattempt (claim locked owner);
    match claimed with
    | Err e => if decide (e = JobErrNoJob) then mret true else pthrow e
    | Ok lease =>
        cancelled ← ask CCtxErr;
        if cancelled : bool then mret false
        else
          match rn_handlers r !! MkKey (jr_Type (ls_Record lease)) (jr_PayloadVersion (ls_Record lease)) with
          | None => rn_reject r lease ;; mret true
          | Some h =>
              result ← pattempt (run_leased lease (hn_Work h lease));
              cancelled ← ask CCtxErr;
              if cancelled : bool then mret false
              else if decide (error_of result = Some JobErrLease) then mret true
              else hn_Finish h lease (error_of result) ;; mret true
          end
    end.

(** As many turns as the process lives, [skipped] telling what each claim skips. *)
Fixpoint worker (owner : uuid) (skipped : list (uuid → bool)) : prog unit :=
  match skipped with
  | [] => mret tt
  | locked :: skipped =>
      more ← turn locked owner;
      if more : bool then worker owner skipped else mret tt
  end.
End worker.

(** *** The registrations of [run] *)

Section registrations.
Context `{U : UuidApi} `{J : JsonbText} (encoded_len : list scanObservation → option Z).

Definition refresh_handler (s : Scanner) : Handler :=
  MkHandler (Scan encoded_len s) (λ lease err, tx (Complete lease err)).
(** [delay] is the wait until the next poll, drawn for each lease. *)
Definition dispatch_handler (d : Dispatcher) (delay : Lease → duration) : Handler :=
  MkHandler (λ lease, Work d (delay lease) lease) (λ _ _, mret tt).

(** A job without a handler fails as a refresh, or by itself when it is none. *)
Definition reject (lease : Lease) : prog unit :=
  result ← pattempt (tx (Complete lease (Some JobErrJob)));
  match result with
  | Err e => if decide (e = JobErrLease) then tx (Finish lease JFailed) else pthrow e
  | Ok _ => mret tt
  end.

Definition registered (s : Scanner) (d : Dispatcher) (delay : Lease → duration) : gmap Key Handler :=
  {[MkKey "connection_refresh" 2 := refresh_handler s; MkKey "operation_dispatch" 3 := dispatch_handler d delay]}.

(** The runner of the process. *)
Definition process (s : Scanner) (d : Dispatcher) (delay : Lease → duration) (drain : duration) (workers : Z) : go Runner :=
  NewRunner (MkScheduler true (Some Expire) true true) workers drain (registered s d delay) (Some reject).
End registrations.
