(* ===== verification/Config.v ===== *)
(** [internal/platform/config.go] and the configuration of
    [internal/identity/oidc.go]: what the environment may ask of the process,
    and what the parts that are built from it may rely on. *)
From S2P Require Import Prelude GoBase Json JsonInj Identifier Jobs Prog Scan Publish Dispatch Control Endpoint Outbound Facts Intent Runner.
Local Open Scope Z_scope.

(** ** The environment *)

Abbreviation EnvLookup := (string → option string).
Abbreviation FileRead := (string → option string).

(** [url.Parse], [net.SplitHostPort], [net.ParseIP], [time.ParseDuration] and
    [netip.ParsePrefix]. *)
Class ConfigLib := {
  cl_URL : string → option URL;
  cl_SplitHostPort : string → option (string * string);
  cl_IP : string → option Addr;
  cl_Duration : string → option duration;
  cl_Prefix : string → option Prefix }.

Record TimeoutConfig := MkTimeoutConfig {
  tc_ReadHeader : duration; tc_Read : duration; tc_Write : duration; tc_Idle : duration; tc_Shutdown : duration;
  tc_MigrationQuery : duration }.
Record BudgetConfig := MkBudgetConfig {
  bc_ProviderCallingProcesses : Z; bc_WorkerCount : Z; bc_ProviderRequestsPerConnection : Z }.
Record DatabaseConfig := MkDatabaseConfig { dc_URL : string; dc_MigrationURL : string }.
Record Config := MkConfig {
  cf_MutationSwitches : list string; cf_WorkersEnabled : bool; cf_KeyringFile : string; cf_AssetsDir : string;
  cf_HTTPAddr : string; cf_PublicOrigin : URL; cf_Database : DatabaseConfig; cf_Timeouts : TimeoutConfig;
  cf_Budgets : BudgetConfig; cf_TrustedProxies : list Prefix }.

(** A [ConfigError] is its code. *)
Definition configurationCodes : list string := [
  "invalid_http_addr"; "invalid_public_origin"; "invalid_database_url"; "invalid_migration_database_url";
  "database_url_file_unreadable"; "migration_database_url_file_unreadable"; "invalid_timeout"; "invalid_budget";
  "invalid_trusted_proxy"; "invalid_mutation_policy"].

Definition defaultHTTPAddr : string := "127.0.0.1:8080".
Definition defaultPublicOrigin : string := "http://127.0.0.1:8080".
Definition Millisecond : duration := 1000000.
Definition minTimeout : duration := Millisecond.
Definition maxTimeout : duration := 10 * Minute.
Definition minMigrationQueryTimeout : duration := Second.
Definition maxMigrationQueryTimeout : duration := 24 * Hour.
Definition defaultMigrationQueryTimeout : duration := 30 * Minute.

Section config.
Context `{C : ConfigLib} (lookup : EnvLookup) (readFile : FileRead).

(** A port as it is written, when it is. *)
Definition valid_port (text : string) : bool :=
  match ParseInt text with Some port => negb (port <? 1) && negb (65535 <? port) | None => false end.

Definition validHostname (value : string) : bool :=
  negb (ContainsAny value (" /\*?"%string)) && negb (String.prefix "." value)
  && negb (bool_decide (last (String.list_ascii_of_string value) = Some "."%char)).

Definition validListenAddress (value : string) : bool :=
  match cl_SplitHostPort value with
  | None => false
  | Some (host, portText) =>
      if bool_decide (portText = "") || GoBase.Contains portText ":" then false
      else if negb (valid_port portText) then false
      else bool_decide (host = "") || bool_decide (is_Some (cl_IP host)) || validHostname host
  end.

Definition parseOrigin (value : string) : option URL :=
  match cl_URL (TrimSpace value) with
  | None => None
  | Some u =>
      if negb (bool_decide (u_Opaque u = "")) || u_User u || bool_decide (u_Host u = "") || negb (bool_decide (u_RawQuery u = ""))
         || u_ForceQuery u || negb (bool_decide (u_Fragment u = "")) then None
      else if negb (bool_decide (u_Scheme u = "http")) && negb (bool_decide (u_Scheme u = "https")) then None
      else if negb (bool_decide (u_Path u = "")) && negb (bool_decide (u_Path u = "/")) then None
      else if bool_decide (Hostname u = "") then None
      else if negb (bool_decide (Port u = "")) && negb (valid_port (Port u)) then None
      else Some (MkURL (u_Scheme u) (u_Opaque u) (u_User u) (u_Host u) "" (u_RawPath u) (u_ForceQuery u) (u_RawQuery u) (u_Fragment u))
  end.

Definition validDatabaseURL (value : string) : bool :=
  match cl_URL (TrimSpace value) with
  | None => false
  | Some u =>
      if negb (bool_decide (u_Scheme u = "postgres")) && negb (bool_decide (u_Scheme u = "postgresql")) || bool_decide (u_Host u = "")
      then false else bool_decide (Port u = "") || valid_port (Port u)
  end.

Definition databaseURLSetting (directKey fileKey invalidCode fileErrorCode : string) : result string string :=
  match lookup directKey with
  | Some value => if negb (validDatabaseURL value) then Err invalidCode else Ok (TrimSpace value)
  | None =>
      match lookup fileKey with
      | None => Ok ""
      | Some path =>
          let path := TrimSpace path in
          if decide (path = "") then Err fileErrorCode
          else
            match readFile path with
            | None => Err fileErrorCode
            | Some contents =>
                let value := TrimSpace contents in
                if negb (validDatabaseURL value) then Err invalidCode else Ok value
            end
      end
  end.

Definition databaseURL : result string string :=
  databaseURLSetting "SAMA_DATABASE_URL" "SAMA_DATABASE_URL_FILE" "invalid_database_url" "database_url_file_unreadable".
Definition migrationDatabaseURL : result string string :=
  databaseURLSetting "SAMA_MIGRATION_DATABASE_URL" "SAMA_MIGRATION_DATABASE_URL_FILE"
    "invalid_migration_database_url" "migration_database_url_file_unreadable".

Definition boundedDurationSetting (name : string) (fallback minimum maximum : duration) : result string duration :=
  match lookup name with
  | None => Ok fallback
  | Some value =>
      match cl_Duration (TrimSpace value) with
      | Some d => if (d <? minimum) || (maximum <? d) then Err "invalid_timeout" else Ok d
      | None => Err "invalid_timeout"
      end
  end.
Definition durationSetting (name : string) (fallback : duration) : result string duration :=
  boundedDurationSetting name fallback minTimeout maxTimeout.

Definition loadTimeouts : result string TimeoutConfig :=
  readHeader ← durationSetting "SAMA_READ_HEADER_TIMEOUT" (5 * Second);
  read ← durationSetting "SAMA_READ_TIMEOUT" (10 * Second);
  write ← durationSetting "SAMA_WRITE_TIMEOUT" (10 * Second);
  idle ← durationSetting "SAMA_IDLE_TIMEOUT" (60 * Second);
  shutdown ← durationSetting "SAMA_SHUTDOWN_TIMEOUT" (10 * Second);
  migrationQuery ← boundedDurationSetting "SAMA_MIGRATION_QUERY_TIMEOUT" defaultMigrationQueryTimeout
    minMigrationQueryTimeout maxMigrationQueryTimeout;
  Ok (MkTimeoutConfig readHeader read write idle shutdown migrationQuery).

Definition integerSetting (name : string) (fallback minimum maximum : Z) : result string Z :=
  match lookup name with
  | None => Ok fallback
  | Some value =>
      match ParseInt (TrimSpace value) with
      | Some n => if (n <? minimum) || (maximum <? n) then Err "invalid_budget" else Ok n
      | None => Err "invalid_budget"
      end
  end.

Definition loadBudgets : result string BudgetConfig :=
  workers ← integerSetting "SAMA_WORKER_COUNT" 4 1 32;
  providerRequests ← integerSetting "SAMA_PROVIDER_REQUESTS_PER_CONNECTION" 2 1 16;
  callers ← integerSetting "SAMA_PROVIDER_CALLING_PROCESSES" 1 0 1;
  Ok (MkBudgetConfig callers workers providerRequests).

(** [Prefix.IsValid] and [p == p.Masked()]. *)
Definition width (p : Prefix) : Z := if px_v4 p then 32 else 128.
Definition prefix_valid (p : Prefix) : bool := (0 <=? px_bits p) && (px_bits p <=? width p).
Definition masked (p : Prefix) : bool := px_addr p mod 2 ^ (width p - px_bits p) =? 0.

Fixpoint load_proxies (parts : list string) : result string (list Prefix) :=
  match parts with
  | [] => Ok []
  | part :: parts =>
      match cl_Prefix (TrimSpace part) with
      | Some p =>
          if negb (prefix_valid p) then Err "invalid_trusted_proxy"
          else if negb (masked p) then Err "invalid_trusted_proxy"
          else (proxies ← load_proxies parts; Ok (p :: proxies))
      | None => Err "invalid_trusted_proxy"
      end
  end.
Definition loadTrustedProxies : result string (list Prefix) :=
  match lookup "SAMA_TRUSTED_PROXY_RANGES" with
  | Some value => if decide (TrimSpace value = "") then Ok [] else load_proxies (Split "," value)
  | None => Ok []
  end.

(** [^[a-z][a-z0-9_]{0,31}/[a-z][a-z0-9_]{0,31}:[a-z][a-z0-9_.]{0,63}$] *)
Definition is_lower (c : ascii) : bool := in_range "a" "z" c.
Definition switch_part (extra : string) (n : nat) (s : string) : bool :=
  match s with
  | EmptyString => false
  | String c r => is_lower c && string_forallb (λ d, is_lower d || in_range "0" "9" d || is_one_of extra d) r
                  && (String.length r <=? n)%nat
  end.
Definition switch_key (s : string) : bool :=
  let '(provider, rest) := Cut "/" s in
  let '(family, action) := Cut ":" rest in
  GoBase.Contains s "/" && GoBase.Contains rest ":"
  && switch_part "_" 31 provider && switch_part "_" 31 family && switch_part "_." 63 action.

Fixpoint load_switches (keys mutations : list string) : result string (list string) :=
  match keys with
  | [] => Ok mutations
  | key :: keys =>
      if negb (switch_key key) || bool_decide (key ∈ mutations) || (32 <=? length mutations)%nat then Err "invalid_mutation_policy"
      else load_switches keys (mutations ++ [key])
  end.

Definition or_fails {A} (o : option A) (code : string) : result string A := match o with Some a => Ok a | None => Err code end.

Definition LoadFrom : result string Config :=
  let address := default defaultHTTPAddr (lookup "SAMA_HTTP_ADDR") in
  fail_if (negb (validListenAddress address)) "invalid_http_addr" ;;
  origin ← or_fails (parseOrigin (default defaultPublicOrigin (lookup "SAMA_PUBLIC_ORIGIN"))) "invalid_public_origin";
  database ← databaseURL;
  migration ← migrationDatabaseURL;
  timeouts ← loadTimeouts;
  budgets ← loadBudgets;
  proxies ← loadTrustedProxies;
  enabled ← integerSetting "SAMA_WORKERS_ENABLED" 0 0 1;
  fail_if ((enabled =? 1) && (bool_decide (database = "") || negb (bc_ProviderCallingProcesses budgets =? 1)
                              || (Minute <? tc_Shutdown timeouts))) "invalid_budget" ;;
  let mutationText := default "" (lookup "SAMA_ENABLED_MUTATIONS") in
  fail_if (4096 <? len mutationText) "invalid_mutation_policy" ;;
  mutations ← (if decide (mutationText = "") then Ok [] else load_switches (Split "," mutationText) []);
  Ok (MkConfig mutations (enabled =? 1) (default "" (lookup "SAMA_KEYRING_FILE")) (default "" (lookup "SAMA_ASSET_DIR"))
        address origin (MkDatabaseConfig database migration) timeouts budgets proxies).
End config.

(** ** What a configuration is good for *)

Section accepted.
Context `{C : ConfigLib} (lookup : EnvLookup) (readFile : FileRead).

Definition within (low high n : Z) : Prop := low <= n <= high.

(** A key of the mutation policy, as [NewPolicy] joins and looks it up. *)
Definition switch (s : string) : Prop := ∃ provider family action, s = provider +:+ "/" +:+ family +:+ ":" +:+ action ∧
  switch_part "_" 31 provider = true ∧ switch_part "_" 31 family = true ∧ switch_part "_." 63 action = true.

Record timeouts_ok (t : TimeoutConfig) : Prop := {
  to_serving : Forall (within minTimeout maxTimeout) [tc_ReadHeader t; tc_Read t; tc_Write t; tc_Idle t; tc_Shutdown t];
  to_migration : within minMigrationQueryTimeout maxMigrationQueryTimeout (tc_MigrationQuery t) }.
Record budgets_ok (b : BudgetConfig) : Prop := {
  bu_workers : within 1 32 (bc_WorkerCount b);
  bu_requests : within 1 16 (bc_ProviderRequestsPerConnection b);
  bu_callers : within 0 1 (bc_ProviderCallingProcesses b) }.
Record config_ok (c : Config) : Prop := {
  co_timeouts : timeouts_ok (cf_Timeouts c);
  co_budgets : budgets_ok (cf_Budgets c);
  co_proxies : Forall (λ p, 0 <= px_bits p ∧ aligned (width p) p = true) (cf_TrustedProxies c);
  co_switches : Forall switch (cf_MutationSwitches c) ∧ NoDup (cf_MutationSwitches c) ∧ (length (cf_MutationSwitches c) ≤ 32)%nat;
  co_origin : u_Scheme (cf_PublicOrigin c) ∈ ["http"; "https"] ∧ Hostname (cf_PublicOrigin c) ≠ "" ∧ u_User (cf_PublicOrigin c) = false;
  co_workers : cf_WorkersEnabled c = true → dc_URL (cf_Database c) ≠ "" ∧
    bc_ProviderCallingProcesses (cf_Budgets c) = 1 ∧ tc_Shutdown (cf_Timeouts c) <= Minute }.

(** [P] holds of a value that is accepted, and what is refused has a code. *)
Definition accepts {A} (P : A → Prop) (r : result string A) : Prop :=
  match r with Ok a => P a | Err code => code ∈ configurationCodes end.

Lemma accepts_bind {A B} (P : A → Prop) (Q : B → Prop) (r : result string A) (k : A → result string B) :
  accepts P r → (∀ a, P a → accepts Q (k a)) → accepts Q (r ≫= k).
Proof. destruct r; simpl; auto. Qed.

Lemma accepts_fail (b : bool) code : code ∈ configurationCodes → accepts (λ _, b = false) (fail_if b code).
Proof. by destruct b. Qed.

Ltac coded := simpl; unfold configurationCodes; set_solver.

Lemma boundedDuration_accepts name fallback low high : low <= fallback <= high →
  accepts (within low high) (boundedDurationSetting lookup name fallback low high).
Proof.
  intros Hf. unfold boundedDurationSetting. destruct (lookup name); [|done]. destruct (cl_Duration _) as [d|]; [|coded].
  destruct (_ || _) eqn:E; [coded|]. guards. unfold within; simpl. lia.
Qed.

Lemma integer_accepts name fallback low high : low <= fallback <= high →
  accepts (within low high) (integerSetting lookup name fallback low high).
Proof.
  intros Hf. unfold integerSetting. destruct (lookup name); [|done]. destruct (ParseInt _) as [d|]; [|coded].
  destruct (_ || _) eqn:E; [coded|]. guards. unfold within; simpl. lia.
Qed.

Lemma timeouts_accepts : accepts timeouts_ok (loadTimeouts lookup).
Proof.
  unfold loadTimeouts, durationSetting.
  repeat (eapply accepts_bind; [apply boundedDuration_accepts; vm_compute; by split|intros ? ?]).
  split; [|done]. repeat (apply Forall_cons_2; [done|]). apply Forall_nil_2.
Qed.

Lemma budgets_accepts : accepts budgets_ok (loadBudgets lookup).
Proof.
  unfold loadBudgets. repeat (eapply accepts_bind; [apply integer_accepts; lia|intros ? ?]). by split.
Qed.

Lemma database_accepts direct file invalid unreadable : invalid ∈ configurationCodes → unreadable ∈ configurationCodes →
  accepts (λ _, True) (databaseURLSetting lookup readFile direct file invalid unreadable).
Proof. intros Hi Hu. unfold databaseURLSetting. repeat case_match; done. Qed.

Lemma proxies_accepts : accepts (Forall (λ p, 0 <= px_bits p ∧ aligned (width p) p = true)) (loadTrustedProxies lookup).
Proof.
  unfold loadTrustedProxies. destruct (lookup _) as [value|]; [|by constructor]. case_decide; [by constructor|].
  induction (Split "," value) as [|part parts IH]; [by constructor|]. cbn [load_proxies].
  destruct (cl_Prefix _) as [p|]; [|coded]. destruct (prefix_valid p) eqn:Hv; [|coded]. destruct (masked p) eqn:Hm; [|coded].
  simpl. eapply accepts_bind; [exact IH|]. intros l Hl. constructor; [|done]. unfold prefix_valid in Hv. guards.
  split; [lia|]. unfold aligned. rewrite (proj2 (Z.leb_le _ _)) by lia. exact Hm.
Qed.

Lemma cut_found (c : ascii) s a b : Cut c s = (a, b) → GoBase.Contains s (String c "") = true → s = a +:+ String c b.
Proof.
  revert a b. induction s as [|d s IH]; intros a b Hc Hs; [vm_compute in Hs; discriminate Hs|]. cbn [Cut] in Hc.
  destruct (decide (d = c)) as [->|Hne]; [by injection Hc as <- <-|].
  destruct (Cut c s) as [a' b'] eqn:E. injection Hc as <- <-. rewrite append_cons. f_equal. apply IH; [done|].
  cbn [GoBase.Contains String.prefix] in Hs. apply orb_true_iff in Hs as [Hs|Hs]; [|done].
  destruct (Ascii.ascii_dec c d); [by subst|]. discriminate Hs.
Qed.

Lemma switch_key_ok s : switch_key s = true → switch s.
Proof.
  unfold switch_key. destruct (Cut "/" s) as [provider rest] eqn:E1. destruct (Cut ":" rest) as [family action] eqn:E2.
  intros H. guards. apply cut_found in E1 as ->; [|done]. apply cut_found in E2 as ->; [|done]. by exists provider, family, action.
Qed.

Lemma switches_accepts keys l : Forall switch l → NoDup l → (length l ≤ 32)%nat →
  accepts (λ l', Forall switch l' ∧ NoDup l' ∧ (length l' ≤ 32)%nat) (load_switches keys l).
Proof.
  revert l. induction keys as [|key keys IH]; intros l Hf Hn Hl; [done|]. cbn [load_switches].
  destruct (_ || _) eqn:E; [coded|]. guards. rewrite Nat.leb_gt in *. apply IH.
  - apply Forall_app. split; [done|]. constructor; [by apply switch_key_ok|done].
  - apply NoDup_app. split; [done|]. split; [|apply NoDup_singleton]. set_solver.
  - rewrite length_app. simpl. lia.
Qed.

Lemma origin_accepts value :
  accepts (λ u, u_Scheme u ∈ ["http"; "https"] ∧ Hostname u ≠ "" ∧ u_User u = false)
    (or_fails (parseOrigin value) "invalid_public_origin").
Proof.
  unfold parseOrigin. destruct (cl_URL _) as [u|]; [|coded].
  repeat lazymatch goal with |- accepts _ (or_fails (if ?b then _ else _) _) => destruct b eqn:?; [coded|] end.
  simpl. guards. all: split_and!; [set_solver|done|done].
Qed.

Lemma LoadFrom_accepts : accepts config_ok (LoadFrom lookup readFile).
Proof.
  unfold LoadFrom. cbv zeta.
  eapply accepts_bind; [apply accepts_fail; coded|]. intros _ _.
  eapply accepts_bind; [apply origin_accepts|]. intros origin Ho.
  eapply accepts_bind; [apply database_accepts; coded|]. intros database _.
  eapply accepts_bind; [apply database_accepts; coded|]. intros migration _.
  eapply accepts_bind; [apply timeouts_accepts|]. intros timeouts Ht.
  eapply accepts_bind; [apply budgets_accepts|]. intros budgets Hb.
  eapply accepts_bind; [apply proxies_accepts|]. intros proxies Hp.
  eapply accepts_bind; [apply integer_accepts; lia|]. intros enabled He.
  eapply accepts_bind; [apply accepts_fail; coded|]. intros ? Hw.
  eapply accepts_bind; [apply accepts_fail; coded|]. intros _ _.
  eapply accepts_bind with (P := λ l', Forall switch l' ∧ NoDup l' ∧ (length l' ≤ 32)%nat).
  { destruct (decide (default "" (lookup "SAMA_ENABLED_MUTATIONS") = "")); [simpl; split_and!; [by apply Forall_nil_2|by apply NoDup_nil_2|lia]|].
    apply switches_accepts; [by apply Forall_nil_2|by apply NoDup_nil_2|simpl; lia]. }
  intros mutations Hm. split; simpl; try done. intros E. rewrite E in Hw. cbn [andb] in Hw.
  apply orb_false_iff in Hw as [Hw Hd]. apply orb_false_iff in Hw as [Hw Hn]. apply bool_decide_eq_false in Hw.
  apply negb_false_iff, Z.eqb_eq in Hn. apply Z.ltb_ge in Hd. done.
Qed.

(** A configuration whose workers are enabled starts them: the runner takes
    its worker count, its drain time and the registered handlers. *)
Lemma config_runs `{U : UuidApi} `{J : JsonbText} c encoded_len s d delay : config_ok c → cf_WorkersEnabled c = true →
  is_ok (process encoded_len s d delay (tc_Shutdown (cf_Timeouts c)) (bc_WorkerCount (cf_Budgets c))) = true.
Proof.
  intros [[Hs _] [Hw _ _] _ _ _ Hen] E. destruct (Hen E) as (_ & _ & Hd). rewrite Forall_forall in Hs.
  destruct (Hs (tc_Shutdown (cf_Timeouts c))) as [Hl _]; [set_solver|]. destruct Hw as [Hw1 Hw2].
  assert (0 < minTimeout) by (by vm_compute). unfold process, NewRunner. cbn [sc_Pool sc_Now negb].
  rewrite (proj2 (Z.ltb_ge (bc_WorkerCount (cf_Budgets c)) 1)) by lia. rewrite (proj2 (Z.ltb_ge 32 (bc_WorkerCount (cf_Budgets c)))) by lia.
  rewrite (proj2 (Z.leb_gt (tc_Shutdown (cf_Timeouts c)) 0)) by lia. rewrite (proj2 (Z.ltb_ge Minute (tc_Shutdown (cf_Timeouts c)))) by lia.
  reflexivity.
Qed.
End accepted.

(** C40. Loading a configuration either fails with one of ten codes, which
    tell nothing of what was configured, or yields one within the bounds of
    what is built from it: timeouts, worker count, requests per connection and
    migration time are in range; trusted proxies are prefixes with no
    bits beyond their length; the mutation policy has at most 32 distinct
    keys of the form the policy looks up; workers run only with a database, in the one
    process that calls providers, and then the runner accepts them. *)
Theorem LoadFrom_sound `{C : ConfigLib} `{U : UuidApi} lookup readFile :
  match LoadFrom lookup readFile with
  | Err code => code ∈ configurationCodes
  | Ok c => config_ok c ∧ ∀ (J : JsonbText) encoded_len s d delay, cf_WorkersEnabled c = true →
      is_ok (process encoded_len s d delay (tc_Shutdown (cf_Timeouts c)) (bc_WorkerCount (cf_Budgets c))) = true
  end.
Proof.
  pose proof (LoadFrom_accepts lookup readFile) as H. destruct (LoadFrom lookup readFile) as [c|]; [|done].
  split; [done|]. intros. by apply config_runs.
Qed.

(** *** A sample environment *)

Definition sample_parse (s : string) : option URL :=
  if decide (s = defaultPublicOrigin) then Some (MkURL "http" "" false "127.0.0.1:8080" "" "" false "" "")
  else if decide (s = "postgres://db/sama") then Some (MkURL "postgres" "" false "db" "/sama" "" false "" "")
  else None.
Definition sample_config_lib : ConfigLib :=
  {| cl_URL := sample_parse; cl_SplitHostPort _ := Some ("127.0.0.1", "8080"); cl_IP _ := Some (AddrV4 2130706433);
     cl_Duration _ := None; cl_Prefix s := if decide (s = "10.0.0.0/8") then Some (MkPrefix true 167772160 8) else None |}.
Definition sample_lookup (key : string) : option string :=
  if decide (key = "SAMA_WORKERS_ENABLED") then Some "1"
  else if decide (key = "SAMA_DATABASE_URL") then Some " postgres://db/sama "
  else if decide (key = "SAMA_TRUSTED_PROXY_RANGES") then Some "10.0.0.0/8"
  else if decide (key = "SAMA_ENABLED_MUTATIONS") then Some "hetzner/hetzner_cloud:compute.server.power_on"
  else None.

Lemma LoadFrom_sound_witness : ∃ c, LoadFrom (C := sample_config_lib) sample_lookup (λ _, None) = Ok c ∧
  cf_MutationSwitches c = ["hetzner/hetzner_cloud:compute.server.power_on"] ∧
  is_ok (process (U := rfc9562) (J := plain_jsonb) (λ _, Some 0) (MkScanner true true) (MkDispatcher None []) (λ _, 0)
    (tc_Shutdown (cf_Timeouts c)) (bc_WorkerCount (cf_Budgets c))) = true.
Proof.
  destruct (LoadFrom (C := sample_config_lib) sample_lookup (λ _, None)) as [c|code] eqn:E; [|vm_compute in E; discriminate E].
  pose proof (LoadFrom_sound (C := sample_config_lib) (U := rfc9562) sample_lookup (λ _, None)) as H. rewrite E in H.
  exists c. split; [reflexivity|]. vm_compute in E. injection E as <-. split; [reflexivity|]. apply H. reflexivity.
Defined.
