(* ===== verification/Oidc.v ===== *)
(** [internal/identity/oidc.go]: the configuration of the issuer, the endpoints
    the client may reach and the tokens it accepts.  The go-oidc and oauth2
    packages are parameters: what discovery returns, what the token endpoint
    answers and what the verifier makes of a raw token. *)
From S2P Require Import Prelude GoBase Identifier Schema Recent Sessions Challenges Login Endpoint Outbound Config Http.
Local Open Scope Z_scope.

Record OIDCConfig := MkOIDCConfig {
  oi_Issuer : string; oi_ClientID : string; oi_ClientSecret : string; oi_PublicOrigin : string; oi_Development : bool;
  oi_ReauthACR : string }.

(** The reasons a configuration or the issuer's metadata is refused. *)
Inductive refusal := InvalidConfiguration | SecretUnavailable | InvalidPolicy | NotLoopback | DiscoveryUnavailable
| InvalidDiscovery | InvalidEndpoint.

(** What discovery returns: the endpoints, and the claims and authentication
    classes of the metadata, if they decode. *)
Record Provider := MkProvider {
  pv_AuthURL : string; pv_TokenURL : string; pv_Metadata : option (list string * list string) }.

Section oidc.
Context `{C : ConfigLib}.

Definition loopback (host : string) : bool :=
  bool_decide (host = "localhost") || match cl_IP host with Some ip => IsLoopback ip | None => false end.
Definition loopbackURL (raw : string) : bool := match cl_URL raw with Some u => loopback (Hostname u) | None => false end.
Definition oidcURL (raw : string) (development : bool) : bool :=
  match cl_URL raw with
  | None => false
  | Some u =>
      negb (bool_decide (u_Host u = "")) && negb (u_User u) && bool_decide (u_Fragment u = "")
      && (negb development || loopback (Hostname u))
      && (bool_decide (u_Scheme u = "https") || development && bool_decide (u_Scheme u = "http") && loopback (Hostname u))
  end.

Definition whitespace : string := String " " (String "009" (String "013" (String "010" ""))).

Definition validate (c : OIDCConfig) : result refusal unit :=
  fail_if ((255 <? len (oi_ReauthACR c)) || ContainsAny (oi_ReauthACR c) whitespace) InvalidPolicy ;;
  match cl_URL (oi_PublicOrigin c) with
  | None => Err InvalidConfiguration
  | Some origin =>
      fail_if (bool_decide (u_Host origin = "") || u_User origin || negb (bool_decide (u_RawQuery origin = ""))
               || negb (bool_decide (u_Fragment origin = ""))
               || (negb (bool_decide (u_Path origin = "")) && negb (bool_decide (u_Path origin = "/")))) InvalidConfiguration ;;
      fail_if ((len (oi_ClientID c) =? 0) || (255 <? len (oi_ClientID c)) || (2048 <? len (oi_Issuer c))
               || negb (oidcURL (oi_Issuer c) (oi_Development c)) || negb (oidcURL (oi_PublicOrigin c) (oi_Development c)))
        InvalidConfiguration ;;
      fail_if (oi_Development c && (negb (loopback (Hostname origin)) || negb (loopbackURL (oi_Issuer c)))) NotLoopback ;;
      Ok tt
  end.

Definition LoadOIDC (origin : string) (lookup : EnvLookup) (read : FileRead) : result refusal OIDCConfig :=
  let value key := default "" (lookup key) in
  let mode := value "SAMA_OIDC_DEVELOPMENT" in
  fail_if (negb (bool_decide (mode ∈ [""; "true"; "false"]))) InvalidConfiguration ;;
  let path := value "SAMA_OIDC_CLIENT_SECRET_FILE" in
  secret ← (if decide (path = "") then Ok ""
            else match read path with Some contents => Ok (TrimSpace contents) | None => Err SecretUnavailable end);
  let c := MkOIDCConfig (value "SAMA_OIDC_ISSUER") (value "SAMA_OIDC_CLIENT_ID") secret origin (bool_decide (mode = "true"))
             (value "SAMA_OIDC_REAUTH_ACR") in
  if bool_decide (oi_Issuer c = "") && bool_decide (oi_ClientID c = "") && bool_decide (oi_ClientSecret c = "")
     && negb (oi_Development c) && bool_decide (oi_ReauthACR c = "")
  then Ok c else validate c ;; Ok c.

(** The transport below the client: a request to [raw], whose body, when there
    is an answer, is cut at 1 MiB.  Redirects are answers, not followed. *)
Definition RoundTrip (development : bool) (raw : string) (base : option bytes) : option bytes :=
  if negb (oidcURL raw development) then None else take (Z.to_nat (Z.shiftl 1 20)) <$> base.

(** The client: what the handlers use of it, and its endpoints. *)
Record Client := MkClient { ct_Config : OIDCConfig; ct_Supported : bool; ct_AuthURL : string; ct_TokenURL : string }.

(** The clock is present. *)
Definition NewOIDC (c : OIDCConfig) (discovered : option Provider) : result refusal Client :=
  validate c ;;
  match discovered with
  | None => Err DiscoveryUnavailable
  | Some p =>
      match pv_Metadata p with
      | None => Err InvalidDiscovery
      | Some (claims, acrs) =>
          let supported := negb (bool_decide (oi_ReauthACR c = "")) && bool_decide ("auth_time" ∈ claims)
                           && bool_decide (oi_ReauthACR c ∈ acrs) in
          fail_if (negb (oidcURL (pv_AuthURL p) (oi_Development c)) || negb (oidcURL (pv_TokenURL p) (oi_Development c))) InvalidEndpoint ;;
          Ok (MkClient c supported (pv_AuthURL p) (pv_TokenURL p))
      end
  end.

Definition handlers_view (o : Client) : OIDC :=
  MkOIDC (oi_Issuer (ct_Config o)) (oi_PublicOrigin (ct_Config o)) (oi_Development (ct_Config o)) (oi_ReauthACR (ct_Config o)) (ct_Supported o).

(** [verifier] is the package's check of signature, issuer, audience and
    expiry: the token with its nonce. *)
Definition Verify (verifier : string → option (IDToken * string)) (raw : string) : option (IDToken * string) :=
  match verifier raw with
  | Some (token, nonce) =>
      if bool_decide (it_Subject token = "") || (255 <? len (it_Subject token)) then None else Some (token, nonce)
  | None => None
  end.

(** [exchange code verifier] is the token endpoint's answer, with the
    [id_token] of the extra fields when it is a string. *)
Definition Exchange (exchange : string → string → option (option string)) (verifier : string → option (IDToken * string))
    (code proof nonce : string) : go IDToken :=
  match exchange code proof with
  | Some (Some raw) =>
      match Verify verifier raw with
      | Some (token, found) => if decide (found = nonce) then Ok token else Err IdErrUnauthenticated
      | None => Err IdErrUnauthenticated
      end
  | _ => Err IdErrUnauthenticated
  end.

(** What [callback] does with a code: the [su_exchange] of [Gateway]. *)
Definition exchange_of exchange verifier (code : string) (c : Challenge) : go IDToken :=
  Exchange exchange verifier code (ch_Verifier c) (ch_Nonce c).

(** ** What the client reaches, and what it accepts *)

(** HTTPS, or HTTP to the machine itself in development, and without credentials in the address. *)
Definition confined (development : bool) (raw : string) : Prop := ∃ u, cl_URL raw = Some u ∧ u_Host u ≠ "" ∧ u_User u = false ∧
  (u_Scheme u = "https" ∨ development = true ∧ u_Scheme u = "http") ∧ (development = true → loopback (Hostname u) = true).

Lemma oidcURL_confined raw development : oidcURL raw development = true → confined development raw.
Proof.
  unfold oidcURL, confined. destruct (cl_URL raw) as [u|]; [|done].
  rewrite !andb_true_iff, !orb_true_iff, !andb_true_iff, !negb_true_iff, !bool_decide_eq_true, bool_decide_eq_false.
  intros ((((Hh & Hu) & _) & Hd) & Hs). exists u. split_and!; [done|done|done|tauto|]. intros ->. by destruct Hd.
Qed.

Lemma oidc_validate_Ok c u : validate c = Ok u → confined (oi_Development c) (oi_Issuer c) ∧ confined (oi_Development c) (oi_PublicOrigin c) ∧
  0 < len (oi_ClientID c) <= 255.
Proof.
  unfold validate. intros [_ H]%fail_if_bind. destruct (cl_URL (oi_PublicOrigin c)) as [origin|]; [|done].
  apply fail_if_bind in H as [_ H]. apply fail_if_bind in H as [H _]. rewrite !orb_false_iff, !negb_false_iff in H.
  destruct H as ((((Hn & Hl) & _) & Hi) & Ho). split_and!; [by apply oidcURL_confined..| |guards; lia].
  guards. unfold len in *. lia.
Qed.

Lemma limited n (base : option bytes) b : 0 <= n → take (Z.to_nat n) <$> base = Some b → Z.of_nat (length b) <= n.
Proof. intros Hn. destruct base as [b0|]; [|done]. intros [= <-]. rewrite length_take. lia. Qed.

(** Whatever discovery returns and whatever the token endpoint answers: the
    issuer, the endpoints it names and the origin tokens return to are
    confined, and so is every request the transport lets through, of whose
    answer at most 1 MiB is read; and a code yields a token only if the
    package verified it, for the nonce of the login that the code belongs to,
    with the proof of that login, and for a subject that can be stored. *)
Theorem client_confined c discovered o exchange verifier : NewOIDC c discovered = Ok o →
  Forall (confined (oi_Development (ct_Config o))) [oi_Issuer (ct_Config o); oi_PublicOrigin (ct_Config o); ct_AuthURL o; ct_TokenURL o] ∧
  (∀ raw base b, RoundTrip (oi_Development (ct_Config o)) raw base = Some b →
     confined (oi_Development (ct_Config o)) raw ∧ Z.of_nat (length b) <= 1048576) ∧
  (ct_Supported o = true → oc_ReauthACR (handlers_view o) ≠ "") ∧
  ∀ code challenge token, exchange_of exchange verifier code challenge = Ok token → ∃ raw,
    exchange code (ch_Verifier challenge) = Some (Some raw) ∧ verifier raw = Some (token, ch_Nonce challenge) ∧
    0 < len (it_Subject token) <= 255.
Proof.
  intros H. unfold NewOIDC in H. destruct (validate c) as [u|] eqn:Hv; [|done]. cbn in H. apply oidc_validate_Ok in Hv as (Hi & Ho & _).
  destruct discovered as [p|]; [|done]. destruct (pv_Metadata p) as [[claims acrs]|]; [|done].
  apply fail_if_bind in H as [He H]. injection H as <-. apply orb_false_iff in He as [Ha Ht]. simpl. split; [|split; [|split]].
  - repeat (apply Forall_cons_2; [first [done|apply oidcURL_confined; by apply negb_false_iff]|]). apply Forall_nil_2.
  - intros raw base b. unfold RoundTrip. destruct (oidcURL raw _) eqn:Eu; [|done]. intros Hb. split; [by apply oidcURL_confined|].
    by apply (limited (Z.shiftl 1 20)) in Hb.
  - intros Hs E. rewrite E in Hs. done.
  - intros code challenge token. unfold exchange_of, Exchange. destruct (exchange code _) as [[raw|]|]; [|done..].
    unfold Verify. destruct (verifier raw) as [[token' nonce]|] eqn:Er; [|done].
    destruct (bool_decide (it_Subject token' = "") || (255 <? len (it_Subject token'))) eqn:E; [done|].
    cbv beta iota. destruct (decide (nonce = ch_Nonce challenge)) as [Hn|]; [|done]. intros [= <-]. exists raw. rewrite <-Hn.
    split_and!; [done|done| |guards; lia]. guards. unfold len. destruct (it_Subject token') eqn:Es; [congruence|]. cbn [String.length]. lia.
Qed.
End oidc.
