(* ===== verification/Migrations.v ===== *)
(** [internal/platform/migrations.go]: the runner that applies immutable SQL
    files in one transaction, and what it promises over every sequence of runs. *)
From S2P Require Import Prelude GoBase Sha256 Identifier Intent Endpoint Outbound Facts Runner Config.
Local Open Scope Z_scope.

Record migrationFile := MkMigrationFile { mf_name : string; mf_version : string; mf_contents : string; mf_checksum : string }.
Record appliedMigration := MkAppliedMigration { am_name : string; am_checksum : string }.

(** [public.sama_schema_migrations]: whether the catalog describes it as the
    code expects, and its rows by version. *)
Record ledger := MkLedger { lg_compatible : bool; lg_rows : gmap string appliedMigration }.

(** The database: the schema the files build, of any type [S], and the ledger, if it exists. *)
Record store (S : Type) := MkStore { st_schema : S; st_ledger : option ledger }.
Arguments MkStore {S} _ _.
Arguments st_schema {S} _.
Arguments st_ledger {S} _.

Inductive failed :=
| TimeoutInvalid | FilesInvalid | Unavailable | NotStarted | TimeoutNotSet | NotLocked | LedgerNotInitialized
| LedgerIncompatible | LedgerUnreadable | FileChanged | FileMissing | SQLFailed | LedgerNotUpdated | NotCommitted.

(** What the database makes of a run: whether each statement fails, and how
    the COMMIT ends: refused, carried out, or carried out without an answer. *)
Inductive ending := Refused | Acknowledged | Unacknowledged.
Record trouble := MkTrouble { tr_fails : nat → bool; tr_commit : ending }.

(** ** Files *)

(** [^[0-9]{6}_[a-z0-9_]+\.sql$] *)
Definition suffix_sql (s : string) : option string :=
  let n := (String.length s - 4)%nat in
  if bool_decide (String.substring n 4 s = ".sql") then Some (String.substring 0 n s) else None.
Definition digits (s : string) : bool := string_forallb (in_range "0" "9") s.
Definition migrationFileName (name : string) : bool :=
  match suffix_sql name with
  | None => false
  | Some stem =>
      let '(version, rest) := Cut "_" stem in
      GoBase.Contains stem "_" && (String.length version =? 6)%nat && digits version && negb (bool_decide (rest = ""))
      && string_forallb (λ c, in_range "a" "z" c || in_range "0" "9" c || is_one_of "_" c) rest
  end.

(** [fs.Glob(source, "*.sql")] over the files of a directory, each readable or not. *)
Abbreviation FS := (gmap string (option string)).
Definition glob (source : FS) : list string :=
  filter (λ name, is_Some (suffix_sql name)) (map_to_list source).*1.

Fixpoint load_files (source : FS) (names : list string) (versions : gset string) : option (list migrationFile) :=
  match names with
  | [] => Some []
  | name :: names =>
      if negb (migrationFileName name) then None
      else
        let version := (Cut "_" name).1 in
        if bool_decide (version ∈ versions) then None
        else
          match default None (source !! name) with
          | None => None
          | Some contents =>
              if bool_decide (TrimSpace contents = "") then None
              else
                files ← load_files source names ({[version]} ∪ versions);
                Some (MkMigrationFile name version contents (hex (Sum256 (string_bytes contents))) :: files)
          end
  end.
Definition loadMigrationFiles (source : FS) : option (list migrationFile) :=
  load_files source (merge_sort string_le (glob source)) ∅.

(** ** A run *)

Section run.
Context {S : Type} (exec : string → S → option S).

(** The INSERT, with the table's primary key and CHECKs. *)
Definition insert_migration (file : migrationFile) (l : ledger) : option ledger :=
  if bool_decide (lg_rows l !! mf_version file = None) && (String.length (mf_version file) =? 6)%nat && digits (mf_version file)
     && (String.length (mf_checksum file) =? 64)%nat
     && string_forallb (λ c, in_range "0" "9" c || in_range "a" "f" c) (mf_checksum file)
  then Some (MkLedger (lg_compatible l) (<[mf_version file := MkAppliedMigration (mf_name file) (mf_checksum file)]> (lg_rows l)))
  else None.

Definition statement (t : trouble) (i : nat) (e : failed) : result failed unit := fail_if (tr_fails t i) e.

(** The loop over the files: statements [i] and [i+1] for each that is pending. *)
Fixpoint apply_files (t : trouble) (i : nat) (files : list migrationFile) (applied : gmap string appliedMigration) (s : S) (l : ledger)
  : result failed (S * ledger) :=
  match files with
  | [] => Ok (s, l)
  | file :: files =>
      match applied !! mf_version file with
      | Some _ => apply_files t i files applied s l
      | None =>
          statement t i SQLFailed ;;
          match exec (mf_contents file) s with
          | None => Err SQLFailed
          | Some s =>
              statement t (i + 1) LedgerNotUpdated ;;
              match insert_migration file l with
              | None => Err LedgerNotUpdated
              | Some l => apply_files t (i + 2) files applied s l
              end
          end
      end
  end.

Definition changed (applied : gmap string appliedMigration) (file : migrationFile) : bool :=
  match applied !! mf_version file with
  | Some recorded => negb (bool_decide (am_checksum recorded = mf_checksum file)) || negb (bool_decide (am_name recorded = mf_name file))
  | None => false
  end.

(** The transaction up to its COMMIT: the view it commits. *)
Definition transaction (t : trouble) (files : list migrationFile) (d : store S) : result failed (store S) :=
  statement t 1 NotStarted ;;
  statement t 2 TimeoutNotSet ;;
  statement t 3 NotLocked ;;
  statement t 4 LedgerNotInitialized ;;
  let l := default (MkLedger true ∅) (st_ledger d) in
  statement t 5 LedgerIncompatible ;;
  fail_if (negb (lg_compatible l)) LedgerIncompatible ;;
  statement t 6 LedgerUnreadable ;;
  let applied := lg_rows l in
  fail_if (existsb (changed applied) files) FileChanged ;;
  fail_if (existsb (λ '(version, _), negb (bool_decide (version ∈ mf_version <$> files))) (map_to_list applied)) FileMissing ;;
  match apply_files t 7 files applied (st_schema d) l with
  | Ok (s, l) => Ok (MkStore s (Some l))
  | Err e => Err e
  end.

Definition ApplyMigrations (t : trouble) (source : FS) (queryTimeout : duration) (d : store S) : result failed unit * store S :=
  if (queryTimeout <? minMigrationQueryTimeout) || (maxMigrationQueryTimeout <? queryTimeout) then (Err TimeoutInvalid, d)
  else
    match loadMigrationFiles source with
    | None => (Err FilesInvalid, d)
    | Some files =>
        if tr_fails t 0 then (Err Unavailable, d)
        else
          match transaction t files d with
          | Err e => (Err e, d)
          | Ok d' =>
              match tr_commit t with
              | Refused => (Err NotCommitted, d)
              | Acknowledged => (Ok tt, d')
              | Unacknowledged => (Err NotCommitted, d')
              end
          end
    end.

(** ** What a run does *)

(** A file as the ledger records it. *)
Definition entry (f : migrationFile) : string * appliedMigration := (mf_version f, MkAppliedMigration (mf_name f) (mf_checksum f)).
Definition recorded (files : list migrationFile) : gmap string appliedMigration := list_to_map (entry <$> files).

(** The SQL of [files] carried out in turn. *)
Fixpoint executed (files : list migrationFile) (s : S) : option S :=
  match files with [] => Some s | f :: files => s' ← exec (mf_contents f) s; executed files s' end.

Definition rows (d : store S) : gmap string appliedMigration := default ∅ (lg_rows <$> st_ledger d).
Definition pending (files : list migrationFile) (d : store S) : list migrationFile := filter (λ f, rows d !! mf_version f = None) files.

(** From [d] to [d'] the pending ones of [files] were carried out, in their
    order, and recorded; what was recorded before is among [files]. *)
Record migrated (files : list migrationFile) (d d' : store S) : Prop := {
  mi_schema : executed (pending files d) (st_schema d) = Some (st_schema d');
  mi_rows : rows d' = recorded (pending files d) ∪ rows d;
  mi_known : ∀ version r, rows d !! version = Some r → ∃ f, f ∈ files ∧ entry f = (version, r) }.

Lemma recorded_None files version : version ∉ mf_version <$> files → recorded files !! version = None.
Proof. intros Hv. apply not_elem_of_list_to_map_1. by rewrite <-list_fmap_compose. Qed.

Lemma apply_files_Ok t i files applied s l s' l' :
  let todo := filter (λ f, applied !! mf_version f = None) files in
  NoDup (mf_version <$> files) → apply_files t i files applied s l = Ok (s', l') →
  executed todo s = Some s' ∧ lg_rows l' = recorded todo ∪ lg_rows l.
Proof.
  cbv zeta. revert i s l. induction files as [|f files IH]; intros i s l Hn H; cbn [apply_files] in H.
  { injection H as <- <-. rewrite filter_nil. split; [done|]. by rewrite left_id_L by apply _. }
  apply NoDup_cons in Hn as [Hf Hn]. destruct (applied !! mf_version f) as [r|] eqn:Ea.
  - rewrite filter_cons_False by (by rewrite Ea). by eapply IH.
  - rewrite filter_cons_True by done. apply fail_if_bind in H as [_ H]. destruct (exec _ s) as [s1|] eqn:Ee; [|done].
    apply fail_if_bind in H as [_ H]. destruct (insert_migration f l) as [l1|] eqn:Ei; [|done].
    apply IH in H as [He Hr]; [|done]. cbn [executed]. rewrite Ee. split; [done|]. rewrite Hr. unfold insert_migration in Ei.
    destruct (_ && _); [|done]. injection Ei as <-. unfold recorded. simpl. rewrite <-insert_union_l, insert_union_r; [done|].
    apply recorded_None. intros (g & Hg & Hin)%list_elem_of_fmap. apply Hf, list_elem_of_fmap. exists g. split; [done|].
    by apply list_elem_of_filter in Hin as [_ ?].
Qed.

Lemma transaction_Ok t files d d' : NoDup (mf_version <$> files) → transaction t files d = Ok d' → migrated files d d'.
Proof.
  intros Hn H. unfold transaction in H. do 4 apply fail_if_bind in H as [_ H]. cbv zeta in H.
  set (l := default (MkLedger true ∅) (st_ledger d)) in *. do 3 apply fail_if_bind in H as [_ H].
  apply fail_if_bind in H as [Hc H]. apply fail_if_bind in H as [Hm H].
  assert (lg_rows l = rows d) as El by (unfold l, rows; by destruct (st_ledger d)).
  destruct (apply_files _ _ _ _ _ _) as [[s l']|] eqn:Ea; [|done]. injection H as <-. rewrite El in *.
  apply apply_files_Ok in Ea as [He Hr]; [|done]. rewrite El in Hr. split; [done|exact Hr|].
  intros version r Hv. destruct (decide (version ∈ mf_version <$> files)) as [Hin|Hout].
  - apply list_elem_of_fmap in Hin as (f & -> & Hf). exists f. split; [done|]. unfold entry. f_equal.
    apply not_true_iff_false in Hc. destruct (changed (rows d) f) eqn:Eh.
    { exfalso. apply Hc, existsb_exists. exists f. split; [by apply list_elem_of_In|done]. }
    unfold changed in Eh. rewrite Hv in Eh. guards. by destruct r; simplify_eq/=.
  - exfalso. apply not_true_iff_false in Hm. apply Hm, existsb_exists. exists (version, r). split.
    + apply list_elem_of_In. by apply elem_of_map_to_list.
    + by rewrite bool_decide_eq_false_2.
Qed.

Lemma load_files_versions source names versions files : load_files source names versions = Some files →
  NoDup (mf_version <$> files) ∧ ∀ f, f ∈ files → mf_version f ∉ versions.
Proof.
  revert versions files. induction names as [|name names IH]; intros versions files H; cbn [load_files] in H.
  { injection H as <-. split; [constructor|]. by intros f ?%elem_of_nil. }
  destruct (negb _); [done|]. cbv zeta in H. destruct (bool_decide _) eqn:Ev; [done|]. destruct (default _ _) as [contents|]; [|done].
  destruct (bool_decide (TrimSpace _ = _)); [done|]. destruct (load_files _ _ _) as [l|] eqn:El; [|done]. injection H as <-.
  apply IH in El as [Hn Hv]. guards. split.
  - cbn. constructor; [|done]. intros (f & Hf & Hin)%list_elem_of_fmap. specialize (Hv f Hin). set_solver.
  - intros f [->|Hin]%elem_of_cons; [done|]. specialize (Hv f Hin). set_solver.
Qed.

(** A run either changes nothing or carries out the pending files and records
    them; it succeeds only in the latter case, and then fails to say so only
    when the answer to its COMMIT was lost. *)
Lemma ApplyMigrations_spec t source timeout d :
  let '(r, d') := ApplyMigrations t source timeout d in
  match r with
  | Ok _ => ∃ files, loadMigrationFiles source = Some files ∧ migrated files d d'
  | Err e => d' = d ∨ e = NotCommitted ∧ ∃ files, loadMigrationFiles source = Some files ∧ migrated files d d'
  end.
Proof.
  unfold ApplyMigrations. destruct (_ || _); [by left|]. destruct (loadMigrationFiles source) as [files|] eqn:El; [|by left].
  destruct (tr_fails t 0); [by left|]. destruct (transaction t files d) as [d'|e] eqn:Et; [|by left].
  apply transaction_Ok in Et; [|by apply load_files_versions in El as [? _]].
  destruct (tr_commit t); [by left|eauto|right; eauto].
Qed.

(** ** Every sequence of runs *)

(** A run of any version of the program, with any files and any trouble. *)
Definition attempted (d d' : store S) : Prop := ∃ t source timeout, d' = (ApplyMigrations t source timeout d).2.

(** The schema is what the files of [log] built, each carried out once, and
    the ledger records them. *)
Record logged (s0 : S) (log : list migrationFile) (d : store S) : Prop := {
  lo_versions : NoDup (mf_version <$> log);
  lo_rows : rows d = recorded log;
  lo_schema : executed log s0 = Some (st_schema d) }.

Lemma executed_app files files' s : executed (files ++ files') s = s' ← executed files s; executed files' s'.
Proof. revert s. induction files as [|f files IH]; intros s; simpl; [done|]. destruct (exec _ s); simpl; auto. Qed.

Lemma recorded_app files files' : recorded (files ++ files') = recorded files ∪ recorded files'.
Proof. unfold recorded. by rewrite fmap_app, list_to_map_app. Qed.

Lemma recorded_elem files f : NoDup (mf_version <$> files) → f ∈ files → recorded files !! mf_version f = Some (entry f).2.
Proof.
  intros Hn Hf. apply elem_of_list_to_map_1; [by rewrite <-list_fmap_compose|]. apply list_elem_of_fmap. by exists f.
Qed.

Lemma migrated_logged s0 log files d d' : NoDup (mf_version <$> files) → logged s0 log d → migrated files d d' →
  logged s0 (log ++ pending files d) d'.
Proof.
  intros Hn [Hv Hr Hs] [Ms Mr Mk]. split.
  - rewrite fmap_app. apply NoDup_app. split_and!; [done| |].
    + intros version Hin (f & -> & Hf)%list_elem_of_fmap. apply list_elem_of_filter in Hf as [Hf _].
      apply list_elem_of_fmap in Hin as (g & Hg & Hin). rewrite Hr, Hg, (recorded_elem log g) in Hf by done. done.
    + unfold pending. eapply sublist_NoDup; [exact Hn|]. apply fmap_sublist, sublist_filter.
  - rewrite Mr, Hr, recorded_app. apply map_union_comm. apply map_disjoint_spec. intros version x y Hx Hy.
    assert (rows d !! version = Some y) as Hd by (by rewrite Hr).
    assert (version ∈ mf_version <$> pending files d) as Hin.
    { destruct (decide (version ∈ mf_version <$> pending files d)); [done|]. by rewrite recorded_None in Hx. }
    apply list_elem_of_fmap in Hin as (f & -> & Hf). apply list_elem_of_filter in Hf as [Hf _]. by rewrite Hf in Hd.
  - rewrite executed_app, Hs. exact Ms.
Qed.

Lemma attempted_logged s0 log d d' : logged s0 log d → attempted d d' → ∃ more, logged s0 (log ++ more) d'.
Proof.
  intros Hl (t & source & timeout & ->). pose proof (ApplyMigrations_spec t source timeout d) as H.
  assert (∀ d' files, loadMigrationFiles source = Some files → migrated files d d' → logged s0 (log ++ pending files d) d') as Hm.
  { intros d' files Ef ?. apply load_files_versions in Ef as [? _]. by eapply migrated_logged. }
  destruct (ApplyMigrations t source timeout d) as [[|e] d']; simpl.
  - destruct H as (files & ? & ?). eauto.
  - destruct H as [->|(_ & files & ? & ?)]; [|eauto]. exists []. by rewrite app_nil_r.
Qed.

Lemma migrated_recorded files d d' f : NoDup (mf_version <$> files) → migrated files d d' → f ∈ files →
  (∀ version r, rows d !! version = Some r → version = mf_version f → r = (entry f).2) ∧ rows d' !! mf_version f = Some (entry f).2.
Proof.
  intros Hn [Ms Mr Mk] Hf.
  assert (∀ version r, rows d !! version = Some r → version = mf_version f → r = (entry f).2) as Hk.
  { intros version r Hv ->. destruct (Mk _ _ Hv) as (g & Hg & E). unfold entry in E. injection E as E <-.
    cut (g = f); [by intros ->|]. apply list_elem_of_lookup in Hf as [i Hi], Hg as [j Hj].
    assert (i = j) as ->; [|congruence]. eapply NoDup_lookup; [exact Hn|by rewrite list_lookup_fmap, Hi|by rewrite list_lookup_fmap, Hj; f_equal/=]. }
  split; [exact Hk|]. rewrite Mr. destruct (rows d !! mf_version f) as [r|] eqn:Er.
  - rewrite lookup_union_r; [by rewrite Er, (Hk _ _ Er)|]. apply recorded_None. intros (g & E & Hg)%list_elem_of_fmap.
    apply list_elem_of_filter in Hg as [Hg _]. congruence.
  - apply lookup_union_Some_l, recorded_elem.
    + unfold pending. eapply sublist_NoDup; [exact Hn|]. apply fmap_sublist, sublist_filter.
    + by apply list_elem_of_filter.
Qed.

(** C34. Whatever runs of the migration program there were, with whatever files,
    failures and lost answers to COMMIT, the schema is what the migrations of
    one log built, each version carried out exactly once and in the log's
    order, and the ledger records exactly those. A run that succeeds now had
    every migration of the log among its files under the same version, name
    and checksum, and leaves a schema to which exactly its pending files were
    added, with all of its files recorded. *)
Theorem migrations_once d0 d : rows d0 = ∅ → rtc attempted d0 d →
  ∃ log, logged (st_schema d0) log d ∧
    ∀ t source timeout d', ApplyMigrations t source timeout d = (Ok tt, d') →
      ∃ files, loadMigrationFiles source = Some files ∧ logged (st_schema d0) (log ++ pending files d) d' ∧
        (∀ f, f ∈ log → ∃ g, g ∈ files ∧ entry g = entry f) ∧
        (∀ f, f ∈ files → rows d' !! mf_version f = Some (entry f).2).
Proof.
  intros H0 Hr. assert (∃ log, logged (st_schema d0) log d) as [log Hl].
  { eapply (rtc_ind_r (λ d, ∃ log, logged (st_schema d0) log d)); [|intros ? ? _ Ha [? Hl]; by eapply attempted_logged in Hl as [? ?]; eauto|exact Hr].
    exists []. by split; [constructor| |]. }
  exists log. split; [done|]. intros t source timeout d' E. pose proof (ApplyMigrations_spec t source timeout d) as H.
  rewrite E in H. destruct H as (files & Ef & Hm). pose proof Ef as Hn. apply load_files_versions in Hn as [Hn _].
  exists files. split_and!; [done|by apply migrated_logged| |intros f Hf; by eapply migrated_recorded].
  intros f Hf. apply (mi_known _ _ _ Hm (mf_version f) (entry f).2). rewrite (lo_rows _ _ _ Hl).
  by apply recorded_elem; [exact (lo_versions _ _ _ Hl)|].
Qed.

End run.

(** ** Samples *)

(** A schema that lists the statements carried out; one statement is invalid. *)
Definition sample_exec (sql : string) (s : list string) : option (list string) := if bool_decide (sql = "broken") then None else Some (s ++ [sql]).
Definition sample_files : FS := {[ "000001_ledger.sql" := Some "one"; "000002_identity.sql" := Some "two" ]}.
Definition more_files : FS := <["000003_grants.sql" := Some "three"]> sample_files.
Definition broken_files : FS := <["000004_broken.sql" := Some "broken"]> more_files.
Definition calm (commit : ending) : trouble := MkTrouble (λ _, false) commit.
Definition empty_store : store (list string) := MkStore [] None.
Definition attempt_files (commit : ending) (source : FS) (d : store (list string)) : store (list string) :=
  (ApplyMigrations sample_exec (calm commit) source 60000000000 d).2.

(** Two files, then a failing one, then a third whose COMMIT gets no answer. *)
Definition sample_store : store (list string) :=
  attempt_files Unacknowledged more_files (attempt_files Acknowledged broken_files (attempt_files Acknowledged sample_files empty_store)).

Lemma sample_attempt commit source d : attempted sample_exec d (attempt_files commit source d).
Proof. unfold attempted, attempt_files. eauto. Qed.

Example sample_store_schema : st_schema sample_store = ["one"; "two"; "three"].
Proof. vm_compute. reflexivity. Qed.

Lemma migrations_once_witness : rows empty_store = ∅ ∧ (ApplyMigrations sample_exec (calm Acknowledged) more_files 60000000000 sample_store).1 = Ok tt ∧
  ∃ log, logged sample_exec [] log sample_store ∧ ∃ files, loadMigrationFiles more_files = Some files ∧
    (∀ f, f ∈ log → ∃ g, g ∈ files ∧ entry g = entry f).
Proof.
  split_and!; [reflexivity|vm_compute; reflexivity|].
  destruct (migrations_once sample_exec empty_store sample_store eq_refl) as (log & Hl & Hn).
  { do 3 (eapply rtc_r; [|apply sample_attempt]). apply rtc_refl. }
  destruct (Hn (calm Acknowledged) more_files 60000000000 (attempt_files Acknowledged more_files sample_store)) as (files & Hf & _ & Hk & _).
  { unfold attempt_files. apply injective_projections; [vm_compute|]; reflexivity. }
  eauto.
Defined.
