(* ===== verification/System.v ===== *)
(** The whole operation system: any number of requests and workers, any
    interleaving of their transactions, any answer or failure of a provider,
    any crash.  A thread between two steps is the rest of its program; every
    transaction and every call is one step, and the trace records them. *)
From S2P Require Import Json Reads Browse History Endpoint Facts Paths Http Routes Gateway Runner.
From S2P Require Import Prelude GoBase Identifier Roles Schema Tx TxLogic Wp AesGcm Envelope Custody AuditLog Jobs.
From S2P Require Import Membership Grants Enqueue Connection Provider Intent Prog Recent Reviews.
From S2P Require Import Sessions Challenges Invitations Login Scan Publish Inventory.
From S2P Require Import Dispatch Control Machine Steps Refine Stranded Frames.
Local Open Scope Z_scope.

(** ** Submissions and what warrants them *)

Definition submission (c : call) : option uuid :=
  match c with CSubmit id _ _ _ _ _ => Some id | _ => None end.

(** The marker's transaction from [d] to [d'] checked everything the call carries. *)
Definition warrants `{U : UuidApi} (disp : Dispatcher) (d d' : db) (c : call) : Prop :=
  ∃ s lease pre p r a, ds_Service disp = Some s ∧ marked s lease pre d p r a d' ∧
    c = CSubmit (dp_id p) (au_binding a)
          (quotaKey (au_provider a) (bd_family (au_binding a)) (au_account a))
          (it_Action (st_intent r)) (au_native a) (pre_Fingerprint pre).

(** What one transaction may do: machine steps that spare what is stranded. *)
Definition steps (d d' : db) : Prop := osteps d d' ∧ ∀ id, stranded d id → spares id d d'.

#[export] Instance steps_preorder : PreOrder steps.
Proof.
  split; unfold steps.
  - intros d. by split.
  - intros d1 d2 d3 [O1 S1] [O2 S2]. split; [by etrans|]. intros id Hs.
    etrans; [by apply S1|]. apply S2. by eapply spares_stranded; [apply S1|].
Qed.

(** ** Programs that submit only with a permit

    [guard tok p Q]: from a database that satisfies the machine's invariant
    every transaction of [p] commits sound steps, a submission is made only
    with the permit [tok] a marker left, and uses it up; [Q] holds of the
    permit left and the result. *)
Section guard.
Context `{U : UuidApi} (disp : Dispatcher).

Fixpoint guard {A} (tok : option call) (p : prog A) (Q : option call → go A → Prop) : Prop :=
  match p with
  | Done r => Q tok r
  | Txn t k => ∀ d e, machine_inv d →
      let '(r, s) := t (Txs d d e) in
      steps d (tx_db s) ∧
      (guard tok (k r) Q ∨ ∃ c, warrants disp d (tx_db s) c ∧ guard (Some c) (k r) Q)
  | Call c k =>
      (is_Some (submission c) → tok = Some c) ∧
      ∀ r, guard (if decide (is_Some (submission c)) then None else tok) (k r) Q
  end.

Lemma guard_mono {A} tok (p : prog A) (Q Q' : option call → go A → Prop) :
  guard tok p Q → (∀ t r, Q t r → Q' t r) → guard tok p Q'.
Proof.
  intros H HQ. revert tok H. induction p as [r|B t k IH|c k IH]; intros tok H; simpl in *.
  - auto.
  - intros d e I. specialize (H d e I). destruct (t (Txs d d e)) as [r s].
    destruct H as [? [?|(c & ? & ?)]]; eauto 6.
  - destruct H as [? H]. eauto.
Qed.

Lemma guard_bind {A B} tok (p : prog A) (k : A → prog B) (Q : option call → go B → Prop) :
  guard tok p (λ t r, match r with Ok a => guard t (k a) Q | Err e => Q t (Err e) end) →
  guard tok (p ≫= k) Q.
Proof.
  revert tok. induction p as [r|C t h IH|c h IH]; intros tok H; simpl in *.
  - by destruct r.
  - intros d e I. specialize (H d e I). destruct (t (Txs d d e)) as [r s].
    destruct H as [? [?|(c & ? & ?)]]; eauto 6.
  - destruct H as [? H]. eauto.
Qed.

Lemma guard_attempt {A} tok (p : prog A) (Q : option call → go (go A) → Prop) :
  guard tok p (λ t r, Q t (Ok r)) → guard tok (pattempt p) Q.
Proof.
  revert tok. induction p as [r|C t h IH|c h IH]; intros tok H; simpl in *; [done|..].
  - intros d e I. specialize (H d e I). destruct (t (Txs d d e)) as [r s].
    destruct H as [? [?|(c & ? & ?)]]; eauto 6.
  - destruct H as [? H]. eauto.
Qed.

(** A transaction that only moves the machine, seen through what [wp] says of
    its result. *)
Lemma guard_tx {A} tok (t : txm A) (Q : option call → go A → Prop) :
  (∀ d e, machine_inv d → wp t (λ r s', steps d (tx_db s') ∧ Q tok r) (Txs d d e)) →
  guard tok (tx t) Q.
Proof.
  intros H d e I. specialize (H d e I). unfold wp in H. destruct (t (Txs d d e)) as [r s].
  destruct H. split; [done|]. by left.
Qed.

Lemma guard_ask tok c (Q : option call → go (resp c) → Prop) :
  submission c = None → (∀ r, Q tok (Ok r)) → guard tok (ask c) Q.
Proof. intros Hc H. simpl. rewrite Hc. split; [by intros []|]. intros r. by rewrite decide_False by (by intros []). Qed.

Lemma guard_reject tok b e (Q : option call → go unit → Prop) :
  (b = true → Q tok (Err e)) → (b = false → Q tok (Ok tt)) → guard tok (preject b e) Q.
Proof. destruct b; simpl; auto. Qed.
End guard.

(** ** The programs of the package *)

(** What each transaction leaves alone. *)
Ltac leaves :=
  lazymatch goal with
  | |- leaves_stranded (prepare_commit _ _ _ _ _ _ _) => apply leaves_prepare
  | |- leaves_stranded (confirm_commit _ _ _ _ _ _ _ _) => apply leaves_confirm
  | |- leaves_stranded (receipt_commit _ _) => apply leaves_receipt
  | |- leaves_stranded (reject_commit _) => apply leaves_reject
  | |- leaves_stranded (observe_commit _ _ _ _) => apply leaves_observe
  | |- leaves_stranded (expire_one _) => apply leaves_expire
  | |- leaves_stranded (Cancel _ _ _ _ _) => apply leaves_Cancel
  | |- leaves_stranded (Recheck _ _ _ _ _) => apply leaves_Recheck
  | |- leaves_stranded (ReleaseUnknown _ _ _ _ _ _) => apply leaves_ReleaseUnknown
  | |- leaves_stranded (SetRecovery _ _) => apply leaves_SetRecovery
  | |- leaves_stranded (PruneReviews _) => apply leaves_PruneReviews
  | |- leaves_stranded (pool_row _ _ (rd _)) => apply leaves_read
  | |- leaves_stranded (pool_exec _ (rd _)) => apply leaves_read_all
  | |- leaves_stranded _ =>
      apply leaves_nocommit;
      unfold confirm_load, dispatchLoad, dispatchCheck, load, Resolve, authority; solve [tx_auto]
  end.

Section programs.
Context `{U : UuidApi} (disp : Dispatcher).
#[local] Abbreviation guard := (guard disp).

Lemma sound_steps {A} (t : txm A) d e : sound t → machine_inv d → steps d (tx_db (t (Txs d d e)).2).
Proof. intros [Hr Hl] I. split; [by apply Hr|]. intros id. by apply Hl. Qed.

Lemma guard_sound {A} tok (t : txm A) (Q : option call → go A → Prop) :
  refines t → leaves_stranded t → (∀ r, Q tok r) → guard tok (tx t) Q.
Proof. intros Hr Hl HQ. apply guard_tx. intros d e I. split; [by apply sound_steps|auto]. Qed.

(** The marker leaves the permit its caller submits with. *)
Lemma guard_mark s lease pre tok (Q : option call → go (dispatchPlan * stored * Authority) → Prop) :
  ds_Service disp = Some s → (∀ t e, Q t (Err e)) →
  (∀ p r a, Q (Some (CSubmit (dp_id p) (au_binding a)
                       (quotaKey (au_provider a) (bd_family (au_binding a)) (au_account a))
                       (it_Action (st_intent r)) (au_native a) (pre_Fingerprint pre))) (Ok (p, r, a))) →
  guard tok (tx (mark s lease pre)) Q.
Proof.
  intros Hs Herr Hok d e I. pose proof (mark_spec s lease pre d d e) as H. unfold wp in H.
  pose proof (sound_steps (mark s lease pre) d e (conj (refines_mark s lease pre) (leaves_mark s lease pre)) I) as Hr.
  destruct (mark s lease pre (Txs d d e)) as [[[[p r] a]|err] s']; simpl in *; split; auto.
  right. eexists. split; [|apply Hok]. exists s, lease, pre, p, r, a. by split_and!.
Qed.

(** Symbolic execution of a program. *)
Ltac guard_prim :=
  lazymatch goal with
  | |- guard _ (mbind _ _) _ => apply guard_bind
  | |- guard _ (preject _ _) _ => apply guard_reject; intros ?
  | |- guard _ (ask _) _ => apply guard_ask; [done|intros ?]
  | |- guard _ (pattempt _) _ => apply guard_attempt
  | |- guard _ (pthrow _) _ => simpl
  | |- guard _ (mret _) _ => simpl
  | |- guard _ (Done _) _ => simpl
  | |- guard _ (if ?b then _ else _) _ => destruct b eqn:?
  | |- guard _ (match ?x with _ => _ end) _ => destruct x eqn:?
  | |- match ?x with Ok _ => guard _ _ _ | Err _ => _ end => destruct x eqn:?
  end.
Ltac guard_step := cbv beta iota; guard_prim; cbv beta iota.
Ltac guard_call H := apply guard_sound; [apply H|leaves|intros ?].


Definition anything {A} (_ : option call) (_ : go A) : Prop := True.

Lemma guard_inspect tok s a i (Q : option call → go Preconditions → Prop) :
  (∀ r, Q tok r) → guard tok (inspect s a i) Q.
Proof. intros HQ. unfold inspect. repeat guard_step; auto. Qed.

Lemma guard_Prepare s p scope target i : guard None (Prepare s p scope target i) anything.
Proof.
  unfold Prepare. repeat guard_step; try done. guard_call refines_authority. guard_step; [|done].
  repeat guard_step; try done. apply guard_inspect. intros [pre|]; [|done].
  guard_call refines_prepare. done.
Qed.

Lemma guard_Confirm s p scope key c request : guard None (Confirm s p scope key c request) anything.
Proof.
  unfold Confirm. repeat guard_step; try done. guard_call refines_confirm_load.
  destruct r as [[result|[[a r] hash]]|]; [done| |done].
  guard_step. apply guard_inspect. intros [pre|]; [|done]. repeat guard_step; try done.
  guard_call refines_confirm. done.
Qed.

Lemma guard_rejectUnsent tok lease cause : guard tok (rejectUnsent lease cause) anything.
Proof. unfold rejectUnsent. case_decide; [done|]. guard_call refines_reject. done. Qed.

Lemma guard_inspectDispatch tok s lease (Q : option call → go (dispatchPlan * stored * Authority * Preconditions) → Prop) :
  (∀ r, Q tok r) → guard tok (inspectDispatch s lease) Q.
Proof.
  intros HQ. unfold inspectDispatch. guard_step. guard_call refines_check.
  destruct r as [[[p r] a]|]; [|done]. guard_step. apply guard_inspect. intros [pre|]; [|done].
  repeat guard_step; auto.
Qed.

Lemma guard_dispatch s lease : ds_Service disp = Some s → guard None (dispatch disp s lease) anything.
Proof.
  intros Hs. unfold dispatch. guard_step. guard_step. apply guard_inspectDispatch. intros inspected.
  cbv beta iota. destruct inspected as [[[[p r] a] pre]|cause]; [|apply guard_rejectUnsent].
  guard_step; [apply guard_rejectUnsent|]. repeat guard_step; try done.
  apply guard_mark; [done|done|]. intros p' r' a'. cbv beta iota. repeat guard_step; try done.
  simpl. split; [done|]. intros result. guard_call refines_receipt. done.
Qed.

Lemma guard_observe s delay lease p r : ds_Service disp = Some s → guard None (observe disp delay lease p r) anything.
Proof.
  intros Hs. unfold observe. repeat guard_step; try done. guard_call refines_observed.
  destruct r0 as [[[c target] v]|]; [|done]. repeat guard_step; try done.
  guard_call refines_observe; [|done]. intros E. unfold in_flight in *. rewrite E in *. done.
Qed.

Lemma guard_Work delay lease : guard None (Work disp delay lease) anything.
Proof.
  unfold Work. guard_step; [|done]. repeat guard_step; try done. guard_call refines_load.
  destruct r as [[p r]|]; [|done]. cbv beta iota. guard_step; [by eapply guard_observe|by apply guard_dispatch].
Qed.

(** Programs that only read and whose transactions leave the machine alone. *)
Lemma guard_frames {A} tok (p : prog A) (Q : option call → go A → Prop) :
  each (λ B t, keeps oframe t) reads p → (∀ r, Q tok r) → guard tok p Q.
Proof.
  intros Hp HQ. induction p as [r|D t k IH|c k IH]; simpl in *; [done|..].
  - destruct Hp as [Ht Hk]. intros d e I. pose proof (sound_steps t d e (oframe_sound t Ht) I) as Hs.
    destruct (t (Txs d d e)) as [r s]. split; [done|]. left. by apply IH.
  - destruct Hp as [Hc Hk]. assert (submission c = None) as -> by (by destruct c).
    split; [by intros []|]. intros r. rewrite decide_False by (by intros []). by apply IH.
Qed.

Lemma guard_Execute `{J : JsonbText} encoded_len s lease : guard None (Execute encoded_len s lease) anything.
Proof.
  unfold Execute. guard_step. guard_step. apply guard_frames; [apply frame_Scan|]. intros result.
  repeat guard_step; try done. apply guard_sound; [apply sound_Complete..|]. intros res.
  repeat guard_step; done.
Qed.

Lemma guard_expire_all ls : guard None (expire_all ls) anything.
Proof.
  induction ls as [|l ls IH]; [done|]. unfold expire_all; fold expire_all. guard_step.
  guard_call refines_expire. by destruct r as [[]|].
Qed.

Lemma guard_Expire : guard None Expire anything.
Proof.
  unfold Expire. guard_step. guard_call refines_expirable. destruct r as [ls|]; [|done].
  apply guard_expire_all.
Qed.
End programs.

(** ** Requests and workers *)

(** The result of a request or a run of a worker goes to its caller. *)
Definition forget {A} (p : prog A) : prog unit := p ≫= λ _, mret tt.

Section threads.
Context `{U : UuidApi} (disp : Dispatcher).
#[local] Abbreviation guard := (guard disp).

(** A permit that is not used harms nobody. *)
Lemma guard_any {A} tok (p : prog A) : guard None p anything → guard tok p anything.
Proof.
  destruct tok as [c0|]; [|done]. induction p as [r|B t k IH|c k IH]; simpl in *; [done|..].
  - intros H d e I. specialize (H d e I). destruct (t (Txs d d e)) as [r s]. destruct H as [? [?|(c & ? & ?)]]; eauto 6.
  - intros [Hc Hk]. assert (submission c = None) as Hn by (destruct (submission c); [|done]; by discriminate Hc).
    rewrite Hn in *. split; [by intros []|]. intros r. specialize (Hk r). rewrite decide_False in * by (by intros []). auto.
Qed.

Lemma guard_seq {A B} tok (p : prog A) (k : A → prog B) :
  guard None p anything → (∀ a, guard None (k a) anything) → guard tok (p ≫= k) anything.
Proof.
  intros Hp Hk. apply guard_bind. eapply guard_mono; [by apply guard_any|]. intros t [a|e] _; [by apply guard_any|done].
Qed.

Lemma guard_inspecting {A} tok (p : prog A) : guard None p anything → guard tok (pattempt p) anything.
Proof. intros Hp. apply guard_attempt. by eapply guard_mono; [apply guard_any|]. Qed.

Lemma guard_keeps {A} tok (t : txm A) : keeps oframe t → guard tok (tx t) anything.
Proof. intros Ht. by apply guard_frames. Qed.

End threads.

Ltac thread_rule :=
  cbv beta iota;
  lazymatch goal with
  | |- guard _ _ (mbind _ _) _ => apply guard_seq; [|intros ?]
  | |- guard _ _ (pattempt _) _ => apply guard_inspecting
  | |- guard _ _ (mret _) _ => exact I
  | |- guard _ _ (pthrow _) _ => exact I
  | |- guard _ _ (preject ?b _) _ => destruct b; exact I
  | |- guard _ _ (ask _) _ => apply guard_ask; done
  | |- guard _ _ (match ?x with _ => _ end) _ => destruct x eqn:?
  end.

(** An entry point, by the lemma of its component. *)
Ltac entry_point :=
  first [ apply guard_keeps;
          first [apply frame_Recovery|apply frame_Claim|apply frame_Renew|apply frame_Finish
            |apply frame_PruneTerminal|apply frame_ChangeMember|apply frame_Transfer|apply frame_WorkspaceSettings
            |apply frame_Create|apply frame_Bootstrap|apply frame_SetGrant|apply frame_Disable|apply frame_RefreshType
            |apply frame_PruneStaging|apply frame_Resolve|apply frame_Revoke|apply frame_Logout|apply frame_Cleanup
            |apply frame_start|apply frame_Consume|apply frame_callback|apply frame_IssueInvitation|apply frame_RewrapBatch]
        | apply guard_Prepare | apply guard_Confirm | apply guard_Work | apply guard_Expire | apply guard_Execute
        | apply guard_frames; [first [apply frame_Save|apply frame_Rotate|apply frame_Preview]|done]
        | apply guard_sound; [|leaves|done]; first [apply refines_Cancel|apply refines_Recheck
            |apply refines_ReleaseUnknown|apply refines_SetRecovery|apply refines_PruneReviews] ].

Section workers.
Context `{U : UuidApi} (disp : Dispatcher).
#[local] Abbreviation guard := (guard disp).

Lemma guard_run_leased tok lease work : guard None work anything → guard tok (run_leased lease work) anything.
Proof.
  intros Hw. unfold run_leased, tx_try. apply guard_seq; [apply guard_keeps; tx_auto|intros now].
  apply guard_seq; [thread_rule|intros ?]. apply guard_seq; [|intros renewed].
  { apply (guard_frames disp None (tx_try (renew lease))); [|done]. split; [apply frame_renew|done]. }
  destruct renewed; [|done]. apply guard_seq; [apply guard_keeps; tx_auto|intros ?]. repeat thread_rule. done.
Qed.

Lemma guard_rejected tok lease : guard tok (Runner.reject lease) anything.
Proof.
  unfold Runner.reject. repeat thread_rule; [apply guard_sound; [apply sound_Complete..|done]|apply guard_keeps, frame_Finish].
Qed.

Lemma guard_claim tok r locked owner :
  match sc_Maintenance (rn_scheduler r) with Some m => guard None m anything | None => True end →
  guard tok (Runner.claim r locked owner) anything.
Proof.
  intros Hm. unfold Runner.claim. apply guard_seq; [thread_rule|intros _]. apply guard_seq; [|intros _; apply guard_keeps, frame_Claim].
  by destruct (sc_Maintenance _).
Qed.

(** A runner whose handlers, maintenance and rejection are sound has sound workers. *)
Record sound_runner (r : Runner) : Prop := {
  sr_maintenance : match sc_Maintenance (rn_scheduler r) with Some m => guard None m anything | None => True end;
  sr_reject lease : guard None (rn_reject r lease) anything;
  sr_handlers : map_Forall (λ _ h, ∀ lease, guard None (hn_Work h lease) anything ∧
                                   ∀ err, guard None (hn_Finish h lease err) anything) (rn_handlers r) }.

Lemma guard_turn r locked owner : sound_runner r → guard None (turn r locked owner) anything.
Proof.
  intros [Hm Hr Hh]. unfold turn. repeat thread_rule; auto using guard_claim.
  - apply guard_run_leased. by eapply Hh.
  - by eapply Hh.
Qed.

Lemma guard_worker r owner skipped : sound_runner r → guard None (worker r owner skipped) anything.
Proof.
  intros Hr. induction skipped as [|locked skipped IH]; [done|]. cbn [worker]. apply guard_seq; [by apply guard_turn|].
  intros []; [apply IH|done].
Qed.

Lemma process_sound `{J : JsonbText} encoded_len s delay drain workers r : process encoded_len s disp delay drain workers = Ok r → sound_runner r.
Proof.
  unfold process, NewRunner. intros H. apply fail_if_bind in H as [_ H]. apply fail_if_bind in H as [_ H]. injection H as <-.
  split; simpl.
  - apply guard_Expire.
  - intros lease. apply guard_rejected.
  - unfold registered. apply map_Forall_insert_2; [|apply map_Forall_singleton]; intros lease; cbn [hn_Work hn_Finish refresh_handler dispatch_handler].
    + split; [apply guard_frames; [apply frame_Scan|done]|]. intros err. apply guard_sound; [apply sound_Complete..|done].
    + split; [apply guard_Work|done].
Qed.

End workers.

Section requests.
Context `{U : UuidApi} `{L : HttpLib} `{B : Bodies} `{C : AEAD} (disp : Dispatcher) (time_json : time → string).
Context `{!CursorJSON (History.cursor_text time_json), !CursorJSON (history_text time_json), !CursorJSON Browse.cursor_text}.
Context (a : Auth) (su : Surroundings) (un_login : bytes → option string) (un_logout : bytes → option (option unit)).
#[local] Abbreviation guard := (guard disp).

Lemma guard_respond {X} tok (service : prog X) fail k : guard None service anything → guard tok (respond service fail k) anything.
Proof. intros Hs. unfold respond. apply guard_seq; [by apply guard_inspecting|done]. Qed.

Ltac request_rule :=
  lazymatch goal with
  | |- guard _ (respond _ _ _) _ => apply guard_respond
  | |- guard _ (tx (Start _ _)) _ => apply guard_keeps; unfold Start; apply frame_start
  | |- guard _ (tx (StartInvitation _ _ _)) _ => apply guard_keeps; unfold StartInvitation
  | |- guard _ (tx (StartReauthentication _ _ _)) _ => apply guard_keeps; unfold StartReauthentication
  | |- keeps _ (match tokenDigest ?t with _ => _ end) => destruct (tokenDigest t); [apply frame_start|tx_auto]
  | |- guard _ (tx (ResolveMembership _ _ _)) _ => apply guard_keeps; unfold ResolveMembership; tx_auto
  | |- guard _ (tx (pool_exec _ (rd _))) _ => apply guard_keeps; tx_auto
  | |- guard _ (tx _) _ => entry_point
  | _ => thread_rule
  end.

Lemma guard_answer p ws request c : guard None (answer time_json a su p ws request c) anything.
Proof.
  destruct (mutating c) eqn:Hc.
  2: { apply guard_frames; [|done]. eapply each_mono; [by apply (reads_only time_json oframe)|done|done]. }
  destruct c; try discriminate Hc; unfold answer; repeat request_rule; entry_point.
Qed.

Lemma guard_dispatch_request cx r : guard None (Gateway.dispatch time_json a su cx r) anything.
Proof. unfold Gateway.dispatch. destruct (apiRoutes _ _ _); [done|apply guard_answer|done]. Qed.

Lemma guard_Protect request r role next : (∀ cx, guard None (next cx) anything) →
  guard None (Protect a request r role next) anything.
Proof.
  intros Hn. unfold Protect. cbv zeta.
  repeat lazymatch goal with |- guard _ (next _) _ => apply Hn | _ => request_rule end.
Qed.

Lemma guard_app assets request r : guard None (Gateway.app time_json a su un_login un_logout assets request r) anything.
Proof.
  unfold Gateway.app. destruct (decide _); [|destruct (decide _); [|destruct (decide _); [|destruct (decide _)]]].
  - unfold login. repeat request_rule.
  - unfold callback_at. repeat request_rule.
  - unfold logout. repeat request_rule.
  - apply guard_Protect. intros cx. unfold reauthenticate. repeat request_rule.
  - destruct (under _ _); [apply guard_Protect; intros cx; apply guard_dispatch_request|done].
Qed.

Lemma guard_serve trusted ring assets fresh ended r :
  guard None (serve time_json a su un_login un_logout trusted ring assets fresh ended r) anything.
Proof.
  unfold serve. destruct (WithClientIP trusted r) as [[original ip] r']. destruct (decide _); [unfold readyz; cbv zeta; repeat request_rule|].
  destruct (BoundRequests _ _ _); [apply guard_app|done].
Qed.
End requests.

(** ** The system *)

Section system.
Context `{U : UuidApi} (disp : Dispatcher).

(** Every entry point, with any arguments, under any authority: a worker may
    present any lease, a request any principal; then the requests of the HTTP
    interface and the workers of the process, whole. *)
Inductive handler : prog unit → Prop :=
| h_Prepare s p scope target i : handler (forget (Prepare s p scope target i))
| h_Confirm s p scope key c request : handler (forget (Confirm s p scope key c request))
| h_Work delay lease : handler (forget (Work disp delay lease))
| h_Cancel s p scope id request : handler (forget (tx (Cancel s p scope id request)))
| h_Recheck s p scope id request : handler (forget (tx (Recheck s p scope id request)))
| h_ReleaseUnknown s p scope id input request : handler (forget (tx (ReleaseUnknown s p scope id input request)))
| h_Expire : handler (forget Expire)
| h_Recovery : handler (forget (tx Recovery))
| h_SetRecovery open version : handler (forget (tx (SetRecovery open version)))
| h_PruneReviews locked : handler (forget (tx (PruneReviews locked)))
| h_Claim ops locked owner : handler (forget (tx (Claim ops locked owner)))
| h_Renew l : handler (forget (tx (Renew l)))
| h_Finish l st : handler (forget (tx (Finish l st)))
| h_PruneTerminal locked : handler (forget (tx (PruneTerminal locked)))
| h_ChangeMember actor scope target role version request :
    handler (forget (tx (ChangeMember actor scope target role version request)))
| h_Transfer actor scope target av tv demote request :
    handler (forget (tx (Transfer actor scope target av tv demote request)))
| h_Settings actor scope update request : handler (forget (tx (WorkspaceSettings actor scope update request)))
| h_Create user name request : handler (forget (tx (Create user name request)))
| h_Bootstrap locked configured issuer subject name :
    handler (forget (tx (Bootstrap locked configured issuer subject name)))
| h_SetGrant actor scope connection target actions request :
    handler (forget (tx (SetGrant actor scope connection target actions request)))
| h_Disable actor scope id request : handler (forget (tx (Disable actor scope id request)))
| h_RefreshType actor scope connection kind : handler (forget (tx (RefreshType actor scope connection kind)))
| h_Execute `{J : JsonbText} encoded_len s lease : handler (forget (Execute encoded_len s lease))
| h_PruneStaging locked : handler (forget (tx (PruneStaging locked)))
| h_Resolve policy token : handler (forget (tx (Resolve_session policy token)))
| h_Revoke token : handler (forget (tx (Revoke token)))
| h_Logout token request : handler (forget (tx (Logout token request)))
| h_Cleanup limit l : handler (forget (tx (Cleanup limit l)))
| h_start locked l invitation session : handler (forget (tx (start locked l invitation session)))
| h_Consume state browser : handler (forget (tx (Consume state browser)))
| h_callback policy supported acr token challenge previous request :
    handler (forget (tx (callback policy supported acr token challenge previous request)))
| h_IssueInvitation actor scope issuer subject role request now :
    handler (forget (tx (IssueInvitation actor scope issuer subject role request now)))
| h_Save (C : AEAD) s rand actor scope family label credential request :
    handler (forget (Save s rand actor scope family label credential request))
| h_Rotate (C : AEAD) s rand actor scope id input request : handler (forget (Rotate s rand actor scope id input request))
| h_RewrapBatch (C : AEAD) ring rand oldID newID limit : handler (forget (tx (RewrapBatch ring rand oldID newID limit)))
| h_serve (L : HttpLib) (B : Bodies) (C : AEAD) time_json (J1 : CursorJSON (History.cursor_text time_json))
    (J2 : CursorJSON (history_text time_json)) (J3 : CursorJSON Browse.cursor_text)
    a su un_login un_logout trusted ring assets fresh ended r :
    handler (forget (serve time_json a su un_login un_logout trusted ring assets fresh ended r))
| h_worker `{J : JsonbText} encoded_len s delay drain workers rn owner skipped :
    process encoded_len s disp delay drain workers = Ok rn → handler (forget (worker rn owner skipped)).

Inductive label := Committed (d d' : db) | Called (c : call).

Record sys := Sys { ss_db : db; ss_threads : gmap nat (prog unit); ss_trace : list label }.

(** What components outside the model may do to the database: nothing to
    operations, reservations, events, consumed reviews, recorded resolutions,
    the identity of resources or the jobs of operations. *)
Definition others (d d' : db) : Prop :=
  operations d' = operations d ∧ resource_locks d' = resource_locks d ∧
  operation_events d' = operation_events d ∧ kept d d' ∧
  dispatch_recovery_gate d' = dispatch_recovery_gate d ∧ ∀ id, spares id d d'.

Inductive sstep (s : sys) : sys → Prop :=
| ss_spawn i p : handler p → ss_threads s !! i = None →
    sstep s (Sys (ss_db s) (<[i := p]> (ss_threads s)) (ss_trace s))
| ss_txn i B (t : txm B) k e : ss_threads s !! i = Some (Txn t k) →
    let o := t (Txs (ss_db s) (ss_db s) e) in
    sstep s (Sys (tx_db o.2) (<[i := k o.1]> (ss_threads s)) (ss_trace s ++ [Committed (ss_db s) (tx_db o.2)]))
| ss_call i c k r : ss_threads s !! i = Some (Call c k) →
    sstep s (Sys (ss_db s) (<[i := k r]> (ss_threads s)) (ss_trace s ++ [Called c]))
| ss_crash i : sstep s (Sys (ss_db s) (delete i (ss_threads s)) (ss_trace s))
| ss_other d' : others (ss_db s) d' → sstep s (Sys d' (ss_threads s) (ss_trace s)).

(** From a database in order, with nothing running. *)
Definition initial (d : db) : sys := Sys d ∅ [].
Definition reachable (d0 : db) (s : sys) : Prop := rtc sstep (initial d0) s.

Lemma guard_forget {A} (p : prog A) : guard disp None p anything → guard disp None (forget p) anything.
Proof. intros H. apply guard_bind. eapply guard_mono; [exact H|]. by intros t [a|] _. Qed.

Lemma handler_guard p : handler p → guard disp None p anything.
Proof.
  destruct 1; apply guard_forget; first [apply guard_serve|by eapply guard_worker, process_sound|entry_point].
Qed.

(** ** The invariant *)

(** The operations submitted so far. *)
Definition submitted (tr : list label) : list uuid :=
  omap (λ l, match l with Called c => submission c | _ => None end) tr.

(** A marker of the trace warrants the call. *)
Definition warranted_by (tr : list label) (c : call) : Prop :=
  ∃ d d', Committed d d' ∈ tr ∧ warrants disp d d' c.

(** Threads hold warrants; no two warrants, and no permit and past submission,
    are for one operation; every operation concerned has left [queued]. *)
Record sys_inv (s : sys) (permit : gmap nat call) : Prop := {
  si_machine : machine_inv (ss_db s);
  si_commits : ∀ d d', Committed d d' ∈ ss_trace s → machine_inv d;
  si_guard : ∀ i p, ss_threads s !! i = Some p → guard disp (permit !! i) p anything;
  si_thread : ∀ i, is_Some (permit !! i) → is_Some (ss_threads s !! i);
  si_permit : ∀ i c, permit !! i = Some c → is_Some (submission c) ∧ warranted_by (ss_trace s) c;
  si_distinct : ∀ i j c c', permit !! i = Some c → permit !! j = Some c' → submission c = submission c' → i = j;
  si_unused : ∀ i c id, permit !! i = Some c → submission c = Some id → id ∉ submitted (ss_trace s);
  si_once : NoDup (submitted (ss_trace s));
  si_left : ∀ id, id ∈ submitted (ss_trace s) ∨ (∃ i c, permit !! i = Some c ∧ submission c = Some id) →
    ∃ o, operations (ss_db s) !! id = Some o ∧ op_st o ≠ Queued;
  si_marked : ∀ n c id, ss_trace s !! n = Some (Called c) → submission c = Some id →
    ∃ m d d', (m < n)%nat ∧ ss_trace s !! m = Some (Committed d d') ∧ warrants disp d d' c;
}.

Lemma warrants_submission d d' c : warrants disp d d' c → ∃ id o o', submission c = Some id ∧
  operations d !! id = Some o ∧ op_st o = Queued ∧ operations d' !! id = Some o' ∧ op_st o' = Dispatching.
Proof.
  intros (s & lease & pre & p & r & a & _ & M & ->). exists (dp_id p).
  destruct (mk_moves _ _ _ _ _ _ _ _ M) as [_ (o & t & Ho & _ & Hs & Hops & _) _ _].
  exists o, (moved o Dispatching t). rewrite Hops, lookup_insert_eq. done.
Qed.

Lemma submitted_app tr tr' : submitted (tr ++ tr') = submitted tr ++ submitted tr'.
Proof. apply omap_app. Qed.

Lemma warranted_by_app tr tr' c : warranted_by tr c → warranted_by (tr ++ tr') c.
Proof. intros (d & d' & ? & ?). exists d, d'. split; [|done]. apply elem_of_app. by left. Qed.

(** An operation that has left [queued] does not return to it. *)
Lemma left_queued d d' id :
  osteps d d' → (∃ o, operations d !! id = Some o ∧ op_st o ≠ Queued) →
  ∃ o, operations d' !! id = Some o ∧ op_st o ≠ Queued.
Proof.
  intros Hs (o & Ho & Hne). destruct (osteps_later _ _ _ _ Hs Ho) as (o' & Ho' & _ & Hr & _).
  exists o'. split; [done|]. by eapply rtc_allowed_queued.
Qed.

Lemma marked_app tr tr' n c id :
  (∀ n c id, tr !! n = Some (Called c) → submission c = Some id →
     ∃ m d d', (m < n)%nat ∧ tr !! m = Some (Committed d d') ∧ warrants disp d d' c) →
  (∀ c id, Called c ∈ tr' → submission c = Some id → warranted_by tr c) →
  (tr ++ tr') !! n = Some (Called c) → submission c = Some id →
  ∃ m d d', (m < n)%nat ∧ (tr ++ tr') !! m = Some (Committed d d') ∧ warrants disp d d' c.
Proof.
  intros Hold Hnew [Hl|[Hge Hl]]%lookup_app_Some Hc.
  - destruct (Hold _ _ _ Hl Hc) as (m & d & d' & Hm & Hmd & Hp). exists m, d, d'.
    split_and!; [done| |done]. by apply lookup_app_l_Some.
  - destruct (Hnew _ _ ltac:(by eapply list_elem_of_lookup_2) Hc) as (d & d' & Hin & Hp).
    apply list_elem_of_lookup in Hin as [m Hm]. exists m, d, d'.
    assert (m < length tr)%nat by (by eapply lookup_lt_Some).
    split_and!; [lia|by apply lookup_app_l_Some|done].
Qed.

Lemma inv_spawn s permit i p : sys_inv s permit → handler p → ss_threads s !! i = None →
  sys_inv (Sys (ss_db s) (<[i := p]> (ss_threads s)) (ss_trace s)) permit.
Proof.
  intros [IM IC IG IT IP ID IU IO IL IK] Hp Hi. split; simpl; try done.
  - intros j q [[<- <-]|[? Hq]]%lookup_insert_Some; [|eauto].
    assert (permit !! i = None) as ->; [|by apply handler_guard].
    apply eq_None_not_Some. intros Hs%IT. rewrite Hi in Hs. by destruct Hs.
  - intros j Hj. apply lookup_insert_is_Some'. eauto.
Qed.

Lemma commits_app tr d d' : machine_inv d → (∀ a b, Committed a b ∈ tr → machine_inv a) →
  ∀ a b, Committed a b ∈ tr ++ [Committed d d'] → machine_inv a.
Proof. intros I H a b [Hin|[= -> ->]%list_elem_of_singleton]%elem_of_app; eauto. Qed.

Lemma commits_call tr c : (∀ a b, Committed a b ∈ tr → machine_inv a) →
  ∀ a b, Committed a b ∈ tr ++ [Called c] → machine_inv a.
Proof. intros H a b [Hin|Hin%list_elem_of_singleton]%elem_of_app; [eauto|done]. Qed.

(** A transaction that takes no permit. *)
Lemma inv_keep s permit i p d' : sys_inv s permit → osteps (ss_db s) d' → is_Some (ss_threads s !! i) →
  guard disp (permit !! i) p anything →
  sys_inv (Sys d' (<[i := p]> (ss_threads s)) (ss_trace s ++ [Committed (ss_db s) d'])) permit.
Proof.
  intros [IM IC IG IT IP ID IU IO IL IK] Hs Hi Hg. 
  split; simpl; rewrite ?submitted_app; simpl; rewrite ?app_nil_r; try done.
  - by eapply osteps_inv.
  - by apply commits_app.
  - intros j q [[<- <-]|[? Hq]]%lookup_insert_Some; eauto.
  - intros j Hj. apply lookup_insert_is_Some'. eauto.
  - intros j c Hc. destruct (IP _ _ Hc). eauto using warranted_by_app.
  - intros id Hid. eapply left_queued; eauto.
  - intros n c id. apply marked_app; [done|]. intros c' id' Hin. by apply list_elem_of_singleton in Hin.
Qed.

(** The marker hands its thread a permit. *)
Lemma inv_acquire s permit i p d' c : sys_inv s permit → osteps (ss_db s) d' → is_Some (ss_threads s !! i) →
  warrants disp (ss_db s) d' c → guard disp (Some c) p anything →
  sys_inv (Sys d' (<[i := p]> (ss_threads s)) (ss_trace s ++ [Committed (ss_db s) d'])) (<[i := c]> permit).
Proof.
  intros [IM IC IG IT IP ID IU IO IL IK] Hs Hi Hp Hg.
  destruct (warrants_submission _ _ _ Hp) as (id & o & o' & Hc & Ho & Hq & Ho' & Hd).
  assert (Hnew : ∀ id', id' ∈ submitted (ss_trace s) ∨ (∃ i c, permit !! i = Some c ∧ submission c = Some id') → id' ≠ id).
  { intros id' Hl ->. destruct (IL _ Hl) as (o2 & ? & ?). congruence. }
  split; simpl; rewrite ?submitted_app; simpl; rewrite ?app_nil_r; try done.
  - by eapply osteps_inv.
  - by apply commits_app.
  - intros j q [[<- <-]|[? Hq']]%lookup_insert_Some; [by rewrite lookup_insert_eq|].
    rewrite lookup_insert_ne by done. eauto.
  - intros j Hj. apply lookup_insert_is_Some'. destruct (decide (i = j)); [by left|right].
    rewrite lookup_insert_ne in Hj by done. eauto.
  - intros j c' [[<- <-]|[? Hc']]%lookup_insert_Some.
    + split; [by eexists|]. exists (ss_db s), d'. split; [|done]. apply elem_of_app. right. by constructor.
    + destruct (IP _ _ Hc'). eauto using warranted_by_app.
  - intros j k c1 c2 [[<- <-]|[? H1]]%lookup_insert_Some [[<- <-]|[? H2]]%lookup_insert_Some He; [done|..].
    + destruct (Hnew id); [|done]. right. exists k, c2. split; [done|congruence].
    + destruct (Hnew id); [|done]. right. exists j, c1. split; [done|congruence].
    + eauto.
  - intros j c' id' [[<- <-]|[? Hc']]%lookup_insert_Some Hid; [|eauto].
    assert (id' = id) as -> by congruence. intros Hin. by apply (Hnew id); [left|].
  - intros id' [Hin|(j & c' & [[<- <-]|[? Hc']]%lookup_insert_Some & Hid)].
    + eapply left_queued; eauto.
    + assert (id' = id) as -> by congruence. exists o'. split; [done|]. by rewrite Hd.
    + eapply left_queued; [done|]. apply IL. eauto.
  - intros n c' id'. apply marked_app; [done|]. intros c2 id2 Hin. by apply list_elem_of_singleton in Hin.
Qed.

(** A submission uses its permit up. *)
Lemma inv_submit s permit i p c id : sys_inv s permit → permit !! i = Some c → submission c = Some id →
  guard disp None p anything →
  sys_inv (Sys (ss_db s) (<[i := p]> (ss_threads s)) (ss_trace s ++ [Called c])) (delete i permit).
Proof.
  intros [IM IC IG IT IP ID IU IO IL IK] Hi Hc Hg.
  assert (Hsub : submitted [Called c] = [id]) by (simpl; by rewrite Hc).
  split; cbn [ss_db ss_threads ss_trace]; rewrite ?submitted_app, ?Hsub; try done.
  - by apply commits_call.
  - intros j q [[<- <-]|[? Hq]]%lookup_insert_Some; [by rewrite lookup_delete_eq|].
    rewrite lookup_delete_ne by done. eauto.
  - intros j [c' [? Hj]%lookup_delete_Some]. apply lookup_insert_is_Some'. eauto.
  - intros j c' [? Hc']%lookup_delete_Some. destruct (IP _ _ Hc'). eauto using warranted_by_app.
  - intros j k c1 c2 [? H1]%lookup_delete_Some [? H2]%lookup_delete_Some. eauto.
  - intros j c' id' [Hne Hc']%lookup_delete_Some Hid [Hin|Hin%list_elem_of_singleton]%elem_of_app.
    + by eapply IU.
    + subst id'. apply Hne. eapply ID; [exact Hi|exact Hc'|congruence].
  - apply NoDup_app. split_and!; [done| |apply NoDup_singleton].
    intros x Hx Hin%list_elem_of_singleton. subst x. by eapply IU.
  - intros id' [[Hin|Hin%list_elem_of_singleton]%elem_of_app|(j & c' & [? Hc']%lookup_delete_Some & Hid)];
      apply IL; [by left|subst id'; eauto|eauto].
  - intros n c' id'. apply marked_app; [done|]. intros c2 id2 Hin. apply list_elem_of_singleton in Hin.
    simplify_eq. intros _. by apply (IP i).
Qed.

(** Any other call changes nothing. *)
Lemma inv_call s permit i p c : sys_inv s permit → submission c = None → is_Some (ss_threads s !! i) →
  guard disp (permit !! i) p anything →
  sys_inv (Sys (ss_db s) (<[i := p]> (ss_threads s)) (ss_trace s ++ [Called c])) permit.
Proof.
  intros [IM IC IG IT IP ID IU IO IL IK] Hc Hi Hg.
  assert (Hsub : submitted [Called c] = []) by (simpl; by rewrite Hc).
  split; cbn [ss_db ss_threads ss_trace]; rewrite ?submitted_app, ?Hsub, ?app_nil_r; try done.
  - by apply commits_call.
  - intros j q [[<- <-]|[? Hq]]%lookup_insert_Some; eauto.
  - intros j Hj. apply lookup_insert_is_Some'. eauto.
  - intros j c' Hc'. destruct (IP _ _ Hc'). eauto using warranted_by_app.
  - intros n c' id'. apply marked_app; [done|]. intros c2 id2 Hin. apply list_elem_of_singleton in Hin. congruence.
Qed.

Lemma sstep_inv s s' permit : sys_inv s permit → sstep s s' → ∃ permit', sys_inv s' permit'.
Proof.
  intros I Hs. destruct Hs as [i p Hp Hi|i B t k e Hi o|i c k r Hi|i|d' (Ho & Hl & He & Hk & _)].
  - exists permit. by apply inv_spawn.
  - pose proof (si_guard _ _ I _ _ Hi) as Hg. simpl in Hg. specialize (Hg (ss_db s) e (si_machine _ _ I)).
    unfold o. destruct (t (Txs (ss_db s) (ss_db s) e)) as [r s1]. simpl.
    destruct Hg as [[Hst _] [Hg|(c & Hc & Hg)]].
    + exists permit. apply inv_keep; eauto.
    + exists (<[i := c]> permit). apply inv_acquire; eauto.
  - pose proof (si_guard _ _ I _ _ Hi) as [Hc Hg]. specialize (Hg r). 
    destruct (submission c) as [id|] eqn:Hid.
    + rewrite decide_True in Hg by (by eexists). exists (delete i permit). eapply inv_submit; eauto.
    + rewrite decide_False in Hg by (by intros []). exists permit. apply inv_call; eauto.
  - exists (delete i permit). destruct I as [IM IC IG IT IP ID IU IO IL IK]. split; simpl; try done.
    + intros j q [? Hq]%lookup_delete_Some. rewrite lookup_delete_ne by done. eauto.
    + intros j [c' [? Hj]%lookup_delete_Some]. rewrite lookup_delete_ne by done. eauto.
    + intros j c' [? ?]%lookup_delete_Some. eauto.
    + intros j k c1 c2 [? H1]%lookup_delete_Some [? H2]%lookup_delete_Some. eauto.
    + intros j c' id' [? ?]%lookup_delete_Some. eauto.
    + intros id' [?|(j & c' & [? ?]%lookup_delete_Some & ?)]; apply IL; eauto.
  - exists permit. destruct I as [IM IC IG IT IP ID IU IO IL IK]. split; simpl; try done.
    + eapply osteps_inv; [by apply osteps_frame|done].
    + intros id Hid. rewrite Ho. eauto.
Qed.

Lemma initial_inv d : machine_inv d → sys_inv (initial d) ∅.
Proof.
  intros I. split; simpl; try done.
  - by intros ? ? ?%not_elem_of_nil.
  - intros i [? H]. by rewrite lookup_empty in H.
  - constructor.
  - intros id [H|(i & c & H & _)]; [by apply not_elem_of_nil in H|by rewrite lookup_empty in H].
Qed.

Lemma reachable_inv d s : machine_inv d → reachable d s → ∃ permit, sys_inv s permit.
Proof.
  intros I H. assert (Hi : ∃ permit, sys_inv (initial d) permit) by (exists ∅; by apply initial_inv).
  revert Hi. unfold reachable in H. induction H as [|s1 s2 s3 H1 _ IH]; [done|].
  intros [permit Hi]. apply IH. by eapply sstep_inv.
Qed.
End system.
