(* ===== verification/Execution.v ===== *)
(** Executions of single programs are executions of the system, so what a run
    computes is reachable; and a complete run on the sample installation. *)
From S2P Require Import Prelude GoBase Identifier Roles Schema Tx TxLogic Wp Sample AuditLog Jobs.
From S2P Require Import Membership Grants Enqueue Connection Provider Intent Prog Recent Reviews.
From S2P Require Import Dispatch Control Machine Steps Refine Stranded Frames System.
Local Open Scope Z_scope.

Section runs.
Context `{U : UuidApi} (disp : Dispatcher).

Definition calls (tr : list label) : list call := omap (λ l, match l with Called c => Some c | _ => None end) tr.

Lemma calls_app tr tr' : calls (tr ++ tr') = calls tr ++ calls tr'.
Proof. apply omap_app. Qed.

Lemma submitted_calls tr : submitted tr = omap submission (calls tr).
Proof. induction tr as [|[d d'|c] tr IH]; simpl; [done|done|]. destruct (submission c); by rewrite IH. Qed.

Lemma run_forget {A} w n (p : prog A) d :
  rr_db (run w n (forget p) d) = rr_db (run w n p d) ∧ rr_calls (run w n (forget p) d) = rr_calls (run w n p d).
Proof.
  revert n d. induction p as [[a|e]|B t k IH|c k IH]; intros n d; simpl; [done..| |].
  - destruct (t _) as [r s]. apply IH.
  - destruct (IH (wo_answer w n c) (S n) (wo_meddle w n d)) as [IH1 IH2].
    split; [apply IH1|]. f_equal. apply IH2.
Qed.

(** Nobody meddles: the thread runs alone to its end. *)
Lemma run_steps w i (p : prog unit) n d ts tr : (∀ j d, wo_meddle w j d = d) →
  ∃ tr' r, rtc (sstep disp) (Sys d (<[i := p]> ts) tr)
                 (Sys (rr_db (run w n p d)) (<[i := Done r]> ts) (tr ++ tr')) ∧
    calls tr' = rr_calls (run w n p d).
Proof.
  intros Hm. revert n d ts tr. induction p as [r|B t k IH|c k IH]; intros n d ts tr; simpl.
  - exists [], r. by rewrite app_nil_r.
  - rewrite Hm. destruct (t (Txs d d (wo_env w n))) as [r s] eqn:Ht.
    destruct (IH r (S n) (tx_db s) ts (tr ++ [Committed d (tx_db s)])) as (tr' & r' & Hs & Hc).
    exists (Committed d (tx_db s) :: tr'), r'. split; [|done].
    eapply rtc_l; [apply (ss_txn disp (Sys d (<[i:=Txn t k]> ts) tr) i B t k (wo_env w n)); apply lookup_insert_eq|].
    simpl. rewrite Ht. simpl. rewrite insert_insert_eq. by rewrite <-app_assoc in Hs.
  - rewrite Hm. destruct (IH (wo_answer w n c) (S n) d ts (tr ++ [Called c])) as (tr' & r' & Hs & Hc).
    exists (Called c :: tr'), r'. split; [|simpl; by rewrite Hc].
    eapply rtc_l; [apply (ss_call disp (Sys d (<[i:=Call c k]> ts) tr) i c k (wo_answer w n c)); apply lookup_insert_eq|].
    simpl. rewrite insert_insert_eq. by rewrite <-app_assoc in Hs.
Qed.

(** A request served while nothing else runs. *)
Lemma serve {A} (p : prog A) w s : (∀ j d, wo_meddle w j d = d) → handler disp (forget p) → ss_threads s = ∅ →
  ∃ s', rtc (sstep disp) s s' ∧ ss_threads s' = ∅ ∧ ss_db s' = rr_db (run w 0 p (ss_db s)) ∧
    calls (ss_trace s') = calls (ss_trace s) ++ rr_calls (run w 0 p (ss_db s)).
Proof.
  intros Hm Hh Ht. destruct s as [d ts tr]; simpl in *; subst.
  destruct (run_steps w 0 (forget p) 0 d ∅ tr Hm) as (tr' & r & Hs & Hc).
  destruct (run_forget w 0 p d) as [Hd Hcs]. rewrite Hd in Hs.
  exists (Sys (rr_db (run w 0 p d)) ∅ (tr ++ tr')). split_and!; [|done|done|simpl; by rewrite calls_app, Hc, Hcs].
  eapply rtc_l; [by apply (ss_spawn disp (Sys d ∅ tr) 0 (forget p))|]. etrans; [exact Hs|].
  eapply rtc_l; [apply (ss_crash disp _ 0%nat)|]. simpl. rewrite delete_insert_eq, delete_empty. reflexivity.
Qed.
End runs.

(** ** The sample run *)

#[local] Existing Instance rfc9562.

Definition sample_fingerprint : bytes := replicate 32 1%N.

(** What the account now holds: [server-1], still there, and a new server. *)
Definition sample_servers : list Observation := [
  MkObservation "server-1" "running" "running" "web" (sample_now - Second) (MkServerDetails "fsn1" "cx22");
  MkObservation "server-2" "off" "stopped" "db" (sample_now - Second) (MkServerDetails "fsn1" "cx32")].

(** Answers of a provider adapter that accepts the action. *)
Definition sample_answer (c : call) : resp c :=
  match c with
  | CReviewer _ _ => true
  | CInspect _ _ _ _ => Ok (MkPreconditions sample_fingerprint "web" true false)
  | CMutation _ _ => true
  | CSubmit _ _ _ _ _ _ => Ok (MkReceipt "accepted" "ref-1")
  | CObserve _ _ _ _ _ => Ok (MkActionObservation "succeeded" true)
  | CCtxErr => false
  | CCause => None
  | CReader _ | CSnapshots _ => true
  | CPage _ _ => Ok (MkInventoryPage sample_servers "")
  | CSnapshotPage _ _ => Ok (MkSnapshotPage [] "")
  | CPermit _ => true
  | CValidate _ _ => Ok ("account", ["compute.server.read"])
  | CNow => sample_now
  end.

(** Nobody else commits meanwhile; each step draws its identifiers from its own range. *)
Definition sample_world (base : nat) (elapsed : duration) : world :=
  World (λ i, Env (sample_now + elapsed) 0 [] ((λ i, Some (sample_id (N.of_nat i))) <$> seq (base + 40 * i) 40) [])
    (λ _ c, sample_answer c) (λ _ d, d).

Definition sample_service : Service := MkService true true true ["hetzner/hetzner-cloud"] None.
Definition sample_dispatcher : Dispatcher := MkDispatcher (Some sample_service) ["hetzner/hetzner-cloud"].
Definition sample_principal : Principal := MkPrincipal alice sample_now [] true.
Definition power_on : Intent := MkIntent "compute.server.power_on" (Some tt).
Definition sample_review : uuid := sample_id 220.
Definition sample_op : uuid := sample_id 1120.
Definition sample_confirmation : Confirmation := MkConfirmation sample_review true "".
Definition sample_owner : uuid := sample_id 77.
Definition sample_lease (token : N) : Lease :=
  MkLease (MkRecord Nil (sample_id 1121) wid cid "operation_dispatch" 3 (sample_now + 30 * Minute))
    (sample_id token) sample_owner.

Definition sample_prepare : prog Review := Prepare (Some sample_service) sample_principal wid rid power_on.
Definition sample_confirm : prog Accepted :=
  Confirm (Some sample_service) sample_principal wid "key-1" sample_confirmation "req-1".
Definition sample_claim : prog Lease := tx (Claim true (λ _, false) sample_owner).
Definition sample_work (token : N) : prog unit := Work sample_dispatcher (5 * Second) (sample_lease token).

(** The database after each request. *)
Definition prepared_db : db := rr_db (run (sample_world 100 0) 0 sample_prepare sample_db).
Definition confirmed_db : db := rr_db (run (sample_world 1000 0) 0 sample_confirm prepared_db).
Definition claimed_db : db := rr_db (run (sample_world 2000 0) 0 sample_claim confirmed_db).
Definition dispatched_db : db := rr_db (run (sample_world 3000 0) 0 (sample_work 2000) claimed_db).
Definition reclaimed_db : db := rr_db (run (sample_world 4000 Minute) 0 sample_claim dispatched_db).
Definition observed_db : db := rr_db (run (sample_world 5000 Minute) 0 (sample_work 4000) reclaimed_db).

Definition state_in (d : db) : option op_state := op_st <$> operations d !! sample_op.

Example sample_results :
  rv_ID <$> (match rr_result (run (sample_world 100 0) 0 sample_prepare sample_db) with Ok v => Some v | _ => None end)
    = Some sample_review ∧
  rr_result (run (sample_world 1000 0) 0 sample_confirm prepared_db) = Ok (MkAccepted sample_op Queued) ∧
  rr_result (run (sample_world 2000 0) 0 sample_claim confirmed_db) = Ok (sample_lease 2000) ∧
  rr_result (run (sample_world 3000 0) 0 (sample_work 2000) claimed_db) = Ok tt ∧
  rr_result (run (sample_world 4000 Minute) 0 sample_claim dispatched_db) = Ok (sample_lease 4000) ∧
  rr_result (run (sample_world 5000 Minute) 0 (sample_work 4000) reclaimed_db) = Ok tt ∧
  state_in <$> [prepared_db; confirmed_db; claimed_db; dispatched_db; observed_db]
    = [None; Some Queued; Some Queued; Some WaitingProvider; Some Succeeded].
Proof. vm_compute. split_and!; reflexivity. Qed.

Lemma sample_machine : machine_inv sample_db.
Proof.
  split; unfold sample_db; simpl; intros *; rewrite ?lookup_empty; done.
Qed.

Lemma sample_unknown : unknown_held sample_db.
Proof. intros id o. unfold sample_db. simpl. by rewrite lookup_empty. Qed.

(** The four requests in order: one submission. *)
Lemma sample_reachable : ∃ s, reachable sample_dispatcher sample_db s ∧ ss_db s = dispatched_db ∧
  submitted (ss_trace s) = [sample_op].
Proof.
  pose proof (h_Prepare sample_dispatcher (Some sample_service) sample_principal wid rid power_on) as H1.
  pose proof (h_Confirm sample_dispatcher (Some sample_service) sample_principal wid "key-1" sample_confirmation "req-1") as H2.
  pose proof (h_Claim sample_dispatcher true (λ _, false) sample_owner) as H3.
  pose proof (h_Work sample_dispatcher (5 * Second) (sample_lease 2000)) as H4.
  destruct (serve _ _ (sample_world 100 0) (initial sample_db) (λ _ _, eq_refl) H1 eq_refl) as (s1 & R1 & T1 & D1 & C1).
  destruct (serve _ _ (sample_world 1000 0) s1 (λ _ _, eq_refl) H2 T1) as (s2 & R2 & T2 & D2 & C2).
  destruct (serve _ _ (sample_world 2000 0) s2 (λ _ _, eq_refl) H3 T2) as (s3 & R3 & T3 & D3 & C3).
  destruct (serve _ _ (sample_world 3000 0) s3 (λ _ _, eq_refl) H4 T3) as (s4 & R4 & _ & D4 & C4).
  rewrite D1 in D2, C2. rewrite D2 in D3, C3. rewrite D3 in D4, C4.
  exists s4. split_and!.
  - unfold reachable. etrans; [exact R1|]. etrans; [exact R2|]. etrans; [exact R3|exact R4].
  - exact D4.
  - rewrite submitted_calls, C4, C3, C2, C1. vm_compute. reflexivity.
Qed.
