(* ===== verification/Leases.v ===== *)
(** Leases: what [Claim] hands out, and why an outdated lease can no longer
    write ([job/lease.go], [job/prune.go]). *)
From S2P Require Import Prelude GoBase Identifier Roles Schema Tx TxLogic Wp Sample AuditLog Jobs.
From S2P Require Import Membership Grants Enqueue Connection Provider Intent Prog Recent Reviews.
From S2P Require Import Dispatch Control Machine Steps Refine Stranded Frames System Execution.
Local Open Scope Z_scope.

(** ** The order of claims *)

#[export] Instance due_order_total : Total due_order.
Proof. intros x y. unfold due_order. lia. Qed.
#[export] Instance due_order_trans : Transitive due_order.
Proof. intros x y z. unfold due_order. lia. Qed.

(** The first row of [ORDER BY] is one of the rows and precedes them all. *)
Lemma head_sorted {A} (R : relation A) `{!RelDecision R, !Total R, !Transitive R} (l : list A) x :
  head (merge_sort R l) = Some x → x ∈ l ∧ ∀ y, y ∈ l → R x y.
Proof.
  intros Hh. destruct (merge_sort R l) as [|x' m] eqn:E; simplify_eq/=.
  pose proof (merge_sort_Permutation R l) as P. pose proof (StronglySorted_merge_sort R l) as S.
  rewrite E in P, S. split; [rewrite <-P; constructor|].
  intros y. rewrite <-P. rewrite elem_of_cons. apply StronglySorted_inv in S as [_ S].
  rewrite Forall_forall in S. intros [->|?]; [|by apply S].
  destruct (total R x x) as [?|?]; done.
Qed.

(** What a committed [Claim] did: the earliest due row that nobody holds gets
    this owner's token until at most its deadline. *)
Record claimed (ops : bool) (locked : uuid → bool) (owner : uuid) (now : time) (d : db) (l : Lease) (d' : db) : Prop := {
  cm_row : ∃ j, jobs d !! ls_ID l = Some j ∧ due ops now j = true ∧ locked (ls_ID l) = false ∧
    jobs d' = <[ls_ID l := claim_row owner (ls_Token l) now j]> (jobs d) ∧
    ls_Workspace l = jb_workspace j ∧ ls_Connection l = jb_connection j ∧ ls_Deadline l = jb_deadline j;
  cm_first : ∀ k j, jobs d !! k = Some j → due ops now j = true → locked k = false →
    ∃ j0, jobs d !! ls_ID l = Some j0 ∧ due_order (ls_ID l, j0) (k, j);
  cm_owner : ls_Owner l = owner;
  cm_frame : operations d' = operations d ∧ resource_locks d' = resource_locks d;
}.

Lemma claim_sql_Some ops locked owner token now t d r d' :
  claim_sql ops locked owner token now t d = Some (r, d') →
  match r with
  | None => d' = d ∧ ∀ k j, jobs d !! k = Some j → due ops now j = true → locked k = true
  | Some (id, j') => ∃ j, jobs d !! id = Some j ∧ due ops now j = true ∧ locked id = false ∧
      j' = claim_row owner token now j ∧ d' = d <| jobs ::= <[id := j']> |> ∧
      ∀ k i, jobs d !! k = Some i → due ops now i = true → locked k = false → due_order (id, j) (k, i)
  end.
Proof.
  unfold claim_sql, candidate. set (f := filter _ _).
  assert (Hin : ∀ k j, (k, j) ∈ f ↔ jobs d !! k = Some j ∧ due ops now j = true ∧ locked k = false).
  { intros k j. unfold f. rewrite list_elem_of_filter, elem_of_map_to_list, andb_true_iff, negb_true_iff. naive_solver. }
  destruct (head (merge_sort due_order f)) as [[id j]|] eqn:Hh.
  - apply (head_sorted due_order) in Hh as [(Hj & Hd & Hl)%Hin Hfirst]. intros H. sql_inv H.
    exists j. split_and!; try done. intros k i Hk Hdk Hlk. apply Hfirst. by apply Hin.
  - intros [= <- <-]. split; [done|]. intros k j Hk Hd. destruct (locked k) eqn:Hl; [done|].
    destruct (merge_sort due_order f) as [|x m] eqn:E; [|done].
    pose proof (merge_sort_Permutation due_order f) as P. rewrite E in P. apply Permutation_nil in P.
    assert (Hf : (k, j) ∈ f) by (by apply Hin). rewrite P in Hf. by apply not_elem_of_nil in Hf.
Qed.

Lemma claim_sql_claimed ops locked owner token now t d id j d' :
  claim_sql ops locked owner token now t d = Some (Some (id, j), d') →
  claimed ops locked owner now d
    (MkLease (MkRecord Nil id (jb_workspace j) (jb_connection j) (jb_type j) (jb_payload_version j) (jb_deadline j))
       token owner) d'.
Proof.
  intros (j0 & Hj & Hd & Hl & -> & -> & Hf)%claim_sql_Some.
  split; [exists j0; by split_and!| |done|done].
  intros k i Hk Hdk Hlk. exists j0. split; [done|]. by apply Hf.
Qed.

Lemma Claim_spec ops locked owner d w e :
  wp (Claim ops locked owner)
     (λ r s', match r with
        | Ok l => claimed ops locked owner (en_clock e + en_skew e) d l (tx_db s')
        | Err err => tx_db s' = d ∧ (err = JobErrNoJob →
              ∀ k j, jobs d !! k = Some j → due ops (en_clock e + en_skew e) j = true → locked k = true)
            ∨ err = JobErrLease ∧ ∃ l, claimed ops locked owner (en_clock e + en_skew e) d l (tx_db s')
        end) (Txs d w e).
Proof.
  unfold Claim. do 2 wp_step; [left; split; [done|intros; done]|].
  guards. repeat wp_step.
  all: try solve [left; split; [done|intros; done]].
  - apply claim_sql_Some in H4 as [-> Hnone]. left. by split.
  - right. split; [done|]. eexists. by eapply claim_sql_claimed.
  - by eapply claim_sql_claimed.
Qed.

(** ** Outdated leases *)

(** The row no longer carries this lease, at any time. *)
Definition outdated (d : db) (l : Lease) : Prop :=
  ∀ j t, jobs d !! ls_ID l = Some j → holds t l (ls_ID l) j = false.

Lemma outdated_leased d l now id o : outdated d l → ¬ leased l d now id o.
Proof. intros H [_ _ _ (j & Hj & _ & Hh)]. by rewrite (H _ _ Hj) in Hh. Qed.

Lemma outdated_update d l p f t0 now n d' : outdated d l →
  (∀ t k j, p t k j = holds t0 l k j) → update_jobs p f now d = Some (n, d') → d' = d ∧ n = 0%nat.
Proof.
  intros Ho Hp H. apply update_jobs_Some in H as (Hn & -> & _).
  assert (Hno : ∀ k j, jobs d !! k = Some j → p now k j = false).
  { intros k j Hk. rewrite Hp. destruct (decide (k = ls_ID l)) as [->|Hne]; [by eapply Ho|].
    unfold holds. by rewrite bool_decide_eq_false_2. }
  split.
  - assert (Ht : (update_where (p now) (f now) (jobs d)).2 = jobs d).
    { apply map_eq. intros k. rewrite lookup_update_where. destruct (jobs d !! k) as [j|] eqn:Hk; simpl; [|done].
      by rewrite Hno. }
    rewrite Ht. by destruct d.
  - rewrite Hn. unfold update_where; simpl. apply map_size_empty_iff, map_eq. intros k. rewrite lookup_empty.
    apply map_lookup_filter_None. right. intros j Hk. by rewrite Hno.
Qed.

Lemma atomic_refused {A} fail (P : db → A → db → Prop) d r s' :
  atomic fail P d r s' → (∀ a d', ¬ P d a d') → (∃ err, r = Err err) ∧ tx_db s' = d.
Proof. destruct r as [a|err]; simpl; [intros H HP; by destruct (HP _ _ H)|]. intros [H|[_ [a H]]] HP; [eauto|by destruct (HP _ _ H)]. Qed.

Lemma Finish_outdated l st d w e : outdated d l →
  wp (Finish l st) (λ r s', r = Err JobErrLease ∧ tx_db s' = d) (Txs d w e).
Proof.
  intros Ho. unfold Finish. repeat wp_step. all: try done.
  all: match goal with H : update_jobs _ _ _ _ = Some _ |- _ =>
         eapply outdated_update in H as [-> ->]; [|exact Ho|done] end; done.
Qed.

Lemma Renew_outdated l d w e : outdated d l →
  wp (Renew l) (λ r s', r = Err JobErrLease ∧ tx_db s' = d) (Txs d w e).
Proof.
  intros Ho. unfold Renew, renew. repeat wp_step. all: try done.
  all: match goal with H : renew_sql _ _ _ _ = Some _ |- _ => unfold renew_sql in H end.
  all: destruct (jobs d !! ls_ID l) as [j|] eqn:Hj; simplify_eq; try done.
  all: rewrite (Ho _ _ Hj) in *; by simplify_eq.
Qed.

Section fencing.
Context `{U : UuidApi}.

Lemma mark_outdated s l pre d w e : outdated d l →
  wp (mark s l pre) (λ r s', (∃ err, r = Err err) ∧ tx_db s' = d) (Txs d w e).
Proof.
  intros Ho. eapply wp_mono; [apply mark_spec|]. intros r s' H. eapply atomic_refused; [exact H|].
  intros [[p r0] a] d' [(now & o & ar & L & _) _ _ _ _ _ _]. eapply outdated_leased; [exact Ho|apply L].
Qed.

Lemma receipt_outdated l result d w e : outdated d l →
  wp (receipt_commit l result) (λ r s', (∃ err, r = Err err) ∧ tx_db s' = d) (Txs d w e).
Proof.
  intros Ho. eapply wp_mono; [apply receipt_commit_spec|]. intros r s' H. eapply atomic_refused; [exact H|].
  intros [] d' [_ (now & p & r0 & o & ar & _ & _ & L & _)]. eapply outdated_leased; [exact Ho|apply L].
Qed.

Lemma reject_outdated l d w e : outdated d l →
  wp (reject_commit l) (λ r s', (∃ err, r = Err err) ∧ tx_db s' = d) (Txs d w e).
Proof.
  intros Ho. eapply wp_mono; [apply reject_commit_spec|]. intros r s' H. eapply atomic_refused; [exact H|].
  intros [] d' [_ (now & p & r0 & o & ar & L & _)]. eapply outdated_leased; [exact Ho|apply L].
Qed.

Lemma observe_outdated l p to delay d w e : outdated d l → dp_state p ≠ Unknown →
  wp (observe_commit l p to delay) (λ r s', (∃ err, r = Err err) ∧ tx_db s' = d) (Txs d w e).
Proof.
  intros Ho Hp. eapply wp_mono; [by apply observe_commit_spec|]. intros r s' H. eapply atomic_refused; [exact H|].
  intros [] d' [_ (now & q & r0 & o & ar & L & _)]. eapply outdated_leased; [exact Ho|apply L].
Qed.

Lemma claimed_outdates ops locked owner now d l l' d' :
  claimed ops locked owner now d l' d' → ls_ID l = ls_ID l' → ls_Token l ≠ ls_Token l' → outdated d' l.
Proof.
  intros [(j & Hj & _ & _ & Hjobs & _) _ _ _] Hid Ht k t. rewrite Hjobs, Hid, lookup_insert_eq.
  intros [= <-]. unfold holds. simpl. rewrite (bool_decide_eq_false_2 (ls_Token l' = ls_Token l)) by congruence.
  by rewrite !andb_false_r.
Qed.
End fencing.

(** A transaction from [d] that fails with an error of [E] and leaves [d]. *)
Definition refused_by {A} (E : error → Prop) (t : txm A) (d : db) (e : env) : Prop :=
  (∃ err, (t (Txs d d e)).1 = Err err ∧ E err) ∧ tx_db (t (Txs d d e)).2 = d.

Lemma refused_intro {A} (t : txm A) d e :
  wp t (λ r s', (∃ err, r = Err err) ∧ tx_db s' = d) (Txs d d e) → refused_by (λ _, True) t d e.
Proof. intros [[err Hr] Hd]. split; [by exists err|done]. Qed.

Lemma refused_lease {A} (t : txm A) d e :
  wp t (λ r s', r = Err JobErrLease ∧ tx_db s' = d) (Txs d d e) → refused_by (λ err, err = JobErrLease) t d e.
Proof. intros [Hr Hd]. split; [by exists JobErrLease|done]. Qed.

Lemma refused_not_ok {A} E (t : txm A) d e : refused_by E t d e → is_ok (t (Txs d d e)).1 = false.
Proof. by intros [(err & -> & _) _]. Qed.

Lemma refused_eq {A} err (t : txm A) d e : refused_by (λ x, x = err) t d e → (t (Txs d d e)).1 = Err err.
Proof. by intros [(x & -> & ->) _]. Qed.

Section worker.
Context `{U : UuidApi}.

Lemma load_outdated l d w e : outdated d l → outdated w l →
  wp (begin_tx OpErrStore ;; dispatchLoad l) (λ r _, ∃ err, r = Err err) (Txs d w e).
Proof.
  intros Hd Hw. unfold dispatchLoad. repeat wp_step; try by eexists.
  exfalso. match goal with H : leased_operation _ _ _ = Some _ |- _ => apply leased_operation_Some in H end.
  eapply outdated_leased; [|eassumption]. done.
Qed.

(** A worker whose lease is outdated when it loads its operation calls nobody. *)
Lemma Work_outdated disp delay l world i d : outdated (wo_meddle world i d) l →
  rr_calls (run world i (Work disp delay l) d) = [] ∧ ∃ err, rr_result (run world i (Work disp delay l) d) = Err err.
Proof.
  intros Ho. unfold Work. destruct (ds_Service disp) as [s|]; [|by eauto]. destruct (_ || _); [by eauto|].
  pose proof (load_outdated l _ (wo_meddle world i d) (wo_env world i) Ho Ho) as H. unfold wp in H.
  cbn [mbind prog_bind prog_bind_ preject mret prog_ret tx run].
  match type of H with context [?t (Txs ?x ?x ?e)] => destruct (t (Txs x x e)) as [r s'] eqn:E end.
  cbn [fst] in H. destruct H as [err ->]. simpl. eauto.
Qed.
End worker.

(** [Claim] hands out the earliest due job that no other transaction
    holds, of the kinds it was asked for: the row runs under this owner and a
    fresh token for at most a minute and never past the job's deadline, one
    attempt more is counted, and no other row changes.  It answers that there
    is no job only when no due row was free. *)
Theorem Claim_correct ops locked owner d w e :
  let now := en_clock e + en_skew e in
  let o := Claim ops locked owner (Txs d w e) in
  match o.1 with
  | Ok l => claimed ops locked owner now d l (tx_db o.2) ∧
      ∃ h, (jobs (tx_db o.2) !! ls_ID l ≫= jb_lease) = Some h ∧ hl_owner h = owner ∧ hl_token h = ls_Token l ∧
        hl_expires_at h <= ls_Deadline l ∧ hl_expires_at h <= now + Minute
  | Err err =>
      tx_db o.2 = d ∧ (err = JobErrNoJob → ∀ k j, jobs d !! k = Some j → due ops now j = true → locked k = true)
      ∨ err = JobErrLease ∧ ∃ l, claimed ops locked owner now d l (tx_db o.2)
  end.
Proof.
  intros now o. pose proof (Claim_spec ops locked owner d w e) as H. unfold wp in H. fold o in H. fold now in H.
  destruct o.1 as [l|err]; [|done]. split; [done|].
  destruct H as [(j & Hj & _ & _ & Hjobs & _ & _ & Hdl) _ _ _]. rewrite Hjobs, lookup_insert_eq. simpl.
  eexists. split; [done|]. simpl. unfold lease_time. rewrite Hdl. unfold Minute. split_and!; [done|done|lia|lia].
Qed.

(** C22. Fencing: once a job has been claimed again, every lease with another
    token on it is powerless.  Finishing and renewing fail with [ErrLease], the
    marker, the receipt, the rejection and the observation of a dispatch worker
    fail with an error too, and none of them changes the database; so a worker
    that was about to mark its operation does not go on to submit it, and one
    that begins, while the lease is outdated, ends in an error before any call. *)
Theorem lease_fencing `{U : UuidApi} ops locked owner d w e l l' s0 :
  Claim ops locked owner (Txs d w e) = (Ok l', s0) → ls_ID l = ls_ID l' → ls_Token l ≠ ls_Token l' →
  let d' := tx_db s0 in
  ∀ e', (∀ st, refused_by (λ err, err = JobErrLease) (Finish l st) d' e') ∧
        refused_by (λ err, err = JobErrLease) (Renew l) d' e' ∧
        (∀ s pre, refused_by (λ _, True) (mark s l pre) d' e') ∧
        (∀ result, refused_by (λ _, True) (receipt_commit l result) d' e') ∧
        refused_by (λ _, True) (reject_commit l) d' e' ∧
        (∀ p to delay, dp_state p ≠ Unknown → refused_by (λ _, True) (observe_commit l p to delay) d' e') ∧
        (∀ disp delay world i, outdated (wo_meddle world i d') l →
           let o := run world i (Work disp delay l) d' in rr_calls o = [] ∧ ∃ err, rr_result o = Err err).
Proof.
  intros Hc Hid Ht d' e'. pose proof (Claim_spec ops locked owner d w e) as H. unfold wp in H.
  rewrite Hc in H. simpl in H. assert (Ho : outdated d' l) by (by eapply claimed_outdates).
  split_and!; intros.
  - by apply refused_lease, Finish_outdated.
  - by apply refused_lease, Renew_outdated.
  - by apply refused_intro, mark_outdated.
  - by apply refused_intro, receipt_outdated.
  - by apply refused_intro, reject_outdated.
  - by apply refused_intro, observe_outdated.
  - by apply Work_outdated.
Qed.

(** The second claim of the sample job, a minute after the first. *)
#[local] Existing Instance rfc9562.
#[local] Abbreviation second_claim :=
  (Claim true (λ _, false) sample_owner (Txs dispatched_db dispatched_db
     (Env (sample_now + Minute) 0 [] [Some (sample_id 4000)] []))).

Lemma lease_fencing_witness : ∃ d', jobs d' ≠ ∅ ∧
  ∀ e', (Finish (sample_lease 2000) JSucceeded (Txs d' d' e')).1 = Err JobErrLease ∧
        is_ok (mark sample_service (sample_lease 2000) (MkPreconditions sample_fingerprint "web" true false) (Txs d' d' e')).1 = false.
Proof.
  assert (E : second_claim.1 = Ok (sample_lease 4000)) by (vm_compute; reflexivity).
  exists (tx_db second_claim.2). split; [by vm_compute|]. intros e'.
  destruct (lease_fencing true (λ _, false) sample_owner dispatched_db dispatched_db
    (Env (sample_now + Minute) 0 [] [Some (sample_id 4000)] []) (sample_lease 2000) (sample_lease 4000)
    second_claim.2) with (e' := e') as (H & _ & Hm & _).
  - rewrite <-E. apply surjective_pairing.
  - done.
  - by vm_compute.
  - split; [by apply (refused_eq _ _ _ _ (H _))|by apply (refused_not_ok _ _ _ _ (Hm _ _))].
Defined.

(** ** Pruning *)

Lemma size_without `{Countable K} {V} (ids : list K) (m : gmap K V) :
  (size m <= size (filter (λ '(k, _), k ∉ ids) m) + length ids)%nat.
Proof.
  induction ids as [|x ids IH]; simpl.
  - rewrite map_filter_id; [lia|]. intros k v _. by intros ?%not_elem_of_nil.
  - assert (E : filter (λ '(k, _), k ∉ x :: ids) m = delete x (filter (λ '(k, _), k ∉ ids) m)).
    { apply map_eq. intros k. apply option_eq. intros v.
      rewrite lookup_delete_Some, !map_lookup_filter_Some, not_elem_of_cons. naive_solver. }
    rewrite E, map_size_delete. destruct (_ !! x); simpl; lia.
Qed.

Lemma PruneTerminal_spec locked d w e :
  wp (PruneTerminal locked) (λ _ s', ∃ now ids,
    (tx_db s' = d ∨ tx_db s' = d <| jobs ::= filter (λ '(id, _), id ∉ ids) |>) ∧ (length ids <= 100)%nat ∧
    ∀ k, k ∈ ids → ∃ j, jobs d !! k = Some j ∧ prunable now d j = true ∧ locked k = false) (Txs d w e).
Proof.
  unfold PruneTerminal. repeat wp_step. all: simplify_eq/=.
  1: exists 0, []; split_and!; [by left|simpl; lia|by intros k ?%not_elem_of_nil].
  all: eexists _, _; split_and!; [by right|rewrite length_fmap, length_take; lia|].
  all: intros k ([k' j] & -> & Hin%selected_Some)%list_elem_of_fmap; destruct Hin as [Hk Hp]; guards; eauto.
Qed.

(** Pruning deletes at most a hundred jobs, each in a final state for more
    than seven days, and never the job of an operation that has not reached a
    final state; the jobs it keeps it does not change. *)
Theorem PruneTerminal_safe locked d w e :
  let d' := tx_db (PruneTerminal locked (Txs d w e)).2 in
  (∀ k j, jobs d' !! k = Some j → jobs d !! k = Some j) ∧
  (size (jobs d) <= size (jobs d') + 100)%nat ∧
  ∃ now, ∀ k j, jobs d !! k = Some j → jobs d' !! k = None →
    job_terminal (jb_state j) = true ∧ (∃ t, jb_completed_at j = Some t ∧ t < now - 7 * Day) ∧ locked k = false ∧
    ∀ id, jb_operation j = Some id → ∃ o, operations d !! id = Some o ∧ op_terminal (op_st o) = true.
Proof.
  intros d'. destruct (PruneTerminal_spec locked d w e) as (now & ids & Hd & Hlen & Hids).
  fold d' in Hd. destruct Hd as [->| ->].
  - split_and!; [done|lia|]. exists now. congruence.
  - cbn [jobs]. change (jobs (d <| jobs ::= filter (λ '(id, _), id ∉ ids) |>)) with (filter (λ '(id, _), id ∉ ids) (jobs d)).
    split_and!.
    + by intros k j [? _]%map_lookup_filter_Some.
    + pose proof (size_without ids (jobs d)). lia.
    + exists now. intros k j Hk Hn. assert (Hin : k ∈ ids).
      { destruct (decide (k ∈ ids)) as [|Hnin]; [done|]. exfalso.
        assert (filter (λ '(id, _), id ∉ ids) (jobs d) !! k = Some j) by (by apply map_lookup_filter_Some). congruence. }
      destruct (Hids _ Hin) as (j' & Hk' & Hp & Hl). simplify_eq. unfold prunable in Hp. guards.
      split_and!; [done| |done|].
      * destruct (jb_completed_at j) as [t|]; [|done]. exists t. by guards.
      * intros id Ho. rewrite Ho in *. destruct (operations d !! id) as [o|]; [|done]. exists o. by guards.
Qed.
