(* ===== verification/Safety.v ===== *)
(** What holds of every execution of the operation system: the headline
    properties of [internal/operation]. *)
From S2P Require Import Prelude GoBase Identifier Roles Schema Tx TxLogic Wp Sample AuditLog Jobs.
From S2P Require Import Membership Grants Enqueue Connection Provider Intent Prog Recent Reviews.
From S2P Require Import Dispatch Control Machine Steps Refine Stranded Frames System Execution.
Local Open Scope Z_scope.

(** ** What a submission needs *)

(** Everything the database must say for the call to be sent: the operation is
    queued and carries its review; its actor is still a member whose role and
    grant cover the class; the connection is active on the reviewed, unrevoked
    credential; the workspace policy is the reviewed one; the target is live
    and its state is the reviewed state; the recovery gate is open. *)
Record sanctioned `{U : UuidApi} (disp : Dispatcher) (d : db) (id : uuid) (b : Binding) (action native : string)
  (fp : bytes) : Prop := {
  sn_op : ∃ o ar, operations d !! id = Some o ∧ op_st o = Queued ∧
    action_reviews d !! op_review o = Some ar ∧ ar_consumed_by ar = Some id ∧
    action = op_action o ∧ fp = ar_precondition_hash ar ∧
    b = MkBinding (op_workspace o) (op_connection o) (bd_family b) (op_credential_version o) ∧
    open_workspace d (op_workspace o) = true ∧
    (let class := if ar_high_impact ar || snapshotAction action then "high_impact" else "operate" in
     ∃ m g, memberships d !! (op_workspace o, op_actor o) = Some m ∧ enabled d (op_actor o) = true ∧
       connection_grants d !! (op_workspace o, op_connection o, op_actor o) = Some g ∧
       "read" ∈ g ∧ class ∈ g ∧ WithinCeiling (mb_role m) class = true) ∧
    (∃ c, connections d !! op_connection o = Some c ∧ cn_status c = "active" ∧ cn_api_family c = bd_family b ∧
       active_credential d (op_workspace o) (op_connection o) c = Some (op_credential_version o) ∧
       action ∈ verified_capabilities c) ∧
    (∃ W s, ds_Service disp = Some s ∧ workspaces d !! op_workspace o = Some W ∧
       op_policy_version o = policyVersion (sv_policy s) (ws_policy_version W)) ∧
    (∃ r, resources d !! op_resource o = Some r ∧ rs_tombstoned_at r = None ∧ rs_native_id r = native ∧
       rs_resource_type r = targetType action);
  sn_gate : ∃ g, dispatch_recovery_gate d = Some g ∧ rg_open g = true;
}.

Section safety.
Context `{U : UuidApi} (disp : Dispatcher).

Lemma authorized_facts a action high : authorized a action high = true →
  au_kind a = targetType action ∧
  (let class := if high || snapshotAction action then "high_impact" else "operate" in
   WithinCeiling (au_role a) class = true ∧ class ∈ au_grants a) ∧ action ∈ au_verified a.
Proof. unfold authorized. intros H. guards. by split_and!. Qed.

Lemma active_credential_version d scope conn c v :
  active_credential d scope conn c = Some v → cn_active_version c = Some v.
Proof. unfold active_credential. intros H. sql_inv H. by simplify_eq. Qed.

Lemma warrants_sanctioned d d' id b quota action native fp :
  machine_inv d → warrants disp d d' (CSubmit id b quota action native fp) →
  sanctioned disp d id b action native fp.
Proof.
  intros I (s & lease & pre & p & r & a & Hs & M & [= -> -> _ -> -> ->]).
  destruct M as [(now & o & ar & L & Hq) A (Hbc & Hbv & Hpol) [Hauth _] Hgate Hfp _].
  destruct L as [Lo Ld Lp (Lr & Lw & La) ->].
  destruct Ld as [Hop Hws Hconn _]. 
  destruct (mi_review _ I _ _ Hop) as (ar' & Har & Hcons & Rw & Ract & Rconn & Rres & Raction & _ & Rcred & Rpol).
  assert (ar' = ar) as -> by congruence.
  assert (Hact : dp_actor p = op_actor o) by (by rewrite Lp).
  assert (Htgt : dp_target p = op_resource o) by (by rewrite Lp).
  rewrite Hact, Htgt, <-Hws in A. simpl in *.
  destruct A as [Ao (m & Hm & Hen & Hrole) [Hgr Hread] (rs & Hrs & _ & _ & Hts & _ & Hnat & Hty)
    (c & Hc & _ & Hst & _ & Hfam & _ & Hver & Hcred) (W & HW & HpolW) Hbw].
  destruct (authorized_facts _ _ _ Hauth) as (Hkind & [Hceil Hclass] & Hcap). simpl in *.
  rewrite Hbc, <-Hconn in Hgr, Hc, Hcred. rewrite Hbv, Rcred in Hcred.
  split; [|done]. exists o, ar. split_and!; try done.
  - destruct (au_binding a); simpl in *. congruence.
  - exists m, (au_grants a). rewrite <-Hrole. split_and!; done.
  - exists c. split_and!; try done; congruence.
  - exists W, s. split_and!; try done. congruence.
  - exists rs. split_and!; try done. congruence.
Qed.

Lemma sstep_steps s s' permit : sys_inv disp s permit → sstep disp s s' → steps (ss_db s) (ss_db s').
Proof.
  intros I Hs. destruct Hs as [i p Hp Hi|i B t k e Hi o|i c k r Hi|i|d' (Ho & Hl & He & Hk & _ & Hs)]; simpl; try done.
  - pose proof (si_guard _ _ _ I _ _ Hi) as Hg. simpl in Hg. specialize (Hg (ss_db s) e (si_machine _ _ _ I)).
    unfold o. by destruct (t (Txs (ss_db s) (ss_db s) e)); destruct Hg.
  - split; [by apply osteps_frame|]. intros id _. apply Hs.
Qed.

(** Between any two moments of an execution the database moves by the machine's steps. *)
Lemma later_steps d s s' : machine_inv d → reachable disp d s → rtc (sstep disp) s s' → steps (ss_db s) (ss_db s').
Proof.
  intros I Hr Hs. destruct (reachable_inv disp _ _ I Hr) as [permit Hi].
  assert (Hp : ∃ permit, sys_inv disp s permit) by eauto. clear Hi. revert Hp.
  induction Hs as [|s1 s2 s3 H1 _ IH]; intros [q Hq]; [done|].
  etrans; [by eapply sstep_steps|]. apply IH; [by eapply rtc_r|by eapply sstep_inv].
Qed.

Lemma reachable_machine d s : machine_inv d → reachable disp d s → machine_inv (ss_db s).
Proof. intros I Hr. destruct (reachable_inv disp _ _ I Hr) as [permit Hi]. apply Hi. Qed.
End safety.

(** C1. However workers, retries, recoveries, crashes and lost
    acknowledgements interleave, each operation is submitted to its provider
    at most once: the trace of an execution holds no two submissions of one
    operation. *)
Theorem submit_at_most_once `{U : UuidApi} disp d s :
  machine_inv d → reachable disp d s → NoDup (submitted (ss_trace s)).
Proof. intros I Hr. destruct (reachable_inv disp _ _ I Hr) as [permit Hi]. apply Hi. Qed.

Lemma submit_at_most_once_witness : ∃ s, reachable (U := rfc9562) sample_dispatcher sample_db s ∧
  submitted (ss_trace s) = [sample_op] ∧ NoDup (submitted (ss_trace s)).
Proof.
  destruct sample_reachable as (s & Hr & _ & Hs). exists s. split_and!; [done|done|].
  exact (submit_at_most_once (U := rfc9562) sample_dispatcher sample_db s sample_machine Hr).
Defined.

(** C2. Every submission is sanctioned: some earlier transaction of the
    execution moved the operation from [queued] to [dispatching] in a database
    where its actor's role and grant, the unrevoked reviewed credential, the
    reviewed policy version, the reviewed target state and the open recovery
    gate all held, and the call carries exactly the reviewed action, target,
    binding and fingerprint. *)
Theorem submit_sanctioned `{U : UuidApi} disp d s n id b quota action native fp :
  machine_inv d → reachable disp d s →
  ss_trace s !! n = Some (Called (CSubmit id b quota action native fp)) →
  ∃ m d1 d2 o, (m < n)%nat ∧ ss_trace s !! m = Some (Committed d1 d2) ∧
    sanctioned disp d1 id b action native fp ∧
    operations d2 !! id = Some o ∧ op_st o = Dispatching.
Proof.
  intros I Hr Hn. destruct (reachable_inv disp _ _ I Hr) as [permit Hi].
  destruct (si_marked _ _ _ Hi _ _ _ Hn eq_refl) as (m & d1 & d2 & Hm & Hc & Hw).
  destruct (warrants_submission _ _ _ _ Hw) as (id' & o & o' & [= <-] & _ & _ & Ho' & Hd).
  exists m, d1, d2, o'. split_and!; try done. eapply warrants_sanctioned; [|exact Hw].
  eapply (si_commits _ _ _ Hi), list_elem_of_lookup_2, Hc.
Qed.

(** The submission of the sample run. *)
Lemma submitted_lookup tr id : id ∈ submitted tr →
  ∃ n b quota action native fp, tr !! n = Some (Called (CSubmit id b quota action native fp)).
Proof.
  unfold submitted. intros ([d d'|c] & Hin & Hc)%list_elem_of_omap; [done|].
  apply list_elem_of_lookup in Hin as [n Hn]. destruct c; simplify_eq/=. eauto 10.
Qed.

Lemma submit_sanctioned_witness : ∃ d1 b action native fp,
  sanctioned (U := rfc9562) sample_dispatcher d1 sample_op b action native fp.
Proof.
  destruct sample_reachable as (s & Hr & _ & Hs).
  destruct (submitted_lookup (ss_trace s) sample_op) as (n & b & q & action & native & fp & Hn);
    [rewrite Hs; constructor|].
  destruct (submit_sanctioned (U := rfc9562) sample_dispatcher sample_db s n sample_op b q action native fp
    sample_machine Hr Hn) as (m & d1 & d2 & o & _ & _ & H & _).
  exists d1, b, action, native, fp. exact H.
Defined.

(** C3. No step of an execution loses an operation or rewrites its intent; its
    state follows the transitions of [Allowed]; once succeeded, failed or
    cancelled it stays so. *)
Theorem operation_lifecycle `{U : UuidApi} disp d s s' id o :
  machine_inv d → reachable disp d s → rtc (sstep disp) s s' → operations (ss_db s) !! id = Some o →
  ∃ o', operations (ss_db s') !! id = Some o' ∧ same_intent o o' ∧
    rtc allowed_step (op_st o) (op_st o') ∧ (terminal (op_st o) = true → op_st o' = op_st o).
Proof.
  intros I Hr Hs Ho. destruct (osteps_later _ _ _ _ (proj1 (later_steps disp _ _ _ I Hr Hs)) Ho) as (o' & Ho' & Hi & Hst & _).
  exists o'. split_and!; try done. intros Ht. by apply rtc_allowed_terminal.
Qed.

(** C4. Reservations exclude: of the operations that are not finished, no two
    are on the same target at the provider.  That counts the unknown ones too,
    whose effect may still be under way, but for those an owner has resolved:
    [ReleaseUnknown] takes an unknown operation's reservation away once an owner
    acknowledges the risk that remains, and from then on another operation may
    be accepted on the target beside the first one's effect. *)
Theorem reservations_exclude `{U : UuidApi} disp d s id id' o o' r r' :
  machine_inv d → unknown_held d → reachable disp d s →
  operations (ss_db s) !! id = Some o → operations (ss_db s) !! id' = Some o' →
  terminal (op_st o) = false → terminal (op_st o') = false →
  (op_st o = Unknown → ¬ resolved (ss_db s) id) → (op_st o' = Unknown → ¬ resolved (ss_db s) id') →
  resources (ss_db s) !! op_resource o = Some r → resources (ss_db s) !! op_resource o' = Some r' →
  target_of r = target_of r' → id = id'.
Proof.
  intros I Hun Hr Ho Ho' Ht Ht' Hu Hu' Hres Hres' Htgt. pose proof (reachable_machine disp _ _ I Hr) as J.
  pose proof (osteps_unknown _ _ (proj1 (later_steps disp d (initial d) s I (rtc_refl _ _) Hr)) I Hun) as Jun.
  destruct (unfinished_holds _ _ _ J Jun Ho Ht Hu) as (k & l & Hk & Hid).
  destruct (unfinished_holds _ _ _ J Jun Ho' Ht' Hu') as (k' & l' & Hk' & Hid').
  destruct (mi_lock _ J _ _ Hk) as (o1 & Ho1 & _ & r1 & Hr1 & Hw & Hc & Hkey).
  destruct (mi_lock _ J _ _ Hk') as (o2 & Ho2 & _ & r2 & Hr2 & Hw' & Hc' & Hkey').
  simplify_eq. assert (lock_key_of o r = lock_key_of o' r') by (unfold lock_key_of; congruence). congruence.
Qed.

(** C5. An operation the provider may have been asked to perform, or may still
    be, keeps its target reserved until an outcome is recorded: from [queued]
    through [dispatching], [waiting_provider] and [reconciling] it holds
    exactly one reservation, of its own target; a finished one holds none. *)
Theorem reservation_held `{U : UuidApi} disp d s id o :
  machine_inv d → reachable disp d s → operations (ss_db s) !! id = Some o →
  (terminal (op_st o) = false → op_st o ≠ Unknown →
   ∃ k l, resource_locks (ss_db s) !! k = Some l ∧ rl_operation l = id ∧ holds_target (ss_db s) k o ∧
     ∀ k' l', resource_locks (ss_db s) !! k' = Some l' → rl_operation l' = id → k' = k) ∧
  (terminal (op_st o) = true → ∀ k l, resource_locks (ss_db s) !! k = Some l → rl_operation l ≠ id).
Proof.
  intros I Hr Ho. pose proof (reachable_machine disp _ _ I Hr) as J. split.
  - intros Ht Hu. destruct (mi_reserved _ J _ _ Ho Ht Hu) as (k & l & Hk & Hid).
    destruct (mi_lock _ J _ _ Hk) as (o1 & Ho1 & _ & Htgt). rewrite Hid in *. simplify_eq.
    exists k, l. split_and!; try done. intros k' l' Hk' Hid'. eapply (mi_unique _ J); [done|done|congruence].
  - intros Ht k l Hk Hid. destruct (mi_lock _ J _ _ Hk) as (o1 & Ho1 & Hn & _). congruence.
Qed.

(** C6. The event log is the history: of every operation it records, without
    gap or repetition, a path of the machine from [queued] to the operation's
    present state, each event naming the states it joins. *)
Theorem event_log_complete `{U : UuidApi} disp d s id o :
  machine_inv d → reachable disp d s → operations (ss_db s) !! id = Some o →
  ∃ path, logged (operation_events (ss_db s)) id o path.
Proof. intros I Hr Ho. by eapply mi_log; [eapply reachable_machine|]. Qed.

(** C7. In one workspace an actor's idempotency key names at most one
    operation and a review is consumed by at most one, across all retries and
    concurrent confirmations; every operation carries the actor, connection,
    target, action, digest, credential version and policy version of the
    review it consumed. *)
Theorem operation_identity `{U : UuidApi} disp d s id o :
  machine_inv d → reachable disp d s → operations (ss_db s) !! id = Some o →
  reviewed (ss_db s) id o ∧
  ∀ id' o', operations (ss_db s) !! id' = Some o' → op_workspace o = op_workspace o' →
    op_review o = op_review o' ∨ op_actor o = op_actor o' ∧ op_idempotency_key o = op_idempotency_key o' →
    id = id'.
Proof.
  intros I Hr Ho. pose proof (reachable_machine disp _ _ I Hr) as J. split; [by eapply mi_review|].
  intros id' o' Ho' Hw Hor. by eapply (mi_key _ J).
Qed.

(** ** The properties on the sample run *)

(** The sample operation after its dispatch. *)
Lemma sample_dispatched : ∃ s o, reachable (U := rfc9562) sample_dispatcher sample_db s ∧
  operations (ss_db s) !! sample_op = Some o ∧ op_st o = WaitingProvider ∧ op_resource o = rid.
Proof.
  destruct sample_reachable as (s & Hr & Hd & _).
  assert (E : (λ o, (op_st o, op_resource o)) <$> operations dispatched_db !! sample_op = Some (WaitingProvider, rid))
    by (vm_compute; reflexivity).
  apply fmap_Some in E as (o & Ho & [= Hs Hres]). exists s, o. rewrite Hd. by split_and!.
Qed.

Lemma operation_lifecycle_witness : ∃ s o, reachable (U := rfc9562) sample_dispatcher sample_db s ∧
  operations (ss_db s) !! sample_op = Some o ∧ op_st o = WaitingProvider ∧
  ∃ o', operations (ss_db s) !! sample_op = Some o' ∧ same_intent o o'.
Proof.
  destruct sample_dispatched as (s & o & Hr & Ho & Hs & _). exists s, o. split_and!; [done..|].
  destruct (operation_lifecycle (U := rfc9562) sample_dispatcher sample_db s s sample_op o sample_machine Hr
    (rtc_refl _ _) Ho) as (o' & ? & ? & _). eauto.
Defined.

Lemma reservations_exclude_witness : ∃ s o, reachable (U := rfc9562) sample_dispatcher sample_db s ∧
  operations (ss_db s) !! sample_op = Some o ∧ op_st o = WaitingProvider ∧ sample_op = sample_op.
Proof.
  destruct sample_dispatched as (s & o & Hr & Ho & Hs & Hres). exists s, o. split_and!; [done..|].
  destruct (mi_reserved _ (reachable_machine sample_dispatcher _ _ sample_machine Hr) _ _ Ho) as (k & l & Hk & Hid);
    [by rewrite Hs..|].
  destruct (mi_lock _ (reachable_machine sample_dispatcher _ _ sample_machine Hr) _ _ Hk) as (o1 & Ho1 & _ & r & Hr1 & _).
  rewrite Hid in Ho1. assert (o1 = o) as -> by congruence.
  apply (reservations_exclude (U := rfc9562) sample_dispatcher sample_db s sample_op sample_op o o r r
    sample_machine sample_unknown Hr Ho Ho); rewrite ?Hs; done.
Defined.

Lemma reservation_held_witness : ∃ s k l, reachable (U := rfc9562) sample_dispatcher sample_db s ∧
  resource_locks (ss_db s) !! k = Some l ∧ rl_operation l = sample_op.
Proof.
  destruct sample_dispatched as (s & o & Hr & Ho & Hs & Hres).
  destruct (proj1 (reservation_held (U := rfc9562) sample_dispatcher sample_db s sample_op o sample_machine Hr Ho))
    as (k & l & ? & ? & _); [by rewrite Hs..|]. exists s, k, l. by split_and!.
Defined.

Lemma event_log_complete_witness : ∃ s o path, reachable (U := rfc9562) sample_dispatcher sample_db s ∧
  op_st o = WaitingProvider ∧ logged (operation_events (ss_db s)) sample_op o path.
Proof.
  destruct sample_dispatched as (s & o & Hr & Ho & Hs & _).
  destruct (event_log_complete (U := rfc9562) sample_dispatcher sample_db s sample_op o sample_machine Hr Ho) as [path Hp].
  exists s, o, path. by split_and!.
Defined.

Lemma operation_identity_witness : ∃ s o, reachable (U := rfc9562) sample_dispatcher sample_db s ∧
  reviewed (ss_db s) sample_op o.
Proof.
  destruct sample_dispatched as (s & o & Hr & Ho & _). exists s, o. split; [done|].
  exact (proj1 (operation_identity (U := rfc9562) sample_dispatcher sample_db s sample_op o sample_machine Hr Ho)).
Defined.
