(* ===== verification/Findings.v ===== *)
(** What modelling the package showed: disabling a connection cancels every
    queued job on it, and with them the job that polls a submitted operation.
    Nothing can ever move such an operation again. *)
From S2P Require Import Prelude GoBase Identifier Roles Schema Tx TxLogic Wp Sample AuditLog Jobs.
From S2P Require Import Membership Grants Enqueue Connection Provider Intent Prog Recent Reviews.
From S2P Require Import Dispatch Control Machine Steps Refine Stranded Frames System Execution.
From S2P Require Import Safety.
Local Open Scope Z_scope.

Lemma count_where_pos `{Countable K} {V} (p : K → V → bool) (m : gmap K V) k v :
  m !! k = Some v → p k v = true → 0 < count_where p m.
Proof.
  intros Hk Hp. unfold count_where.
  assert (Hf : filter (λ '(k, v), p k v = true) m !! k = Some v) by (by apply map_lookup_filter_Some).
  destruct (size (filter (λ '(k, v), p k v = true) m)) eqn:E; [|lia].
  apply map_size_empty_iff in E. by rewrite E, lookup_empty in Hf.
Qed.

(** An operation in flight keeps the recovery gate closed. *)
Lemma in_flight_closed d id o : operations d !! id = Some o → in_flight (op_st o) = true → 0 < count_unresolved d.
Proof. intros Ho Hf. eapply count_where_pos; [exact Ho|]. unfold unresolved. by rewrite Hf. Qed.

Lemma SetRecovery_refused version d e : 0 < count_unresolved d → (SetRecovery true version (Txs d d e)).1 ≠ Ok tt.
Proof.
  intros Hc Hok. pose proof (SetRecovery_spec true version d d e) as H. unfold wp in H. rewrite Hok in H.
  destruct H as [_ (g & t & v & _ & _ & _ & Hz)]. destruct (Hz eq_refl). lia.
Qed.

Lemma disabled_stranded actor scope conn d d' id o :
  connection_disabled actor scope conn d d' → operations d !! id = Some o → in_flight (op_st o) = true →
  (∀ k j, jobs d !! k = Some j → jb_operation j = Some id → queued_on scope conn j = true) → stranded d' id.
Proof.
  intros [_ _ [t Hj] (Ho & _)] Hop Hf Hq. split; [exists o; by rewrite Ho|].
  intros k j'. rewrite Hj, lookup_fmap. intros (j & Hk & ->)%fmap_Some Hjo.
  destruct (queued_on scope conn j) eqn:E; [done|]. rewrite (Hq _ _ Hk Hjo) in E. done.
Qed.

Lemma in_flight_reserved s : in_flight s = true → terminal s = false ∧ s ≠ Unknown.
Proof. by destruct s. Qed.

(** C21. Disabling a connection strands a submitted operation that waits for
    its next poll: its only job is queued, so [Disable] cancels it, and from
    then on, in every execution, whatever anyone requests, the operation stays
    in flight with its target reserved, and the recovery gate cannot be
    reopened.  The comment in the source says the statement cancels only
    unsent refresh records. *)
Theorem Disable_strands `{U : UuidApi} disp actor scope conn request d e s1 id o c :
  machine_inv d → Disable actor scope conn request (Txs d d e) = (Ok tt, s1) →
  connections d !! conn = Some c → cn_status c ≠ "disabled" →
  operations d !! id = Some o → in_flight (op_st o) = true →
  (∀ k j, jobs d !! k = Some j → jb_operation j = Some id → queued_on scope conn j = true) →
  ∀ s', rtc (sstep disp) (initial (tx_db s1)) s' →
    operations (ss_db s') !! id = Some o ∧ holds_lock (ss_db s') id ∧
    ∀ version e', (SetRecovery true version (Txs (ss_db s') (ss_db s') e')).1 ≠ Ok tt.
Proof.
  intros I Hd Hc Hst Ho Hf Hq s' Hs. pose proof (Disable_spec actor scope conn request d d e) as W.
  unfold wp in W. rewrite Hd in W. destruct W as [[_ (c' & ? & ?)]|D]; [congruence|]. simpl in D.
  assert (Hstr : stranded (tx_db s1) id) by (by eapply disabled_stranded).
  assert (I1 : machine_inv (tx_db s1)).
  { eapply osteps_inv; [|exact I]. pose proof (proj1 (oframe_sound _ (frame_Disable actor scope conn request)) d e I) as F.
    by rewrite Hd in F. }
  destruct (later_steps disp _ (initial (tx_db s1)) s' I1 ltac:(apply rtc_refl) Hs) as [_ Hsp].
  specialize (Hsp id Hstr). simpl in Hsp.
  assert (Ho' : operations (ss_db s') !! id = Some o) by (rewrite (proj1 Hsp); destruct D as [_ _ _ (-> & _)]; done).
  pose proof (reachable_machine disp _ s' I1 Hs) as I2. destruct (in_flight_reserved _ Hf).
  split_and!; [done|by eapply mi_reserved|]. intros version e'. by eapply SetRecovery_refused, in_flight_closed.
Qed.

#[local] Existing Instance rfc9562.
#[local] Abbreviation disable_run :=
  (Disable alice wid cid "req-9" (Txs dispatched_db dispatched_db (sample_env 900))).

Lemma Disable_strands_witness : ∃ d o, operations d !! sample_op = Some o ∧ op_st o = WaitingProvider ∧
  ∀ s', rtc (sstep sample_dispatcher) (initial d) s' → operations (ss_db s') !! sample_op = Some o.
Proof.
  destruct sample_reachable as (s & Hr & Hd & _).
  pose proof (reachable_machine sample_dispatcher _ _ sample_machine Hr) as I. rewrite Hd in I.
  assert (E : (λ o, op_st o) <$> operations dispatched_db !! sample_op = Some WaitingProvider) by (vm_compute; reflexivity).
  apply fmap_Some in E as (o & Ho & Hst).
  assert (Er : disable_run.1 = Ok tt) by (vm_compute; reflexivity).
  assert (Ec : cn_status <$> connections dispatched_db !! cid = Some "active") by (vm_compute; reflexivity).
  apply fmap_Some in Ec as (c & Hc & Hcs).
  assert (Ej : bool_decide (map_Forall (λ _ j, jb_operation j = Some sample_op → queued_on wid cid j = true)
                 (jobs dispatched_db)) = true) by (vm_compute; reflexivity).
  apply bool_decide_eq_true in Ej.
  pose proof (Disable_strands sample_dispatcher alice wid cid "req-9" dispatched_db (sample_env 900) disable_run.2
    sample_op o c I ltac:(rewrite <-Er; apply surjective_pairing) Hc ltac:(by rewrite <-Hcs) Ho
    ltac:(by rewrite <-Hst) Ej) as H.
  exists (tx_db disable_run.2), o. split_and!; [|done|].
  - destruct (H _ (rtc_refl _ _)) as [H0 _]. exact H0.
  - intros s' Hs'. by destruct (H s' Hs').
Defined.
