(* ===== verification/Contracts.v ===== *)
(** The contracts of the entry points of [internal/operation]: what each
    request did when it succeeded, and that it did nothing when it failed,
    unless the failure is that of a COMMIT whose outcome is unknown. *)
From S2P Require Import Prelude GoBase Identifier Roles Schema Tx TxLogic Wp Sample AuditLog Jobs.
From S2P Require Import Membership Grants Enqueue Connection Provider Intent Prog Recent Reviews.
From S2P Require Import Dispatch Control Machine Steps Refine.
Local Open Scope Z_scope.

(** No reservation of the workspace is the operation's. *)
Definition unreserved (d : db) (ws id : uuid) : Prop :=
  ∀ k l, resource_locks d !! k = Some l → lock_ws k = ws → rl_operation l ≠ id.

Lemma unlocked_unreserved d ws id t : resource_locks d = unlocked ws id t → unreserved d ws id.
Proof. intros Hl k l. rewrite Hl. intros [_ Hn]%unlocked_Some ? ?. by apply Hn. Qed.

Section contracts.
Context `{U : UuidApi}.

(** C20. [Confirm] is idempotent and all-or-nothing: its transaction either
    answers with the operation already made under this key, changing nothing,
    or it checks the review again against current authority and writes the
    operation, its job, its reservation, its first event and the consumption
    of the review together; on an error it wrote nothing, unless the COMMIT
    itself failed. *)
Theorem Confirm_correct s p scope key c request hash pre :
  contract OpErrStore (confirm_commit s p scope key c request hash pre) (λ d a d',
    d' = d ∧ repeated (pr_UserID p) scope key hash a d ∨
    ac_State a = Queued ∧ confirmed s p scope key c hash pre (ac_ID a) d d').
Proof. eapply contract_wp; [intros; apply confirm_commit_spec|done]. Qed.

(** [Prepare] stores a review only under current authority for the class
    of the inspected action, with a recent re-authentication when the impact
    is high and below the workspace's quota; the review carries the inspected
    state, the current versions and the digest of the intent, expires within
    five minutes, and nothing else changes. *)
Theorem Prepare_correct s p scope target i a pre :
  contract OpErrStore (prepare_commit s p scope target i a pre) (λ d v d', prepared s p scope target i a pre v d d').
Proof. eapply contract_wp; [intros; apply prepare_commit_spec|done]. Qed.

(** [Cancel] succeeds only for an operation still queued, by a member whose
    role and grant cover it: the operation is cancelled, its reservation is
    released and no job of it can run. *)
Theorem Cancel_correct s p scope id request :
  contract OpErrStore (Cancel s p scope id request) (λ d a d',
    a = MkAccepted id Cancelled ∧
    (∃ o role o', may_control d (pr_UserID p) scope id o role ∧ op_st o = Queued ∧
       operations d' !! id = Some o' ∧ op_st o' = Cancelled ∧ same_intent o o') ∧
    unreserved d' scope id ∧
    ∀ k j, jobs d' !! k = Some j → job_of scope id j = true → live_job j = false).
Proof.
  eapply contract_wp; [intros; apply Cancel_spec|]. intros d a d' [-> [(o & role & Hc & Hq) (w & M & F) Hj]].
  split_and!; try done.
  - destruct M as [_ (o1 & t & Ho1 & _ & _ & Hops & _) _ _]. destruct (cl_op _ _ _ _ _ _ Hc) as [Ho _].
    assert (o1 = o) as -> by congruence.
    exists o, role, (moved o Cancelled t). rewrite (fr_ops _ _ F), Hops, lookup_insert_eq. by split_and!.
  - eapply unlocked_unreserved. rewrite (fr_locks _ _ F). apply M.
Qed.

(** [Recheck] reopens an unknown operation only while it still holds its
    reservation: it returns to [reconciling], never to a state that could
    submit again, with its reservation in place; a repeated request on one
    that is reconciling changes nothing. *)
Theorem Recheck_correct s p scope id request :
  contract OpErrStore (Recheck s p scope id request) (λ d a d',
    a = MkAccepted id Reconciling ∧ ∃ o role, may_control d (pr_UserID p) scope id o role ∧
    (op_st o = Reconciling ∧ d' = d ∨
     op_st o = Unknown ∧ holds_lock d id ∧ resource_locks d' = resource_locks d ∧
     ∃ o', operations d' !! id = Some o' ∧ op_st o' = Reconciling ∧ same_intent o o')).
Proof.
  eapply contract_wp; [intros; apply Recheck_spec|]. intros d a d' [-> H]. split; [done|].
  destruct H as [[-> (o & role & Hc & Hs)]|[(o & role & Hc & Hs) Hl (w0 & w & F & M & F')]].
  - exists o, role. split; [done|]. by left.
  - exists o, role. split; [done|]. right. destruct M as [_ (o1 & t & Ho1 & _ & _ & Hops & _) Hlk _].
    destruct (cl_op _ _ _ _ _ _ Hc) as [Ho _]. rewrite (fr_ops _ _ F) in Ho1.
    assert (o1 = o) as -> by congruence. simpl in Hlk.
    split_and!; [done|done|by rewrite (fr_locks _ _ F'), Hlk, (fr_locks _ _ F)|].
    exists (moved o Reconciling t). rewrite (fr_ops _ _ F'), Hops, lookup_insert_eq. by split_and!.
Qed.

(** A reservation of an operation whose outcome is unknown is given up only
    by an enabled owner of the workspace who holds the high-impact grant, has
    acknowledged the residual risk and typed the target's name; the operation
    stays unknown, the other reservations stay, and the decision is recorded
    with its audit event. *)
Theorem ReleaseUnknown_correct s p scope id input request :
  contract OpErrStore (ReleaseUnknown s p scope id input request) (λ d a d',
    a = MkAccepted id Unknown ∧ rn_Acknowledged input = true ∧
    (∃ o ar, may_control d (pr_UserID p) scope id o "owner" ∧ op_st o = Unknown ∧
       "high_impact" ∈ granted d scope (op_connection o) (pr_UserID p) ∧
       action_reviews d !! op_review o = Some ar ∧ ar_target_name ar = rn_Target input) ∧
    operations d' = operations d ∧ holds_lock d id ∧ unreserved d' scope id ∧
    (∀ k l, resource_locks d !! k = Some l → rl_operation l ≠ id → resource_locks d' !! k = Some l) ∧
    ∃ k n, operation_resolutions d' !! k = Some (OperationResolution scope id (pr_UserID p) n) ∧
      is_Some (audit_events d' !! n)).
Proof.
  eapply contract_wp; [intros; apply ReleaseUnknown_spec|].
  intros d a d' [-> [(o & Hc & Hs & Hg & ar & Har & Hn) Hack Hheld Hl (Ho & _) (k & n & _ & Hx & Hau)]].
  split_and!; try done; [eauto 10|by eapply unlocked_unreserved| |].
  - intros k' l Hk Hne. rewrite Hl. apply unlocked_Some. split; [done|]. by intros [_ ?].
  - exists k, n. by rewrite Hx, lookup_insert_eq.
Qed.

(** The recovery gate is reopened only by a caller who names its current
    version, and only when no operation is in flight or unknown with a
    reservation; every change moves the version, so of two callers with one
    version at most one reopens it. *)
Theorem SetRecovery_correct open version :
  contract OpErrStore (SetRecovery open version) (λ d _ d',
    ∃ g g', dispatch_recovery_gate d = Some g ∧ dispatch_recovery_gate d' = Some g' ∧
      rg_open g' = open ∧ rg_version g' = rg_version g + 1 ∧
      (open = true → version = rg_version g ∧
         ∀ id o, operations d !! id = Some o → in_flight (op_st o) = false ∧ (op_st o = Unknown → ¬ holds_lock d id))).
Proof.
  eapply contract_wp; [intros; apply SetRecovery_spec|].
  intros d a d' [_ (g & t & v & Hg & -> & Hg' & Hop)]. eexists g, _. split_and!; try done.
  intros Ht. destruct (Hop Ht) as [Hv Hc]. split; [done|]. intros id o Ho.
  assert (Hu : unresolved d id o = false).
  { apply not_true_is_false. intros Hu. unfold count_unresolved, count_where in Hc.
    assert (Hf : filter (λ '(k, v), unresolved d k v = true) (operations d) !! id = Some o)
      by (by apply map_lookup_filter_Some).
    assert (size (filter (λ '(k, v), unresolved d k v = true) (operations d)) = 0%nat) as E by lia.
    apply map_size_empty_iff in E. by rewrite E, lookup_empty in Hf. }
  unfold unresolved in Hu. apply orb_false_iff in Hu as [Hu1 Hu2]. split; [done|]. intros Hun (k & l & Hk & Hid).
  rewrite Hun, bool_decide_eq_true_2 in Hu2 by done. simpl in Hu2.
  assert (exists_where (λ _ l, bool_decide (rl_operation l = id)) (resource_locks d) = true); [|congruence].
  apply exists_where_true. exists k, l. split; [done|]. by apply bool_decide_eq_true.
Qed.
End contracts.
