(* ===== verification/Adapter.v ===== *)
(** What the adapters of [internal/provider] are made of: sequences of bounded
    requests, and the contract of a port that reviews, submits and observes
    one action.

    A [net S A] is one call of an adapter whose client keeps a state [S]; turn
    [n] of it is answered by [w n].  What it does outside is its trace.  Every
    adapter file proves that its ports meet [Port_ok]; what the worker may
    conclude from a receipt is proved here against that interface. *)
From S2P Require Import Prelude GoBase Identifier Schema Connection Provider Intent Endpoint Outbound Facts.
Local Open Scope Z_scope.

(** ** Calls *)

(** [net/http]'s dates and [net/url]. *)
Class Web := {
  web_ParseTime : string → option time; web_Parse : string → option URL; web_String : URL → string }.

(** [time.Parse] with the layouts [RFC3339] and [DateTime]; of the latter only
    whether it succeeds matters. *)
Class Clock := { Parse_RFC3339 : string → option time; Parse_DateTime : string → bool }.

(** One turn from outside: the turns of an exchange, the clock, a fresh
    [uuid.NewRandom], a random draw, and whether the call's context outlives a wait. *)
Record Turn := MkTurn {
  tn_exchange : nat → Attempt; tn_now : time; tn_uuid : option uuid; tn_rand : Z; tn_waited : bool }.

Definition net (S A : Type) : Type := (nat → Turn) → nat → S → A * nat * S * list event.

#[export] Instance net_ret {S} : MRet (net S) := λ A a w n s, (a, n, s, []).
#[export] Instance net_bind {S} : MBind (net S) := λ A B k m w n s,
  let '(a, n, s, tr) := m w n s in
  let '(b, n, s, tr') := k a w n s in (b, n, s, tr ++ tr').

Definition try_net {S A B} (k : A → net S (go B)) (m : net S (go A)) : net S (go B) :=
  r ← m; match r with Ok a => k a | Err e => mret (Err e) end.
Notation "'let!' x := m 'in' k" := (try_net (λ x, k) m)
  (at level 10, x pattern, m at level 100, k at level 200, only parsing).

Definition state {S} : net S S := λ w n s, (s, n, s, []).
Definition set_state {S} (s : S) : net S unit := λ w n _, (tt, n, s, []).
Definition turn {S A} (f : Turn → A * list event) : net S A := λ w n s,
  let '(a, tr) := f (w n) in (a, Datatypes.S n, s, tr).
Definition Now {S} : net S time := turn (λ t, (tn_now t, [])).
Definition NewRandom {S} : net S (option uuid) := turn (λ t, (tn_uuid t, [])).

Section requests.
Context `{W : Web} {S : Type}.

(** The last case cannot arise: there is somewhere to decode into. *)
Definition decoded {A} (r : go (option A)) : go A :=
  match r with Ok (Some v) => Ok v | Ok None => Err InvalidResponse | Err e => Err e end.

Definition Get {A} (b expected : Binding) (p : Profile) (client : option Client) (raw token : string)
  (out : bytes → option A) : net S (go A) :=
  turn (λ t, let '(r, tr) := GetJSON web_ParseTime web_Parse web_String b expected p client raw token (Some out)
                               (tn_exchange t) in (decoded r, tr)).

Definition Post {A} (b expected : Binding) (p : Profile) (client : option Client) (raw token : string) (body : bytes)
  (out : option (bytes → option A)) : net S (Receipt * option error * option A) :=
  turn (λ t, PostMutation web_ParseTime web_Parse web_String b expected p client raw token body out (tn_exchange t)).

Definition Delete (b expected : Binding) (p : Profile) (client : option Client) (raw token : string)
  : net S (Receipt * option error) :=
  turn (λ t, DeleteSnapshotRequest web_ParseTime web_Parse web_String b expected p client raw token (tn_exchange t)).

Definition GetStatus {A} (b expected : Binding) (p : Profile) (client : option Client) (raw token : string)
  (out : bytes → option A) : net S (Z * go A) :=
  turn (λ t, let '(code, r, tr) := SnapshotJSONStatus web_ParseTime web_Parse web_String b expected p client raw token
                                     (Some out) (tn_exchange t) in ((code, decoded r), tr)).
End requests.

(** How every submission begins: the target is inspected again, and nothing
    leaves unless the action is still allowed and the facts are those reviewed. *)
Definition none : Receipt := MkReceipt "" "".
Definition rejected : Receipt := MkReceipt "rejected" "".
Definition ambiguous : Receipt := MkReceipt "ambiguous" "".

Definition reviewed {S} (inspect : net S (go Preconditions)) (fingerprint : bytes)
  (submit : net S (Receipt * option error)) : net S (Receipt * option error) :=
  pre ← inspect;
  match pre with
  | Err e => mret (none, Some e)
  | Ok pre =>
      if negb (pre_Allowed pre) || negb (bool_decide (pre_Fingerprint pre = fingerprint))
      then mret (rejected, None)
      else submit
  end.

Definition pending : ActionObservation := MkActionObservation "pending" false.
Definition unknown : ActionObservation := MkActionObservation "unknown" false.
Definition succeeded : ActionObservation := MkActionObservation "succeeded" true.
Definition action_failed : ActionObservation := MkActionObservation "failed" true.

(** ** Mutations *)

(** The only [POST] that changes nothing at a provider fetches a token. *)
Definition mutates (q : Request) : bool :=
  negb (bool_decide (rq_Method q = "GET")) && negb (bool_decide (Hostname (rq_URL q) = pf_host ContaboAuth)).
Definition mutation (e : event) : bool := match e with Sent q _ => mutates q | _ => false end.
Definition mutations (tr : list event) : list event := filter (λ e, mutation e = true) tr.

Lemma mutations_app tr tr' : mutations (tr ++ tr') = mutations tr ++ mutations tr'.
Proof. apply filter_app. Qed.

Lemma mutations_nil tr : mutations tr = [] ↔ ∀ q code, Sent q code ∈ tr → mutates q = false.
Proof.
  unfold mutations. split.
  - intros H q code Hq. destruct (mutates q) eqn:E; [|done]. exfalso.
    apply (not_elem_of_nil (Sent q code)). rewrite <-H. by apply list_elem_of_filter.
  - intros H. induction tr as [|e tr IH]; [done|]. rewrite filter_cons_False.
    + apply IH. intros q code Hq. apply (H q code). by right.
    + destruct e; try done. simpl. rewrite (H request status) by left. done.
Qed.

(** [does m Q]: whatever the outside answers, [m] ends with a result and a
    trace that satisfy [Q]. *)
Definition does {S A} (m : net S A) (Q : A → list event → Prop) : Prop :=
  ∀ w n s a n' s' tr, m w n s = (a, n', s', tr) → Q a tr.
Definition quiet {S A} (m : net S A) : Prop := does m (λ _ tr, mutations tr = []).

Section does.
Context {S : Type}.

Lemma does_ret {A} (a : A) (Q : A → list event → Prop) : Q a [] → does (S := S) (mret a) Q.
Proof. intros HQ w n s a' n' s' tr [= <- <- <- <-]. done. Qed.

Lemma does_bind {A B} (m : net S A) (k : A → net S B) P Q :
  does m P → (∀ a tr, P a tr → does (k a) (λ b tr', Q b (tr ++ tr'))) → does (m ≫= k) Q.
Proof.
  intros Hm Hk w n s b n' s' tr. unfold mbind, net_bind. destruct (m w n s) as [[[a n1] s1] tr1] eqn:E.
  destruct (k a w n1 s1) as [[[b' n2] s2] tr2] eqn:E'. intros [= <- <- <- <-]. eapply Hk; eauto.
Qed.

Lemma does_mono {A} (m : net S A) (P Q : A → list event → Prop) :
  does m P → (∀ a tr, P a tr → Q a tr) → does m Q.
Proof. intros Hm HPQ w n s a n' s' tr H. eauto. Qed.

Lemma does_turn {A} (f : Turn → A * list event) (Q : A → list event → Prop) :
  (∀ t a tr, f t = (a, tr) → Q a tr) → does (S := S) (turn f) Q.
Proof. intros HQ w n s a n' s' tr. unfold turn. destruct (f (w n)) eqn:E. intros [= <- <- <- <-]. eauto. Qed.

Lemma quiet_bind {A B} (m : net S A) (k : A → net S B) : quiet m → (∀ a, quiet (k a)) → quiet (m ≫= k).
Proof.
  intros Hm Hk. eapply does_bind; [exact Hm|]. intros a tr Htr. eapply does_mono; [apply Hk|].
  intros b tr' Htr'. by rewrite mutations_app, Htr, Htr'.
Qed.

(** After something quiet, the mutations are those of the rest. *)
Lemma does_quiet_bind {A B} (m : net S A) (k : A → net S B) (Q : B → list event → Prop) :
  quiet m → (∀ a, does (k a) (λ b tr, Q b (mutations tr))) → does (m ≫= k) (λ b tr, Q b (mutations tr)).
Proof.
  intros Hm Hk. eapply does_bind; [exact Hm|]. intros a tr Htr. eapply does_mono; [apply Hk|].
  intros b tr' H. by rewrite mutations_app, Htr.
Qed.

Lemma quiet_ret {A} (a : A) : quiet (S := S) (mret a).
Proof. by apply does_ret. Qed.
Lemma quiet_state : quiet (S := S) state.
Proof. intros w n s a n' s' tr [= <- <- <- <-]. done. Qed.
Lemma quiet_set_state (s : S) : quiet (set_state s).
Proof. intros w n s0 a n' s' tr [= <- <- <- <-]. done. Qed.
Lemma quiet_Now : quiet (S := S) Now.
Proof. apply does_turn. by intros t a tr [= <- <-]. Qed.
Lemma quiet_NewRandom : quiet (S := S) NewRandom.
Proof. apply does_turn. by intros t a tr [= <- <-]. Qed.
Lemma quiet_try {A B} (m : net S (go A)) (k : A → net S (go B)) : quiet m → (∀ a, quiet (k a)) → quiet (try_net k m).
Proof. intros Hm Hk. apply quiet_bind; [done|]. intros [a|e]; [done|apply quiet_ret]. Qed.
End does.

(** ** Requests *)

(** What a submission may say of the mutations that left: nothing or a
    rejection when none had an effect, an acceptance only of one the provider
    answered with success. *)
Record receipt_means (r : Receipt * option error) (l : list event) : Prop := {
  rm_once : (length l ≤ 1)%nat;
  rm_outcome : rc_Outcome r.1 ∈ [""; "rejected"; "ambiguous"; "accepted"];
  rm_none : rc_Outcome r.1 = "" → l = [] ∧ is_Some r.2;
  rm_rejected : rc_Outcome r.1 = "rejected" → r.2 = None ∧ rc_Reference r.1 = "" ∧
    ∀ q code, Sent q code ∈ l → ∃ c, code = Some c ∧ c ∈ definite;
  rm_accepted : rc_Outcome r.1 = "accepted" → r.2 = None ∧ answered l (λ c, 200 <= c < 300);
  rm_reference : rc_Reference r.1 ≠ "" → rc_Outcome r.1 = "accepted";
}.

Ltac means := split; simpl; try done; try lia; try (by set_solver).

Lemma means_rejected : receipt_means (rejected, None) [].
Proof. means. Qed.
Lemma means_none e : receipt_means (none, Some e) [].
Proof. means. Qed.

Section requests_ok.
Context `{W : Web} {S : Type}.

Lemma GetJSON_reads {A} b expected p client raw token (out : option (bytes → option A)) world :
  mutations (GetJSON web_ParseTime web_Parse web_String b expected p client raw token out world).2 = [].
Proof.
  apply mutations_nil. unfold GetJSON. destruct (prepared _ _ _ _ _ _ _ _ _ _) as [[c request]|e] eqn:Hp.
  2: { by intros q code ?%elem_of_nil. }
  pose proof (RequestJSON_contained web_ParseTime c request out world) as [_ Hq _ _].
  destruct (RequestJSON _ _ _ _ _) as [r tr]. intros q code [-> _]%Hq.
  apply prepared_Ok in Hp as (_ & _ & Hm & _). unfold mutates. by rewrite Hm.
Qed.

Lemma quiet_Get {A} b expected p client raw token (out : bytes → option A) :
  quiet (S := S) (Get b expected p client raw token out).
Proof.
  apply does_turn. intros t a tr. pose proof (GetJSON_reads b expected p client raw token (Some out) (tn_exchange t)) as H.
  destruct (GetJSON _ _ _ _ _ _ _ _ _ _ _) as [r tr']. by intros [= <- <-].
Qed.

Lemma quiet_GetStatus {A} b expected p client raw token (out : bytes → option A) :
  quiet (S := S) (GetStatus b expected p client raw token out).
Proof.
  apply does_turn. intros t a tr. unfold SnapshotJSONStatus. destruct client as [c|]; [|by intros [= <- <-]].
  pose proof (GetJSON_reads b expected p (Some c) raw token (Some out) (tn_exchange t)) as H.
  destruct (GetJSON _ _ _ _ _ _ _ _ _ _ _) as [r tr']. by intros [= <- <-].
Qed.

Lemma mutations_once tr : (length (sent tr) ≤ 1)%nat → (length (mutations tr) ≤ 1)%nat.
Proof.
  assert (length (mutations tr) ≤ length (sent tr))%nat; [|lia].
  induction tr as [|e tr IH]; [done|]. unfold mutations, sent in *. rewrite !filter_cons.
  destruct (decide (mutation e = true)) as [He|He]; [|case_decide; simpl; lia].
  rewrite decide_True; [simpl; lia|]. by destruct e.
Qed.

Lemma in_mutations tr q code : Sent q code ∈ mutations tr ↔ Sent q code ∈ tr ∧ mutates q = true.
Proof. unfold mutations. rewrite list_elem_of_filter. simpl. tauto. Qed.

(** A host other than the token endpoint's. *)
Lemma validate_host p u : validate p u = Ok tt → Hostname u = pf_host p.
Proof. unfold validate. intros [Hg _]%fail_if_bind. guards; done. Qed.

Definition api (client : option Client) : Prop := ∀ c, client = Some c → pf_host (cl_profile c) ≠ pf_host ContaboAuth.

Lemma mutates_api client c q : api client → client = Some c → validate (cl_profile c) (rq_URL q) = Ok tt →
  rq_Method q ≠ "GET" → mutates q = true.
Proof.
  intros Ha Hc Hv%validate_host Hm. unfold mutates. rewrite Hv, !bool_decide_eq_false_2; [done|by apply Ha|done].
Qed.

Lemma receipt_ok_rejected b expected client method token body receipt tr :
  receipt_ok b expected client method token body receipt tr → rc_Outcome receipt = "rejected" →
  ∀ q code, Sent q code ∈ mutations tr → ∃ c, code = Some c ∧ c ∈ definite.
Proof.
  intros [Hn _ _ Hr _] Ho q code [Hq _]%in_mutations. apply Hr in Ho as (q' & c & Hq' & Hd).
  exists c. split; [|done]. apply Sent_sent in Hq, Hq'. destruct (sent tr) as [|e [|e' l]]; simpl in Hn; [|..|lia].
  - by apply elem_of_nil in Hq.
  - apply list_elem_of_singleton in Hq, Hq'. congruence.
Qed.

Lemma receipt_ok_answered b expected client method token body receipt tr good : api client → method ≠ "GET" →
  receipt_ok b expected client method token body receipt tr → answered tr good → answered (mutations tr) good.
Proof.
  intros Ha Hm [_ _ Hq _ _] (q & code & Hs & Hg). exists q, code. split; [|done].
  apply in_mutations. split; [done|]. destruct (Hq q (Some code) Hs) as (_ & Hm' & _ & _ & c & Hc & Hv).
  eapply mutates_api; eauto. congruence.
Qed.

Lemma Post_means {A} b expected p client raw token body (out : option (bytes → option A)) : api client →
  does (S := S) (Post b expected p client raw token body out) (λ '(r, e, _) tr,
    receipt_means (r, e) (mutations tr) ∧
    (e = None → rc_Outcome r ≠ "rejected" →
      r = ambiguous ∧ (length (mutations tr) ≤ 1)%nat ∧ answered (mutations tr) (λ c, 200 <= c < 300))).
Proof.
  intros Ha. apply does_turn. intros t [[r e] v] tr H. apply PostMutation_receipt in H as (Hok & Href & Hout).
  pose proof (mutations_once tr (rk_count _ _ _ _ _ _ _ _ Hok)) as Hn.
  pose proof (receipt_ok_rejected _ _ _ _ _ _ _ _ Hok) as Hrej. destruct r as [o x]. simpl in *. subst x.
  assert (rc_Reference (MkReceipt o "") = "") as Href by done.
  destruct Hout as [(-> & Hs & He)|[(-> & ->)|(-> & He)]].
  - assert (mutations tr = []) as Hm.
    { apply mutations_nil. intros q code Hq%Sent_sent. rewrite Hs in Hq. by apply elem_of_nil in Hq. }
    split; [|intros ->; by inversion He]. rewrite Hm. means.
  - split; [|done]. means.
  - split; [means|]. intros -> _. split_and!; [done..|].
    by refine (receipt_ok_answered _ _ _ _ _ _ _ _ _ Ha _ Hok (He eq_refl)).
Qed.

Lemma Delete_means b expected p client raw token : api client →
  does (S := S) (Delete b expected p client raw token) (λ r tr, receipt_means r (mutations tr) ∧ rc_Reference r.1 = "").
Proof.
  intros Ha. apply does_turn. intros t [r e] tr H. apply DeleteSnapshotRequest_receipt in H as (Hok & Href & Hout).
  split; [|done]. pose proof (mutations_once tr (rk_count _ _ _ _ _ _ _ _ Hok)) as Hn.
  pose proof (receipt_ok_rejected _ _ _ _ _ _ _ _ Hok) as Hrej. destruct r as [o x]. simpl in *. subst x.
  destruct Hout as [(-> & Hs & He)|[(-> & ->)|[(-> & He)|(-> & -> & Hacc)]]].
  - assert (mutations tr = []) as Hm.
    { apply mutations_nil. intros q code Hq%Sent_sent. rewrite Hs in Hq. by apply elem_of_nil in Hq. }
    rewrite Hm. means.
  - means.
  - means.
  - means. intros _. split; [done|].
    destruct (receipt_ok_answered _ _ _ "DELETE" _ _ _ _ _ Ha ltac:(done) Hok Hacc) as (q & c & Hq & ->).
    exists q, 204. split; [done|lia].
Qed.
End requests_ok.

(** ** Clients and loops *)

(** A client of one connection with a bearer token; [ac_http] is nil or the
    budget's client. *)
Record BearerClient := MkBearerClient { ac_binding : Binding; ac_credential : Credential; ac_http : option Client }.

(** What a constructor gives a client of the API [p]. *)
Record client_ok (p : Profile) (c : BearerClient) : Prop := {
  co_http : ∃ http, ac_http c = Some http ∧ cl_profile http = p;
  co_token : cr_Token (ac_credential c) ≠ "" }.

Lemma client_api p c : pf_host p ≠ pf_host ContaboAuth → client_ok p c → api (ac_http c).
Proof. intros Hp [(h & Hh & Hpr) _] h' Hh'. rewrite Hh in Hh'. injection Hh' as <-. by rewrite Hpr. Qed.

Lemma bearer_token (c : Credential) : cr_Type c = "bearer_v1" → Credential_Validate c = Ok tt → cr_Token c ≠ "".
Proof.
  intros Ht. unfold Credential_Validate. rewrite decide_True by done. intros Hg%fail_if_Ok Htok.
  rewrite Htok in Hg. rewrite !orb_false_iff in Hg. cbn in Hg. naive_solver.
Qed.

Fixpoint map_net {S A B} (f : A → net S (go B)) (l : list A) : net S (go (list B)) :=
  match l with
  | [] => mret (Ok [])
  | a :: r => let! b := f a in let! bs := map_net f r in mret (Ok (b :: bs))
  end.

Lemma quiet_map {S A B} (f : A → net S (go B)) l : (∀ a, quiet (f a)) → quiet (map_net f l).
Proof.
  intros Hf. induction l as [|a l IH]; [apply quiet_ret|]. apply quiet_try; [done|]. intros b.
  apply quiet_try; [done|]. intros bs. apply quiet_ret.
Qed.

(** ** The ports *)

(** [provider.PowerReviewer] with [provider.PowerMutation]; a
    [provider.SnapshotAction] is one too. *)
Record Port (S : Type) := MkPort {
  pt_binding : Binding;
  pt_Inspect : Binding → string → string → net S (go Preconditions);
  pt_Submit : Binding → string → string → bytes → net S (Receipt * option error);
  pt_Observe : Binding → string → string → option string → net S (go ActionObservation) }.
Arguments MkPort {S}.
Arguments pt_binding {S}.
Arguments pt_Inspect {S}.
Arguments pt_Submit {S}.
Arguments pt_Observe {S}.

Definition observation_ok (o : go ActionObservation) : Prop :=
  ∀ x, o = Ok x → x ∈ [pending; unknown; succeeded; action_failed].

(** A call that fails before anything leaves or is remembered. *)
Definition refuses {S A} (m : net S (go A)) : Prop := ∀ w n s, ∃ e, m w n s = (Err e, n, s, []).

Class Port_ok {S} (p : Port S) : Prop := {
  (* A binding other than its own is refused, unread and unobserved. *)
  inspect_foreign b action id : b ≠ pt_binding p → refuses (pt_Inspect p b action id);
  observe_foreign b action id reference : b ≠ pt_binding p → refuses (pt_Observe p b action id reference);
  inspect_reads b action id : quiet (pt_Inspect p b action id);
  observe_reads b action id reference : quiet (pt_Observe p b action id reference);
  observe_outcome b action id reference : does (pt_Observe p b action id reference) (λ o _, observation_ok o);
  (* A submission inspects, and goes on only with the reviewed facts. *)
  submit_reviewed b action id fingerprint : ∃ rest,
    pt_Submit p b action id fingerprint = reviewed (pt_Inspect p b action id) fingerprint rest ∧
    does rest (λ r tr, receipt_means r (mutations tr));
}.

(** What a submission did: at most one mutation left, after an inspection
    that found the action allowed and the reviewed facts unchanged, and the
    receipt tells its fate. *)
Record submission {S} (p : Port S) (b : Binding) (action id : string) (fingerprint : bytes)
  (w : nat → Turn) (n : nat) (s : S) (r : Receipt * option error) (tr : list event) : Prop := {
  sb_means : receipt_means r (mutations tr);
  sb_reviewed : mutations tr ≠ [] → b = pt_binding p ∧ ∃ pre n' s' tr1 tr2,
    pt_Inspect p b action id w n s = (Ok pre, n', s', tr1) ∧ tr = tr1 ++ tr2 ∧
    pre_Allowed pre = true ∧ pre_Fingerprint pre = fingerprint;
}.

Section ports.
Context {S : Type} (p : Port S) `{!Port_ok p}.

Lemma inspect_bound b action id w n s pre n' s' tr :
  pt_Inspect p b action id w n s = (Ok pre, n', s', tr) → b = pt_binding p.
Proof.
  intros H. destruct (decide (b = pt_binding p)) as [|Hb]; [done|].
  destruct (inspect_foreign (p := p) b action id Hb w n s) as [e E]. congruence.
Qed.

Lemma submit_ok b action id fingerprint w n s r n' s' tr :
  pt_Submit p b action id fingerprint w n s = (r, n', s', tr) → submission p b action id fingerprint w n s r tr.
Proof.
  destruct (submit_reviewed (p := p) b action id fingerprint) as (rest & -> & Hrest). unfold reviewed, mbind, net_bind.
  destruct (pt_Inspect p b action id w n s) as [[[[pre|e] n1] s1] tr1] eqn:Hi.
  2: { pose proof (inspect_reads (p := p) _ _ _ _ _ _ _ _ _ _ Hi) as Hq. intros [= <- <- <- <-].
       rewrite app_nil_r. split; rewrite Hq; [apply means_none|done]. }
  pose proof (inspect_reads (p := p) _ _ _ _ _ _ _ _ _ _ Hi) as Hq. simpl in Hq.
  pose proof (inspect_bound _ _ _ _ _ _ _ _ _ _ Hi) as Hb.
  destruct (negb (pre_Allowed pre) || _) eqn:Hg.
  { intros [= <- <- <- <-]. rewrite app_nil_r. split; rewrite Hq; [apply means_rejected|done]. }
  destruct (rest w n1 s1) as [[[r' n2] s2] tr2] eqn:Hr. intros [= <- <- <- <-]. apply Hrest in Hr. guards.
  split; rewrite mutations_app, Hq; [done|]. intros _. split; [done|]. by exists pre, n1, s1, tr1, tr2.
Qed.

(** What the worker passes to [classifyActionReceipt]. *)
Definition submitted (r : Receipt * option error) : go Receipt := match r.2 with Some e => Err e | None => Ok r.1 end.
End ports.

(** ** Proving a port *)

Create HintDb quiet.
#[export] Hint Resolve quiet_ret quiet_state quiet_set_state quiet_Now quiet_NewRandom quiet_Get quiet_GetStatus : quiet.

Ltac quiet :=
  repeat lazymatch goal with
  | |- quiet (try_net _ _) => apply quiet_try; [|intros ?]
  | |- quiet (mbind _ _) => apply quiet_bind; [|intros ?]
  | |- quiet (map_net _ _) => apply quiet_map; intros ?
  | |- quiet (match ?x with _ => _ end) => destruct x
  | |- ∀ _, _ => intros ?
  | |- quiet _ => solve [eauto with quiet]
  end.

Section port_rules.
Context `{W : Web} {S : Type}.

(** Rules for what an observation reports, and for whom an inspection answers. *)
Lemma observes_try {A} (m : net S (go A)) (k : A → net S (go ActionObservation)) :
  (∀ a, does (k a) (λ o _, observation_ok o)) → does (try_net k m) (λ o _, observation_ok o).
Proof.
  intros Hk. eapply does_bind; [by intros w n s a n' s' tr _; exact I|]. intros [a|e] tr _; [apply Hk|].
  by apply does_ret.
Qed.

Lemma observes_bind {A} (m : net S A) (k : A → net S (go ActionObservation)) :
  (∀ a, does (k a) (λ o _, observation_ok o)) → does (m ≫= k) (λ o _, observation_ok o).
Proof. intros Hk. eapply does_bind; [by intros w n s a n' s' tr _; exact I|]. intros a tr _. apply Hk. Qed.

Lemma observes_ret o : (∀ x, o = Ok x → x ∈ [pending; unknown; succeeded; action_failed]) →
  does (S := S) (mret o) (λ o _, observation_ok o).
Proof. intros Ho. by apply does_ret. Qed.

Lemma guard_refuses {A B} (g : go A) (k : A → net S (go B)) : (∀ a, g ≠ Ok a) → refuses (try_net k (mret g)).
Proof.
  intros Hg w n s. unfold try_net, mbind, net_bind, mret, net_ret. destruct g as [a|e]; [by destruct (Hg a)|by exists e].
Qed.

(** What may follow the answer to a mutation that was not refused. *)
Definition settles (r : Receipt * option error) : Prop :=
  r.1 = ambiguous ∨ ∃ reference, r = (MkReceipt "accepted" reference, None).

Lemma Post_then {A} b expected p client raw token body (out : option (bytes → option A))
  (k : Receipt * option error * option A → net S (Receipt * option error)) : api client →
  (∀ r e v, is_Some e ∨ rc_Outcome r = "rejected" → k (r, e, v) = mret (r, e)) →
  (∀ v, does (k (ambiguous, None, v)) (λ r tr, mutations tr = [] ∧ settles r)) →
  does (Post b expected p client raw token body out ≫= k) (λ r tr, receipt_means r (mutations tr)).
Proof.
  intros Ha Hstop Hgo. eapply does_bind; [by apply Post_means|]. intros [[r e] v] tr [Hm Hs].
  destruct (decide (is_Some e ∨ rc_Outcome r = "rejected")) as [Hst|Hst].
  { rewrite (Hstop r e v Hst). apply does_ret. by rewrite app_nil_r. }
  assert (e = None) as -> by (destruct e; [|done]; destruct Hst; left; eauto).
  destruct (Hs eq_refl) as (-> & Hn & Hans); [by intros Hr; apply Hst; right|].
  eapply does_mono; [apply Hgo|]. intros r' tr' [Htr' Hr']. rewrite mutations_app, Htr', app_nil_r.
  destruct r' as [x e']. destruct Hr' as [Hx|[ref [= -> ->]]]; [simpl in Hx; subst x|]; means.
Qed.

(** A deletion acknowledged is referred to by its target. *)
Definition acknowledged (id : string) (r : Receipt * option error) : Receipt * option error :=
  match r with
  | (x, None) => (if decide (rc_Outcome x = "accepted") then MkReceipt "accepted" ("delete/" +:+ id) else x, None)
  | _ => r
  end.

Lemma means_acknowledged id r l : receipt_means r l → rc_Reference r.1 = "" → receipt_means (acknowledged id r) l.
Proof.
  intros [H1 H2 H3 H4 H5 H6] Hr. destruct r as [[o x] [e|]]; simpl in *; [by split|]. case_decide as Ho; [|by split].
  subst. means.
Qed.
Lemma Delete_then b expected p client raw token id : api client →
  does (S := S) (r ← Delete b expected p client raw token; mret (acknowledged id r)) (λ r tr, receipt_means r (mutations tr)).
Proof.
  intros Ha. eapply does_bind; [by apply Delete_means|]. intros r tr [Hm Hr]. apply does_ret.
  rewrite app_nil_r. by apply means_acknowledged.
Qed.
End port_rules.

Ltac observes :=
  repeat lazymatch goal with
  | |- does (try_net _ _) _ => apply observes_try; intros ?
  | |- does (mbind _ _) _ => apply observes_bind; intros ?
  | |- does (match ?x with _ => _ end) _ => destruct x
  | |- does (mret _) _ => apply observes_ret; intros ? ?; repeat case_match; simplify_eq; set_solver
  end.

(** ** Walks over pages *)

(** A numbered cursor: the page it asks for, 1 to 100. *)
Definition page_of (cursor : string) : option Z :=
  let page := if decide (cursor = "") then Some 1 else ParseInt cursor in
  match page with Some n => if (n <? 1) || (100 <? n) then None else Some n | None => None end.

Lemma page_of_format n : 1 <= n <= 100 → page_of (FormatInt n) = Some n ∧ FormatInt n ≠ "".
Proof.
  intros Hn. assert (forallb (λ n, bool_decide (page_of (FormatInt n) = Some n ∧ FormatInt n ≠ "")) (seqZ 1 100) = true) as H
    by (vm_compute; reflexivity).
  rewrite forallb_forall in H. specialize (H n). rewrite bool_decide_eq_true in H. apply H.
  apply list_elem_of_In, elem_of_seqZ. lia.
Qed.

Lemma page_of_range cursor n : page_of cursor = Some n → 1 <= n <= 100.
Proof. unfold page_of. intros H. repeat case_match; simplify_eq; guards; lia. Qed.

Lemma cut_colon a x : string_forallb (λ c, negb (is_one_of ":" c)) a = true →
  GoBase.Contains (a +:+ ":" +:+ x) ":" = true ∧ Cut ":" (a +:+ ":" +:+ x) = (a, x).
Proof.
  induction a as [|c a IH]; [intros _; split; [by destruct x|reflexivity]|]. unfold string_forallb. cbn [String.list_ascii_of_string forallb].
  intros [Hc Ha]%andb_true_iff. destruct (IH Ha) as [IH1 IH2].
  change (String c a +:+ ":" +:+ x) with (String c (a +:+ ":" +:+ x)). cbn [GoBase.Contains Cut].
  rewrite IH1, IH2, orb_true_r. split; [done|]. rewrite decide_False; [done|]. intros ->. by vm_compute in Hc.
Qed.

Section walk.
Context {S P : Type} (page : string → net S (go P)) (next : P → string) (rank : string → nat).

(** A reader whose cursors descend: each page asks for one of smaller rank, or none. *)
Class Descends : Prop :=
  descends cursor : does (page cursor) (λ r _, ∀ p, r = Ok p → (0 < rank cursor)%nat ∧
    (next p = "" ∨ (rank (next p) < rank cursor)%nat)).

(** At most [fuel] pages, following the cursors; with the cursor left over. *)
Fixpoint follow (fuel : nat) (cursor : string) : net S (go (list P * string)) :=
  match fuel with
  | O => mret (Ok ([], cursor))
  | Datatypes.S fuel =>
      let! p := page cursor in
      if decide (next p = "") then mret (Ok ([p], ""))
      else let! r := follow fuel (next p) in mret (Ok (p :: r.1, r.2))
  end.

Lemma follow_ends `{!Descends} fuel cursor : (rank cursor < fuel)%nat →
  does (follow fuel cursor) (λ r _, ∀ l c, r = Ok (l, c) → c = "" ∧ (length l ≤ rank cursor)%nat).
Proof.
  revert cursor. induction fuel as [|fuel IH]; intros cursor Hf; [lia|]. cbn [follow].
  eapply does_bind; [apply descends|]. intros [p|e] tr Hp; [|by apply does_ret].
  destruct (Hp p eq_refl) as [H0 [Hn|Hn]]; [rewrite decide_True by done; apply does_ret; intros l c [= <- <-]; split; [done|simpl; lia]|].
  case_decide; [apply does_ret; intros l c [= <- <-]; split; [done|simpl; lia]|].
  eapply does_bind; [apply (IH (next p)); lia|]. intros [[l c]|e] tr' Hl; [|by apply does_ret].
  apply does_ret. intros l' c' [= <- <-]. destruct (Hl l c eq_refl) as [-> Hlen]. split; [done|simpl; lia].
Qed.
End walk.

(** The rank of numbered cursors. *)
Definition page_rank (cursor : string) : nat :=
  match page_of cursor with Some n => Z.to_nat (101 - n) | None => O end.

Lemma page_rank_next cursor n : page_of cursor = Some n → n < 100 → (page_rank (FormatInt (n + 1)) < page_rank cursor)%nat.
Proof.
  intros Hc Hn. pose proof (page_of_range _ _ Hc). unfold page_rank. rewrite Hc.
  rewrite (proj1 (page_of_format (n + 1) ltac:(lia))). lia.
Qed.

Lemma page_rank_pos cursor n : page_of cursor = Some n → (0 < page_rank cursor)%nat.
Proof. intros Hc. pose proof (page_of_range _ _ Hc). unfold page_rank. rewrite Hc. lia. Qed.

Ltac descends lem :=
  intros cursor w n s r n' s' tr; unfold try_net, mbind, net_bind, mret, net_ret; intros H p ->;
  repeat case_match; simplify_eq/=; eauto using lem.

(** ** What reads return *)

(** [m] answers with an error or something that satisfies [P]. *)
Definition returns {S A} (m : net S (go A)) (P : A → Prop) : Prop := does m (λ r _, ∀ a, r = Ok a → P a).

Definition good_server (o : Observation) : Prop :=
  CheckedObservation o = Ok o ∧ ob_Status o ∈ ["unknown"; "running"; "stopped"; "pending"; "failed"].
Definition good_snapshot (o : SnapshotObservation) : Prop :=
  CheckedSnapshot o = Ok o ∧ so_Status o ∈ ["unknown"; "available"; "pending"; "failed"; "deleted"] ∧
  len (so_StatusReason o) <= 512 ∧ len (so_CreationTimeReason o) <= 512.

(** Pages of at most fifty checked observations. *)
Definition good_page (p : InventoryPage) : Prop :=
  Forall good_server (ip_Data p) ∧ (length (ip_Data p) ≤ 50)%nat ∧ len (ip_Next p) <= 512.
Definition good_snapshots (p : SnapshotPage) : Prop :=
  Forall good_snapshot (sp_Data p) ∧ (length (sp_Data p) ≤ 50)%nat.

Section returns.
Context {S : Type}.

Lemma returns_any {A} (m : net S (go A)) : returns m (λ _, True).
Proof. by intros w n s r n' s' tr _ a _. Qed.

Lemma returns_ret {A} (r : go A) (P : A → Prop) : (∀ a, r = Ok a → P a) → returns (S := S) (mret r) P.
Proof. intros H. by apply does_ret. Qed.

Lemma returns_err {A} e (P : A → Prop) : returns (S := S) (mret (Err e)) P.
Proof. by apply returns_ret. Qed.

Lemma returns_try {A B} (m : net S (go A)) (k : A → net S (go B)) (Q : A → Prop) (P : B → Prop) :
  returns m Q → (∀ a, Q a → returns (k a) P) → returns (try_net k m) P.
Proof.
  intros Hm Hk. eapply does_bind; [exact Hm|]. intros [a|e] tr Ha; [|by apply does_ret].
  eapply does_mono; [by apply Hk, Ha|]. done.
Qed.

Lemma returns_bind {A B} (m : net S A) (k : A → net S (go B)) (P : B → Prop) :
  (∀ a, returns (k a) P) → returns (m ≫= k) P.
Proof.
  intros Hk. eapply does_bind; [by intros w n s a n' s' tr _; exact I|]. intros a tr _. apply Hk.
Qed.

Lemma returns_try_ret {A B} (r : go A) (k : A → net S (go B)) (P : B → Prop) :
  (∀ a, r = Ok a → returns (k a) P) → returns (try_net k (mret r)) P.
Proof. intros Hk. eapply returns_try; [by apply (returns_ret r (λ a, r = Ok a))|done]. Qed.

(** A step whose result does not matter. *)
Lemma returns_then {A B} (m : net S (go A)) (k : A → net S (go B)) (P : B → Prop) :
  (∀ a, returns (k a) P) → returns (try_net k m) P.
Proof. intros Hk. eapply returns_try; [apply returns_any|]. auto. Qed.

Lemma returns_map {A B} (f : A → net S (go B)) (P : B → Prop) l : (∀ a, returns (f a) P) →
  returns (map_net f l) (λ bs, Forall P bs ∧ length bs = length l).
Proof.
  intros Hf. induction l as [|a l IH]; [apply returns_ret; by intros ? [= <-]|].
  eapply returns_try; [apply Hf|]. intros b Hb. eapply returns_try; [exact IH|]. intros bs [Hbs Hl].
  apply returns_ret. intros ? [= <-]. split; [by constructor|simpl; lia].
Qed.

Lemma checked_server o : ob_Status o ∈ ["unknown"; "running"; "stopped"; "pending"; "failed"] →
  returns (S := S) (mret (CheckedObservation o)) good_server.
Proof.
  intros Hs. apply returns_ret. intros o' Ho. assert (o' = o) as ->; [|done].
  unfold CheckedObservation in Ho. by apply fail_if_bind in Ho as [_ [= <-]].
Qed.

Lemma CheckedSnapshot_same o o' : CheckedSnapshot o = Ok o' → o' = o.
Proof. unfold CheckedSnapshot. intros H. do 6 apply fail_if_bind in H as [_ H]. by injection H as <-. Qed.

Lemma checked_snapshot o : so_Status o ∈ ["unknown"; "available"; "pending"; "failed"; "deleted"] →
  len (so_StatusReason o) <= 512 → len (so_CreationTimeReason o) <= 512 →
  returns (S := S) (mret (CheckedSnapshot o)) good_snapshot.
Proof.
  intros Hs H1 H2. apply returns_ret. intros o' Ho. pose proof (CheckedSnapshot_same _ _ Ho) as ->. done.
Qed.

Lemma normalized native known : NormalizeStatus native known ∈ ["unknown"; "running"; "stopped"; "pending"; "failed"].
Proof. unfold NormalizeStatus. case_decide as H; [|set_solver]. right. exact H. Qed.

Lemma page_number_short n : 1 <= n <= 101 → len (FormatInt n) <= 512.
Proof.
  intros Hn. assert (forallb (λ n, len (FormatInt n) <=? 512) (seqZ 1 101) = true) as H by (vm_compute; reflexivity).
  rewrite forallb_forall in H. apply Z.leb_le, H, list_elem_of_In, elem_of_seqZ. lia.
Qed.
End returns.

Ltac returns :=
  repeat lazymatch goal with
  | |- returns (mret (Err _)) _ => apply returns_err
  | |- returns (mret (CheckedObservation _)) _ => apply checked_server; first [apply normalized | set_solver]
  | |- returns (try_net _ (mret _)) _ => apply returns_try_ret; intros ? ?
  | |- returns (mbind _ _) _ => apply returns_bind; intros ?
  | |- returns (match ?x with _ => _ end) _ => let E := fresh "E" in destruct x eqn:E
  | |- returns (let '(_, _) := ?x in _) _ => destruct x
  end.
