(* ===== verification/Hetzner.v ===== *)
(** [internal/provider/hetzner]: the Cloud API v1 adapter.  What
    [encoding/json] decodes an answer into is a parameter of the section. *)
From Stdlib Require Import Floats.SpecFloat.
From S2P Require Import Prelude GoBase Identifier Connection Provider Endpoint Outbound Facts Adapter.
Local Open Scope Z_scope.

Definition Family : string := "hetzner.cloud".
Definition base : string := "https://api.hetzner.cloud/v1/servers".
Definition actionsBase : string := "https://api.hetzner.cloud/v1/actions/".
Definition imagesBase : string := "https://api.hetzner.cloud/v1/images".

(** ** Answers *)

Record server := MkServer {
  sv_Locked : option bool; sv_ID : string; sv_Name : string; sv_Status : string; sv_Location : string; sv_Type : string }.

Record powerAction := MkPowerAction {
  pa_ID : string; pa_Command : string; pa_Status : string; pa_Resources : list (string * string) }.

Record snapshotImage := MkSnapshotImage {
  im_ID : string; im_Name : option string; im_Type : string; im_Status : string; im_Created : option stamp;
  im_ImageSize : option spec_float; im_DiskSize : option spec_float; im_CreatedFrom : option string }.

Record protectedImage := MkProtectedImage {
  pi_image : snapshotImage; pi_Protection : option (option bool); pi_Deleted : option stamp }.

Record pagination := MkPagination { pn_Page : Z; pn_Next : option Z }.

Class Decoders := {
  un_servers : bytes → option (option (list server) * option pagination);
  un_server : bytes → option (option server);
  un_action : bytes → option (option powerAction);
  un_images : bytes → option (option (list snapshotImage) * option pagination);
  un_image : bytes → option (option snapshotImage);
  un_protected : bytes → option (option protectedImage);
  un_created : bytes → option (option powerAction * option snapshotImage);
}.

Section hetzner.
Context `{U : UuidApi} `{W : Web} `{T : ValueText} `{D : Decoders} {S : Type}.

(** [nested]: whether the calls' context already holds the connection's slot. *)
Definition New (nested : bool) (b : Binding) (c : Credential) (budget : bool) : go BearerClient :=
  if negb (bool_decide (bd_family b = Family)) || negb (bool_decide (cr_Type c = "bearer_v1"))
     || negb (bool_decide (Credential_Validate c = Ok tt)) || negb budget
  then Err ProvErrBinding
  else Ok (MkBearerClient b c (Some (MkClient HetznerCloud nested))).

Implicit Types (c : BearerClient) (b : Binding).

Definition get {A} (c : BearerClient) (b : Binding) (raw : string) (out : bytes → option A) : net S (go A) :=
  Get b (ac_binding c) HetznerCloud (ac_http c) raw (cr_Token (ac_credential c)) out.

(** ** Servers *)

Definition server_statuses : gmap string string := list_to_map [
  ("running", "running"); ("off", "stopped"); ("initializing", "pending"); ("starting", "pending");
  ("stopping", "pending"); ("deleting", "pending"); ("migrating", "pending"); ("rebuilding", "pending")].

Definition mapServer (s : server) : net S (go Observation) :=
  let! id := mret (NumericID (sv_ID s)) in
  now ← Now;
  mret (CheckedObservation (MkObservation id (sv_Status s) (NormalizeStatus (sv_Status s) server_statuses) (sv_Name s) now
          (MkServerDetails (sv_Location s) (sv_Type s)))).

(** The cursor after page [page], from the provider's [next_page]. *)
Definition next_cursor (page : Z) (next : option Z) : go string :=
  match next with
  | None => Ok ""
  | Some n => if negb (n =? page + 1) || (100 <? n) then Err InvalidResponse else Ok (FormatInt n)
  end.

Definition Page c b (cursor : string) : net S (go InventoryPage) :=
  match page_of cursor with
  | None => mret (Err InvalidResponse)
  | Some page =>
      let! response := get c b (base +:+ "?per_page=50&page=" +:+ FormatInt page) un_servers in
      match response with
      | (Some servers, Some p) =>
          if negb (pn_Page p =? page) || (50 <? Z.of_nat (length servers)) then mret (Err InvalidResponse)
          else
            let! data := map_net mapServer servers in
            let! next := mret (next_cursor page (pn_Next p)) in
            mret (Ok (MkInventoryPage data next))
      | _ => mret (Err InvalidResponse)
      end
  end.

Definition Read c b (id : string) : net S (go Observation) :=
  let! _ := mret (NumericID id) in
  let! response := get c b (base +:+ "/" +:+ id) un_server in
  match response with
  | Some s => if negb (bool_decide (sv_ID s = id)) then mret (Err InvalidResponse) else mapServer s
  | None => mret (Err InvalidResponse)
  end.

(** The account is never established. *)
Definition Validate c (input : Credential) : net S (go (string * list string)) :=
  if negb (bool_decide (input = ac_credential c)) then mret (Err ProvErrBinding)
  else let! _ := Page c (ac_binding c) "" in mret (Err ProvErrIdentityUnverified).

(** ** Power *)

Definition powerCommand (action : string) : string :=
  if decide (action = "compute.server.power_on") then "start_server"
  else if decide (action = "compute.server.shutdown") then "shutdown_server"
  else if decide (action = "compute.server.reboot") then "reboot_server"
  else if decide (action = "compute.server.power_off") then "stop_server"
  else "".

Definition powerPath (action : string) : string :=
  if decide (action = "compute.server.power_on") then "poweron"
  else if decide (action = "compute.server.shutdown") then "shutdown"
  else if decide (action = "compute.server.reboot") then "reboot"
  else if decide (action = "compute.server.power_off") then "poweroff"
  else "".

(** The guards of [Inspect] and [Observe]. *)
Definition power_guard c b (action id : string) : go unit :=
  fail_if (negb (bool_decide (b = ac_binding c))) ProvErrBinding ;;
  fail_if (bool_decide (powerPath action = "")) ProvErrActionUnsupported ;;
  NumericID id ;;
  Ok tt.

Definition Inspect c b (action id : string) : net S (go Preconditions) :=
  let! _ := mret (power_guard c b action id) in
  let! response := get c b (base +:+ "/" +:+ id) un_server in
  match response with
  | Some s =>
      match sv_Locked s with
      | Some locked =>
          if negb (bool_decide (sv_ID s = id)) then mret (Err InvalidResponse)
          else
            let! o := mapServer s in
            let! pre := mret (PowerPreconditions b action o) in
            mret (Ok (MkPreconditions (pre_Fingerprint pre) (pre_TargetName pre)
                        (pre_Allowed pre && negb locked) (pre_HighImpact pre)))
      | None => mret (Err InvalidResponse)
      end
  | None => mret (Err InvalidResponse)
  end.

Definition matches (a : powerAction) (action target : string) : bool :=
  if negb (bool_decide (pa_Command a = powerCommand action)) || (100 <? Z.of_nat (length (pa_Resources a))) then false
  else if negb (bool_decide (NumericID (pa_ID a) = Ok (pa_ID a))) then false
  else existsb (λ '(id, kind), bool_decide (id = target) && bool_decide (kind = "server")) (pa_Resources a).

Definition Submit c b (action id : string) (fingerprint : bytes) : net S (Receipt * option error) :=
  reviewed (Inspect c b action id) fingerprint (
    '(receipt, err, response) ← Post b (ac_binding c) HetznerCloud (ac_http c)
       (base +:+ "/" +:+ id +:+ "/actions/" +:+ powerPath action) (cr_Token (ac_credential c)) [] (Some un_action);
    match err with
    | Some _ => mret (receipt, err)
    | None =>
        if decide (rc_Outcome receipt = "rejected") then mret (receipt, None)
        else
          match mjoin response with
          | Some a =>
              if negb (matches a action id) then mret (ambiguous, Some InvalidResponse)
              else mret (MkReceipt "accepted" (pa_ID a), None)
          | None => mret (ambiguous, Some InvalidResponse)
          end
    end).

(** The status a completed action leaves. *)
Definition want (action : string) : string :=
  if bool_decide (action = "compute.server.shutdown") || bool_decide (action = "compute.server.power_off")
  then "stopped" else "running".

Definition Observe c b (action id : string) (reference : option string) : net S (go ActionObservation) :=
  let! _ := mret (power_guard c b action id) in
  match reference with
  | None => mret (Ok unknown)
  | Some ref =>
      let! _ := mret (NumericID ref) in
      let! response := get c b (actionsBase +:+ ref) un_action in
      match response with
      | Some a =>
          if negb (matches a action id) || negb (bool_decide (pa_ID a = ref)) then mret (Err InvalidResponse)
          else if decide (pa_Status a = "running") then mret (Ok pending)
          else if decide (pa_Status a = "error") then mret (Ok action_failed)
          else if decide (pa_Status a = "success") then
            let! o := Read c b id in
            mret (Ok (if decide (ob_Status o = want action) then succeeded else pending))
          else mret (Ok unknown)
      | None => mret (Err InvalidResponse)
      end
  end.

Definition power c : Port S := MkPort (ac_binding c) (Inspect c) (Submit c) (Observe c).

(** ** Snapshots *)

Definition snapshotStatus (native : string) : string :=
  if decide (native = "creating") then "pending"
  else if decide (native = "available") then "available" else "unknown".

Definition mapSnapshot (s : snapshotImage) : net S (go SnapshotObservation) :=
  match NumericID (im_ID s) with
  | Err _ => mret (Err InvalidResponse)
  | Ok id =>
      if negb (bool_decide (im_Type s = "snapshot")) then mret (Err InvalidResponse)
      else
        now ← Now;
        let! source := mret (match im_CreatedFrom s with Some n => NumericID n | None => Ok "" end) in
        let kind := match im_CreatedFrom s with Some _ => "compute.server" | None => "" end in
        mret (CheckedSnapshot (MkSnapshotObservation id (default "" (im_Name s)) source kind
                (snapshotStatus (im_Status s)) (im_Status s) "" (im_Created s) "" "" None (im_ImageSize s)
                (im_DiskSize s) (Some []) now))
  end.

Definition SnapshotPage c b (cursor : string) : net S (go SnapshotPage) :=
  match page_of cursor with
  | None => mret (Err InvalidResponse)
  | Some page =>
      let! response := get c b (imagesBase +:+ "?type=snapshot&per_page=50&page=" +:+ FormatInt page) un_images in
      match response with
      | (Some images, Some p) =>
          if negb (pn_Page p =? page) || (50 <? Z.of_nat (length images)) then mret (Err InvalidResponse)
          else
            let! data := map_net mapSnapshot images in
            let! next := mret (next_cursor page (pn_Next p)) in
            mret (Ok (MkSnapshotPage data next))
      | _ => mret (Err InvalidResponse)
      end
  end.

Definition ReadSnapshot c b (id : string) : net S (go SnapshotObservation) :=
  let! _ := mret (NumericID id) in
  let! response := get c b (imagesBase +:+ "/" +:+ id) un_image in
  match response with
  | Some s => if negb (bool_decide (im_ID s = id)) then mret (Err InvalidResponse) else mapSnapshot s
  | None => mret (Err InvalidResponse)
  end.

(** *** Creation *)

Definition snapshotReview b (action id name : string) (facts : option string) (allowed : bool) : go Preconditions :=
  match review_text b action id facts with
  | None => Err InvalidResponse
  | Some data =>
      Ok (MkPreconditions (Sha256.Sum256 (string_bytes data)) (if decide (name = "") then id else name) allowed true)
  end.

Definition server_text (s : server) : option string :=
  marshal [("locked", nullable (Some ∘ json_bool) (sv_Locked s)); ("id", json_number (sv_ID s));
           ("name", Some (Json.json_string (sv_Name s))); ("status", Some (Json.json_string (sv_Status s)));
           ("location", marshal [("name", Some (Json.json_string (sv_Location s)))]);
           ("server_type", marshal [("name", Some (Json.json_string (sv_Type s)))])].

Definition create_guard c b (action id : string) : go unit :=
  fail_if (negb (bool_decide (b = ac_binding c))) ProvErrBinding ;;
  fail_if (negb (bool_decide (action = SnapshotCreate))) ProvErrActionUnsupported ;;
  NumericID id ;;
  Ok tt.

Definition create_Inspect c b (action id : string) : net S (go Preconditions) :=
  let! _ := mret (create_guard c b action id) in
  let! response := get c b (base +:+ "/" +:+ id) un_server in
  match response with
  | Some s =>
      match sv_Locked s with
      | Some locked =>
          if negb (bool_decide (sv_ID s = id)) then mret (Err InvalidResponse)
          else
            let! _ := mapServer s in
            mret (snapshotReview b action id (sv_Name s) (server_text s)
                    (negb locked && (bool_decide (sv_Status s = "running") || bool_decide (sv_Status s = "off"))))
      | None => mret (Err InvalidResponse)
      end
  | None => mret (Err InvalidResponse)
  end.

Definition createMatches (a : powerAction) (serverID imageID : string) : bool :=
  if negb (bool_decide (pa_Command a = "create_image")) || (100 <? Z.of_nat (length (pa_Resources a))) then false
  else if negb (bool_decide (NumericID (pa_ID a) = Ok (pa_ID a))) then false
  else existsb (λ '(id, kind), bool_decide (kind = "server") && bool_decide (id = serverID)) (pa_Resources a)
       && existsb (λ '(id, kind), bool_decide (kind = "image") && bool_decide (id = imageID)) (pa_Resources a).

Definition snapshot_body : bytes :=
  string_bytes (JsonInj.members [("type", Json.json_string "snapshot")]).

Definition create_Submit c b (action id : string) (fingerprint : bytes) : net S (Receipt * option error) :=
  reviewed (create_Inspect c b action id) fingerprint (
    '(receipt, err, response) ← Post b (ac_binding c) HetznerCloud (ac_http c)
       (base +:+ "/" +:+ id +:+ "/actions/create_image") (cr_Token (ac_credential c)) snapshot_body (Some un_created);
    match err with
    | Some _ => mret (receipt, err)
    | None =>
        if decide (rc_Outcome receipt = "rejected") then mret (receipt, None)
        else
          match response with
          | Some (Some a, Some image) =>
              match NumericID (im_ID image) with
              | Ok imageID =>
                  if negb (bool_decide (im_Type image = "snapshot")) || negb (createMatches a id imageID)
                  then mret (ambiguous, Some InvalidResponse)
                  else mret (MkReceipt "accepted" (pa_ID a +:+ "/" +:+ imageID), None)
              | Err _ => mret (ambiguous, Some InvalidResponse)
              end
          | _ => mret (ambiguous, Some InvalidResponse)
          end
    end).

Definition create_Observe c b (action id : string) (reference : option string) : net S (go ActionObservation) :=
  let! _ := mret (create_guard c b action id) in
  match reference with
  | None => mret (Ok unknown)
  | Some ref =>
      match Split "/" ref with
      | [act; image] =>
          let! _ := mret (NumericID act) in
          let! _ := mret (NumericID image) in
          let! response := get c b (actionsBase +:+ act) un_action in
          match response with
          | Some a =>
              if negb (createMatches a id image) || negb (bool_decide (pa_ID a = act)) then mret (Err InvalidResponse)
              else if decide (pa_Status a = "running") then mret (Ok pending)
              else if decide (pa_Status a = "error") then mret (Ok action_failed)
              else if decide (pa_Status a = "success") then
                let! o := ReadSnapshot c b image in
                if negb (bool_decide (so_SourceNativeID o = id)) || negb (bool_decide (so_SourceType o = "compute.server"))
                then mret (Err InvalidResponse)
                else mret (Ok (if decide (so_Status o = "available") then succeeded else pending))
              else mret (Ok unknown)
          | None => mret (Err InvalidResponse)
          end
      | _ => mret (Err InvalidResponse)
      end
  end.

Definition snapshotCreate c : Port S := MkPort (ac_binding c) (create_Inspect c) (create_Submit c) (create_Observe c).

(** *** Deletion *)

Definition protected_text (p : protectedImage) : option string :=
  let s := pi_image p in
  marshal [("id", json_number (im_ID s)); ("name", nullable (Some ∘ Json.json_string) (im_Name s));
           ("type", Some (Json.json_string (im_Type s))); ("status", Some (Json.json_string (im_Status s)));
           ("created", nullable time_text (im_Created s)); ("image_size", nullable float_text (im_ImageSize s));
           ("disk_size", nullable float_text (im_DiskSize s));
           ("created_from", nullable (λ n, marshal [("id", json_number n)]) (im_CreatedFrom s));
           ("protection", nullable (λ d, marshal [("delete", nullable (Some ∘ json_bool) d)]) (pi_Protection p));
           ("deleted", nullable time_text (pi_Deleted p))].

Definition delete_guard c b (action id : string) : go unit :=
  fail_if (bool_decide (ac_http c = None) || negb (bool_decide (b = ac_binding c))) ProvErrBinding ;;
  fail_if (negb (bool_decide (action = SnapshotDelete))) ProvErrActionUnsupported ;;
  NumericID id ;;
  Ok tt.

Definition delete_Inspect c b (action id : string) : net S (go Preconditions) :=
  let! _ := mret (delete_guard c b action id) in
  let! response := get c b (imagesBase +:+ "/" +:+ id) un_protected in
  match response with
  | Some p =>
      match pi_Protection p with
      | Some (Some protected) =>
          if negb (bool_decide (im_ID (pi_image p) = id)) then mret (Err InvalidResponse)
          else
            let! o := mapSnapshot (pi_image p) in
            mret (snapshotReview b action id (so_Name o) (protected_text p)
                    (bool_decide (so_Status o = "available") && negb protected && bool_decide (pi_Deleted p = None)))
      | _ => mret (Err InvalidResponse)
      end
  | None => mret (Err InvalidResponse)
  end.

(** The request of [Submit], which does not go through the shared helper. *)
Definition delete_request c (id : string) (t : Turn) : Receipt * option error * list event :=
  match Profile_URL web_Parse HetznerCloud (imagesBase +:+ "/" +:+ id) with
  | Err e => (none, Some e, [])
  | Ok u =>
      match NewRequest web_Parse web_String "DELETE" u (cr_Token (ac_credential c)) [], ac_http c with
      | Ok request, Some http =>
          let '(r, tr) := RequestJSON web_ParseTime http request (None : option (bytes → option unit)) (tn_exchange t) in
          match r with
          | Err f =>
              if decide (recorded tr ∈ definite) then (rejected, None, tr)
              else (ambiguous, Some (Failure_error f), tr)
          | Ok _ =>
              if negb (recorded tr =? 204) then (ambiguous, Some InvalidResponse, tr)
              else (MkReceipt "accepted" ("delete/" +:+ id), None, tr)
          end
      | _, _ => (none, Some ProvErrBinding, [])
      end
  end.

Definition delete_Submit c b (action id : string) (fingerprint : bytes) : net S (Receipt * option error) :=
  reviewed (delete_Inspect c b action id) fingerprint (turn (delete_request c id)).

Definition delete_Observe c b (action id : string) (reference : option string) : net S (go ActionObservation) :=
  let! _ := mret (delete_guard c b action id) in
  match reference with
  | None => mret (Ok unknown)
  | Some ref =>
      if negb (bool_decide (ref = "delete/" +:+ id)) then mret (Err InvalidResponse)
      else
        '(status, response) ← GetStatus b (ac_binding c) HetznerCloud (ac_http c) (imagesBase +:+ "/" +:+ id)
           (cr_Token (ac_credential c)) un_image;
        match response with
        | Err e => if (status =? 404) then mret (Ok succeeded) else mret (Err e)
        | Ok (Some s) =>
            if negb (bool_decide (im_ID s = id)) || negb (bool_decide (im_Type s = "snapshot"))
            then mret (Err InvalidResponse) else mret (Ok pending)
        | Ok None => mret (Err InvalidResponse)
        end
  end.

Definition snapshotDelete c : Port S := MkPort (ac_binding c) (delete_Inspect c) (delete_Submit c) (delete_Observe c).
End hetzner.

(** ** The ports keep their contract *)

Section contracts.
Context `{U : UuidApi} `{W : Web} `{T : ValueText} `{D : Decoders} {S : Type}.
Implicit Types (c : BearerClient) (b : Binding).

Lemma hetzner_New_ok nested b cr budget c : New nested b cr budget = Ok c →
  client_ok HetznerCloud c ∧ ac_binding c = b ∧ ac_credential c = cr ∧ bd_family b = Family.
Proof.
  unfold New. intros H. destruct (_ || _) eqn:E; [done|]. injection H as <-. guards. split_and!; [|done..].
  split; [by eexists|]. simpl. apply bearer_token; done.
Qed.

Lemma hetzner_quiet_get {A} c b raw (out : bytes → option A) : quiet (S := S) (get c b raw out).
Proof. apply quiet_Get. Qed.
Hint Resolve hetzner_quiet_get : quiet.

Lemma quiet_mapServer s : quiet (S := S) (mapServer s).
Proof. unfold mapServer. quiet. Qed.
Hint Resolve quiet_mapServer : quiet.
Lemma hetzner_quiet_Read c b id : quiet (S := S) (Read c b id).
Proof. unfold Read. quiet. Qed.
Lemma hetzner_quiet_mapSnapshot s : quiet (S := S) (mapSnapshot s).
Proof. unfold mapSnapshot. quiet. Qed.
Hint Resolve hetzner_quiet_Read hetzner_quiet_mapSnapshot : quiet.
Lemma hetzner_quiet_ReadSnapshot c b id : quiet (S := S) (ReadSnapshot c b id).
Proof. unfold ReadSnapshot. quiet. Qed.
Hint Resolve hetzner_quiet_ReadSnapshot : quiet.

Lemma hetzner_power_guard_Ok c b action id u : power_guard c b action id = Ok u → b = ac_binding c.
Proof. unfold power_guard. intros [Hg _]%fail_if_bind. by guards. Qed.
Lemma hetzner_create_guard_Ok c b action id u : create_guard c b action id = Ok u → b = ac_binding c.
Proof. unfold create_guard. intros [Hg _]%fail_if_bind. by guards. Qed.
Lemma hetzner_delete_guard_Ok c b action id u : delete_guard c b action id = Ok u → b = ac_binding c.
Proof. unfold delete_guard. intros [Hg _]%fail_if_bind. by guards. Qed.

#[export] Instance hetzner_power_ok c : client_ok HetznerCloud c → Port_ok (S := S) (power c).
Proof.
  intros Hc. split; simpl; intros b action id.
  - intros Hb. apply guard_refuses. by intros u Hu%hetzner_power_guard_Ok.
  - intros ref Hb. apply guard_refuses. by intros u Hu%hetzner_power_guard_Ok.
  - unfold Inspect. quiet.
  - intros ref. unfold Observe. quiet.
  - intros ref. unfold Observe. observes.
  - intros fingerprint. eexists. split; [reflexivity|].
    apply Post_then; [by apply (client_api HetznerCloud)| |].
    + intros r e v [[x ->]|Hr]; [done|]. destruct e; [done|]. by rewrite Hr.
    + intros v. cbn [rc_Outcome ambiguous]. repeat case_match; apply does_ret; (split; [done|]); unfold settles; eauto.
Qed.

#[export] Instance hetzner_snapshotCreate_ok c : client_ok HetznerCloud c → Port_ok (S := S) (snapshotCreate c).
Proof.
  intros Hc. split; simpl; intros b action id.
  - intros Hb. apply guard_refuses. by intros u Hu%hetzner_create_guard_Ok.
  - intros ref Hb. apply guard_refuses. by intros u Hu%hetzner_create_guard_Ok.
  - unfold create_Inspect. quiet.
  - intros ref. unfold create_Observe. quiet.
  - intros ref. unfold create_Observe. observes.
  - intros fingerprint. eexists. split; [reflexivity|].
    apply Post_then; [by apply (client_api HetznerCloud)| |].
    + intros r e v [[x ->]|Hr]; [done|]. destruct e; [done|]. by rewrite Hr.
    + intros v. cbn [rc_Outcome ambiguous]. repeat case_match; apply does_ret; (split; [done|]); unfold settles; eauto.
Qed.

(** The request of a deletion is the shared helper's. *)
Lemma delete_request_shared c id t : client_ok HetznerCloud c →
  delete_request c id t =
  let '(r, e, tr) := DeleteSnapshotRequest web_ParseTime web_Parse web_String (ac_binding c) (ac_binding c) HetznerCloud
                       (ac_http c) (imagesBase +:+ "/" +:+ id) (cr_Token (ac_credential c)) (tn_exchange t) in
  (acknowledged id (r, e), tr).
Proof.
  intros [(h & Hh & _) Htok]. unfold delete_request, DeleteSnapshotRequest, prepared. rewrite Hh.
  rewrite (bool_decide_eq_true_2 (ac_binding c = _)), (bool_decide_eq_false_2 (_ = "")) by done. cbn [negb orb fail_if mbind result_bind].
  destruct (Profile_URL _ _ _); [|done]. cbn [mbind result_bind]. destruct (NewRequest _ _ _ _ _ _) eqn:E; cbn [mbind result_bind].
  - destruct (RequestJSON _ _ _ _ _) as [[x|f] tr]; by repeat case_match.
  - unfold NewRequest in E. by case_match; simplify_eq.
Qed.

#[export] Instance hetzner_snapshotDelete_ok c : client_ok HetznerCloud c → Port_ok (S := S) (snapshotDelete c).
Proof.
  intros Hc. split; simpl; intros b action id.
  - intros Hb. apply guard_refuses. by intros u Hu%hetzner_delete_guard_Ok.
  - intros ref Hb. apply guard_refuses. by intros u Hu%hetzner_delete_guard_Ok.
  - unfold delete_Inspect. quiet.
  - intros ref. unfold delete_Observe. quiet.
  - intros ref. unfold delete_Observe. observes.
  - intros fingerprint. eexists. split; [reflexivity|]. apply does_turn. intros t r tr.
    rewrite delete_request_shared by done. destruct (DeleteSnapshotRequest _ _ _ _ _ _ _ _ _ _) as [[x e] tr'] eqn:E.
    intros [= <- <-].
    destruct (Delete_means (S := unit) (ac_binding c) (ac_binding c) HetznerCloud (ac_http c) (imagesBase +:+ "/" +:+ id)
      (cr_Token (ac_credential c)) (client_api HetznerCloud c ltac:(done) Hc) (λ _, t) O tt (x, e) 1%nat tt tr') as [H1 H2].
    { unfold Delete, turn. by rewrite E. }
    exact (means_acknowledged id (x, e) _ H1 H2).
Qed.
End contracts.

(** ** Pages and evidence *)

Section reading.
Context `{U : UuidApi} `{W : Web} `{T : ValueText} `{D : Decoders} {S : Type}.
Implicit Types (c : BearerClient) (b : Binding).

Lemma next_cursor_descends cursor n next x : page_of cursor = Some n → next_cursor n next = Ok x →
  (0 < page_rank cursor)%nat ∧ (x = "" ∨ (page_rank x < page_rank cursor)%nat).
Proof.
  intros Hc. unfold next_cursor. split; [by eapply page_rank_pos|]. destruct next as [m|]; [|simplify_eq; by left].
  destruct (_ || _) eqn:E; [done|]. guards. subst. simplify_eq. right. apply page_rank_next; [done|lia].
Qed.

#[export] Instance hetzner_Page_descends c b : Descends (S := S) (Page c b) ip_Next page_rank.
Proof. unfold Page. descends next_cursor_descends. Qed.
#[export] Instance hetzner_SnapshotPage_descends c b : Descends (S := S) (SnapshotPage c b) sp_Next page_rank.
Proof. unfold SnapshotPage. descends next_cursor_descends. Qed.

(** A power action reported as done: the provider's own record of the
    submitted action names the target and says success, and a later read of
    the server found the status the action leaves. *)
Lemma hetzner_Observe_evidence c b action id reference w n s n' s' tr :
  Observe (S := S) c b action id reference w n s = (Ok succeeded, n', s', tr) →
  ∃ a o n1 s1 tr1 tr2, reference = Some (pa_ID a) ∧ matches a action id = true ∧ pa_Status a = "success" ∧
    get c b (actionsBase +:+ pa_ID a) un_action w n s = (Ok (Some a), n1, s1, tr1) ∧
    Read c b id w n1 s1 = (Ok o, n', s', tr2) ∧ ob_Status o = want action.
Proof.
  unfold Observe, try_net, mbind, net_bind, mret, net_ret. intros H.
  repeat case_match; simplify_eq/=; guards; subst; eauto 20.
Qed.
End reading.

(** ** What the readers return *)

Section returned.
Context `{U : UuidApi} `{W : Web} `{T : ValueText} `{D : Decoders} {S : Type}.
Implicit Types (c : BearerClient) (b : Binding).

Lemma mapServer_good s : returns (S := S) (mapServer s) good_server.
Proof. unfold mapServer. returns. Qed.

Lemma hetzner_mapSnapshot_good s : returns (S := S) (mapSnapshot s) good_snapshot.
Proof.
  unfold mapSnapshot. returns; (apply checked_snapshot; [|by vm_compute..]); unfold snapshotStatus; simpl; repeat case_decide; set_solver.
Qed.

Lemma next_cursor_short page next x : page_of page = Some next → ∀ m, next_cursor next m = Ok x → len x <= 512.
Proof.
  intros Hp m. unfold next_cursor. destruct m as [m|]; [|by intros [= <-]]. destruct (_ || _) eqn:E; [done|].
  intros [= <-]. apply page_of_range in Hp. guards. apply page_number_short. lia.
Qed.

Lemma hetzner_Page_good c b cursor : returns (S := S) (Page c b cursor) good_page.
Proof.
  unfold Page. destruct (page_of cursor) as [n|] eqn:Hc; [|apply returns_err]. apply returns_then. intros [servers pag].
  destruct servers as [l|]; [|apply returns_err]. destruct pag as [p|]; [|apply returns_err].
  destruct (_ || _) eqn:E; [apply returns_err|]. eapply returns_try; [apply returns_map, mapServer_good|].
  intros data [Hd Hl]. eapply (returns_try _ _ (λ x, len x <= 512)).
  - apply returns_ret. intros x Hx. by eapply next_cursor_short.
  - intros x Hx. apply returns_ret. intros ? [= <-]. guards. split_and!; simpl; [done|lia|done].
Qed.

Lemma hetzner_SnapshotPage_good c b cursor : returns (S := S) (SnapshotPage c b cursor) good_snapshots.
Proof.
  unfold SnapshotPage. destruct (page_of cursor) as [n|] eqn:Hc; [|apply returns_err]. apply returns_then. intros [images pag].
  destruct images as [l|]; [|apply returns_err]. destruct pag as [p|]; [|apply returns_err].
  destruct (_ || _) eqn:E; [apply returns_err|]. eapply returns_try; [apply returns_map, hetzner_mapSnapshot_good|].
  intros data [Hd Hl]. apply returns_then. intros x. apply returns_ret. intros ? [= <-]. guards. split; simpl; [done|lia].
Qed.
End returned.
