(* ===== verification/DigitalOcean.v ===== *)
(** [internal/provider/digitalocean]: the Platform API v2 adapter.  What
    [encoding/json] decodes an answer into is a parameter of the section. *)
From Stdlib Require Import Floats.SpecFloat.
From S2P Require Import Prelude GoBase Json JsonInj Identifier Connection Provider Endpoint Outbound Facts Adapter.
Local Open Scope Z_scope.

Definition Family : string := "digitalocean.platform".
Definition base : string := "https://api.digitalocean.com/v2/droplets".
Definition snapshotsBase : string := "https://api.digitalocean.com/v2/snapshots".

(** [^[a-zA-Z0-9][a-zA-Z0-9-]{0,127}$] *)
Definition snapshotID (s : string) : bool := match_code "-" 127 s.

(** ** Answers *)

Record droplet := MkDroplet {
  dr_ID : string; dr_Name : string; dr_Status : string; dr_Size : string; dr_Region : string }.

Record powerAction := MkPowerAction {
  pa_ID : string; pa_Status : string; pa_Type : string; pa_ResourceID : string; pa_ResourceType : string;
  pa_CompletedAt : option stamp }.

Record snapshot := MkSnapshot {
  sh_ID : string; sh_Name : string; sh_ResourceID : string; sh_ResourceType : string; sh_Created : option stamp;
  sh_Regions : option (list string); sh_Size : option spec_float; sh_MinimumDisk : option spec_float }.

Class Decoders := {
  un_droplets : bytes → option (option (list droplet) * option string);
  un_droplet : bytes → option (option droplet);
  un_locked : bytes → option (option (droplet * option bool));
  un_account : bytes → option (option string);
  un_action : bytes → option (option powerAction);
  un_snapshots : bytes → option (option (list snapshot) * option string);
  un_snapshot : bytes → option (option snapshot);
}.

Section digitalocean.
Context `{U : UuidApi} `{W : Web} `{T : ValueText} `{D : Decoders} {S : Type}.

Definition New (nested : bool) (b : Binding) (c : Credential) (budget : bool) : go BearerClient :=
  if negb (bool_decide (bd_family b = Family)) || negb (bool_decide (cr_Type c = "bearer_v1"))
     || negb (bool_decide (Credential_Validate c = Ok tt)) || negb budget
  then Err ProvErrBinding
  else Ok (MkBearerClient b c (Some (MkClient DigitalOcean nested))).

Implicit Types (c : BearerClient) (b : Binding).

Definition get {A} (c : BearerClient) (b : Binding) (raw : string) (out : bytes → option A) : net S (go A) :=
  Get b (ac_binding c) DigitalOcean (ac_http c) raw (cr_Token (ac_credential c)) out.

(** ** Droplets *)

Definition droplet_statuses : gmap string string := list_to_map [
  ("active", "running"); ("off", "stopped"); ("new", "pending")].

Definition mapDroplet (d : droplet) : net S (go Observation) :=
  let! id := mret (NumericID (dr_ID d)) in
  now ← Now;
  mret (CheckedObservation (MkObservation id (dr_Status d) (NormalizeStatus (dr_Status d) droplet_statuses) (dr_Name d) now
          (MkServerDetails (dr_Region d) (dr_Size d)))).

(** The cursor after page [page], from the link to the next one: it is never
    followed, only compared with the link expected. *)
Definition next_link (path : string) (page : Z) (next : string) : go string :=
  if decide (next = "") then Ok ""
  else
    match Profile_URL web_Parse DigitalOcean next with
    | Err _ => Err InvalidResponse
    | Ok u =>
        match StrictQuery (u_RawQuery u) ["page"; "per_page"] with
        | Err _ => Err InvalidResponse
        | Ok q =>
            if negb (bool_decide (u_Path u = path)) || negb (bool_decide (Values_Get q "page" = FormatInt (page + 1)))
               || negb (bool_decide (Values_Get q "per_page" = "50")) || (page =? 100)
            then Err InvalidResponse else Ok (FormatInt (page + 1))
        end
    end.

Definition Page c b (cursor : string) : net S (go InventoryPage) :=
  match page_of cursor with
  | None => mret (Err InvalidResponse)
  | Some page =>
      let! response := get c b (base +:+ "?per_page=50&page=" +:+ FormatInt page) un_droplets in
      match response with
      | (Some droplets, Some next) =>
          if 50 <? Z.of_nat (length droplets) then mret (Err InvalidResponse)
          else
            let! data := map_net mapDroplet droplets in
            let! next := mret (next_link "/v2/droplets" page next) in
            mret (Ok (MkInventoryPage data next))
      | _ => mret (Err InvalidResponse)
      end
  end.

Definition Read c b (id : string) : net S (go Observation) :=
  let! _ := mret (NumericID id) in
  let! response := get c b (base +:+ "/" +:+ id) un_droplet in
  match response with
  | Some d => if negb (bool_decide (dr_ID d = id)) then mret (Err InvalidResponse) else mapDroplet d
  | None => mret (Err InvalidResponse)
  end.

Definition AccountUserID c b : net S (go string) :=
  let! response := get c b "https://api.digitalocean.com/v2/account" un_account in
  match response with
  | Some text =>
      match uuid_Parse text with
      | Some id => if decide (id = Nil) then mret (Err InvalidResponse) else mret (Ok (uuid_String id))
      | None => mret (Err InvalidResponse)
      end
  | None => mret (Err InvalidResponse)
  end.

Definition Validate c (input : Credential) : net S (go (string * list string)) :=
  if negb (bool_decide (input = ac_credential c)) then mret (Err ProvErrBinding)
  else
    let! _ := AccountUserID c (ac_binding c) in
    let! _ := Page c (ac_binding c) "" in
    mret (Err ProvErrIdentityUnverified).

(** ** Power *)

Definition powerType (action : string) : string :=
  if decide (action = "compute.server.power_on") then "power_on"
  else if decide (action = "compute.server.shutdown") then "shutdown"
  else if decide (action = "compute.server.reboot") then "reboot"
  else if decide (action = "compute.server.power_off") then "power_off"
  else "".

Definition power_guard c b (action id : string) : go unit :=
  fail_if (negb (bool_decide (b = ac_binding c))) ProvErrBinding ;;
  fail_if (bool_decide (powerType action = "")) ProvErrActionUnsupported ;;
  NumericID id ;;
  Ok tt.

(** The droplet a review reads, and whether it is locked. *)
Definition locked_droplet c b (id : string) : net S (go (Observation * bool)) :=
  let! response := get c b (base +:+ "/" +:+ id) un_locked in
  match response with
  | Some (d, Some locked) =>
      if negb (bool_decide (dr_ID d = id)) then mret (Err InvalidResponse)
      else let! o := mapDroplet d in mret (Ok (o, locked))
  | _ => mret (Err InvalidResponse)
  end.

Definition Inspect c b (action id : string) : net S (go Preconditions) :=
  let! _ := mret (power_guard c b action id) in
  let! r := locked_droplet c b id in
  let! pre := mret (PowerPreconditions b action r.1) in
  mret (Ok (MkPreconditions (pre_Fingerprint pre) (pre_TargetName pre) (pre_Allowed pre && negb r.2) (pre_HighImpact pre))).

Definition matches_kind (kind : string) (a : powerAction) (id : string) : bool :=
  bool_decide (pa_Type a = kind) && bool_decide (pa_ResourceID a = id) && bool_decide (pa_ResourceType a = "droplet")
  && bool_decide (NumericID (pa_ID a) = Ok (pa_ID a)).
Definition matches (a : powerAction) (action id : string) : bool := matches_kind (powerType action) a id.
Definition matchesSnapshotAction (a : powerAction) (id : string) : bool := matches_kind "snapshot" a id.

(** What a submission returns once its action was posted. *)
Definition action_receipt (good : powerAction → bool) (answer : Receipt * option error * option (option powerAction))
  : net S (Receipt * option error) :=
  let '(receipt, err, response) := answer in
  match err with
  | Some _ => mret (receipt, err)
  | None =>
      if decide (rc_Outcome receipt = "rejected") then mret (receipt, None)
      else
        match mjoin response with
        | Some a =>
            if negb (good a) then mret (ambiguous, Some InvalidResponse)
            else mret (MkReceipt "accepted" (pa_ID a), None)
        | None => mret (ambiguous, Some InvalidResponse)
        end
  end.

Definition post_action c b (id : string) (fields : list (string * string)) :=
  Post (S := S) b (ac_binding c) DigitalOcean (ac_http c) (base +:+ "/" +:+ id +:+ "/actions")
    (cr_Token (ac_credential c)) (string_bytes (members fields)) (Some un_action).

Definition Submit c b (action id : string) (fingerprint : bytes) : net S (Receipt * option error) :=
  reviewed (Inspect c b action id) fingerprint (
    answer ← post_action c b id [("type", json_string (powerType action))];
    action_receipt (λ a, matches a action id) answer).

Definition want (action : string) : string :=
  if bool_decide (action = "compute.server.shutdown") || bool_decide (action = "compute.server.power_off")
  then "stopped" else "running".

(** [CompletedAt == nil || CompletedAt.IsZero()] *)
Definition incomplete (a : powerAction) : bool :=
  match pa_CompletedAt a with Some t => sm_Time t =? zero_time | None => true end.

(** An observed action, given what a completed one requires besides. *)
Definition observed_action c b (id : string) (good : powerAction → bool) (reference : option string)
  (completed : net S (go ActionObservation)) : net S (go ActionObservation) :=
  match reference with
  | None => mret (Ok unknown)
  | Some ref =>
      let! _ := mret (NumericID ref) in
      let! response := get c b (base +:+ "/" +:+ id +:+ "/actions/" +:+ ref) un_action in
      match response with
      | Some a =>
          if negb (good a) || negb (bool_decide (pa_ID a = ref)) then mret (Err InvalidResponse)
          else if decide (pa_Status a = "in-progress") then mret (Ok pending)
          else if decide (pa_Status a = "errored") then mret (Ok action_failed)
          else if decide (pa_Status a = "completed") then
            if incomplete a then mret (Ok unknown) else completed
          else mret (Ok unknown)
      | None => mret (Err InvalidResponse)
      end
  end.

Definition Observe c b (action id : string) (reference : option string) : net S (go ActionObservation) :=
  let! _ := mret (power_guard c b action id) in
  observed_action c b id (λ a, matches a action id) reference (
    let! o := Read c b id in
    mret (Ok (if decide (ob_Status o = want action) then succeeded else pending))).

Definition power c : Port S := MkPort (ac_binding c) (Inspect c) (Submit c) (Observe c).

(** ** Snapshots *)

Definition snapshot_kind (native : string) : option string :=
  if decide (native = "droplet") then Some "compute.server"
  else if decide (native = "volume") then Some "storage.volume"
  else None.

Definition mapSnapshot (s : snapshot) : net S (go SnapshotObservation) :=
  if negb (snapshotID (sh_ID s)) || negb (snapshotID (sh_ResourceID s)) then mret (Err InvalidResponse)
  else
    match snapshot_kind (sh_ResourceType s) with
    | None => mret (Err InvalidResponse)
    | Some kind =>
        now ← Now;
        mret (CheckedSnapshot (MkSnapshotObservation (sh_ID s) (sh_Name s) (sh_ResourceID s) kind "unknown" ""
                "not_reported" (sh_Created s) "" "" None (sh_Size s) (sh_MinimumDisk s) (sh_Regions s) now))
    end.

Definition SnapshotPage c b (cursor : string) : net S (go SnapshotPage) :=
  match page_of cursor with
  | None => mret (Err InvalidResponse)
  | Some page =>
      let! response := get c b (snapshotsBase +:+ "?per_page=50&page=" +:+ FormatInt page) un_snapshots in
      match response with
      | (Some snapshots, Some next) =>
          if 50 <? Z.of_nat (length snapshots) then mret (Err InvalidResponse)
          else
            let! data := map_net mapSnapshot snapshots in
            let! next := mret (next_link "/v2/snapshots" page next) in
            mret (Ok (MkSnapshotPage data next))
      | _ => mret (Err InvalidResponse)
      end
  end.

Definition ReadSnapshot c b (id : string) : net S (go SnapshotObservation) :=
  if negb (snapshotID id) then mret (Err InvalidResponse)
  else
    let! response := get c b (snapshotsBase +:+ "/" +:+ id) un_snapshot in
    match response with
    | Some s => if negb (bool_decide (sh_ID s = id)) then mret (Err InvalidResponse) else mapSnapshot s
    | None => mret (Err InvalidResponse)
    end.

(** *** Creation *)

Definition create_guard c b (action id : string) : go unit :=
  fail_if (negb (bool_decide (b = ac_binding c))) ProvErrBinding ;;
  fail_if (negb (bool_decide (action = SnapshotCreate))) ProvErrActionUnsupported ;;
  NumericID id ;;
  Ok tt.

Definition create_Inspect c b (action id : string) : net S (go Preconditions) :=
  let! _ := mret (create_guard c b action id) in
  let! r := locked_droplet c b id in
  mret (SnapshotServerReview b action r.1 r.2).

Definition create_Submit c b (action id : string) (fingerprint : bytes) : net S (Receipt * option error) :=
  reviewed (create_Inspect c b action id) fingerprint (
    answer ← post_action c b id [("type", json_string "snapshot"); ("name", json_string ("sama-" +:+ id))];
    action_receipt (λ a, matchesSnapshotAction a id) answer).

Definition create_Observe c b (action id : string) (reference : option string) : net S (go ActionObservation) :=
  let! _ := mret (create_guard c b action id) in
  observed_action c b id (λ a, matchesSnapshotAction a id) reference (mret (Ok succeeded)).

Definition snapshotCreate c : Port S := MkPort (ac_binding c) (create_Inspect c) (create_Submit c) (create_Observe c).

(** *** Deletion *)

Definition delete_guard c b (action : string) : go unit :=
  fail_if (negb (bool_decide (b = ac_binding c))) ProvErrBinding ;;
  fail_if (negb (bool_decide (action = SnapshotDelete))) ProvErrActionUnsupported.

Definition delete_Inspect c b (action id : string) : net S (go Preconditions) :=
  let! _ := mret (delete_guard c b action) in
  let! o := ReadSnapshot c b id in
  mret (SnapshotImageReview b action o).

Definition delete_Submit c b (action id : string) (fingerprint : bytes) : net S (Receipt * option error) :=
  reviewed (delete_Inspect c b action id) fingerprint (
    r ← Delete b (ac_binding c) DigitalOcean (ac_http c) (snapshotsBase +:+ "/" +:+ id) (cr_Token (ac_credential c));
    mret (acknowledged id r)).

Definition delete_Observe c b (action id : string) (reference : option string) : net S (go ActionObservation) :=
  let! _ := mret (delete_guard c b action) in
  if negb (snapshotID id) then mret (Err InvalidResponse)
  else
    match reference with
    | None => mret (Ok unknown)
    | Some ref =>
        if negb (bool_decide (ref = "delete/" +:+ id)) then mret (Err InvalidResponse)
        else
          '(status, response) ← GetStatus b (ac_binding c) DigitalOcean (ac_http c) (snapshotsBase +:+ "/" +:+ id)
             (cr_Token (ac_credential c)) un_snapshot;
          match response with
          | Err e => if (status =? 404) then mret (Ok succeeded) else mret (Err e)
          | Ok (Some s) =>
              if negb (bool_decide (sh_ID s = id)) then mret (Err InvalidResponse)
              else let! _ := mapSnapshot s in mret (Ok pending)
          | Ok None => mret (Err InvalidResponse)
          end
    end.

Definition snapshotDelete c : Port S := MkPort (ac_binding c) (delete_Inspect c) (delete_Submit c) (delete_Observe c).
End digitalocean.

(** ** The ports keep their contract *)

Section contracts.
Context `{U : UuidApi} `{W : Web} `{T : ValueText} `{D : Decoders} {S : Type}.
Implicit Types (c : BearerClient) (b : Binding).

Lemma digitalocean_New_ok nested b cr budget c : New nested b cr budget = Ok c →
  client_ok DigitalOcean c ∧ ac_binding c = b ∧ ac_credential c = cr ∧ bd_family b = Family.
Proof.
  unfold New. intros H. destruct (_ || _) eqn:E; [done|]. injection H as <-. guards. split_and!; [|done..].
  split; [by eexists|]. simpl. by apply bearer_token.
Qed.

Lemma digitalocean_quiet_get {A} c b raw (out : bytes → option A) : quiet (S := S) (get c b raw out).
Proof. apply quiet_Get. Qed.
Hint Resolve digitalocean_quiet_get : quiet.
Lemma quiet_mapDroplet d : quiet (S := S) (mapDroplet d).
Proof. unfold mapDroplet. quiet. Qed.
Lemma digitalocean_quiet_mapSnapshot s : quiet (S := S) (mapSnapshot s).
Proof. unfold mapSnapshot. quiet. Qed.
Hint Resolve quiet_mapDroplet digitalocean_quiet_mapSnapshot : quiet.
Lemma digitalocean_quiet_Read c b id : quiet (S := S) (Read c b id).
Proof. unfold Read. quiet. Qed.
Lemma quiet_locked c b id : quiet (S := S) (locked_droplet c b id).
Proof. unfold locked_droplet. quiet. Qed.
Lemma digitalocean_quiet_ReadSnapshot c b id : quiet (S := S) (ReadSnapshot c b id).
Proof. unfold ReadSnapshot. quiet. Qed.
Hint Resolve digitalocean_quiet_Read quiet_locked digitalocean_quiet_ReadSnapshot : quiet.

Lemma digitalocean_power_guard_Ok c b action id u : power_guard c b action id = Ok u → b = ac_binding c.
Proof. unfold power_guard. intros [Hg _]%fail_if_bind. by guards. Qed.
Lemma digitalocean_create_guard_Ok c b action id u : create_guard c b action id = Ok u → b = ac_binding c.
Proof. unfold create_guard. intros [Hg _]%fail_if_bind. by guards. Qed.
Lemma digitalocean_delete_guard_Ok c b action u : delete_guard c b action = Ok u → b = ac_binding c.
Proof. unfold delete_guard. intros [Hg _]%fail_if_bind. by guards. Qed.

Lemma post_action_means c b id fields good : client_ok DigitalOcean c →
  does (S := S) (answer ← post_action c b id fields; action_receipt good answer) (λ r tr, receipt_means r (mutations tr)).
Proof.
  intros Hc. apply Post_then; [by apply (client_api DigitalOcean)| |].
  - intros r e v [[x ->]|Hr]; [done|]. destruct e; [done|]. unfold action_receipt. by rewrite Hr.
  - intros v. unfold action_receipt. cbn [rc_Outcome ambiguous].
    repeat case_match; apply does_ret; (split; [done|]); unfold settles; eauto.
Qed.

#[export] Instance digitalocean_power_ok c : client_ok DigitalOcean c → Port_ok (S := S) (power c).
Proof.
  intros Hc. split; simpl; intros b action id.
  - intros Hb. apply guard_refuses. by intros u Hu%digitalocean_power_guard_Ok.
  - intros ref Hb. apply guard_refuses. by intros u Hu%digitalocean_power_guard_Ok.
  - unfold Inspect. quiet.
  - intros ref. unfold Observe, observed_action. quiet.
  - intros ref. unfold Observe, observed_action. observes.
  - intros fingerprint. eexists. split; [reflexivity|]. by apply post_action_means.
Qed.

#[export] Instance digitalocean_snapshotCreate_ok c : client_ok DigitalOcean c → Port_ok (S := S) (snapshotCreate c).
Proof.
  intros Hc. split; simpl; intros b action id.
  - intros Hb. apply guard_refuses. by intros u Hu%digitalocean_create_guard_Ok.
  - intros ref Hb. apply guard_refuses. by intros u Hu%digitalocean_create_guard_Ok.
  - unfold create_Inspect. quiet.
  - intros ref. unfold create_Observe, observed_action. quiet.
  - intros ref. unfold create_Observe, observed_action. observes.
  - intros fingerprint. eexists. split; [reflexivity|]. by apply post_action_means.
Qed.

#[export] Instance digitalocean_snapshotDelete_ok c : client_ok DigitalOcean c → Port_ok (S := S) (snapshotDelete c).
Proof.
  intros Hc. split; simpl; intros b action id.
  - intros Hb. apply guard_refuses. by intros u Hu%digitalocean_delete_guard_Ok.
  - intros ref Hb. apply guard_refuses. by intros u Hu%digitalocean_delete_guard_Ok.
  - unfold delete_Inspect. quiet.
  - intros ref. unfold delete_Observe. quiet.
  - intros ref. unfold delete_Observe. observes.
  - intros fingerprint. eexists. split; [reflexivity|]. apply Delete_then. by apply (client_api DigitalOcean).
Qed.
End contracts.

(** ** Pages and evidence *)

Section reading.
Context `{U : UuidApi} `{W : Web} `{T : ValueText} `{D : Decoders} {S : Type}.
Implicit Types (c : BearerClient) (b : Binding).

Lemma next_link_descends cursor n path next x : page_of cursor = Some n → next_link path n next = Ok x →
  (0 < page_rank cursor)%nat ∧ (x = "" ∨ (page_rank x < page_rank cursor)%nat).
Proof.
  intros Hc. pose proof (page_of_range _ _ Hc). unfold next_link. split; [by eapply page_rank_pos|].
  case_decide; [simplify_eq; by left|]. destruct (Profile_URL _ _ _); [|done]. destruct (StrictQuery _ _); [|done].
  destruct (_ || _) eqn:E; [done|]. guards. simplify_eq. right. apply page_rank_next; [done|lia].
Qed.

#[export] Instance digitalocean_Page_descends c b : Descends (S := S) (Page c b) ip_Next page_rank.
Proof. unfold Page. descends next_link_descends. Qed.
#[export] Instance digitalocean_SnapshotPage_descends c b : Descends (S := S) (SnapshotPage c b) sp_Next page_rank.
Proof. unfold SnapshotPage. descends next_link_descends. Qed.

(** A power action reported as done: the provider's own record of the
    submitted action names the target and is completed at an instant, and a
    later read of the droplet found the status the action leaves. *)
Lemma digitalocean_Observe_evidence c b action id reference w n s n' s' tr :
  Observe (S := S) c b action id reference w n s = (Ok succeeded, n', s', tr) →
  ∃ a o n1 s1 tr1 tr2, reference = Some (pa_ID a) ∧ matches a action id = true ∧ pa_Status a = "completed" ∧
    incomplete a = false ∧
    get c b (base +:+ "/" +:+ id +:+ "/actions/" +:+ pa_ID a) un_action w n s = (Ok (Some a), n1, s1, tr1) ∧
    Read c b id w n1 s1 = (Ok o, n', s', tr2) ∧ ob_Status o = want action.
Proof.
  unfold Observe, observed_action, try_net, mbind, net_bind, mret, net_ret. intros H.
  repeat case_match; simplify_eq/=; guards; subst; eauto 20.
Qed.
End reading.

(** ** What the readers return *)

Section returned.
Context `{U : UuidApi} `{W : Web} `{T : ValueText} `{D : Decoders} {S : Type}.
Implicit Types (c : BearerClient) (b : Binding).

Lemma mapDroplet_good d : returns (S := S) (mapDroplet d) good_server.
Proof. unfold mapDroplet. returns. Qed.

Lemma digitalocean_mapSnapshot_good s : returns (S := S) (mapSnapshot s) good_snapshot.
Proof. unfold mapSnapshot. returns. apply checked_snapshot; [set_solver|by vm_compute..]. Qed.

Lemma next_link_short path cursor n next x : page_of cursor = Some n → next_link path n next = Ok x → len x <= 512.
Proof.
  intros Hc%page_of_range. unfold next_link. case_decide; [by intros [= <-]|].
  destruct (Profile_URL _ _ _); [|done]. destruct (StrictQuery _ _); [|done]. destruct (_ || _); [done|].
  intros [= <-]. apply page_number_short. lia.
Qed.

Lemma digitalocean_Page_good c b cursor : returns (S := S) (Page c b cursor) good_page.
Proof.
  unfold Page. destruct (page_of cursor) as [n|] eqn:Hc; [|apply returns_err]. apply returns_then. intros [droplets links].
  destruct droplets as [l|]; [|apply returns_err]. destruct links as [p|]; [|apply returns_err].
  destruct (_ <? _) eqn:E; [apply returns_err|]. eapply returns_try; [apply returns_map, mapDroplet_good|].
  intros data [Hd Hl]. eapply (returns_try _ _ (λ x, len x <= 512)).
  - apply returns_ret. intros x Hx. by eapply next_link_short.
  - intros x Hx. apply returns_ret. intros ? [= <-]. guards. split_and!; simpl; [done|lia|done].
Qed.

Lemma digitalocean_SnapshotPage_good c b cursor : returns (S := S) (SnapshotPage c b cursor) good_snapshots.
Proof.
  unfold SnapshotPage. destruct (page_of cursor) as [n|] eqn:Hc; [|apply returns_err]. apply returns_then.
  intros [snapshots links]. destruct snapshots as [l|]; [|apply returns_err]. destruct links as [p|]; [|apply returns_err].
  destruct (_ <? _) eqn:E; [apply returns_err|]. eapply returns_try; [apply returns_map, digitalocean_mapSnapshot_good|].
  intros data [Hd Hl]. apply returns_then. intros x. apply returns_ret. intros ? [= <-]. guards. split; simpl; [done|lia].
Qed.
End returned.
