(* ===== verification/Vultr.v ===== *)
(** [internal/provider/vultr]: the Compute API v2 adapter.  What
    [encoding/json] and [time.Parse] make of an answer are parameters. *)
From S2P Require Import Prelude GoBase Json JsonInj Identifier Connection Provider Endpoint Outbound Facts Adapter.
Local Open Scope Z_scope.

Definition Family : string := "vultr.compute".
Definition base : string := "https://api.vultr.com/v2/instances".
Definition snapshotsBase : string := "https://api.vultr.com/v2/snapshots".

(** [^[A-Za-z0-9][A-Za-z0-9_-]{0,127}$] and [^[A-Za-z0-9_=-]{1,512}$] *)
Definition nativeID (s : string) : bool := match_code "_-" 127 s.
Definition safeCursor (s : string) : bool :=
  string_forallb (λ c, is_alnum c || is_one_of "_=-" c) s && (1 <=? len s) && (len s <=? 512).

(** ** Answers *)

Record instance := MkInstance {
  in_ID : string; in_Label : string; in_Status : string; in_Power : string; in_Server : string; in_Region : string;
  in_Plan : string }.

Record snapshot := MkSnapshot { sh_ID : string; sh_Created : string; sh_Size : option Z; sh_Status : string }.

Class Decoders := {
  un_instances : bytes → option (option (list instance) * option (option string));
  un_instance : bytes → option (option instance);
  un_account : bytes → option (option (list string));
  un_snapshots : bytes → option (option (list snapshot) * option (option string));
  un_snapshot : bytes → option (option snapshot);
}.

Section vultr.
Context `{U : UuidApi} `{W : Web} `{T : ValueText} `{C : Clock} `{D : Decoders} {S : Type}.

Definition New (nested : bool) (b : Binding) (c : Credential) (budget : bool) : go BearerClient :=
  if negb (bool_decide (bd_family b = Family)) || negb (bool_decide (cr_Type c = "bearer_v1"))
     || negb (bool_decide (Credential_Validate c = Ok tt)) || negb budget
  then Err ProvErrBinding
  else Ok (MkBearerClient b c (Some (MkClient Vultr nested))).

Implicit Types (c : BearerClient) (b : Binding).

Definition get {A} (c : BearerClient) (b : Binding) (raw : string) (out : bytes → option A) : net S (go A) :=
  Get b (ac_binding c) Vultr (ac_http c) raw (cr_Token (ac_credential c)) out.

(** ** Instances *)

Definition instance_statuses : gmap string string := list_to_map [("running", "running"); ("stopped", "stopped")].

Definition mapInstance (i : instance) : net S (go Observation) :=
  if negb (nativeID (in_ID i)) then mret (Err InvalidResponse)
  else
    let native := in_Status i +:+ "/" +:+ in_Power i +:+ "/" +:+ in_Server i in
    let status := if bool_decide (in_Status i = "active") && bool_decide (in_Server i = "ok")
                  then NormalizeStatus (in_Power i) instance_statuses else "unknown" in
    now ← Now;
    mret (CheckedObservation (MkObservation (in_ID i) native status (in_Label i) now
            (MkServerDetails (in_Region i) (in_Plan i)))).

(** The provider's next cursor is opaque, and never the one just used. *)
Definition Page c b (cursor : string) : net S (go InventoryPage) :=
  if negb (bool_decide (cursor = "")) && negb (safeCursor cursor) then mret (Err InvalidResponse)
  else
    let raw := base +:+ "?per_page=50" +:+ (if decide (cursor = "") then "" else "&cursor=" +:+ QueryEscape cursor) in
    let! response := get c b raw un_instances in
    match response with
    | (Some instances, Some (Some next)) =>
        if 50 <? Z.of_nat (length instances) then mret (Err InvalidResponse)
        else
          let! data := map_net mapInstance instances in
          if decide (next = "") then mret (Ok (MkInventoryPage data ""))
          else if negb (safeCursor next) || bool_decide (next = cursor) then mret (Err InvalidResponse)
          else mret (Ok (MkInventoryPage data next))
    | _ => mret (Err InvalidResponse)
    end.

Definition Read c b (id : string) : net S (go Observation) :=
  if negb (nativeID id) then mret (Err InvalidResponse)
  else
    let! response := get c b (base +:+ "/" +:+ id) un_instance in
    match response with
    | Some i => if negb (bool_decide (in_ID i = id)) then mret (Err InvalidResponse) else mapInstance i
    | None => mret (Err InvalidResponse)
    end.

Definition Validate c (input : Credential) : net S (go (string * list string)) :=
  if negb (bool_decide (input = ac_credential c)) then mret (Err ProvErrBinding)
  else
    let! response := get c (ac_binding c) "https://api.vultr.com/v2/account" un_account in
    match response with
    | Some _ => let! _ := Page c (ac_binding c) "" in mret (Err ProvErrIdentityUnverified)
    | None => mret (Err InvalidResponse)
    end.

(** ** Power *)

(** There is no graceful shutdown. *)
Definition powerPath (action : string) : string :=
  if decide (action = "compute.server.power_on") then "start"
  else if decide (action = "compute.server.reboot") then "reboot"
  else if decide (action = "compute.server.power_off") then "halt"
  else "".

Definition power_guard c b (action : string) : go unit :=
  fail_if (negb (bool_decide (b = ac_binding c))) ProvErrBinding ;;
  fail_if (bool_decide (powerPath action = "")) ProvErrActionUnsupported.

Definition Inspect c b (action id : string) : net S (go Preconditions) :=
  let! _ := mret (power_guard c b action) in
  let! o := Read c b id in
  mret (PowerPreconditions b action o).

(** The answer has no action: its receipt stays ambiguous. *)
Definition Submit c b (action id : string) (fingerprint : bytes) : net S (Receipt * option error) :=
  reviewed (Inspect c b action id) fingerprint (
    '(receipt, err, _) ← Post (A := unit) b (ac_binding c) Vultr (ac_http c) (base +:+ "/" +:+ id +:+ "/" +:+ powerPath action)
       (cr_Token (ac_credential c)) [] None;
    mret (receipt, err)).

Definition Observe c b (action id : string) (reference : option string) : net S (go ActionObservation) :=
  let! _ := mret (power_guard c b action) in
  if negb (nativeID id) || negb (bool_decide (reference = None)) then mret (Err InvalidResponse)
  else if decide (action = "compute.server.reboot") then mret (Ok unknown)
  else
    let! o := Read c b id in
    let want := if decide (action = "compute.server.power_off") then "stopped" else "running" in
    mret (Ok (if decide (ob_Status o = want) then succeeded else pending)).

Definition power c : Port S := MkPort (ac_binding c) (Inspect c) (Submit c) (Observe c).

(** ** Snapshots *)

Definition snapshot_status (native : string) : string :=
  if decide (native = "complete") then "available"
  else if decide (native = "pending") then "pending"
  else if decide (native = "deleted") then "deleted"
  else "unknown".

(** A creation time without an offset is no instant. *)
Definition snapshot_created (created : string) : go (option stamp * string) :=
  if decide (created = "") then Ok (None, "not_reported")
  else
    match Parse_RFC3339 created with
    | Some t => Ok (Some (MkStamp t 0), "")
    | None => if Parse_DateTime created then Ok (None, "timezone_not_reported") else Err InvalidResponse
    end.

Definition mapSnapshot (s : snapshot) : net S (go SnapshotObservation) :=
  if negb (nativeID (sh_ID s)) then mret (Err InvalidResponse)
  else
    now ← Now;
    let! r := mret (snapshot_created (sh_Created s)) in
    mret (CheckedSnapshot (MkSnapshotObservation (sh_ID s) "" "" "" (snapshot_status (sh_Status s)) (sh_Status s) ""
            r.1 (sh_Created s) r.2 (sh_Size s) None None (Some []) now)).

(** A cursor: the page's number, 2 to 100, and the provider's own cursor. *)
Definition snapshot_cursor (cursor : string) : option (Z * string) :=
  if decide (cursor = "") then Some (1, "")
  else if negb (GoBase.Contains cursor ":") then None
  else
    let '(number, native) := Cut ":" cursor in
    match ParseInt number with
    | Some page =>
        if (page <? 2) || (100 <? page) || negb (bool_decide (FormatInt page = number)) || negb (safeCursor native)
        then None else Some (page, native)
    | None => None
    end.

Definition SnapshotPage c b (cursor : string) : net S (go SnapshotPage) :=
  match snapshot_cursor cursor with
  | None => mret (Err InvalidResponse)
  | Some (page, native) =>
      let raw := snapshotsBase +:+ "?per_page=50" +:+ (if decide (cursor = "") then "" else "&cursor=" +:+ QueryEscape native) in
      let! response := get c b raw un_snapshots in
      match response with
      | (Some snapshots, Some (Some next)) =>
          if 50 <? Z.of_nat (length snapshots) then mret (Err InvalidResponse)
          else
            let! data := map_net mapSnapshot snapshots in
            if decide (next = "") then mret (Ok (MkSnapshotPage data ""))
            else if negb (safeCursor next) || bool_decide (next = native) || (page =? 100) then mret (Err InvalidResponse)
            else mret (Ok (MkSnapshotPage data (FormatInt (page + 1) +:+ ":" +:+ next)))
      | _ => mret (Err InvalidResponse)
      end
  end.

Definition ReadSnapshot c b (id : string) : net S (go SnapshotObservation) :=
  if negb (nativeID id) then mret (Err InvalidResponse)
  else
    let! response := get c b (snapshotsBase +:+ "/" +:+ id) un_snapshot in
    match response with
    | Some s => if negb (bool_decide (sh_ID s = id)) then mret (Err InvalidResponse) else mapSnapshot s
    | None => mret (Err InvalidResponse)
    end.

(** The guards both snapshot actions share, with the action each accepts. *)
Definition snapshot_guard c b (accepted action : string) : go unit :=
  fail_if (negb (bool_decide (b = ac_binding c))) ProvErrBinding ;;
  fail_if (negb (bool_decide (action = accepted))) ProvErrActionUnsupported.

(** *** Creation *)

Definition create_Inspect c b (action id : string) : net S (go Preconditions) :=
  let! _ := mret (snapshot_guard c b SnapshotCreate action) in
  let! o := Read c b id in
  mret (SnapshotServerReview b action o false).

(** The answer names the new snapshot; the reference binds it to its source. *)
Definition create_receipt (id : string) (answer : Receipt * option error * option (option snapshot))
  : net S (Receipt * option error) :=
  let '(receipt, err, response) := answer in
  match err with
  | Some _ => mret (receipt, err)
  | None =>
      if decide (rc_Outcome receipt = "rejected") then mret (receipt, None)
      else
        match mjoin response with
        | Some s =>
            r ← mapSnapshot s;
            match r with
            | Err e => mret (ambiguous, Some e)
            | Ok _ => mret (MkReceipt "accepted" (id +:+ "/" +:+ sh_ID s), None)
            end
        | None => mret (ambiguous, Some InvalidResponse)
        end
  end.

Definition create_Submit c b (action id : string) (fingerprint : bytes) : net S (Receipt * option error) :=
  reviewed (create_Inspect c b action id) fingerprint (
    answer ← Post b (ac_binding c) Vultr (ac_http c) snapshotsBase (cr_Token (ac_credential c))
      (string_bytes (members [("instance_id", json_string id)])) (Some un_snapshot);
    create_receipt id answer).

Definition create_Observe c b (action id : string) (reference : option string) : net S (go ActionObservation) :=
  let! _ := mret (snapshot_guard c b SnapshotCreate action) in
  if negb (nativeID id) then mret (Err InvalidResponse)
  else
    match reference with
    | None => mret (Ok unknown)
    | Some ref =>
        match Split "/" ref with
        | [source; image] =>
            if negb (bool_decide (source = id)) || negb (nativeID image) then mret (Err InvalidResponse)
            else
              let! o := ReadSnapshot c b image in
              mret (Ok (if decide (so_Status o = "available") then succeeded
                        else if decide (so_Status o = "pending") then pending else unknown))
        | _ => mret (Err InvalidResponse)
        end
    end.

Definition snapshotCreate c : Port S := MkPort (ac_binding c) (create_Inspect c) (create_Submit c) (create_Observe c).

(** *** Deletion *)

Definition delete_Inspect c b (action id : string) : net S (go Preconditions) :=
  let! _ := mret (snapshot_guard c b SnapshotDelete action) in
  let! o := ReadSnapshot c b id in
  mret (SnapshotImageReview b action o).

Definition delete_Submit c b (action id : string) (fingerprint : bytes) : net S (Receipt * option error) :=
  reviewed (delete_Inspect c b action id) fingerprint (
    r ← Delete b (ac_binding c) Vultr (ac_http c) (snapshotsBase +:+ "/" +:+ id) (cr_Token (ac_credential c));
    mret (acknowledged id r)).

Definition delete_Observe c b (action id : string) (reference : option string) : net S (go ActionObservation) :=
  let! _ := mret (snapshot_guard c b SnapshotDelete action) in
  if negb (nativeID id) then mret (Err InvalidResponse)
  else
    match reference with
    | None => mret (Ok unknown)
    | Some ref =>
        if negb (bool_decide (ref = "delete/" +:+ id)) then mret (Err InvalidResponse)
        else
          '(status, response) ← GetStatus b (ac_binding c) Vultr (ac_http c) (snapshotsBase +:+ "/" +:+ id)
             (cr_Token (ac_credential c)) un_snapshot;
          match response with
          | Err e => if (status =? 404) then mret (Ok succeeded) else mret (Err e)
          | Ok (Some s) =>
              if negb (bool_decide (sh_ID s = id)) then mret (Err InvalidResponse)
              else
                let! o := mapSnapshot s in
                mret (Ok (if decide (so_Status o = "deleted") then succeeded else pending))
          | Ok None => mret (Err InvalidResponse)
          end
    end.

Definition snapshotDelete c : Port S := MkPort (ac_binding c) (delete_Inspect c) (delete_Submit c) (delete_Observe c).
End vultr.

(** ** The ports keep their contract *)

Section contracts.
Context `{U : UuidApi} `{W : Web} `{T : ValueText} `{C : Clock} `{D : Decoders} {S : Type}.
Implicit Types (c : BearerClient) (b : Binding).

Lemma vultr_New_ok nested b cr budget c : New nested b cr budget = Ok c →
  client_ok Vultr c ∧ ac_binding c = b ∧ ac_credential c = cr ∧ bd_family b = Family.
Proof.
  unfold New. intros H. destruct (_ || _) eqn:E; [done|]. injection H as <-. guards. split_and!; [|done..].
  split; [by eexists|]. simpl. by apply bearer_token.
Qed.

Lemma vultr_quiet_get {A} c b raw (out : bytes → option A) : quiet (S := S) (get c b raw out).
Proof. apply quiet_Get. Qed.
Hint Resolve vultr_quiet_get : quiet.
Lemma vultr_quiet_mapInstance i : quiet (S := S) (mapInstance i).
Proof. unfold mapInstance. quiet. Qed.
Lemma vultr_quiet_mapSnapshot s : quiet (S := S) (mapSnapshot s).
Proof. unfold mapSnapshot. quiet. Qed.
Hint Resolve vultr_quiet_mapInstance vultr_quiet_mapSnapshot : quiet.
Lemma vultr_quiet_Read c b id : quiet (S := S) (Read c b id).
Proof. unfold Read. quiet. Qed.
Lemma vultr_quiet_ReadSnapshot c b id : quiet (S := S) (ReadSnapshot c b id).
Proof. unfold ReadSnapshot. quiet. Qed.
Hint Resolve vultr_quiet_Read vultr_quiet_ReadSnapshot : quiet.

Lemma vultr_power_guard_Ok c b action u : power_guard c b action = Ok u → b = ac_binding c.
Proof. unfold power_guard. intros [Hg _]%fail_if_bind. by guards. Qed.
Lemma vultr_snapshot_guard_Ok c b accepted action u : snapshot_guard c b accepted action = Ok u → b = ac_binding c.
Proof. unfold snapshot_guard. intros [Hg _]%fail_if_bind. by guards. Qed.

#[export] Instance vultr_power_ok c : client_ok Vultr c → Port_ok (S := S) (power c).
Proof.
  intros Hc. split; simpl; intros b action id.
  - intros Hb. apply guard_refuses. by intros u Hu%vultr_power_guard_Ok.
  - intros ref Hb. apply guard_refuses. by intros u Hu%vultr_power_guard_Ok.
  - unfold Inspect. quiet.
  - intros ref. unfold Observe. quiet.
  - intros ref. unfold Observe. observes.
  - intros fingerprint. eexists. split; [reflexivity|].
    apply Post_then; [by apply (client_api Vultr)|done|]. intros v. apply does_ret. split; [done|by left].
Qed.

#[export] Instance vultr_snapshotCreate_ok c : client_ok Vultr c → Port_ok (S := S) (snapshotCreate c).
Proof.
  intros Hc. split; simpl; intros b action id.
  - intros Hb. apply guard_refuses. by intros u Hu%vultr_snapshot_guard_Ok.
  - intros ref Hb. apply guard_refuses. by intros u Hu%vultr_snapshot_guard_Ok.
  - unfold create_Inspect. quiet.
  - intros ref. unfold create_Observe. quiet.
  - intros ref. unfold create_Observe. observes.
  - intros fingerprint. eexists. split; [reflexivity|]. apply Post_then; [by apply (client_api Vultr)| |].
    + intros r e v [[x ->]|Hr]; [done|]. destruct e; [done|]. unfold create_receipt. by rewrite Hr.
    + intros v. unfold create_receipt. cbn [rc_Outcome ambiguous]. rewrite decide_False by done.
      destruct (mjoin v) as [s|]; [|apply does_ret; split; [done|by left]].
      eapply does_bind; [apply vultr_quiet_mapSnapshot|]. intros [o|e] tr Htr; apply does_ret;
        (split; [by rewrite mutations_app, Htr|]); [right; by eexists|by left].
Qed.

#[export] Instance vultr_snapshotDelete_ok c : client_ok Vultr c → Port_ok (S := S) (snapshotDelete c).
Proof.
  intros Hc. split; simpl; intros b action id.
  - intros Hb. apply guard_refuses. by intros u Hu%vultr_snapshot_guard_Ok.
  - intros ref Hb. apply guard_refuses. by intros u Hu%vultr_snapshot_guard_Ok.
  - unfold delete_Inspect. quiet.
  - intros ref. unfold delete_Observe. quiet.
  - intros ref. unfold delete_Observe. observes.
  - intros fingerprint. eexists. split; [reflexivity|]. apply Delete_then. by apply (client_api Vultr).
Qed.
End contracts.

(** ** Pages and evidence *)

Section reading.
Context `{U : UuidApi} `{W : Web} `{T : ValueText} `{C : Clock} `{D : Decoders} {S : Type}.
Implicit Types (c : BearerClient) (b : Binding).

Definition snapshot_rank (cursor : string) : nat :=
  match snapshot_cursor cursor with Some (n, _) => Z.to_nat (101 - n) | None => O end.

Lemma snapshot_cursor_range cursor n x : snapshot_cursor cursor = Some (n, x) → 1 <= n <= 100.
Proof. unfold snapshot_cursor. intros H. repeat case_match; simplify_eq; guards; lia. Qed.

Lemma snapshot_cursor_next n x : 1 <= n < 100 → safeCursor x = true →
  snapshot_cursor (FormatInt (n + 1) +:+ ":" +:+ x) = Some (n + 1, x).
Proof.
  intros Hn Hx. assert (∀ m, 2 <= m <= 100 → ParseInt (FormatInt m) = Some m ∧ FormatInt m ≠ "" ∧
    string_forallb (λ d, negb (is_one_of ":" d)) (FormatInt m) = true) as Hf.
  { intros m Hm. assert (forallb (λ m, bool_decide (ParseInt (FormatInt m) = Some m ∧ FormatInt m ≠ "" ∧
      string_forallb (λ d, negb (is_one_of ":" d)) (FormatInt m) = true)) (seqZ 2 99) = true) as H by (vm_compute; reflexivity).
    rewrite forallb_forall in H. specialize (H m). rewrite bool_decide_eq_true in H. apply H.
    apply list_elem_of_In, elem_of_seqZ. lia. }
  destruct (Hf (n + 1) ltac:(lia)) as (Hp & Hne & Hc). unfold snapshot_cursor.
  destruct (cut_colon (FormatInt (n + 1)) x Hc) as [-> Hcut]. rewrite decide_False, Hcut, Hp, Hx.
  2: { intros H. apply Hne. by destruct (FormatInt (n + 1)). }
  rewrite (proj2 (Z.ltb_ge _ _)), (proj2 (Z.ltb_ge _ _)), bool_decide_eq_true_2 by (done || lia). done.
Qed.

#[export] Instance vultr_SnapshotPage_descends c b : Descends (S := S) (SnapshotPage c b) sp_Next snapshot_rank.
Proof.
  intros cursor w n s r n' s' tr. unfold SnapshotPage, try_net, mbind, net_bind, mret, net_ret. intros H p ->.
  unfold snapshot_rank at 1 3. destruct (snapshot_cursor cursor) as [[m x]|] eqn:Hc; [|done].
  pose proof (snapshot_cursor_range _ _ _ Hc). split; [lia|]. repeat case_match; simplify_eq/=; try (by left); guards;
    (right; unfold snapshot_rank; rewrite snapshot_cursor_next by (done || lia); lia).
Qed.

(** The inventory's cursors are the provider's, but no page repeats the one
    it was asked for. *)
Lemma Page_moves c b cursor : does (S := S) (Page c b cursor) (λ r _, ∀ p, r = Ok p → ip_Next p ≠ "" → ip_Next p ≠ cursor).
Proof.
  intros w n s r n' s' tr. unfold Page, try_net, mbind, net_bind, mret, net_ret. intros H p ->.
  repeat case_match; simplify_eq/=; guards; done.
Qed.

(** A power action reported as done: a read of the instance found the status
    it leaves; a reboot is never reported as done. *)
Lemma vultr_Observe_evidence c b action id reference w n s n' s' tr :
  Observe (S := S) c b action id reference w n s = (Ok succeeded, n', s', tr) →
  action ≠ "compute.server.reboot" ∧ reference = None ∧ ∃ o tr', Read c b id w n s = (Ok o, n', s', tr') ∧
    ob_Status o = (if decide (action = "compute.server.power_off") then "stopped" else "running").
Proof.
  unfold Observe, try_net, mbind, net_bind, mret, net_ret. intros H.
  repeat case_match; simplify_eq/=; guards; subst; split_and!; eauto.
Qed.
End reading.

(** ** What the readers return *)

Section returned.
Context `{U : UuidApi} `{W : Web} `{T : ValueText} `{C : Clock} `{D : Decoders} {S : Type}.
Implicit Types (c : BearerClient) (b : Binding).

Lemma vultr_mapInstance_good i : returns (S := S) (mapInstance i) good_server.
Proof.
  unfold mapInstance. destruct (negb _); [apply returns_err|]. apply returns_bind. intros now. apply checked_server.
  simpl. destruct (_ && _); [apply normalized|left].
Qed.

Lemma vultr_created_reason created r : snapshot_created created = Ok r → len r.2 <= 512.
Proof. unfold snapshot_created. intros H. repeat case_match; simplify_eq; by vm_compute. Qed.

Lemma vultr_mapSnapshot_good s : returns (S := S) (mapSnapshot s) good_snapshot.
Proof.
  unfold mapSnapshot. returns. match goal with H : snapshot_created _ = Ok _ |- _ => apply vultr_created_reason in H end.
  apply checked_snapshot; simpl; [|by vm_compute|done]. unfold snapshot_status. repeat case_decide; set_solver.
Qed.

Lemma vultr_Page_good c b cursor : returns (S := S) (Page c b cursor) good_page.
Proof.
  unfold Page. destruct (_ && _); [apply returns_err|]. apply returns_then. intros [instances meta].
  destruct instances as [l|]; [|apply returns_err]. destruct meta as [[next|]|]; [|apply returns_err..].
  destruct (_ <? _) eqn:E; [apply returns_err|]. eapply returns_try; [apply returns_map, vultr_mapInstance_good|].
  intros data [Hd Hl]. guards. case_decide.
  - apply returns_ret. intros ? [= <-]. split_and!; simpl; [done|lia|done].
  - destruct (_ || _) eqn:E'; [apply returns_err|]. apply returns_ret. intros ? [= <-]. unfold safeCursor in E'.
    guards. split_and!; simpl; [done|lia|lia].
Qed.

Lemma vultr_SnapshotPage_good c b cursor : returns (S := S) (SnapshotPage c b cursor) good_snapshots.
Proof.
  unfold SnapshotPage. destruct (snapshot_cursor cursor) as [[n x]|]; [|apply returns_err]. apply returns_then.
  intros [snapshots meta]. destruct snapshots as [l|]; [|apply returns_err]. destruct meta as [[next|]|]; [|apply returns_err..].
  destruct (_ <? _) eqn:E; [apply returns_err|]. eapply returns_try; [apply returns_map, vultr_mapSnapshot_good|].
  intros data [Hd Hl]. guards. case_decide; [|destruct (_ || _); [apply returns_err|]];
    apply returns_ret; intros ? [= <-]; (split; simpl; [done|lia]).
Qed.
End returned.
