(* ===== verification/Contabo.v ===== *)
(** [internal/provider/contabo]: the Compute Management v1 adapter with its
    OAuth tokens.  What [encoding/json] and [time.Parse] make of an answer are
    parameters.

    A client's state is its current access token.  Its calls are modelled one
    after the other: the gate of [token.go] lets one caller at a time touch
    it.  Correlation headers ([x-request-id]) carry no meaning and are left
    out of requests; drawing one can still fail. *)
From S2P Require Import Prelude GoBase Json JsonInj Identifier Connection Provider Endpoint Outbound Facts Adapter.
Local Open Scope Z_scope.

Definition Family : string := "contabo.compute".
Definition base : string := "https://api.contabo.com/v1/compute/instances".
Definition tokenURL : string := "https://auth.contabo.com/auth/realms/contabo/protocol/openid-connect/token".

(** [^[A-Za-z0-9][A-Za-z0-9_-]{0,127}$] *)
Definition identityPart (s : string) : bool := match_code "_-" 127 s.

(** ** Answers *)

Record instance := MkInstance {
  in_ID : string; in_Name : string; in_Display : string; in_Status : string; in_Region : string; in_Product : string;
  in_Tenant : string; in_Customer : string }.

Record snapshot := MkSnapshot {
  sh_ID : string; sh_Instance : string; sh_Name : string; sh_Created : string; sh_Tenant : string; sh_Customer : string }.

Record pagination := MkPagination { pn_Page : Z; pn_Pages : Z; pn_Size : Z; pn_Total : Z }.

Record snapshotResponse := MkSnapshotResponse {
  sr_Data : option (list snapshot); sr_Pagination : option pagination; sr_Next : string }.

Record account := MkAccount { ac_Tenant : string; ac_Customer : string; ac_Default : bool }.
Record token_answer := MkTokenAnswer { ta_Access : string; ta_Expires : Z; ta_Type : string }.

Class Decoders := {
  un_token : bytes → option token_answer;
  un_accounts : bytes → option (option (list account) * option (Z * Z * Z));
  un_instances : bytes → option (option (list instance) * option pagination * option string);
  un_instance : bytes → option (option (list instance));
  un_posted : bytes → option (option (list (string * string)));
  un_snapshots : bytes → option snapshotResponse;
}.

(** ** Tokens *)

Record accessToken := MkAccessToken { at_value : string; at_epoch : Z; at_renewAt : time }.

Record Client := MkClient { cc_binding : Binding; cc_credential : Credential; cc_http : Outbound.Client; cc_auth : Outbound.Client }.

(** [newTokens] *)
Definition no_token : accessToken := MkAccessToken "" 0 zero_time.

Section contabo.
Context `{U : UuidApi} `{W : Web} `{T : ValueText} `{C : Clock} `{D : Decoders}.
Abbreviation net A := (net accessToken A).

Definition New (nested : bool) (b : Binding) (c : Credential) (budget : bool) : go (Client * accessToken) :=
  if negb (bool_decide (bd_family b = Family)) || negb (bool_decide (cr_Type c = "contabo_v1"))
     || negb (bool_decide (Credential_Validate c = Ok tt)) || negb budget
  then Err ProvErrBinding
  else Ok (MkClient b c (Outbound.MkClient Contabo nested) (Outbound.MkClient ContaboAuth nested), no_token).

Implicit Types (c : Client) (b : Binding).

(** [url.Values.Encode]: the fields in the order of their names. *)
Definition token_form (c : Credential) : string :=
  "client_id=" +:+ QueryEscape (cr_ClientID c) +:+ "&client_secret=" +:+ QueryEscape (cr_ClientSecret c)
  +:+ "&grant_type=password&password=" +:+ QueryEscape (cr_Password c) +:+ "&username=" +:+ QueryEscape (cr_Username c).

Definition token_request c : option Request :=
  u ← web_Parse tokenURL;
  let host := removeEmptyPort (u_Host u) in
  let u := MkURL (u_Scheme u) (u_Opaque u) (u_User u) host (u_Path u) (u_RawPath u) (u_ForceQuery u)
             (u_RawQuery u) (u_Fragment u) in
  Some (MkRequest "POST" u host "" (string_bytes (token_form (cc_credential c)))).

Definition token_refused (a : token_answer) : bool :=
  negb (bool_decide (ta_Type a = "Bearer")) && negb (bool_decide (ta_Type a = "bearer"))
  || (len (ta_Access a) =? 0) || (16384 <? len (ta_Access a)) || ContainsAny (ta_Access a) secret_forbidden
  || (ta_Expires a <? 30) || (86400 <? ta_Expires a).

(** When a token of [expires] seconds received at [now] is renewed: a margin
    of a tenth of its life, at most 30 seconds, and a jitter before its end. *)
Definition renew_at (now : time) (expires rand : Z) : time :=
  let lifetime := expires * Second in
  let margin := Z.min (30 * Second) (lifetime / 10) in
  let jitter := rand mod (margin / 2 + 1) in
  now + (lifetime - margin - jitter).

Definition exchange {A} (client : Outbound.Client) (request : Request) (out : bytes → option A)
  : net (result Failure (option A) * list event) :=
  turn (λ t, let '(r, tr) := RequestJSON web_ParseTime client request (Some out) (tn_exchange t) in ((r, tr), tr)).

Definition fetch_token c (next : Z) : net (go accessToken) :=
  set_state (MkAccessToken "" next zero_time) ;;
  match token_request c with
  | None => mret (Err ProvErrBinding)
  | Some request =>
      '(r, _) ← exchange (cc_auth c) request un_token;
      match r with
      | Err f => mret (Err (Failure_error f))
      | Ok None => mret (Err InvalidResponse)
      | Ok (Some a) =>
          if token_refused a then mret (Err InvalidResponse)
          else
            '(now, rand) ← turn (λ t, ((tn_now t, tn_rand t), []));
            let token := MkAccessToken (ta_Access a) next (renew_at now (ta_Expires a) rand) in
            set_state token ;;
            mret (Ok token)
      end
  end.

(** [tokens.get]; epochs are 64-bit. *)
Definition token_get c (rejected : option accessToken) : net (go accessToken) :=
  gate ← turn (λ t, (tn_waited t, []));
  if negb gate then mret (Err ProvErrBinding)
  else
    current ← state;
    match rejected with
    | None =>
        if decide (at_value current = "") then fetch_token c ((at_epoch current + 1) mod 2 ^ 64)
        else
          now ← Now;
          if now <? at_renewAt current then mret (Ok current) else fetch_token c ((at_epoch current + 1) mod 2 ^ 64)
    | Some old =>
        if negb (bool_decide (at_value current = "")) && negb (at_epoch current =? at_epoch old) then mret (Ok current)
        else fetch_token c ((at_epoch current + 1) mod 2 ^ 64)
    end.

(** ** Reads *)

(** What [unauthorizedTransport] and [snapshotTransport] note of an exchange. *)
Definition denied (tr : list event) : bool :=
  existsb (λ e, match e with Sent _ (Some code) => code =? 401 | _ => false end) tr.
Definition status_after (status : Z) (tr : list event) : Z :=
  foldl (λ status e, match e with Sent _ (Some code) => code | _ => status end) status tr.

(** A read that was denied is tried once more, with another token. *)
Fixpoint get_attempts {A} c (u : URL) (out : bytes → option A) (remaining : nat) (token : accessToken) (status : Z)
  : net (Z * go A) :=
  match remaining with
  | O => mret (status, Err ProvErrBinding)
  | Datatypes.S remaining =>
      match NewRequest web_Parse web_String "GET" u (at_value token) [] with
      | Err _ => mret (status, Err ProvErrBinding)
      | Ok request =>
          id ← NewRandom;
          match id with
          | None => mret (status, Err ProvErrBinding)
          | Some _ =>
              '(r, tr) ← exchange (cc_http c) request out;
              let status := status_after status tr in
              match r with
              | Ok v => mret (status, decoded (Ok v))
              | Err f =>
                  if negb (denied tr) || bool_decide (remaining = O) then mret (status, Err (Failure_error f))
                  else
                    token ← token_get c (Some token);
                    match token with
                    | Err e => mret (status, Err e)
                    | Ok token => get_attempts c u out remaining token status
                    end
              end
          end
      end
  end.

Definition get_status {A} c b (raw : string) (out : bytes → option A) : net (Z * go A) :=
  if negb (bool_decide (b = cc_binding c)) then mret (0, Err ProvErrBinding)
  else
    match Profile_URL web_Parse Contabo raw with
    | Err e => mret (0, Err e)
    | Ok u =>
        token ← token_get c None;
        match token with Err e => mret (0, Err e) | Ok token => get_attempts c u out 2 token 0 end
    end.
Definition get {A} c b (raw : string) (out : bytes → option A) : net (go A) :=
  '(_, r) ← get_status c b raw out; mret r.

Definition DefaultAccountIdentity c b : net (go string) :=
  let! response := get c b "https://api.contabo.com/v1/me/accounts?default=true&page=1&size=50" un_accounts in
  match response with
  | (Some [a], Some (page, total, pages)) =>
      if negb (page =? 1) || negb (total =? 1) || negb (pages =? 1) then mret (Err ProvErrIdentityUnverified)
      else if negb (ac_Default a) || negb (identityPart (ac_Tenant a)) || negb (identityPart (ac_Customer a))
      then mret (Err ProvErrIdentityUnverified)
      else mret (Ok (ac_Tenant a +:+ "/" +:+ ac_Customer a))
  | _ => mret (Err ProvErrIdentityUnverified)
  end.

(** ** Instances *)

Definition instance_statuses : gmap string string := list_to_map [
  ("running", "running"); ("stopped", "stopped"); ("provisioning", "pending"); ("installing", "pending");
  ("error", "failed")].

Definition mapInstance (i : instance) : net (go Observation) :=
  let! id := mret (NumericID (in_ID i)) in
  if negb (identityPart (in_Tenant i)) || negb (identityPart (in_Customer i)) then mret (Err InvalidResponse)
  else
    let name := if decide (in_Display i = "") then in_Name i else in_Display i in
    now ← Now;
    mret (CheckedObservation (MkObservation id (in_Status i) (NormalizeStatus (in_Status i) instance_statuses) name now
            (MkServerDetails (in_Region i) (in_Product i)))).

(** The instances of a page belong to one account. *)
Fixpoint map_instances (account : string) (l : list instance) : net (go (list Observation)) :=
  match l with
  | [] => mret (Ok [])
  | i :: r =>
      let current := in_Tenant i +:+ "/" +:+ in_Customer i in
      if negb (bool_decide (account = "")) && negb (bool_decide (account = current)) then mret (Err ProvErrIdentityUnverified)
      else
        let! o := mapInstance i in
        let! os := map_instances current r in
        mret (Ok (o :: os))
  end.

(** The cursor after page [page] of [pages], from the link to the next one. *)
Definition next_link (path : string) (page pages : Z) (next : string) : go unit :=
  let raw := if String.prefix "/v1/" next then "https://api.contabo.com" +:+ next else next in
  match Profile_URL web_Parse Contabo raw with
  | Err _ => Err InvalidResponse
  | Ok u =>
      match StrictQuery (u_RawQuery u) ["page"; "size"] with
      | Err _ => Err InvalidResponse
      | Ok q =>
          if negb (bool_decide (u_Path u = path)) || negb (bool_decide (Values_Get q "page" = FormatInt (page + 1)))
             || negb (bool_decide (Values_Get q "size" = "")) && negb (bool_decide (Values_Get q "size" = "50"))
             || (pages <=? page)
          then Err InvalidResponse else Ok tt
      end
  end.

Definition bad_page (page : Z) (p : pagination) (count : Z) : bool :=
  negb (pn_Page p =? page) || (pn_Size p <? 1) || (50 <? pn_Size p) || (pn_Size p <? count) || (pn_Total p <? 0)
  || (pn_Pages p <? 0) || (100 <? pn_Pages p) || (0 <? pn_Total p) && (pn_Pages p <? page).

Definition next_page (page : Z) (p : pagination) (next : string) : go string :=
  if decide (next = "") then if page <? pn_Pages p then Err InvalidResponse else Ok ""
  else
    next_link "/v1/compute/instances" page (pn_Pages p) next ;;
    fail_if (page =? 100) InvalidResponse ;;
    Ok (FormatInt (page + 1)).

Definition Page c b (cursor : string) : net (go InventoryPage) :=
  match page_of cursor with
  | None => mret (Err InvalidResponse)
  | Some page =>
      let! response := get c b (base +:+ "?page=" +:+ FormatInt page +:+ "&size=50") un_instances in
      match response with
      | (Some instances, Some p, Some next) =>
          if bad_page page p (Z.of_nat (length instances)) then mret (Err InvalidResponse)
          else
            let! data := map_instances "" instances in
            let! next := mret (next_page page p next) in
            mret (Ok (MkInventoryPage data next))
      | _ => mret (Err InvalidResponse)
      end
  end.

Definition Read c b (id : string) : net (go Observation) :=
  let! _ := mret (NumericID id) in
  let! response := get c b (base +:+ "/" +:+ id) un_instance in
  match response with
  | Some [i] => if negb (bool_decide (in_ID i = id)) then mret (Err InvalidResponse) else mapInstance i
  | _ => mret (Err InvalidResponse)
  end.

Definition Validate c (input : Credential) : net (go (string * list string)) :=
  if negb (bool_decide (input = cc_credential c)) then mret (Err ProvErrBinding)
  else
    let! _ := DefaultAccountIdentity c (cc_binding c) in
    let! _ := Page c (cc_binding c) "" in
    mret (Err ProvErrIdentityUnverified).

(** ** Power *)

Definition powerPath (action : string) : string :=
  if decide (action = "compute.server.power_on") then "start"
  else if decide (action = "compute.server.shutdown") then "shutdown"
  else if decide (action = "compute.server.reboot") then "restart"
  else if decide (action = "compute.server.power_off") then "stop"
  else "".

Definition power_guard c b (action : string) : go unit :=
  fail_if (negb (bool_decide (b = cc_binding c))) ProvErrBinding ;;
  fail_if (bool_decide (powerPath action = "")) ProvErrActionUnsupported.

Definition Inspect c b (action id : string) : net (go Preconditions) :=
  let! _ := mret (power_guard c b action) in
  let! o := Read c b id in
  mret (PowerPreconditions b action o).

(** A mutation's token and correlation identifier; its own denial is not retried. *)
Definition with_token c (post : string → net (Receipt * option error)) : net (Receipt * option error) :=
  token ← token_get c None;
  match token with
  | Err e => mret (none, Some e)
  | Ok token =>
      id ← NewRandom;
      match id with None => mret (none, Some ProvErrBinding) | Some _ => post (at_value token) end
  end.

(** The echo of the action is no receipt: it stays ambiguous. *)
Definition power_receipt (action id : string) (answer : Receipt * option error * option (option (list (string * string))))
  : net (Receipt * option error) :=
  let '(receipt, err, response) := answer in
  match err with
  | Some _ => mret (receipt, err)
  | None =>
      if decide (rc_Outcome receipt = "rejected") then mret (receipt, None)
      else
        match mjoin response with
        | Some [(instance, act)] =>
            if negb (bool_decide (instance = id)) || negb (bool_decide (act = powerPath action))
            then mret (receipt, Some InvalidResponse) else mret (receipt, None)
        | _ => mret (receipt, Some InvalidResponse)
        end
  end.

Definition Submit c b (action id : string) (fingerprint : bytes) : net (Receipt * option error) :=
  reviewed (Inspect c b action id) fingerprint (
    with_token c (λ token,
      answer ← Post b (cc_binding c) Contabo (Some (cc_http c)) (base +:+ "/" +:+ id +:+ "/actions/" +:+ powerPath action)
        token [] (Some un_posted);
      power_receipt action id answer)).

Definition want (action : string) : string :=
  if bool_decide (action = "compute.server.shutdown") || bool_decide (action = "compute.server.power_off")
  then "stopped" else "running".

Definition Observe c b (action id : string) (reference : option string) : net (go ActionObservation) :=
  let! _ := mret (power_guard c b action) in
  let! _ := mret (NumericID id) in
  if negb (bool_decide (reference = None)) then mret (Err InvalidResponse)
  else if decide (action = "compute.server.reboot") then mret (Ok unknown)
  else
    let! o := Read c b id in
    mret (Ok (if decide (ob_Status o = want action) then succeeded else pending)).

Definition power c : Port accessToken := MkPort (cc_binding c) (Inspect c) (Submit c) (Observe c).

(** ** Snapshots *)

Definition snapshotParts (id : string) : go (string * string) :=
  match Split "/" id with
  | [instance; part] =>
      if negb (identityPart part) then Err InvalidResponse else NumericID instance ;; Ok (instance, part)
  | _ => Err InvalidResponse
  end.
Definition snapshotURL (instanceID : string) : string := base +:+ "/" +:+ instanceID +:+ "/snapshots".

Definition snapshot_created (created : string) : go (option stamp * string) :=
  if decide (created = "") then Ok (None, "not_reported")
  else match Parse_RFC3339 created with Some t => Ok (Some (MkStamp t 0), "") | None => Err InvalidResponse end.

Definition mapSnapshot (s : snapshot) : net (go SnapshotObservation) :=
  match NumericID (sh_Instance s) with
  | Err _ => mret (Err InvalidResponse)
  | Ok instance =>
      if negb (identityPart (sh_ID s)) || negb (identityPart (sh_Tenant s)) || negb (identityPart (sh_Customer s))
      then mret (Err InvalidResponse)
      else
        now ← Now;
        let! r := mret (snapshot_created (sh_Created s)) in
        mret (CheckedSnapshot (MkSnapshotObservation (instance +:+ "/" +:+ sh_ID s) (sh_Name s) instance "compute.server"
                "unknown" "" "not_reported" r.1 (sh_Created s) r.2 None None None (Some []) now))
  end.

(** The snapshots of one instance, each once. *)
Fixpoint map_snapshots (id : string) (seen : list string) (l : list snapshot) : net (go (list SnapshotObservation)) :=
  match l with
  | [] => mret (Ok [])
  | s :: r =>
      o ← mapSnapshot s;
      match o with
      | Err _ => mret (Err InvalidResponse)
      | Ok o =>
          if negb (bool_decide (so_SourceNativeID o = id)) || bool_decide (so_NativeID o ∈ seen) then mret (Err InvalidResponse)
          else let! os := map_snapshots id (so_NativeID o :: seen) r in mret (Ok (o :: os))
      end
  end.

(** A position in the walk over instances and their snapshots: the page of
    instances and the index in it, the page of snapshots, the step of the walk
    and the instance expected. *)
Record position := MkPosition {
  po_ip : Z; po_index : Z; po_sp : Z; po_step : Z; po_expected : string }.

(** A number as [strconv.Itoa] writes it. *)
Definition canonical_int (s : string) : option Z :=
  n ← ParseInt s; if decide (FormatInt n = s) then Some n else None.

Definition snapshot_position (cursor : string) : option position :=
  if decide (cursor = "") then Some (MkPosition 1 0 1 1 "")
  else
    match Split ":" cursor with
    | [a; b; c; d; expected] =>
        ip ← canonical_int a; index ← canonical_int b; sp ← canonical_int c; step ← canonical_int d;
        if (ip <? 1) || (100 <? ip) || (index <? 0) || (50 <=? index) || (sp <? 1) || (100 <? sp) || (step <? 2)
           || (100 <? step) || negb (bool_decide (expected = "")) && negb (bool_decide (NumericID expected = Ok expected))
        then None else Some (MkPosition ip index sp step expected)
    | _ => None
    end.

Definition position_cursor (p : position) : string :=
  FormatInt (po_ip p) +:+ ":" +:+ FormatInt (po_index p) +:+ ":" +:+ FormatInt (po_sp p) +:+ ":" +:+ FormatInt (po_step p)
  +:+ ":" +:+ po_expected p.

Definition bad_snapshots (sp : Z) (p : pagination) (count : Z) : bool :=
  negb (pn_Page p =? sp) || (pn_Size p <? 1) || (50 <? pn_Size p) || (pn_Pages p <? 0) || (100 <? pn_Pages p)
  || (pn_Total p <? 0) || (5000 <? pn_Total p) || (50 <? count)
  || (pn_Pages p <? sp) && negb ((sp =? 1) && (pn_Pages p =? 0) && (count =? 0)).

(** Where the walk goes after the snapshots [p] of instance [id]; [None] at its end. *)
Definition advance (pos : position) (id : string) (sources : InventoryPage) (p : pagination) (next : string)
  : go (option position) :=
  if decide (next = "") then
    if po_sp pos <? pn_Pages p then Err InvalidResponse
    else
      match ip_Data sources !! Z.to_nat (po_index pos + 1) with
      | Some o => Ok (Some (MkPosition (po_ip pos) (po_index pos + 1) 1 (po_step pos + 1) (ob_NativeID o)))
      | None =>
          if decide (ip_Next sources = "") then Ok None
          else Ok (Some (MkPosition (po_ip pos + 1) 0 1 (po_step pos + 1) ""))
      end
  else
    next_link ("/v1/compute/instances/" +:+ id +:+ "/snapshots") (po_sp pos) (pn_Pages p) next ;;
    Ok (Some (MkPosition (po_ip pos) (po_index pos) (po_sp pos + 1) (po_step pos + 1) id)).

Definition SnapshotPage c b (cursor : string) : net (go SnapshotPage) :=
  match snapshot_position cursor with
  | None => mret (Err InvalidResponse)
  | Some pos =>
      let! sources := Page c b (FormatInt (po_ip pos)) in
      if decide (ip_Data sources = []) then
        if negb (po_index pos =? 0) || negb (po_sp pos =? 1) || negb (bool_decide (po_expected pos = ""))
           || negb (bool_decide (ip_Next sources = ""))
        then mret (Err InvalidResponse) else mret (Ok (MkSnapshotPage [] ""))
      else
        match ip_Data sources !! Z.to_nat (po_index pos) with
        | None => mret (Err InvalidResponse)
        | Some o =>
            let id := ob_NativeID o in
            if negb (bool_decide (po_expected pos = "")) && negb (bool_decide (po_expected pos = id))
            then mret (Err InvalidResponse)
            else
              let! response := get c b (snapshotURL id +:+ "?page=" +:+ FormatInt (po_sp pos) +:+ "&size=50") un_snapshots in
              match sr_Data response, sr_Pagination response with
              | Some snapshots, Some p =>
                  if bad_snapshots (po_sp pos) p (Z.of_nat (length snapshots)) then mret (Err InvalidResponse)
                  else
                    let! data := map_snapshots id [] snapshots in
                    let! next := mret (advance pos id sources p (sr_Next response)) in
                    match next with
                    | None => mret (Ok (MkSnapshotPage data ""))
                    | Some pos' =>
                        if po_step pos =? 100 then mret (Err InvalidResponse)
                        else mret (Ok (MkSnapshotPage data (position_cursor pos')))
                    end
              | _, _ => mret (Err InvalidResponse)
              end
        end
  end.

Definition the_snapshot (r : snapshotResponse) : option snapshot :=
  match sr_Data r with Some [s] => Some s | _ => None end.

(** The one snapshot of an answer, which must be [id]. *)
Definition exactly (id : string) (r : snapshotResponse) : net (go SnapshotObservation) :=
  match the_snapshot r with
  | Some s =>
      o ← mapSnapshot s;
      match o with
      | Ok o => if negb (bool_decide (so_NativeID o = id)) then mret (Err InvalidResponse) else mret (Ok o)
      | Err _ => mret (Err InvalidResponse)
      end
  | None => mret (Err InvalidResponse)
  end.

Definition ReadSnapshot c b (id : string) : net (go SnapshotObservation) :=
  let! parts := mret (snapshotParts id) in
  let! response := get c b (snapshotURL parts.1 +:+ "/" +:+ parts.2) un_snapshots in
  exactly id response.

Definition snapshot_guard c b (accepted action : string) : go unit :=
  fail_if (negb (bool_decide (b = cc_binding c))) ProvErrBinding ;;
  fail_if (negb (bool_decide (action = accepted))) ProvErrActionUnsupported.

(** *** Creation *)

Definition create_Inspect c b (action id : string) : net (go Preconditions) :=
  let! _ := mret (snapshot_guard c b SnapshotCreate action) in
  let! o := Read c b id in
  mret (SnapshotServerReview b action o false).

(** The generated name carries half a fingerprint. *)
Definition snapshot_name (fingerprint : bytes) : string := "sama-" +:+ hex (take 12 fingerprint).

Definition create_receipt (id name : string) (answer : Receipt * option error * option snapshotResponse)
  : net (Receipt * option error) :=
  let '(receipt, err, response) := answer in
  match err with
  | Some _ => mret (receipt, err)
  | None =>
      if decide (rc_Outcome receipt = "rejected") then mret (receipt, None)
      else
        match response ≫= the_snapshot with
        | Some s =>
            o ← mapSnapshot s;
            match o with
            | Ok o =>
                if negb (bool_decide (so_SourceNativeID o = id)) || negb (bool_decide (so_Name o = name))
                then mret (ambiguous, Some InvalidResponse)
                else mret (MkReceipt "accepted" (so_NativeID o), None)
            | Err _ => mret (ambiguous, Some InvalidResponse)
            end
        | None => mret (ambiguous, Some InvalidResponse)
        end
  end.

Definition create_Submit c b (action id : string) (fingerprint : bytes) : net (Receipt * option error) :=
  reviewed (create_Inspect c b action id) fingerprint (
    with_token c (λ token,
      answer ← Post b (cc_binding c) Contabo (Some (cc_http c)) (snapshotURL id) token
        (string_bytes (members [("name", json_string (snapshot_name fingerprint))])) (Some un_snapshots);
      create_receipt id (snapshot_name fingerprint) answer)).

(** Presence is not readiness: a created snapshot stays unknown. *)
Definition create_Observe c b (action id : string) (reference : option string) : net (go ActionObservation) :=
  let! _ := mret (snapshot_guard c b SnapshotCreate action) in
  let! _ := mret (NumericID id) in
  match reference with
  | None => mret (Ok unknown)
  | Some ref =>
      match snapshotParts ref with
      | Ok (source, _) =>
          if negb (bool_decide (source = id)) then mret (Err InvalidResponse)
          else let! _ := ReadSnapshot c b ref in mret (Ok unknown)
      | Err _ => mret (Err InvalidResponse)
      end
  end.

Definition snapshotCreate c : Port accessToken :=
  MkPort (cc_binding c) (create_Inspect c) (create_Submit c) (create_Observe c).

(** *** Deletion *)

Definition delete_Inspect c b (action id : string) : net (go Preconditions) :=
  let! _ := mret (snapshot_guard c b SnapshotDelete action) in
  let! o := ReadSnapshot c b id in
  mret (SnapshotImageReview b action o).

Definition delete_Submit c b (action id : string) (fingerprint : bytes) : net (Receipt * option error) :=
  reviewed (delete_Inspect c b action id) fingerprint (
    with_token c (λ token,
      match snapshotParts id with
      | Err e => mret (none, Some e)
      | Ok (instance, native) =>
          r ← Delete b (cc_binding c) Contabo (Some (cc_http c)) (snapshotURL instance +:+ "/" +:+ native) token;
          mret (acknowledged id r)
      end)).

Definition delete_Observe c b (action id : string) (reference : option string) : net (go ActionObservation) :=
  let! _ := mret (snapshot_guard c b SnapshotDelete action) in
  let! parts := mret (snapshotParts id) in
  match reference with
  | None => mret (Ok unknown)
  | Some ref =>
      if negb (bool_decide (ref = "delete/" +:+ id)) then mret (Err InvalidResponse)
      else
        '(status, response) ← get_status c b (snapshotURL parts.1 +:+ "/" +:+ parts.2) un_snapshots;
        match response with
        | Err e => if (status =? 404) then mret (Ok succeeded) else mret (Err e)
        | Ok response => let! _ := exactly id response in mret (Ok pending)
        end
  end.

Definition snapshotDelete c : Port accessToken :=
  MkPort (cc_binding c) (delete_Inspect c) (delete_Submit c) (delete_Observe c).
End contabo.

(** ** The ports keep their contract *)

Section contracts.
Context `{U : UuidApi} `{W : Web} `{T : ValueText} `{C : Clock} `{D : Decoders}.
Implicit Types (c : Client) (b : Binding).

(** What [New] gives a client. *)
Record contabo_ok c : Prop := {
  ck_http : cl_profile (cc_http c) = Contabo; ck_auth : cl_profile (cc_auth c) = ContaboAuth }.

Lemma contabo_New_ok nested b cr budget c s : New nested b cr budget = Ok (c, s) →
  contabo_ok c ∧ cc_binding c = b ∧ cc_credential c = cr ∧ bd_family b = Family ∧ s = no_token.
Proof. unfold New. intros H. destruct (_ || _) eqn:E; [done|]. injection H as <- <-. by guards. Qed.

Lemma quiet_exchange {A} (client : Outbound.Client) (request : Request) (out : bytes → option A) :
  rq_Method request = "GET" ∨ cl_profile client = ContaboAuth → quiet (exchange client request out).
Proof.
  intros Hr. apply does_turn. intros t a tr.
  pose proof (RequestJSON_contained web_ParseTime client request (Some out) (tn_exchange t)) as [_ Hq _ _].
  destruct (RequestJSON _ _ _ _ _) as [r tr']. intros [= <- <-]. apply mutations_nil. intros q code [-> Hv]%Hq.
  unfold mutates. destruct Hr as [->|Hp]; [done|]. rewrite (validate_host _ _ Hv), Hp. by rewrite andb_false_r.
Qed.

Lemma quiet_turn_nil {A} (f : Turn → A) : quiet (S := accessToken) (turn (λ t, (f t, []))).
Proof. apply does_turn. by intros t a tr [= <- <-]. Qed.
Hint Resolve quiet_turn_nil : quiet.

Lemma quiet_fetch c n : contabo_ok c → quiet (fetch_token c n).
Proof. intros Hc. unfold fetch_token. quiet. apply quiet_exchange. right. apply Hc. Qed.

Lemma quiet_token c rejected : contabo_ok c → quiet (token_get c rejected).
Proof. intros Hc. pose proof (λ n, quiet_fetch c n Hc). unfold token_get. quiet. Qed.

Lemma NewRequest_method method u token body r : NewRequest web_Parse web_String method u token body = Ok r → rq_Method r = method.
Proof. unfold NewRequest. destruct (web_Parse _); [|done]. by intros [= <-]. Qed.

Lemma quiet_get_attempts {A} c u (out : bytes → option A) k token status : contabo_ok c →
  quiet (get_attempts c u out k token status).
Proof.
  intros Hc. revert token status. induction k as [|k IH]; intros token status; [apply quiet_ret|]. cbn [get_attempts].
  destruct (NewRequest _ _ _ _ _ _) as [request|] eqn:E; [|apply quiet_ret]. apply NewRequest_method in E.
  pose proof (quiet_token c (Some token) Hc). apply quiet_bind; [apply quiet_NewRandom|]. intros [id|]; [|apply quiet_ret].
  apply quiet_bind; [apply quiet_exchange; by left|]. intros [r tr]. destruct r as [v|f]; [apply quiet_ret|].
  destruct (_ || _); [apply quiet_ret|]. apply quiet_bind; [done|]. intros [t|e]; [apply IH|apply quiet_ret].
Qed.

Lemma quiet_get_status {A} c b raw (out : bytes → option A) : contabo_ok c → quiet (get_status c b raw out).
Proof.
  intros Hc. pose proof (quiet_token c None Hc). pose proof (λ u k t s, quiet_get_attempts c u out k t s Hc).
  unfold get_status. quiet.
Qed.
Lemma contabo_quiet_get {A} c b raw (out : bytes → option A) : contabo_ok c → quiet (get c b raw out).
Proof. intros Hc. apply quiet_bind; [by apply quiet_get_status|]. intros [status r]. apply quiet_ret. Qed.
Hint Resolve contabo_quiet_get quiet_get_status quiet_token : quiet.

Lemma contabo_quiet_mapInstance i : quiet (mapInstance i).
Proof. unfold mapInstance. quiet. Qed.
Lemma contabo_quiet_mapSnapshot s : quiet (mapSnapshot s).
Proof. unfold mapSnapshot. quiet. Qed.
Hint Resolve contabo_quiet_mapInstance contabo_quiet_mapSnapshot : quiet.
Lemma contabo_quiet_Read c b id : contabo_ok c → quiet (Read c b id).
Proof. intros Hc. unfold Read. quiet. Qed.
Lemma quiet_exactly id r : quiet (exactly id r).
Proof. unfold exactly. quiet. Qed.
Hint Resolve contabo_quiet_Read quiet_exactly : quiet.
Lemma contabo_quiet_ReadSnapshot c b id : contabo_ok c → quiet (ReadSnapshot c b id).
Proof. intros Hc. unfold ReadSnapshot. quiet. Qed.
Hint Resolve contabo_quiet_ReadSnapshot : quiet.

Lemma contabo_power_guard_Ok c b action u : power_guard c b action = Ok u → b = cc_binding c.
Proof. unfold power_guard. intros [Hg _]%fail_if_bind. by guards. Qed.
Lemma contabo_snapshot_guard_Ok c b accepted action u : snapshot_guard c b accepted action = Ok u → b = cc_binding c.
Proof. unfold snapshot_guard. intros [Hg _]%fail_if_bind. by guards. Qed.

Lemma contabo_api c : contabo_ok c → api (Some (cc_http c)).
Proof. intros [Hp _] h [= <-]. by rewrite Hp. Qed.

(** A mutation after its token. *)
Lemma with_token_means c post : contabo_ok c →
  (∀ token, does (post token) (λ r tr, receipt_means r (mutations tr))) →
  does (with_token c post) (λ r tr, receipt_means r (mutations tr)).
Proof.
  intros Hc Hp. unfold with_token. apply (does_quiet_bind _ _ receipt_means); [by apply quiet_token|].
  intros [token|e]; [|apply does_ret; apply means_none].
  apply (does_quiet_bind _ _ receipt_means); [apply quiet_NewRandom|].
  intros [id|]; [apply Hp|apply does_ret; apply means_none].
Qed.

#[export] Instance contabo_power_ok c : contabo_ok c → Port_ok (power c).
Proof.
  intros Hc. split; simpl; intros b action id.
  - intros Hb. apply guard_refuses. by intros u Hu%contabo_power_guard_Ok.
  - intros ref Hb. apply guard_refuses. by intros u Hu%contabo_power_guard_Ok.
  - unfold Inspect. quiet.
  - intros ref. unfold Observe. quiet.
  - intros ref. unfold Observe. observes.
  - intros fingerprint. eexists. split; [reflexivity|]. apply with_token_means; [done|]. intros token.
    apply Post_then; [by apply contabo_api| |].
    + intros r e v [[x ->]|Hr]; [done|]. destruct e; [done|]. unfold power_receipt. by rewrite Hr.
    + intros v. unfold power_receipt. cbn [rc_Outcome ambiguous].
      repeat case_match; apply does_ret; (split; [done|by left]).
Qed.

#[export] Instance contabo_snapshotCreate_ok c : contabo_ok c → Port_ok (snapshotCreate c).
Proof.
  intros Hc. split; simpl; intros b action id.
  - intros Hb. apply guard_refuses. by intros u Hu%contabo_snapshot_guard_Ok.
  - intros ref Hb. apply guard_refuses. by intros u Hu%contabo_snapshot_guard_Ok.
  - unfold create_Inspect. quiet.
  - intros ref. unfold create_Observe. quiet.
  - intros ref. unfold create_Observe. observes.
  - intros fingerprint. eexists. split; [reflexivity|]. apply with_token_means; [done|]. intros token.
    apply Post_then; [by apply contabo_api| |].
    + intros r e v [[x ->]|Hr]; [done|]. destruct e; [done|]. unfold create_receipt. by rewrite Hr.
    + intros v. unfold create_receipt. cbn [rc_Outcome ambiguous]. rewrite decide_False by done.
      destruct (v ≫= the_snapshot) as [s|]; [|apply does_ret; split; [done|by left]].
      eapply does_bind; [apply contabo_quiet_mapSnapshot|]. intros [o|e] tr Htr; [case_match|]; apply does_ret;
        (split; [by rewrite mutations_app, Htr|]); [by left|right; by eexists|by left].
Qed.

#[export] Instance contabo_snapshotDelete_ok c : contabo_ok c → Port_ok (snapshotDelete c).
Proof.
  intros Hc. split; simpl; intros b action id.
  - intros Hb. apply guard_refuses. by intros u Hu%contabo_snapshot_guard_Ok.
  - intros ref Hb. apply guard_refuses. by intros u Hu%contabo_snapshot_guard_Ok.
  - unfold delete_Inspect. quiet.
  - intros ref. unfold delete_Observe. quiet.
  - intros ref. unfold delete_Observe. observes.
  - intros fingerprint. eexists. split; [reflexivity|]. apply with_token_means; [done|]. intros token.
    destruct (snapshotParts id) as [[instance native]|e]; [|apply does_ret, means_none].
    apply Delete_then. by apply contabo_api.
Qed.
End contracts.

(** ** Pages, evidence, tokens *)

Section reading.
Context `{U : UuidApi} `{W : Web} `{T : ValueText} `{C : Clock} `{D : Decoders}.
Implicit Types (c : Client) (b : Binding).

Lemma next_page_descends cursor n p next x : page_of cursor = Some n → next_page n p next = Ok x →
  (0 < page_rank cursor)%nat ∧ (x = "" ∨ (page_rank x < page_rank cursor)%nat).
Proof.
  intros Hc. pose proof (page_of_range _ _ Hc). unfold next_page. split; [by eapply page_rank_pos|].
  case_decide; [destruct (_ <? _); simplify_eq; by left|]. destruct (next_link _ _ _ _); [|done].
  cbn [mbind result_bind] in *. destruct (n =? 100) eqn:E; [done|]. simplify_eq/=. guards. right.
  apply page_rank_next; [done|lia].
Qed.

#[export] Instance contabo_Page_descends c b : Descends (Page c b) ip_Next page_rank.
Proof. unfold Page. descends next_page_descends. Qed.

(** The rank of a position: the steps left. *)
Definition position_rank (cursor : string) : nat :=
  match snapshot_position cursor with Some p => Z.to_nat (101 - po_step p) | None => O end.

Lemma snapshot_position_step cursor p : snapshot_position cursor = Some p → 1 <= po_step p <= 100.
Proof.
  unfold snapshot_position. case_decide; [intros [= <-]; simpl; lia|].
  destruct (Split ":" cursor) as [|a [|b [|d [|e [|x [|y l]]]]]]; try done.
  destruct (canonical_int a); [|done]; destruct (canonical_int b); [|done]; destruct (canonical_int d); [|done];
    destruct (canonical_int e); [|done]; cbn [mbind option_bind].
  case_match eqn:E; [done|]. intros [= <-]. simpl. guards; lia.
Qed.

Lemma split_number n t : Split ":" (FormatInt n +:+ ":" +:+ t) = FormatInt n :: Split ":" t.
Proof.
  assert (Forall (λ d, d ≠ ":"%char) (String.list_ascii_of_string (FormatInt n))) as Hf.
  { apply FormatInt_avoids. intros d Hd ->. by vm_compute in Hd. }
  revert Hf. generalize (FormatInt n). intros s. induction s as [|d s IH]; intros Hf; [done|].
  apply Forall_cons in Hf as [Hd Hf]. change (String d s +:+ ":" +:+ t) with (String d (s +:+ ":" +:+ t)).
  cbn [Split]. rewrite decide_False by done. by rewrite IH.
Qed.

Lemma split_nonempty s : ∃ x l, Split ":" s = x :: l.
Proof. destruct s as [|c s]; cbn [Split]; [eauto|]. case_decide; [eauto|]. case_match; eauto. Qed.

Lemma canonical_int_format n k : canonical_int (FormatInt n) = Some k → k = n.
Proof.
  unfold canonical_int. destruct (ParseInt _); [|done]. cbn [mbind option_bind]. case_decide as H; [|done].
  intros [= <-]. by apply (inj FormatInt) in H.
Qed.

(** A cursor that is accepted is at the step it was made for. *)
Lemma position_cursor_step p q : snapshot_position (position_cursor p) = Some q → po_step q = po_step p.
Proof.
  unfold snapshot_position, position_cursor. case_decide as Hd.
  { exfalso. pose proof (split_number (po_ip p) (FormatInt (po_index p) +:+ ":" +:+ FormatInt (po_sp p) +:+ ":" +:+
      FormatInt (po_step p) +:+ ":" +:+ po_expected p)) as H. rewrite Hd in H. cbn [Split] in H.
    destruct (split_nonempty (FormatInt (po_index p) +:+ ":" +:+ FormatInt (po_sp p) +:+ ":" +:+
      FormatInt (po_step p) +:+ ":" +:+ po_expected p)) as (x & l & Hs). by rewrite Hs in H. }
  rewrite !split_number. destruct (Split ":" (po_expected p)) as [|x [|y l]]; try done.
  destruct (canonical_int (FormatInt (po_ip p))); [|done]; destruct (canonical_int (FormatInt (po_index p))); [|done];
    destruct (canonical_int (FormatInt (po_sp p))); [|done];
    destruct (canonical_int (FormatInt (po_step p))) as [k|] eqn:Hk; [|done]; cbn [mbind option_bind].
  case_match; [done|]. intros [= <-]. simpl. by apply canonical_int_format in Hk.
Qed.

Lemma advance_step pos id sources p next q : advance pos id sources p next = Ok (Some q) → po_step q = po_step pos + 1.
Proof.
  unfold advance. case_decide.
  - destruct (_ <? _); [done|]. destruct (ip_Data sources !! _); [by intros [= <-]|]. case_decide; [done|by intros [= <-]].
  - destruct (next_link _ _ _ _); [|done]. by intros [= <-].
Qed.

#[export] Instance contabo_SnapshotPage_descends c b : Descends (SnapshotPage c b) sp_Next position_rank.
Proof.
  intros cursor w n s r n' s' tr. unfold SnapshotPage, try_net, mbind, net_bind, mret, net_ret. intros H p ->.
  unfold position_rank at 1 3. destruct (snapshot_position cursor) as [pos|] eqn:Hc; [|done].
  pose proof (snapshot_position_step _ _ Hc). split; [lia|]. repeat case_match; simplify_eq/=; try (by left).
  right. unfold position_rank. destruct (snapshot_position (position_cursor _)) as [q|] eqn:Hq; [|lia].
  pose proof (snapshot_position_step _ _ Hq). apply position_cursor_step in Hq.
  match goal with H : advance _ _ _ _ _ = _ |- _ => apply advance_step in H end. lia.
Qed.

(** A power action reported as done: a read of the instance found the status
    it leaves; a reboot is never reported as done. *)
Lemma contabo_Observe_evidence c b action id reference w n s n' s' tr :
  Observe c b action id reference w n s = (Ok succeeded, n', s', tr) →
  action ≠ "compute.server.reboot" ∧ reference = None ∧ ∃ o tr', Read c b id w n s = (Ok o, n', s', tr') ∧
    ob_Status o = want action.
Proof.
  unfold Observe, try_net, mbind, net_bind, mret, net_ret. intros H.
  repeat case_match; simplify_eq/=; guards; subst; split_and!; eauto.
Qed.

(** A token accepted is renewed before it expires, and not before four fifths
    of its life. *)
Lemma renew_at_bounds now a rand : token_refused a = false →
  let lifetime := ta_Expires a * Second in
  now + lifetime * 4 / 5 < renew_at now (ta_Expires a) rand < now + lifetime ∧ lifetime < 2 ^ 63.
Proof.
  unfold token_refused, renew_at. intros H. assert (30 <= ta_Expires a <= 86400) as [H1 H2] by (guards; lia).
  assert (Second = 1000000000) as -> by done. cbv zeta.
  set (l := ta_Expires a * 1000000000). set (m := Z.min (30 * 1000000000) (l / 10)).
  assert (0 <= rand mod (m / 2 + 1) <= m / 2) as Hj.
  { assert (0 <= m) by (apply Z.min_glb; [lia|apply Z.div_pos; lia]).
    assert (0 <= m / 2) by (apply Z.div_pos; lia). pose proof (Z.mod_pos_bound rand (m / 2 + 1) ltac:(lia)). lia. }
  assert (0 < m <= l / 10) by (subst m l; split; [apply Z.min_glb_lt; [lia|apply Z.div_str_pos; lia]|apply Z.le_min_r]).
  pose proof (Z.mul_div_le l 10 ltac:(lia)). pose proof (Z.mul_div_le m 2 ltac:(lia)).
  assert (l * 4 / 5 <= l - 2 * (l / 10)).
  { apply Z.div_le_upper_bound; lia. }
  subst l. lia.
Qed.
End reading.

(** ** What the readers return *)

Section returned.
Context `{U : UuidApi} `{W : Web} `{T : ValueText} `{C : Clock} `{D : Decoders}.
Implicit Types (c : Client) (b : Binding).

Lemma contabo_mapInstance_good i : returns (mapInstance i) good_server.
Proof. unfold mapInstance. returns. Qed.

Lemma contabo_created_reason created r : snapshot_created created = Ok r → len r.2 <= 512.
Proof. unfold snapshot_created. intros H. repeat case_match; simplify_eq; by vm_compute. Qed.

Lemma contabo_mapSnapshot_good s : returns (mapSnapshot s) good_snapshot.
Proof.
  unfold mapSnapshot. returns. match goal with H : snapshot_created _ = Ok _ |- _ => apply contabo_created_reason in H end.
  apply checked_snapshot; simpl; [set_solver|by vm_compute|done].
Qed.

Lemma map_instances_good account l :
  returns (map_instances account l) (λ os, Forall good_server os ∧ length os = length l).
Proof.
  revert account. induction l as [|i l IH]; intros account; [apply returns_ret; by intros ? [= <-]|]. cbn [map_instances].
  destruct (_ && _); [apply returns_err|]. eapply returns_try; [apply contabo_mapInstance_good|]. intros o Ho.
  eapply returns_try; [apply IH|]. intros os [Hos Hl]. apply returns_ret. intros ? [= <-].
  split; [by constructor|simpl; lia].
Qed.

Lemma map_snapshots_good id seen l : returns (map_snapshots id seen l) (λ os,
  Forall good_snapshot os ∧ length os = length l ∧ Forall (λ o, so_SourceNativeID o = id) os ∧
  NoDup (so_NativeID <$> os) ∧ Forall (λ o, so_NativeID o ∉ seen) os).
Proof.
  revert seen. induction l as [|s l IH]; intros seen; [apply returns_ret; intros ? [= <-]; split_and!; constructor|].
  cbn [map_snapshots]. eapply does_bind; [apply contabo_mapSnapshot_good|]. intros [o|e] tr Ho; [|by apply does_ret].
  destruct (_ || _) eqn:E; [by apply does_ret|]. guards.
  eapply does_bind; [apply IH|]. intros [os|e] tr' Hos; [|by apply does_ret].
  apply does_ret. intros ? [= <-]. destruct (Hos os eq_refl) as (H1 & H2 & H3 & H4 & H5).
  split_and!; [by constructor; [apply Ho|]|simpl; lia|by constructor| |].
  - simpl. constructor; [|done]. intros (o' & Heq & Hin)%list_elem_of_fmap. rewrite Forall_forall in H5.
    apply (H5 _ Hin). rewrite <-Heq. left.
  - constructor; [done|]. eapply Forall_impl; [exact H5|]. intros o' Hn Hin. apply Hn. by right.
Qed.

Lemma next_page_short cursor n p next x : page_of cursor = Some n → next_page n p next = Ok x → len x <= 512.
Proof.
  intros Hc%page_of_range. unfold next_page. case_decide; [destruct (_ <? _); [done|by intros [= <-]]|].
  destruct (next_link _ _ _ _); [|done]. cbn [mbind result_bind]. destruct (n =? 100); [done|].
  intros [= <-]. apply page_number_short. lia.
Qed.

Lemma contabo_Page_good c b cursor : returns (Page c b cursor) good_page.
Proof.
  unfold Page. destruct (page_of cursor) as [n|] eqn:Hc; [|apply returns_err]. apply returns_then.
  intros [[instances pag] links]. destruct instances as [l|]; [|apply returns_err]. destruct pag as [p|]; [|apply returns_err].
  destruct links as [next|]; [|apply returns_err]. destruct (bad_page _ _ _) eqn:E; [apply returns_err|].
  eapply returns_try; [apply map_instances_good|]. intros data [Hd Hl]. eapply (returns_try _ _ (λ x, len x <= 512)).
  - apply returns_ret. intros x Hx. by eapply next_page_short.
  - intros x Hx. apply returns_ret. intros ? [= <-]. unfold bad_page in E. rewrite !orb_false_iff in E.
    destruct E as [[[[[[[_ _] H2] H3] _] _] _] _]. apply Z.ltb_ge in H2, H3. split_and!; simpl; [done|lia|done].
Qed.

Lemma contabo_SnapshotPage_good c b cursor : returns (SnapshotPage c b cursor) good_snapshots.
Proof.
  unfold SnapshotPage. destruct (snapshot_position cursor) as [pos|]; [|apply returns_err]. apply returns_then.
  intros sources. case_decide; [destruct (_ || _); [apply returns_err|]; apply returns_ret; intros ? [= <-]; split; simpl; [done|lia]|].
  destruct (ip_Data sources !! _) as [o|]; [|apply returns_err]. cbv zeta. destruct (_ && _); [apply returns_err|].
  apply returns_then. intros response. destruct (sr_Data response) as [l|]; [|apply returns_err].
  destruct (sr_Pagination response) as [p|]; [|apply returns_err]. destruct (bad_snapshots _ _ _) eqn:E; [apply returns_err|].
  eapply returns_try; [apply map_snapshots_good|]. intros data (Hd & Hl & _). apply returns_then. intros next.
  unfold bad_snapshots in E. rewrite !orb_false_iff in E. destruct E as [[_ Hcount] _]. apply Z.ltb_ge in Hcount.
  destruct next as [q|]; [destruct (_ =? _); [apply returns_err|]|]; apply returns_ret; intros ? [= <-];
    (split; simpl; [done|lia]).
Qed.
End returned.
