(* ===== verification/Ports.v ===== *)
(** The provider adapters as the dispatch worker and the inventory scan meet
    them: every port keeps its contract, every walk over pages ends, what is
    read can be staged, and what is reported as done was seen. *)
From S2P Require Import Prelude GoBase JsonInj Identifier Schema Tx TxLogic Sample Jobs Enqueue Connection Provider Intent Scan.
From S2P Require Import Endpoint Outbound Facts Adapter Hetzner DigitalOcean Vultr Contabo.
Local Open Scope Z_scope.

(** ** The worker *)

(** C14. What the worker concludes from a submission is true of what left the
    process, for every adapter that meets its port's contract and whatever the
    network does: at most one mutating request left; an operation is failed
    only when none left or the provider definitely refused it, and awaited
    only when it was answered with success; and whatever is concluded, it left
    only under the port's own binding, after a fresh inspection that found the
    action allowed and the fingerprint the reviewed one. *)
Theorem worker_concludes {S} (p : Port S) `{!Port_ok p} b action id fingerprint w n s r n' s' tr to reference :
  pt_Submit p b action id fingerprint w n s = (r, n', s', tr) →
  classifyActionReceipt action (submitted r) = (to, reference) →
  (length (mutations tr) ≤ 1)%nat ∧
  (to = Failed → ∀ q code, Sent q code ∈ mutations tr → ∃ c, code = Some c ∧ c ∈ definite) ∧
  (to = WaitingProvider → answered (mutations tr) (λ c, 200 <= c < 300)) ∧
  (mutations tr ≠ [] → b = pt_binding p ∧ ∃ pre n1 s1 tr1 tr2,
    pt_Inspect p b action id w n s = (Ok pre, n1, s1, tr1) ∧ tr = tr1 ++ tr2 ∧
    pre_Allowed pre = true ∧ pre_Fingerprint pre = fingerprint).
Proof.
  intros H Hc. apply (submit_ok p) in H as [[Ho _ _ Hr Ha _] Hv]. split_and!; [done| | |done].
  - intros ->. apply classified in Hc as [Hf _]. destruct (proj1 Hf eq_refl) as (rc & Hrc & Hout & _).
    unfold submitted in Hrc. destruct r as [x [e|]]; [done|]. simplify_eq/=. by apply Hr.
  - intros ->. apply classified in Hc as [_ Hw]. destruct (Hw eq_refl) as (rc & Hrc & Hout).
    unfold submitted in Hrc. destruct r as [x [e|]]; [done|]. simplify_eq/=. by apply Ha.
Qed.

Section ports.
Context `{U : UuidApi} `{W : Web} `{T : ValueText} `{C : Clock}.
Context `{DH : Hetzner.Decoders} `{DD : DigitalOcean.Decoders} `{DV : Vultr.Decoders} `{DC : Contabo.Decoders} `{J : JsonbText}.

(** C15. Every port of every adapter keeps its contract, whatever the provider
    answers.  For a binding other than its own it neither inspects nor observes:
    the call fails before any request leaves and without touching the client.
    For its own it inspects and observes without mutating anything, reports one
    of the four outcomes, and mutates only at the end of a submission whose
    fresh inspection matched the reviewed facts, once. *)
Theorem ports_ok {S} nested b cr budget :
  (∀ c, Hetzner.New nested b cr budget = Ok c →
    ac_binding c = b ∧ Port_ok (S := S) (Hetzner.power c) ∧ Port_ok (S := S) (Hetzner.snapshotCreate c) ∧
    Port_ok (S := S) (Hetzner.snapshotDelete c)) ∧
  (∀ c, DigitalOcean.New nested b cr budget = Ok c →
    ac_binding c = b ∧ Port_ok (S := S) (DigitalOcean.power c) ∧ Port_ok (S := S) (DigitalOcean.snapshotCreate c) ∧
    Port_ok (S := S) (DigitalOcean.snapshotDelete c)) ∧
  (∀ c, Vultr.New nested b cr budget = Ok c →
    ac_binding c = b ∧ Port_ok (S := S) (Vultr.power c) ∧ Port_ok (S := S) (Vultr.snapshotCreate c) ∧
    Port_ok (S := S) (Vultr.snapshotDelete c)) ∧
  (∀ c s, Contabo.New nested b cr budget = Ok (c, s) →
    cc_binding c = b ∧ Port_ok (Contabo.power c) ∧ Port_ok (Contabo.snapshotCreate c) ∧
    Port_ok (Contabo.snapshotDelete c)).
Proof.
  split_and!.
  - intros c (Hc & <- & _)%Hetzner.hetzner_New_ok. split_and!; [done|by apply Hetzner.hetzner_power_ok|by apply Hetzner.hetzner_snapshotCreate_ok|by apply Hetzner.hetzner_snapshotDelete_ok].
  - intros c (Hc & <- & _)%DigitalOcean.digitalocean_New_ok. split_and!; [done|by apply DigitalOcean.digitalocean_power_ok|by apply DigitalOcean.digitalocean_snapshotCreate_ok|by apply DigitalOcean.digitalocean_snapshotDelete_ok].
  - intros c (Hc & <- & _)%Vultr.vultr_New_ok. split_and!; [done|by apply Vultr.vultr_power_ok|by apply Vultr.vultr_snapshotCreate_ok|by apply Vultr.vultr_snapshotDelete_ok].
  - intros c s (Hc & <- & _)%Contabo.contabo_New_ok. split_and!; [done|by apply Contabo.contabo_power_ok|by apply Contabo.contabo_snapshotCreate_ok|by apply Contabo.contabo_snapshotDelete_ok].
Qed.

(** ** Walks *)

(** The pages from the empty cursor on, at most 101 of them. *)
Definition ends {S P} (page : string → net S (go P)) (next : P → string) : Prop :=
  does (follow page next 101 "") (λ r _, ∀ l c, r = Ok (l, c) → c = "" ∧ (length l ≤ 100)%nat).

(** C30. Whatever a provider answers, a walk that follows the cursors of its
    pages from the start, over servers or snapshots, fails or ends within a
    hundred pages; the exception are the servers of Vultr, whose cursors are
    the provider's own: there no page leads back to itself. *)
Theorem walks_end {S} (c : BearerClient) (d : Contabo.Client) b :
  ends (S := S) (Hetzner.Page c b) ip_Next ∧ ends (S := S) (Hetzner.SnapshotPage c b) sp_Next ∧
  ends (S := S) (DigitalOcean.Page c b) ip_Next ∧ ends (S := S) (DigitalOcean.SnapshotPage c b) sp_Next ∧
  ends (S := S) (Vultr.SnapshotPage c b) sp_Next ∧
  ends (Contabo.Page d b) ip_Next ∧ ends (Contabo.SnapshotPage d b) sp_Next ∧
  ∀ cursor, does (S := S) (Vultr.Page c b cursor) (λ r _, ∀ p, r = Ok p → ip_Next p ≠ "" → ip_Next p ≠ cursor).
Proof.
  split_and!.
  - apply (follow_ends _ _ page_rank). vm_compute. lia.
  - apply (follow_ends _ _ page_rank). vm_compute. lia.
  - apply (follow_ends _ _ page_rank). vm_compute. lia.
  - apply (follow_ends _ _ page_rank). vm_compute. lia.
  - apply (follow_ends _ _ Vultr.snapshot_rank). vm_compute. lia.
  - apply (follow_ends _ _ page_rank). vm_compute. lia.
  - apply (follow_ends _ _ position_rank). vm_compute. lia.
  - intros cursor. apply Vultr.Page_moves.
Qed.

(** ** The scan *)

Lemma runes_length l : (length (runes l) ≤ length l)%nat ∧ (l ≠ [] → (1 ≤ length (runes l))%nat).
Proof.
  induction l as [l IH] using (induction_ltof1 _ (@length N)). unfold ltof in IH. destruct l as [|x l]; [done|].
  destruct (runes_head x l) as (r & t & Hl & Hr & Hne & _). rewrite Hr, Hl, length_app. cbn [length].
  assert (1 ≤ length r.2)%nat by (destruct r.2; [done|simpl; lia]).
  destruct (IH t) as [H1 _]; [rewrite Hl, length_app; lia|]. split; [lia|lia].
Qed.

Lemma RuneCount_bounds s : RuneCountInString s <= len s ∧ (len s ≠ 0 → 1 <= RuneCountInString s) ∧ 0 <= RuneCountInString s.
Proof.
  unfold RuneCountInString, string_runes, len. destruct (runes_length (string_bytes s)) as [H1 H2].
  assert (length (string_bytes s) = String.length s) as Hl.
  { unfold string_bytes. rewrite length_fmap. apply Json.length_list_ascii. }
  rewrite Hl in H1. split_and!; [lia| |lia]. intros Hn. assert (string_bytes s ≠ []); [|specialize (H2 H); lia].
  intros E. rewrite E in Hl. simpl in Hl. lia.
Qed.

(** What no check of the adapters bounds: the texts are ones PostgreSQL can
    hold, and the details' JSON, which it writes out anew, stays within 65536
    octets; a size is an [int64] in Go. *)
Definition texts_fit (o : scanObservation) : Prop :=
  storable (sn_NativeID o) (sn_NativeStatus o) (sn_Name o) (sn_Details o) = true.
Definition row_fits (o : scanObservation) : Prop :=
  texts_fit o ∧ jsonb_octets (sn_Details o) <= 65536 ∧
  ∀ s n, dt_snapshot (sn_Details o) = Some s → sd_size_bytes s = Some n → n <= 9223372036854775807.

(** A row that the constraints of the staging table accept, in any scope,
    exactly if it satisfies [fits]. *)
Definition stageable (family kind : string) (fits : scanObservation → Prop) (o : scanObservation) : Prop :=
  ∀ scope, 1 <= RuneCountInString scope <= 128 →
    resource_check family kind scope (sn_NativeID o) (sn_NativeStatus o) (sn_Status o) (sn_Name o) (sn_Details o) = true
    ↔ fits o.

(** Discharging the bounds a goal of tests needs. *)
Ltac tests := repeat match goal with |- context [(?a <=? ?b)%Z] => rewrite (proj2 (Z.leb_le a b)) by lia end.

Section stageable.
Hypothesis jsonb_short : ∀ dt, dt_snapshot dt = None →
  jsonb_octets dt <= 4096 + 6 * (len (dt_region dt) + len (dt_machine_type dt)).

Lemma good_server_stageable family o : 1 <= RuneCountInString family <= 64 → good_server o →
  stageable family "compute.server" texts_fit (server_row o).
Proof using jsonb_short.
  intros Hf [Hc Hs] scope Hscope. unfold CheckedObservation in Hc. apply fail_if_bind in Hc as [Hg _].
  rewrite !orb_false_iff in Hg. destruct Hg as [[[[[[H1 H2] H3] H4] _] H5] H6].
  apply Z.eqb_neq in H1. apply Z.ltb_ge in H2, H3, H4, H5, H6.
  pose proof (RuneCount_bounds (ob_NativeID o)) as (? & Hn & _). pose proof (RuneCount_bounds (ob_NativeStatus o)) as (? & _ & ?).
  pose proof (RuneCount_bounds (ob_Name o)) as (? & _ & ?). specialize (Hn H1).
  pose proof (jsonb_short (sn_Details (server_row o)) eq_refl) as Hj. simpl in Hj.
  unfold resource_check, valid_inventory_details, texts_fit. simpl in *. rewrite (bool_decide_eq_true_2 (ob_Status o ∈ _)) by done.
  by tests.
Qed.
End stageable.

Lemma checked_regions l :
  existsb (λ r, bool_decide (r = "") || (128 <? len r) || negb (ValidString r)) l = false →
  forallb (λ r, (1 <=? RuneCountInString r) && (RuneCountInString r <=? 128)) l = true.
Proof.
  induction l as [|r l IH]; [done|]. cbn [existsb forallb]. rewrite !orb_false_iff. intros [[[Hr Hl] _] Hrest].
  rewrite IH by done. apply bool_decide_eq_false in Hr. apply Z.ltb_ge in Hl. pose proof (RuneCount_bounds r) as (? & Hn & _).
  assert (len r ≠ 0) as Hz by (destruct r; [done|unfold len; simpl; lia]). specialize (Hn Hz). by tests.
Qed.

Lemma checked_size f : match f with Some x => bad_size x | None => false end = false → negative_size f = false.
Proof. by destruct f as [[]|]. Qed.

Lemma source_pair (kind source : string) :
  negb (bool_decide (kind = "")) && negb (bool_decide (kind = "compute.server")) && negb (bool_decide (kind = "storage.volume"))
    || negb (Bool.eqb (bool_decide (kind = "")) (bool_decide (source = ""))) = false →
  bool_decide (kind ∈ [""; "compute.server"; "storage.volume"]) = true ∧
  Bool.eqb (bool_decide (kind = "")) (bool_decide (source = "")) = true ∧ len kind <= 15.
Proof.
  intros [H1 H2]%orb_false_iff. apply negb_false_iff in H2. rewrite H2.
  assert (kind ∈ [""; "compute.server"; "storage.volume"]) as Hk.
  { rewrite !andb_false_iff, !negb_false_iff, !bool_decide_eq_true in H1. rewrite !elem_of_cons. tauto. }
  rewrite bool_decide_eq_true_2 by done. split_and!; [done|done|].
  rewrite !elem_of_cons, elem_of_nil in Hk. destruct Hk as [->|[->|[->|[]]]]; by vm_compute.
Qed.

Definition snapshot_meta (o : SnapshotObservation) : snapshot_details :=
  SnapshotDetails (so_SourceNativeID o) (so_SourceType o) (so_StatusReason o) (sm_Time <$> so_CreatedAt o)
    (so_NativeCreatedAt o) (so_CreationTimeReason o) (so_SizeBytes o) (so_SizeGB o) (so_MinimumDiskGB o)
    (default [] (so_Regions o)).

Lemma checked_details o : good_snapshot o →
  valid_snapshot_details (snapshot_meta o) = true ↔ ∀ n, so_SizeBytes o = Some n → n <= 9223372036854775807.
Proof.
  intros (Hc & _ & Hr1 & Hr2). unfold CheckedSnapshot in Hc.
  apply fail_if_bind in Hc as [Ha Hc]. apply fail_if_bind in Hc as [Hb Hc]. apply fail_if_bind in Hc as [Hd Hc].
  apply fail_if_bind in Hc as [He Hc]. apply fail_if_bind in Hc as [Hf _].
  apply source_pair in Hb as (Hs1 & Hs2 & Hs3). apply checked_regions in He.
  rewrite !orb_false_iff in Ha. destruct Ha as [[[[[[_ Hsrc] _] _] _] Hreg] _]. apply Z.ltb_ge in Hsrc, Hreg.
  cbn [existsb] in Hd. rewrite !orb_false_iff in Hd. destruct Hd as (Hg1%checked_size & Hg2%checked_size & _).
  rewrite !orb_false_iff in Hf. destruct Hf as [[Hn Hcr] _]. apply Z.ltb_ge in Hcr.
  pose proof (RuneCount_bounds (so_SourceNativeID o)) as (? & _ & _). pose proof (RuneCount_bounds (so_SourceType o)) as (? & _ & _).
  pose proof (RuneCount_bounds (so_StatusReason o)) as (? & _ & _). pose proof (RuneCount_bounds (so_NativeCreatedAt o)) as (? & _ & _).
  pose proof (RuneCount_bounds (so_CreationTimeReason o)) as (? & _ & _).
  unfold valid_snapshot_details, snapshot_meta. simpl. rewrite Hg1, Hg2, He, Hs1, Hs2. tests. simpl.
  rewrite !andb_true_r. destruct (so_SizeBytes o) as [n|]; [|naive_solver].
  apply Z.ltb_ge in Hn. rewrite andb_true_iff, !Z.leb_le. naive_solver.
Qed.

Lemma good_snapshot_stageable family o : 1 <= RuneCountInString family <= 64 → good_snapshot o →
  ∃ row, snapshot_row o = Ok row ∧ stageable family SnapshotType row_fits row.
Proof.
  intros Hf Hg. pose proof (checked_details o Hg) as Hv. destruct Hg as (Hc & Hs & _).
  unfold snapshot_row, SnapshotMetadata. rewrite Hc, decide_True by done. fold (snapshot_meta o). eexists. split; [done|].
  intros scope Hscope. simpl. unfold CheckedSnapshot in Hc. apply fail_if_bind in Hc as [Hg _].
  rewrite !orb_false_iff in Hg. destruct Hg as [[[[[[[H1 H2] _] _] H3] H4] _] _].
  apply Z.eqb_neq in H1. apply Z.ltb_ge in H2, H3, H4.
  pose proof (RuneCount_bounds (so_NativeID o)) as (? & Hn & _). pose proof (RuneCount_bounds (so_NativeStatus o)) as (? & _ & ?).
  pose proof (RuneCount_bounds (so_Name o)) as (? & _ & ?). specialize (Hn H1).
  unfold resource_check, valid_inventory_details, row_fits, texts_fit. simpl. rewrite (bool_decide_eq_true_2 (so_Status o ∈ _)) by done.
  tests. simpl. rewrite !andb_true_iff, Hv, Z.leb_le. naive_solver.
Qed.

(** The inserts of one page: [stage]'s loop, with the identifiers it draws. *)
Fixpoint insert_rows (lease : Lease) (family : string) (run : uuid) (rows : list (uuid * scanObservation)) : sql unit :=
  λ now d,
  match rows with
  | [] => Some (tt, d)
  | (id, o) :: rows => '(_, d) ← insert_staged lease id family run o now d; insert_rows lease family run rows now d
  end.

(** The rows of a page can be staged in a run of the lease's connection, as
    resources of [kind], exactly if each satisfies [fits] and their native ids
    are distinct and not staged yet. *)
Definition staged_if (family kind : string) (fits : scanObservation → Prop) (rows : list scanObservation) : Prop :=
  ∀ lease run s ids now d, sync_runs d !! run = Some s → sy_workspace s = ls_Workspace lease →
    sy_connection s = ls_Connection lease → sy_resource_type s = kind → 1 <= RuneCountInString (sy_scope s) <= 128 →
    length ids = length rows →
    is_Some (insert_rows lease family run (zip ids rows) now d) ↔
    Forall fits rows ∧ NoDup (sn_NativeID <$> rows) ∧
    ∀ o, o ∈ rows → inventory_staging d !! (ls_Workspace lease, ls_Connection lease, sy_generation s, sn_NativeID o) = None.

Lemma stageable_staged family kind fits rows : Forall (stageable family kind fits) rows → staged_if family kind fits rows.
Proof.
  intros Hrows lease run s ids now d Hs Hw Hc Hk Hscope. revert ids d Hs.
  induction Hrows as [|o rows Ho _ IH]; intros [|id ids] d Hs Hl; try discriminate Hl.
  { split; [|by eexists]. intros _. split_and!; [constructor|constructor|]. by intros o ?%not_elem_of_nil. }
  injection Hl as Hl. cbn [zip zip_with insert_rows]. unfold insert_staged at 1. rewrite Hs.
  specialize (Ho _ Hscope). rewrite Hk. set (key := (_, _, _, sn_NativeID o)).
  rewrite Forall_cons, fmap_cons, NoDup_cons.
  destruct (resource_check _ _ _ _ _ _ _ _) eqn:Hr; [|split; [intros [? [=]]|intros [[?%Ho _] _]; congruence]].
  rewrite bool_decide_eq_true_2 by done. simpl. unfold insert_new.
  destruct (inventory_staging d !! key) as [sg|] eqn:Hkey; [split; [intros [? [=]]|intros (_ & _ & H)]|].
  { specialize (H o ltac:(left)). unfold key in Hkey. congruence. }
  simpl. rewrite (IH ids) by done. cbn [inventory_staging]. pose proof (proj1 Ho eq_refl) as Hfit.
  split; intros (H1 & H2 & H3).
  - split_and!; [done|done| |done|].
    + intros (x & Hx & Hin)%list_elem_of_fmap. specialize (H3 _ Hin). rewrite <-Hx in H3. simpl in H3.
      rewrite lookup_insert_eq in H3. done.
    + intros x [->|Hin]%elem_of_cons; [done|]. specialize (H3 _ Hin). simpl in H3.
      by apply lookup_insert_None in H3 as [? _].
  - destruct H1 as [_ H1], H2 as [Hni H2]. split_and!; [done|done|]. intros x Hin. simpl.
    apply lookup_insert_None. split; [apply H3; by right|]. unfold key. intros [= Heq].
    apply Hni. rewrite Heq. by apply list_elem_of_fmap_2.
Qed.

(** What a page of servers, and one of snapshots, has to be for the scan. *)
Definition servers_stageable (family : string) (p : InventoryPage) : Prop :=
  staged_if family "compute.server" texts_fit (server_row <$> ip_Data p) ∧ (length (ip_Data p) ≤ 50)%nat ∧
  len (ip_Next p) <= 512.
Definition snapshots_stageable (family : string) (p : Provider.SnapshotPage) : Prop :=
  ∃ rows, snapshot_rows (sp_Data p) = Ok rows ∧ staged_if family SnapshotType row_fits rows ∧ (length rows ≤ 50)%nat.

(** PostgreSQL writes the octet of a string in a JSON text with at most six. *)
Definition jsonb_escapes : Prop := ∀ dt, dt_snapshot dt = None →
  jsonb_octets dt <= 4096 + 6 * (len (dt_region dt) + len (dt_machine_type dt)).

Lemma good_page_stageable {S} family (m : net S (go InventoryPage)) : jsonb_escapes → 1 <= RuneCountInString family <= 64 →
  returns m good_page → returns m (servers_stageable family).
Proof.
  intros Hj Hf Hm. eapply does_mono; [exact Hm|]. intros r tr H p Hp. destruct (H p Hp) as (H1 & H2 & H3).
  split_and!; [|done..]. apply stageable_staged, Forall_fmap. eapply Forall_impl; [exact H1|]. intros o. by apply good_server_stageable.
Qed.

Lemma good_snapshots_stageable {S} family (m : net S (go Provider.SnapshotPage)) : 1 <= RuneCountInString family <= 64 →
  returns m good_snapshots → returns m (snapshots_stageable family).
Proof.
  intros Hf Hm. eapply does_mono; [exact Hm|]. intros r tr H p Hp. destruct (H p Hp) as (H1 & H2). unfold snapshots_stageable.
  clear Hp. assert (∃ rows, snapshot_rows (sp_Data p) = Ok rows ∧ Forall (stageable family SnapshotType row_fits) rows ∧
    length rows = length (sp_Data p)) as (rows & Hr & Hs & Hl);
    [|exists rows; split_and!; [done|by apply stageable_staged|lia]].
  clear H2. induction H1 as [|o l Ho _ (rows & Hr & Hs & Hl)]; [by exists []|].
  destruct (good_snapshot_stageable family o Hf Ho) as (row & Hrow & Hst). exists (row :: rows). cbn [snapshot_rows].
  rewrite Hrow, Hr. split_and!; [done|by constructor|]. simpl. by rewrite Hl.
Qed.

(** C31. The scan can stage what an adapter returns, but for what no adapter
    checks.  A page holds at most fifty rows, the cursor of a page of servers
    fits the walk's bound, and the inserts of the page into the staging table
    succeed, under the primary key and every CHECK constraint of it, exactly
    if the texts of the rows are ones PostgreSQL can hold (UTF-8 without
    U+0000), no native id occurs twice or is staged already and, for
    snapshots, the JSON of the details stays within 65536 octets and a size in
    bytes within an [int64], as its Go type ensures: lengths, statuses,
    negative sizes, regions and sources never make them fail. *)
Theorem pages_stageable {S} (c : BearerClient) (d : Contabo.Client) b cursor (Hjson : jsonb_escapes) :
  (returns (S := S) (Hetzner.Page c b cursor) (servers_stageable Hetzner.Family) ∧
   returns (S := S) (Hetzner.SnapshotPage c b cursor) (snapshots_stageable Hetzner.Family)) ∧
  (returns (S := S) (DigitalOcean.Page c b cursor) (servers_stageable DigitalOcean.Family) ∧
   returns (S := S) (DigitalOcean.SnapshotPage c b cursor) (snapshots_stageable DigitalOcean.Family)) ∧
  (returns (S := S) (Vultr.Page c b cursor) (servers_stageable Vultr.Family) ∧
   returns (S := S) (Vultr.SnapshotPage c b cursor) (snapshots_stageable Vultr.Family)) ∧
  (returns (Contabo.Page d b cursor) (servers_stageable Contabo.Family) ∧
   returns (Contabo.SnapshotPage d b cursor) (snapshots_stageable Contabo.Family)).
Proof.
  split_and!;
    first [apply good_page_stageable; [done|by vm_compute|]|apply good_snapshots_stageable; [by vm_compute|]].
  - apply Hetzner.hetzner_Page_good.
  - apply Hetzner.hetzner_SnapshotPage_good.
  - apply DigitalOcean.digitalocean_Page_good.
  - apply DigitalOcean.digitalocean_SnapshotPage_good.
  - apply Vultr.vultr_Page_good.
  - apply Vultr.vultr_SnapshotPage_good.
  - apply Contabo.contabo_Page_good.
  - apply Contabo.contabo_SnapshotPage_good.
Qed.

(** ** What is reported as done *)

(** The last thing an observation did from turn [n] on: it read the target
    and found it in the status the action leaves. *)
Definition seen {S} (read : net S (go Observation)) (wanted : string) (w : nat → Turn) (n : nat) (s : S) (n' : nat) (s' : S) : Prop :=
  ∃ o tr, read w n s = (Ok o, n', s', tr) ∧ ob_Status o = wanted.

(** C16. A power action is reported as done only on evidence: the same
    observation read the target and found the status the action leaves; where
    the provider has actions of its own, it first read the action the
    submission was accepted for, completed, of this kind and on this target;
    where it has none, a reboot is never reported as done. *)
Theorem success_is_observed {S} (c : BearerClient) (d : Contabo.Client) b action id reference w n n' tr :
  let wanted := if bool_decide (action = "compute.server.shutdown") || bool_decide (action = "compute.server.power_off")
                then "stopped" else "running" in
  (∀ s s' : S, Hetzner.Observe c b action id reference w n s = (Ok succeeded, n', s', tr) →
    ∃ a n1 s1 tr1, reference = Some (Hetzner.pa_ID a) ∧ Hetzner.matches a action id = true ∧
      Hetzner.pa_Status a = "success" ∧
      Hetzner.get c b (Hetzner.actionsBase +:+ Hetzner.pa_ID a) Hetzner.un_action w n s = (Ok (Some a), n1, s1, tr1) ∧
      seen (Hetzner.Read c b id) wanted w n1 s1 n' s') ∧
  (∀ s s' : S, DigitalOcean.Observe c b action id reference w n s = (Ok succeeded, n', s', tr) →
    ∃ a n1 s1 tr1, reference = Some (DigitalOcean.pa_ID a) ∧ DigitalOcean.matches a action id = true ∧
      DigitalOcean.pa_Status a = "completed" ∧ DigitalOcean.incomplete a = false ∧
      DigitalOcean.get c b (DigitalOcean.base +:+ "/" +:+ id +:+ "/actions/" +:+ DigitalOcean.pa_ID a)
        DigitalOcean.un_action w n s = (Ok (Some a), n1, s1, tr1) ∧
      seen (DigitalOcean.Read c b id) wanted w n1 s1 n' s') ∧
  (∀ s s' : S, Vultr.Observe c b action id reference w n s = (Ok succeeded, n', s', tr) →
    action ≠ "compute.server.reboot" ∧ reference = None ∧
    seen (Vultr.Read c b id) (if decide (action = "compute.server.power_off") then "stopped" else "running") w n s n' s') ∧
  (∀ s s', Contabo.Observe d b action id reference w n s = (Ok succeeded, n', s', tr) →
    action ≠ "compute.server.reboot" ∧ reference = None ∧ seen (Contabo.Read d b id) wanted w n s n' s').
Proof.
  intros wanted. split_and!; intros s s' H.
  - apply Hetzner.hetzner_Observe_evidence in H as (a & o & n1 & s1 & tr1 & tr2 & ? & ? & ? & ? & Hr & Hs).
    exists a, n1, s1, tr1. split_and!; [done..|]. by exists o, tr2.
  - apply DigitalOcean.digitalocean_Observe_evidence in H as (a & o & n1 & s1 & tr1 & tr2 & ? & ? & ? & ? & ? & Hr & Hs).
    exists a, n1, s1, tr1. split_and!; [done..|]. by exists o, tr2.
  - apply Vultr.vultr_Observe_evidence in H as (? & ? & o & tr2 & Hr & Hs). split_and!; [done..|]. by exists o, tr2.
  - apply Contabo.contabo_Observe_evidence in H as (? & ? & o & tr2 & Hr & Hs). split_and!; [done..|]. by exists o, tr2.
Qed.
End ports.

(** ** A run *)

(** A parser and a printer for targets without ports, a provider that answers
    every request with success, and answers about server 42 and action 7. *)
Definition sample_Parse (raw : string) : option URL :=
  let '(scheme, rest) := Cut ":" raw in
  let '(before, query) := Cut "?" rest in
  let '(host, path) := Cut "/" (Cut "/" (Cut "/" before).2).2 in
  Some (MkURL scheme "" false host ("/" +:+ path) "" false query "").
Definition sample_String (u : URL) : string :=
  u_Scheme u +:+ "://" +:+ u_Host u +:+ u_Path u +:+ (if decide (u_RawQuery u = "") then "" else "?" +:+ u_RawQuery u).
Definition sample_web : Web := {| web_ParseTime _ := None; web_Parse := sample_Parse; web_String := sample_String |}.

Definition sample_decoders : Hetzner.Decoders := {|
  Hetzner.un_servers _ := None;
  Hetzner.un_server _ := Some (Some (Hetzner.MkServer (Some false) "42" "web" "running" "nbg1" "cx22"));
  Hetzner.un_action _ := Some (Some (Hetzner.MkPowerAction "7" "reboot_server" "success" [("42", "server")]));
  Hetzner.un_images _ := None; Hetzner.un_image _ := None; Hetzner.un_protected _ := None; Hetzner.un_created _ := None |}.

(** The other providers answer nothing that can be read. *)
Definition silent_do : DigitalOcean.Decoders := {|
  DigitalOcean.un_droplets _ := None; DigitalOcean.un_droplet _ := None; DigitalOcean.un_locked _ := None;
  DigitalOcean.un_account _ := None; DigitalOcean.un_action _ := None; DigitalOcean.un_snapshots _ := None;
  DigitalOcean.un_snapshot _ := None |}.
Definition silent_vultr : Vultr.Decoders := {|
  Vultr.un_instances _ := None; Vultr.un_instance _ := None; Vultr.un_account _ := None; Vultr.un_snapshots _ := None;
  Vultr.un_snapshot _ := None |}.
Definition silent_contabo : Contabo.Decoders := {|
  Contabo.un_token _ := None; Contabo.un_accounts _ := None; Contabo.un_instances _ := None; Contabo.un_instance _ := None;
  Contabo.un_posted _ := None; Contabo.un_snapshots _ := None |}.
Definition silent_clock : Clock := {| Parse_RFC3339 _ := None; Parse_DateTime _ := false |}.

Definition sample_turns (n : nat) : Turn :=
  MkTurn (λ _, MkAttempt true (Some Outbound.page) 0 false 0 true) (Z.of_nat n) None 0 true.
Definition sample_bearer : BearerClient :=
  MkBearerClient sample_binding (MkCredential "bearer_v1" "token" "" "" "" "" "" "" "") (Some (Outbound.MkClient HetznerCloud false)).
Definition sample_port : Port unit :=
  Hetzner.power (U := rfc9562) (W := sample_web) (D := sample_decoders) sample_bearer.
Definition sample_reviewed : bytes :=
  match pt_Inspect sample_port sample_binding "compute.server.reboot" "42" sample_turns 0%nat tt with
  | (Ok pre, _, _, _) => pre_Fingerprint pre
  | _ => []
  end.
Definition sample_submission : Receipt * option error * nat * unit * list event :=
  pt_Submit sample_port sample_binding "compute.server.reboot" "42" sample_reviewed sample_turns 0%nat tt.

(** Read again, the reviewed reboot leaves once and is accepted under the
    provider's own action. *)
Example sample_accepted :
  let '(r, _, _, tr) := sample_submission in
  (r, length (mutations tr), classifyActionReceipt "compute.server.reboot" (submitted r))
  = ((MkReceipt "accepted" "7", None), 1%nat, (WaitingProvider, Some "7")).
Proof. vm_compute. reflexivity. Qed.

Lemma sample_port_ok : Port_ok sample_port.
Proof.
  apply (Hetzner.hetzner_power_ok (U := rfc9562) (W := sample_web) (D := sample_decoders) sample_bearer).
  split; [exists (Outbound.MkClient HetznerCloud false)|]; done.
Qed.

Lemma worker_concludes_witness : ∃ r n' s' tr,
  sample_submission = (r, n', s', tr) ∧ (length (mutations tr) ≤ 1)%nat ∧
  answered (mutations tr) (λ c, 200 <= c < 300).
Proof.
  destruct sample_submission as [[[r n'] s'] tr] eqn:E. exists r, n', s', tr. split; [reflexivity|].
  assert (classifyActionReceipt "compute.server.reboot" (submitted r) = (WaitingProvider, Some "7")) as Hc.
  { pose proof sample_accepted as H. rewrite E in H. by injection H. }
  pose proof sample_port_ok.
  destruct (worker_concludes sample_port _ _ _ _ _ _ _ _ _ _ _ _ _ E Hc) as (H1 & _ & H3 & _).
  split; [exact H1|by apply H3].
Defined.

(** A page of one server, and its insert into the sample's staging table. *)
Definition page_decoders : Hetzner.Decoders := {|
  Hetzner.un_servers _ := Some (Some [Hetzner.MkServer None "42" "web" "running" "nbg1" "cx22"], Some (Hetzner.MkPagination 1 None));
  Hetzner.un_server _ := None; Hetzner.un_action _ := None; Hetzner.un_images _ := None; Hetzner.un_image _ := None;
  Hetzner.un_protected _ := None; Hetzner.un_created _ := None |}.
Definition sample_page : go InventoryPage * nat * unit * list event :=
  Hetzner.Page (W := sample_web) (D := page_decoders) sample_bearer sample_binding "" sample_turns 0%nat tt.
Definition staging_lease : Lease :=
  MkLease (MkRecord Nil (sample_id 101) wid cid "connection_refresh" 2 sample_now) (sample_id 200) (sample_id 77).

Definition listed_server : Observation :=
  MkObservation "42" "running" "running" "web" 1 (MkServerDetails "nbg1" "cx22").

Lemma plain_jsonb_escapes : jsonb_escapes (J := plain_jsonb).
Proof.
  intros [r m [sd|]] Hn; [discriminate Hn|]. unfold jsonb_octets, plain_jsonb. cbn [detail_texts foldr dt_region dt_machine_type dt_snapshot].
  unfold len. pose proof (Nat2Z.is_nonneg (String.length r)). pose proof (Nat2Z.is_nonneg (String.length m)). lia.
Qed.

Lemma pages_stageable_witness : ∃ n' s' tr,
  sample_page = (Ok (MkInventoryPage [listed_server] ""), n', s', tr) ∧
  is_Some (insert_rows (J := plain_jsonb) staging_lease Hetzner.Family sid [(sample_id 500, server_row listed_server)] 0 sample_db).
Proof.
  assert (E : sample_page.1.1.1 = Ok (MkInventoryPage [listed_server] "")) by (vm_compute; reflexivity).
  destruct sample_page as [[[r n'] s'] tr] eqn:Ep. simpl in E. subst r. exists n', s', tr. split; [reflexivity|].
  destruct (pages_stageable (S := unit) (W := sample_web) (C := silent_clock) (DH := page_decoders) (DD := silent_do)
    (DV := silent_vultr) (DC := silent_contabo) (J := plain_jsonb) sample_bearer
    (Contabo.MkClient sample_binding (ac_credential sample_bearer) (Outbound.MkClient HetznerCloud false)
       (Outbound.MkClient HetznerCloud false)) sample_binding "" plain_jsonb_escapes) as [[H _] _].
  destruct (H _ _ _ _ _ _ _ Ep _ eq_refl) as (Hst & _ & _).
  apply (Hst staging_lease sid _ [sample_id 500] 0 sample_db eq_refl eq_refl eq_refl eq_refl).
  - split; vm_compute; discriminate.
  - reflexivity.
  - split_and!.
    + apply Forall_cons. split; [vm_compute; reflexivity|apply Forall_nil; exact I].
    + apply NoDup_cons. split; [by apply not_elem_of_nil|apply NoDup_nil; exact I].
    + intros o [->|Ho%not_elem_of_nil]%elem_of_cons; [vm_compute; reflexivity|destruct Ho].
Defined.

(** Another connection of the workspace is refused, to inspect and to observe. *)
Definition other_binding : Binding := MkBinding (bd_workspace sample_binding) (bd_workspace sample_binding) (bd_family sample_binding) 2.

Lemma ports_ok_witness :
  ac_binding sample_bearer = sample_binding ∧ Port_ok sample_port ∧
  refuses (pt_Observe sample_port other_binding "compute.server.reboot" "42" (Some "7")).
Proof.
  destruct (ports_ok (U := rfc9562) (W := sample_web) (T := sample_texts) (C := silent_clock) (DH := sample_decoders)
    (DD := silent_do) (DV := silent_vultr) (DC := silent_contabo) (S := unit) false sample_binding (ac_credential sample_bearer) true) as (H & _).
  destruct (H sample_bearer ltac:(vm_compute; reflexivity)) as (H1 & H2 & _). split_and!; [done|done|].
  apply (observe_foreign (Port_ok := H2)). vm_compute. discriminate.
Defined.

Example sample_done :
  (pt_Observe sample_port sample_binding "compute.server.reboot" "42" (Some "7") sample_turns 0%nat tt).1.1.1 = Ok succeeded.
Proof. vm_compute. reflexivity. Qed.

(** The reboot is reported as done once action 7 has completed. *)
Lemma success_is_observed_witness : ∃ n' tr,
  pt_Observe sample_port sample_binding "compute.server.reboot" "42" (Some "7") sample_turns 0%nat tt
    = (Ok succeeded, n', tt, tr) ∧
  ∃ n1 s1, seen (Hetzner.Read (W := sample_web) (D := sample_decoders) sample_bearer sample_binding "42") "running"
    sample_turns n1 s1 n' tt.
Proof.
  destruct (pt_Observe sample_port sample_binding "compute.server.reboot" "42" (Some "7") sample_turns 0%nat tt)
    as [[[r n'] []] tr] eqn:E. pose proof sample_done as Hr. rewrite E in Hr. simpl in Hr. subst r.
  exists n', tr. split; [reflexivity|].
  destruct (success_is_observed (W := sample_web)
    (DH := sample_decoders) (DD := silent_do) (DV := silent_vultr) (DC := silent_contabo) (S := unit) sample_bearer
    (Contabo.MkClient sample_binding (ac_credential sample_bearer) (Outbound.MkClient Endpoint.Contabo false)
       (Outbound.MkClient ContaboAuth false))
    sample_binding "compute.server.reboot" "42" (Some "7") sample_turns 0%nat n' tr) as (H & _).
  destruct (H tt tt E) as (a & n1 & s1 & tr1 & _ & _ & _ & _ & Hs).
  exists n1, s1. exact Hs.
Defined.
