(* ===== verification/Answers.v ===== *)
(** What [Gateway] and [Routes] promise of every request: an answer with a
    known status. *)
From S2P Require Import Prelude GoBase Identifier Json Schema Tx TxLogic Wp Prog Recent Sessions Challenges Membership.
From S2P Require Import AesGcm Connection Custody Enqueue Grants Invitations Intent Reviews Control Provider Envelope Paging.
From S2P Require Import Reads Browse History Login Endpoint Facts Sample Listings Paths Http Content Routes Gateway.
Local Open Scope Z_scope.

(** ** Every request is answered *)

(** [Q] holds of however the program may end. *)
Fixpoint outcomes {X} (Q : go X → Prop) (p : prog X) : Prop :=
  match p with
  | Done r => Q r
  | Txn t k => ∀ s, outcomes Q (k (t s).1)
  | Call c k => ∀ r, outcomes Q (k r)
  end.

Lemma outcomes_bind {X Y} Q (p : prog X) (k : X → prog Y) :
  outcomes (λ r, match r with Ok x => outcomes Q (k x) | Err e => Q (Err e) end) p → outcomes Q (p ≫= k).
Proof. induction p as [[x|e]|C t h IH|c h IH]; simpl; auto. Qed.

Lemma outcomes_attempt {X} (Q : go (go X) → Prop) (p : prog X) :
  outcomes (λ r, Q (Ok r)) p → outcomes Q (pattempt p).
Proof. induction p as [r|C t h IH|c h IH]; simpl; auto. Qed.

Lemma outcomes_any {X} (Q : go X → Prop) (p : prog X) : (∀ r, Q r) → outcomes Q p.
Proof. intros HQ. induction p as [r|C t h IH|c h IH]; simpl; auto. Qed.

Lemma outcomes_mono {X} (Q Q' : go X → Prop) (p : prog X) : outcomes Q p → (∀ r, Q r → Q' r) → outcomes Q' p.
Proof. intros H HQ. induction p as [r|C t h IH|c h IH]; simpl in *; auto. Qed.

Definition statuses : list Z := [200; 201; 202; 204; 302; 400; 401; 403; 404; 405; 408; 409; 413; 422; 429; 431; 503].
Definition file_statuses : list Z := [200; 206; 304; 412; 416; 500].
Definition proper (x : response) : Prop :=
  x ≠ Panicked ∧ status_of x ∈ match x with File _ _ _ => file_statuses | _ => statuses end.
Definition answers (r : go response) : Prop := ∃ x, r = Ok x ∧ proper x.

Lemma answers_ok x : proper x → answers (Ok x).
Proof. intros. by exists x. Qed.

Definition problem_ok (p : problem) : Prop := pm_Status p ∈ statuses.

Ltac in_statuses := repeat case_decide; unfold problem_ok; simpl; unfold statuses; set_solver.

Lemma login_problem_ok e : problem_ok (login_problem e).
Proof. unfold login_problem, loginFailure. in_statuses. Qed.
Lemma memberFailure_ok e : problem_ok (memberFailure e).
Proof. unfold memberFailure. in_statuses. Qed.
Lemma operationFailure_ok e : problem_ok (operationFailure e).
Proof. unfold operationFailure. repeat case_decide; try apply memberFailure_ok; in_statuses. Qed.
Lemma connectionWriteFailure_ok e : problem_ok (connectionWriteFailure e).
Proof. unfold connectionWriteFailure. in_statuses. Qed.
Lemma validationFailure_ok e : problem_ok (validationFailure e).
Proof. unfold validationFailure. in_statuses. Qed.
Lemma creationFailure_ok e : problem_ok (creationFailure e).
Proof. unfold creationFailure. in_statuses. Qed.
Lemma settingsFailure_ok e : problem_ok (settingsFailure e).
Proof. unfold settingsFailure. case_decide; [in_statuses|apply memberFailure_ok]. Qed.
Lemma syncFailure_ok e : problem_ok (syncFailure e).
Proof. unfold syncFailure. case_decide; [in_statuses|apply memberFailure_ok]. Qed.
Lemma auditFailure_ok e : problem_ok (auditFailure e).
Proof. apply memberFailure_ok. Qed.
Lemma membershipFailure_ok e : problem_ok (membershipFailure e).
Proof. unfold membershipFailure. in_statuses. Qed.
Lemma loginStartFailure_ok e : problem_ok (loginStartFailure e).
Proof. unfold loginStartFailure. in_statuses. Qed.

(** Every problem a handler of the API answers. *)
Definition reply_ok (p : reply) : Prop := match p with Problem p => problem_ok p | _ => True end.

Section answered.
Context `{U : UuidApi} `{L : HttpLib} `{B : Bodies} `{A : AEAD} (time_json : time → string).
Context `{!CursorJSON (History.cursor_text time_json), !CursorJSON (history_text time_json), !CursorJSON Browse.cursor_text}.

(** A read of one thing that succeeds has it. *)
Lemma ReadAuthorized_first actor scope target implemented limit cursor s page s' : target ≠ Nil →
  ReadAuthorized actor scope target implemented limit cursor s = (Ok page, s') → page.1 ≠ [].
Proof.
  intros Hn H. unfold ReadAuthorized in H. apply txm_bind_Ok in H as (? & s1 & _ & H).
  apply txm_bind_Ok in H as (rows & s2 & _ & H). apply txm_bind_Ok in H as (now & s3 & _ & H).
  destruct (cut _ _) as [data last]. apply txm_bind_Ok in H as (? & s4 & H' & H). apply reject_if_Ok in H' as [H' ->].
  apply txm_ret_Ok in H as [-> _]. rewrite bool_decide_eq_false_2 in H' by done. by guards.
Qed.

Lemma Read_first actor scope target limit position s page s' : target ≠ Nil →
  History.Read time_json actor scope target limit position s = (Ok page, s') → page.1 ≠ [].
Proof.
  intros Hn H. unfold History.Read in H. apply txm_bind_Ok in H as (? & s1 & H1 & H). apply reject_if_Ok in H1 as [H1 ->].
  apply txm_bind_Ok in H as (after & s2 & _ & H). apply txm_bind_Ok in H as (rows & s3 & _ & H).
  apply txm_bind_Ok in H as (? & s4 & H' & H). apply reject_if_Ok in H' as [H' ->].
  rewrite (bool_decide_eq_false_2 (target = Nil)) in H' by done. simpl in H'. apply bool_decide_eq_false in H'. guards.
  destruct (cut (Z.to_nat limit) rows) as [data last] eqn:Ec. apply txm_ret_Ok in H as [-> _]. simpl.
  unfold cut in Ec. guards.
  destruct (_ <? _)%nat; simplify_eq; [|done].
  destruct (Z.to_nat limit) eqn:En; [lia|]. by destruct rows.
Qed.

(** *** The problems of the API *)

Lemma problem_method method r k : reply_ok k → reply_ok (when_method method r k).
Proof. intros Hk. unfold when_method. case_decide; [done|]. in_statuses. Qed.
Lemma problem_invalid : reply_ok invalid.
Proof. apply memberFailure_ok. Qed.
Lemma problem_id text k : (∀ id, reply_ok (k id)) → reply_ok (with_id text k).
Proof. intros Hk. unfold with_id. destruct (Parse text); [done|apply problem_invalid]. Qed.
Lemma problem_decode config {X} cx r (decode : bytes → option X) k :
  (∀ x, reply_ok (k x)) → reply_ok (decodeMutation config cx r decode k).
Proof.
  intros Hk. unfold decodeMutation. destruct (negb _); [simpl; in_statuses|]. destruct (strict _ _ _); [done|apply problem_invalid].
Qed.
Lemma problem_paged r standard most k : (∀ limit cursor, reply_ok (k limit cursor)) → reply_ok (paged r standard most k).
Proof. intros Hk. unfold paged. repeat case_match; try apply problem_invalid. done. Qed.

Ltac problem_rule :=
  lazymatch goal with
  | |- reply_ok (when_method _ _ _) => apply problem_method
  | |- reply_ok (with_id _ _) => apply problem_id; intros ?
  | |- reply_ok (decodeMutation _ _ _ _ _) => apply problem_decode; intros ?
  | |- reply_ok (paged _ _ _ _) => apply problem_paged; intros ? ?
  | |- reply_ok invalid => apply problem_invalid
  | |- reply_ok (Invoke _) => exact I
  | |- reply_ok Fallback => exact I
  | |- reply_ok (Problem _) => simpl; in_statuses
  | |- reply_ok (match ?x with _ => _ end) => destruct x
  | |- reply_ok (let _ := _ in _) => cbv zeta
  end.
Ltac problems := repeat problem_rule.

Ltac endpoints :=
  unfold detail_at, operations_at, connections_at, overview_at, audit_at, resources_at, members_at, changeMember, workspaceSettings,
    issueInvitation, transferOwnership, grants_at, connectionDisable, connectionRotation, connectionSyncs, connectionWrites,
    validations_at, actionReview, operationAcceptance, operationControls, createWorkspace; problems.

Lemma api_problem config cx r : reply_ok (apiRoutes config cx r).
Proof.
  unfold apiRoutes. destruct (first_of _ _ _) as [p|] eqn:E.
  - enough (Forall (λ h : handler, ∀ p, h cx r = Some p → reply_ok p) (handlers config)) as Hh.
    { induction Hh as [|h l Hh _ IH]; [done|]. cbn [first_of] in E. destruct (h cx r) eqn:Eh; [simplify_eq; by apply Hh|by apply IH]. }
    unfold handlers. repeat (apply Forall_cons; split); [..|by apply Forall_nil_2]; intros q;
      unfold overview, operationReads, auditHistory, operationControls_route, operationAcceptance_route, actionReview_route,
        resourceDetail, resourceList, syncStatus, connectionRotation_route, connectionWrites_route, connectionSyncs_route,
        validationRoutes, grantRoutes, connectionDisable_route, connectionReads, memberRoutes, exact, below, tenant, one, verb;
      intros H; repeat case_match; simplify_eq; endpoints.
  - repeat problem_rule; endpoints.
Qed.

(** *** The programs *)

Lemma refused_proper p : problem_ok p → proper (Refused p).
Proof. done. Qed.

Lemma outcomes_respond {X} (service : prog X) fail k : (∀ e, problem_ok (fail e)) → (∀ x, proper (k x)) →
  outcomes answers (respond service fail k).
Proof.
  intros Hf Hk. apply outcomes_bind, outcomes_attempt, outcomes_any. intros [x|e]; apply answers_ok; auto using refused_proper.
Qed.

Lemma outcomes_respond_tx {X} (t : txm X) fail k : (∀ e, problem_ok (fail e)) →
  (∀ s x s', t s = (Ok x, s') → proper (k x)) → outcomes answers (respond (tx t) fail k).
Proof.
  intros Hf Hk. apply outcomes_bind, outcomes_attempt. intros s. simpl. destruct (t s) as [[x|e] s'] eqn:E; apply answers_ok.
  - by eapply Hk.
  - by apply refused_proper.
Qed.

Lemma the_first_proper {X} (l : list X) k : l ≠ [] → (∀ x, proper (k x)) → proper (the_first l k).
Proof. destruct l; simpl; auto. done. Qed.

Ltac is_proper := split; [done|simpl; unfold statuses; repeat case_match; set_solver].
#[local] Hint Resolve login_problem_ok memberFailure_ok operationFailure_ok connectionWriteFailure_ok validationFailure_ok
  creationFailure_ok settingsFailure_ok syncFailure_ok auditFailure_ok membershipFailure_ok loginStartFailure_ok : core.

Context (a : Auth) (su : Surroundings) (un_login : bytes → option string) (un_logout : bytes → option (option unit)).

Lemma answer_answers p ws request c : outcomes answers (answer time_json a su p ws request c).
Proof.
  destruct c; unfold answer;
    lazymatch goal with
    | |- outcomes _ (mbind _ _) => intros now
    | |- context [ReadAuthorized] => apply outcomes_respond_tx; [by auto|intros s [l next] s' E]
    | |- context [History.Read] => apply outcomes_respond_tx; [by auto|intros s [l next] s' E]
    | _ => apply outcomes_respond; [by auto|intros; is_proper]
    end.
  - apply outcomes_respond; [by auto|intros; is_proper].
  - case_decide as Hn; [is_proper|]. apply the_first_proper; [by apply (ReadAuthorized_first _ _ _ _ _ _ _ _ _ Hn E)|intros; is_proper].
  - case_decide as Hn; [is_proper|]. apply the_first_proper; [by apply (Read_first _ _ _ _ _ _ _ _ Hn E)|intros; is_proper].
Qed.

Lemma outcomes_inspect {X Y} Q (p : prog X) (k : go X → prog Y) :
  (∀ r, outcomes Q (k r)) → outcomes Q (r ← pattempt p; k r).
Proof. intros Hk. apply outcomes_bind, outcomes_attempt, outcomes_any. auto. Qed.

Lemma outcomes_refused p : problem_ok p → outcomes answers (mret (Refused p)).
Proof. intros Hp. by apply answers_ok. Qed.

Ltac answer_rule :=
  lazymatch goal with
  | |- outcomes _ (mret (Refused _)) => apply outcomes_refused; first [by auto|in_statuses]
  | |- outcomes _ (mret (match ?x with _ => _ end)) => destruct x
  | |- outcomes _ (mret _) => apply answers_ok; is_proper
  | |- outcomes _ (respond _ _ _) => apply outcomes_respond; [by auto|intros; is_proper]
  | |- outcomes _ (mbind _ _) => apply outcomes_inspect; intros ?
  | |- outcomes _ (match ?x with _ => _ end) => destruct x
  | |- outcomes _ (let _ := _ in _) => cbv zeta
  end.
Ltac answered := repeat answer_rule.

Lemma BoundRequests_ok original ended r p : BoundRequests original ended r = Err p → problem_ok p.
Proof. unfold BoundRequests. intros H. repeat case_match; simplify_eq; in_statuses. Qed.

Lemma route_proper r : proper (route r).
Proof. unfold route. repeat case_decide; is_proper. Qed.

Lemma dispatch_answers cx r : outcomes answers (dispatch time_json a su cx r).
Proof.
  unfold dispatch. pose proof (api_problem (ha_OIDC a) cx r) as Hp.
  destruct (apiRoutes _ _ _); [by apply outcomes_refused|apply answer_answers|apply answers_ok, route_proper].
Qed.

Lemma Protect_answers request r role next : (∀ cx, outcomes answers (next cx)) →
  outcomes answers (Protect a request r role next).
Proof.
  intros Hn. unfold Protect. cbv zeta.
  assert (∀ cx, outcomes answers (match requireMutation (ha_OIDC a) r (cx_principal cx) with
                                  | Err p => mret (Refused p) | Ok _ => next cx end)) as Hg.
  { intros cx. destruct (requireMutation _ _ _) eqn:E; [auto|]. unfold requireMutation, fail_if in E.
    case_match; simplify_eq. answered. }
  repeat lazymatch goal with
    | |- outcomes _ (match requireMutation _ _ (cx_principal ?cx) with _ => _ end) => exact (Hg cx)
    | _ => answer_rule
    end.
Qed.

Lemma serve_asset_proper regular r : proper (serve_asset regular r).
Proof.
  unfold serve_asset. cbv zeta.
  repeat match goal with
  | |- proper (match ?x with _ => _ end) => destruct x
  | |- proper (route _) => apply route_proper
  | |- proper (serve_content _ _ _) => split; [done|apply content_statuses]
  | |- proper _ => is_proper
  end.
Qed.

Lemma app_answers assets request r : outcomes answers (app time_json a su un_login un_logout assets request r).
Proof.
  unfold app. destruct (decide _); [|destruct (decide _); [|destruct (decide _); [|destruct (decide _)]]].
  - unfold login. answered.
  - unfold callback_at. answered.
  - unfold logout. answered.
  - apply Protect_answers. intros cx. unfold reauthenticate. answered.
  - destruct (under _ _); [apply Protect_answers; intros cx; apply dispatch_answers|].
    apply answers_ok. destruct assets; [destruct (_ && _)|]; auto using route_proper, serve_asset_proper.
Qed.

End answered.

(** ** A sample session *)

(** Alice, an owner of the sample's workspace, is signed in. *)
Definition sample_session : session :=
  Session alice (digest_of sample_token) (sample_now - Minute) (sample_now - Minute) (sample_now - Minute)
    (sample_now + Minute) (sample_now + Hour) wid false.
Definition session_db : db := sample_db <| sessions := {[digest_of sample_token := sample_session]} |>.
Definition sample_auth : Auth := MkAuth sample_oidc None ∅ None DefaultSessionPolicy.
Definition sample_surroundings : Surroundings := MkSurroundings (λ _, None) true [] (λ _ _, Err IdErrUnauthenticated).

#[local] Existing Instances rfc9562 sample_http sample_bodies sample_history_json sample_audit_json sample_resource_json.

(** What the sample's server does with a request. *)
Definition sample_serve (r : Request) : prog response :=
  serve sample_time_json sample_auth sample_surroundings (λ _, None) (λ _, None) sample_proxies None
    (Some (λ name, if decide (name = "index.html") then Some sample_asset else None)) None false r.

