(* ===== verification/ReadOnly.v ===== *)
(** What [Gateway] and [Routes] promise of requests that ask for no change:
    the store is left as it was, but for the times of the caller's session. *)
From S2P Require Import Prelude GoBase Identifier Json Schema Tx TxLogic Wp Prog Recent Sessions Challenges Membership.
From S2P Require Import AesGcm Connection Custody Enqueue Grants Invitations Intent Reviews Control Provider Envelope Paging.
From S2P Require Import Reads Browse History Login Endpoint Facts Sample Listings Paths Http Routes Gateway Answers.
Local Open Scope Z_scope.

(** ** Reads only read *)

(** A session without the times a request moves. *)
Definition faded (s : session) : session := s <| se_last_seen_at := 0 |> <| se_idle_expires_at := 0 |>.

(** From [d] to [d'] nothing changes but those times of the session of [token]. *)
Definition quiet (token : option string) (d d' : db) : Prop := ∃ m, d' = d <| sessions := m |> ∧
  ∀ k, m !! k = sessions d !! k ∨
       (token ≫= tokenDigest) = Some k ∧ faded <$> m !! k = faded <$> sessions d !! k.

#[export] Instance read_only_preorder token : PreOrder (quiet token).
Proof.
  split.
  - intros d. exists (sessions d). split; [by destruct d|by left].
  - intros d1 d2 d3 (m & -> & Hm) (m' & -> & Hm'). exists m'. split; [done|]. intros k. simpl in *.
    destruct (Hm k) as [H|[? H]], (Hm' k) as [H'|[? H']]; rewrite <-?H, ?H', ?H; auto.
Qed.

Lemma quiet_resolve token digest now idle : token ≫= tokenDigest = Some digest →
  respects (quiet token) (resolve_sql digest now idle).
Proof.
  intros Ht now' d a d' H. apply resolve_sql_Some in H. destruct a as [s'|]; [|by subst].
  destruct H as (s & Hs & _ & _ & -> & ->). eexists. split; [done|]. intros k.
  destruct (decide (k = digest)) as [->|Hne]; [|left; by rewrite lookup_insert_ne].
  right. split; [done|]. by rewrite lookup_insert_eq, Hs.
Qed.

Section quiet.
Context `{U : UuidApi} `{L : HttpLib} `{B : Bodies} `{A : AEAD} (time_json : time → string).
Context `{!CursorJSON (History.cursor_text time_json), !CursorJSON (history_text time_json), !CursorJSON Browse.cursor_text}.
Context (token : option string).

Lemma quiet_Resolve policy t : token = Some t → keeps (quiet token) (Resolve_session policy t).
Proof.
  intros ->. unfold Resolve_session. destruct (tokenDigest t) eqn:E; [|tx_auto].
  repeat first [tx_rule; intros; try typeclasses eauto | by apply quiet_resolve].
Qed.

Lemma quiet_dispatch a su cx r : safe_method (hq_Method r) = true →
  each (λ _ t, keeps (quiet token) t) (λ _, False) (dispatch time_json a su cx r).
Proof.
  intros Hm. unfold dispatch. pose proof (api_admits (ha_OIDC a) cx r) as Hd. destruct (apiRoutes _ _ _); [done| |done].
  apply reads_only; [apply _|]. destruct (Hd _ eq_refl) as [_ Hc]. destruct (mutating c); [|done]. destruct (Hc eq_refl) as [_ Hm'].
  unfold safe_method in Hm. rewrite !orb_true_iff, !bool_decide_eq_true in Hm. rewrite !elem_of_cons, elem_of_nil in Hm'.
  intuition congruence.
Qed.

Lemma quiet_Protect a request r role next : token = Cookie (ha_OIDC a) r "session" →
  (∀ cx, each (λ _ t, keeps (quiet token) t) (λ _, False) (next cx)) →
  each (λ _ t, keeps (quiet token) t) (λ _, False) (Protect a request r role next).
Proof.
  intros Ht Hn. unfold Protect. destruct (Cookie _ _ _) as [t|]; [|done].
  repeat lazymatch goal with
  | |- each _ _ (tx (Resolve_session _ _)) => by apply each_tx, quiet_Resolve
  | |- each _ _ (tx _) => apply each_tx; unfold ResolveMembership; tx_auto
  | |- each _ _ (next _) => apply Hn
  | _ => each_rule
  end.
Qed.
End quiet.

(** A request, without the headers that [WithClientIP] removes, for the same path,
    method and session. *)
Lemma cookie_kept `{L : HttpLib} config trusted r kind : Cookie config (WithClientIP trusted r).2 kind = Cookie config r kind.
Proof.
  unfold Cookie, Values, WithClientIP, forwarding; cbn [snd hq_Header foldr]. by rewrite !lookup_delete_ne by done.
Qed.

Section read_only.
Context `{U : UuidApi} `{L : HttpLib} `{B : Bodies} `{A : AEAD} (time_json : time → string).
Context `{!CursorJSON (History.cursor_text time_json), !CursorJSON (history_text time_json), !CursorJSON Browse.cursor_text}.
Context (a : Auth) (su : Surroundings) (un_login : bytes → option string) (un_logout : bytes → option (option unit)).

Lemma BoundRequests_kept original ended r r' : BoundRequests original ended r = Ok r' →
  hq_Method r' = hq_Method r ∧ hq_Path r' = hq_Path r ∧ hq_Header r' = hq_Header r.
Proof. unfold BoundRequests. intros H. repeat case_match; by simplify_eq. Qed.

Lemma quiet_readyz token ring r : each (λ _ t, keeps (quiet token) t) (λ _, False) (readyz ring r).
Proof. unfold readyz. cbv zeta. repeat first [each_rule | progress tx_auto]. Qed.

Lemma safe_not_post r : safe_method (hq_Method r) = true → negb (bool_decide (hq_Method r = "POST")) = true.
Proof.
  intros Hm. rewrite bool_decide_eq_false_2; [done|]. unfold safe_method in Hm. rewrite !orb_true_iff, !bool_decide_eq_true in Hm.
  intuition congruence.
Qed.

Lemma quiet_app assets request r : safe_method (hq_Method r) = true → hq_Path r ∉ ["/auth/login"; "/auth/callback"] →
  each (λ _ t, keeps (quiet (Cookie (ha_OIDC a) r "session")) t) (λ _, False)
    (app time_json a su un_login un_logout assets request r).
Proof.
  intros Hm Hp. unfold app. rewrite !not_elem_of_cons in Hp.
  destruct (decide _); [by destruct Hp|]. destruct (decide _); [by destruct Hp as (? & ? & ?)|].
  destruct (decide _); [unfold logout; by rewrite safe_not_post|].
  destruct (decide _); [apply quiet_Protect; [done|intros cx; unfold reauthenticate; by rewrite safe_not_post]|].
  destruct (under _ _); [apply quiet_Protect; [done|]; intros cx; by apply quiet_dispatch|done].
Qed.

(** C11. A GET, HEAD or OPTIONS request for anything but a login changes nothing
    in the store except when the caller's own session was last seen and when it
    idles out, in any of its transactions and whatever they return, and calls
    no provider. *)
Theorem safe_methods_read_only trusted ring assets fresh ended r :
  safe_method (hq_Method r) = true → hq_Path r ∉ ["/auth/login"; "/auth/callback"] →
  each (λ _ t, keeps (quiet (Cookie (ha_OIDC a) r "session")) t) (λ _, False)
    (serve time_json a su un_login un_logout trusted ring assets fresh ended r).
Proof.
  intros Hm Hp. unfold serve. rewrite <-(cookie_kept _ trusted r).
  destruct (WithClientIP trusted r) as [[original ip] r'] eqn:Er. cbn [snd].
  assert (hq_Method r' = hq_Method r ∧ hq_Path r' = hq_Path r) as [Em Ep] by (by injection Er as <- <- <-).
  rewrite <-Em in Hm. rewrite <-Ep in Hp. clear Er Em Ep r.
  case_decide; [by apply quiet_readyz|]. destruct (BoundRequests _ _ _) as [r|] eqn:Eb; [|done].
  apply BoundRequests_kept in Eb as (Em & Ep & Eh). unfold Cookie. rewrite <-Eh.
  apply quiet_app; [by rewrite Em|by rewrite Ep].
Qed.
End read_only.

(** Reading the sample's overview answers it, and moves two times. *)
Lemma safe_methods_read_only_witness :
  let r := sample_request "GET" (workspace_path (U := rfc9562) (sample_id 10) +:+ "/overview") in
  each (λ _ t, keeps (quiet (Cookie (L := sample_http) sample_oidc r "session")) t) (λ _, False) (sample_serve r) ∧
  (match rr_result (run (Custody.quiet 400) 0 (sample_serve r) session_db) with Ok x => status_of x | Err _ => 0 end) = 200.
Proof.
  split; [|vm_compute; reflexivity]. unfold sample_serve. apply (safe_methods_read_only sample_time_json sample_auth).
  - vm_compute. reflexivity.
  - intros H. repeat (apply elem_of_cons in H as [H|H]; [vm_compute in H; discriminate H|]). by apply elem_of_nil in H.
Defined.
