(* ===== verification/Guard.v ===== *)
(** What [Protect] and [apiRoutes] promise together: a command of the API runs
    only for a live session, a current membership and checked input.  And what
    readiness promises of the keyring. *)
From S2P Require Import Prelude GoBase Identifier Json Roles Schema Tx TxLogic Wp Prog Recent Sessions Challenges Membership.
From S2P Require Import AesGcm Connection Custody Enqueue Grants Invitations Intent Reviews Control Provider Envelope Paging.
From S2P Require Import Reads Browse History Login Endpoint Facts Sample Listings Paths Http Routes Gateway Answers.
Local Open Scope Z_scope.

(** A membership that admits [role] to an open workspace. *)
Definition member_of (d : db) (user ws : uuid) (role : string) : Prop :=
  open_workspace d ws = true ∧ ∃ m, memberships d !! (ws, user) = Some m ∧ Allows (mb_role m) role = true.

Lemma ResolveMembership_spec user ws role d e :
  wp (ResolveMembership user ws role)
    (λ r s', tx_db s' = d ∧ (is_ok r = true → member_of d user ws role)) (Txs d d e).
Proof.
  unfold ResolveMembership, rd. repeat wp_step; simpl; simplify_eq; try done.
  split; [done|]. intros _. sql_inv H0. guards. split; [done|]. eauto.
Qed.

Section guard.
Context `{U : UuidApi} `{L : HttpLib} `{B : Bodies} `{A : AEAD} (time_json : time → string).
Context `{!CursorJSON (History.cursor_text time_json), !CursorJSON (history_text time_json), !CursorJSON Browse.cursor_text}.
Context (a : Auth) (su : Surroundings).

(** The instant of step [i], on the clock of the process. *)
Definition clock (w : world) (i : nat) : time := en_clock (wo_env w i) + en_skew (wo_env w i).

(** At step [i] over [d], the session of the request's cookie is live and its
    principal is the context's; the path names no workspace, or, at the next
    step, one the principal is a member of; and a request that may change
    something proves its origin.  What follows is step [j], over [d']. *)
Definition let_in (w : world) (i : nat) (d : db) (request : string) (r : Request) (role : string)
    (cx : context) (j : nat) (d' : db) : Prop :=
  cx_request cx = request ∧
  (∃ token d1, Cookie (ha_OIDC a) r "session" = Some token ∧
    resolved (ha_Policy a) token (clock w i) (wo_meddle w i d) (cx_principal cx) d1 ∧
    match tenant_of (hq_Path r) with
    | None => cx_workspace cx = None ∧ j = S i ∧ d' = d1
    | Some text => ∃ ws, Parse text = Ok ws ∧ cx_workspace cx = Some ws ∧ j = S (S i) ∧ d' = wo_meddle w (S i) d1 ∧
        member_of d' (pr_UserID (cx_principal cx)) ws role
    end) ∧
  (safe_method (hq_Method r) = true ∨ validMutation (ha_OIDC a) r (cx_principal cx) = true).

Lemma requireMutation_Ok config r p u : requireMutation config r p = Ok u →
  safe_method (hq_Method r) = true ∨ validMutation config r p = true.
Proof. unfold requireMutation. intros H%fail_if_Ok. destruct (safe_method _), (validMutation _ _ _); auto. Qed.

Lemma run_Protect w i d request r role next :
  let o := run w i (Protect a request r role next) d in
  (∃ p, rr_result o = Ok (Refused p) ∧ rr_calls o = []) ∨
  ∃ cx j d', let_in w i d request r role cx j d' ∧ o = run w j (next cx) d'.
Proof.
  unfold Protect. cbv zeta. destruct (Cookie _ _ _) as [token|] eqn:Ec; [|left; by eexists].
  cbn. set (d0 := wo_meddle w i d).
  pose proof (Resolve_session_spec (ha_Policy a) token d0 (wo_env w i)) as Hr. unfold wp in Hr.
  destruct (Resolve_session _ _ _) as [[p|e] s1]; [|left; by eexists]. cbn in Hr.
  unfold let_in. destruct (tenant_of _) as [text|].
  - destruct (Parse text) as [ws|]; [|left; by eexists]. cbn. set (d1 := wo_meddle w (S i) (tx_db s1)).
    pose proof (ResolveMembership_spec (pr_UserID p) ws role d1 (wo_env w (S i))) as Hm. unfold wp in Hm.
    destruct (ResolveMembership _ _ _ _) as [[m|e] s2]; [|left; by eexists]. destruct Hm as [Hd Hm]. cbn [snd fst] in Hd.
    destruct (requireMutation _ _ _) eqn:Eg; [|left; by eexists]. right. eexists (MkContext p (Some ws) request), _, d1. rewrite Hd.
    split; [|done]. split; [done|]. split; [|by eapply requireMutation_Ok]. exists token, (tx_db s1). split_and!; eauto 10.
  - destruct (requireMutation _ _ _) eqn:Eg; [|left; by eexists]. right. eexists (MkContext p None request), _, (tx_db s1).
    split; [|done]. split; [done|]. split; [|by eapply requireMutation_Ok]. exists token, (tx_db s1). by split_and!.
Qed.

(** C9. A request of the API that is not answered with a problem or by [route]
    runs one command, and before it has shown a live session of an enabled
    user, a current membership of an open workspace when its path names
    one, and, where it may change something, its origin and CSRF token; the
    command is the one its handler decodes, with arguments that were checked,
    for that user and that workspace. *)
Theorem request_authorized w i d request r :
  let o := run w i (Protect a request r "viewer" (λ cx, dispatch time_json a su cx r)) d in
  (∃ x, rr_result o = Ok x ∧ (x = route r ∨ ∃ p, x = Refused p) ∧ rr_calls o = []) ∨
  ∃ cx j d' c, let_in w i d request r "viewer" cx j d' ∧ apiRoutes (ha_OIDC a) cx r = Invoke c ∧
    admitted (ha_OIDC a) cx r c ∧
    o = run w j (answer time_json a su (cx_principal cx) (default Nil (cx_workspace cx)) request c) d'.
Proof.
  intros o. destruct (run_Protect w i d request r "viewer" (λ cx, dispatch time_json a su cx r)) as [(p & Hr & Hc)|(cx & j & d' & Hl & Ho)];
    fold o in Hr || fold o in Ho.
  - left. eauto 10.
  - unfold dispatch in Ho. pose proof (api_admits (ha_OIDC a) cx r) as Ha. destruct (apiRoutes _ _ _) as [p|c|] eqn:E.
    + left. rewrite Ho. eauto 10.
    + right. exists cx, j, d', c. destruct Hl as [Hq Hl]. rewrite Hq in Ho.
      split; [by split|]. split; [done|]. split; [by apply Ha|done].
    + left. rewrite Ho. eauto 10.
Qed.
End guard.

(** ** Readiness *)

Lemma Require_all k ids : is_ok (Require (Some k) ids) = true → Forall (λ id, is_Some (kr_keys k !! id)) ids.
Proof.
  unfold Require. intros H. apply Forall_forall. intros id Hid.
  destruct (bool_decide (kr_keys k !! kr_active k = None)); [done|]. destruct (existsb _ _) eqn:E; [done|].
  destruct (kr_keys k !! id) eqn:Ek; [done|]. exfalso. apply not_true_iff_false in E. apply E, existsb_exists. exists id.
  split; [by apply list_elem_of_In|]. by rewrite Ek.
Qed.

(** As many of the elements of a set as it is given room for, when they fit
    in a smaller set, are all of them. *)
Lemma take_all (X Y : gset string) n : (size Y < n)%nat → Forall (.∈ Y) (take n (base.elements X)) → X ⊆ Y.
Proof.
  intros Hn Hf. assert (length (take n (base.elements X)) ≤ size Y)%nat as Hl.
  { assert (NoDup (take n (base.elements X))) as Hnd by (eapply sublist_NoDup; [apply (NoDup_elements X)|apply sublist_take]).
    rewrite <-(size_list_to_set (C := gset string) _ Hnd). apply subseteq_size. intros x Hx%elem_of_list_to_set.
    rewrite Forall_forall in Hf. by apply Hf. }
  rewrite length_take in Hl. rewrite take_ge in Hf by lia. intros x Hx. rewrite Forall_forall in Hf. apply Hf. by apply elem_of_elements.
Qed.

Lemma key_ids_spec d id : id ∈ key_ids d ↔ ∃ key v, credential_versions d !! key = Some v ∧ cv_master_key_id v = id.
Proof.
  unfold key_ids. rewrite elem_of_list_to_set, list_elem_of_fmap. split.
  - intros ([key v] & -> & H%elem_of_map_to_list). by exists key, v.
  - intros (key & v & H & <-). exists (key, v). split; [done|]. by apply elem_of_map_to_list.
Qed.

Lemma load_entries_size decode entries keys keys' : load_entries decode entries keys = Ok keys' →
  (size keys' ≤ size keys + length entries)%nat.
Proof.
  revert keys. induction entries as [|entry entries IH]; intros keys H; [injection H as <-; simpl; lia|].
  cbn [load_entries] in H. destruct (strict_base64 _ _) as [key|]; [|done]. cbn in H. apply fail_if_bind in H as [Hn H].
  apply IH in H. guards. rewrite map_size_insert_None in H by done. simpl. lia.
Qed.

Lemma LoadKeyring_size Decode Tokens DecodeString file ring :
  LoadKeyring Decode Tokens DecodeString file = Ok ring → (size (kr_keys ring) ≤ 64)%nat.
Proof.
  unfold LoadKeyring. intros H. destruct (kf_lstat file) as [[regular mode]|]; [|done].
  apply fail_if_bind in H as [_ H]. destruct (kf_opened file) as [[same mode']|]; [|done].
  apply fail_if_bind in H as [_ H]. destruct (kf_data file) as [data|]; [|done].
  apply fail_if_bind in H as [_ H]. destruct (Decode data) as [[active entries]|]; [|done].
  apply fail_if_bind in H as [He H]. apply fail_if_bind in H as [_ H].
  destruct (load_entries _ _ _) as [keys|] eqn:Hl; [|done]. cbn in H. apply fail_if_bind in H as [_ H]. injection H as <-.
  apply load_entries_size in Hl. rewrite map_size_empty in Hl. simpl. guards. lia.
Qed.

(** C39. Readiness is complete though it reads 65 keys at most: when a loaded
    keyring is reported ready, every credential version stored at that time,
    of any connection and however old, is wrapped by one of its keys. *)
Theorem readiness_complete Decode Tokens DecodeString file k w i d r :
  LoadKeyring Decode Tokens DecodeString file = Ok k →
  rr_result (run w i (readyz (Some k) r) d) = Ok (ok HealthBody) →
  ∀ key v, credential_versions (wo_meddle w i d) !! key = Some v → is_Some (kr_keys k !! cv_master_key_id v).
Proof.
  intros Hk%LoadKeyring_size Hr key v Hv. unfold readyz in Hr. destruct (_ && _); [done|]. cbv zeta in Hr.
  destruct (Require (Some k) []) eqn:Eq; [|done]. cbn in Hr. set (d0 := wo_meddle w i d) in *.
  assert (wp (pool_exec IdErrStore (rd (λ _ d, take 65 (base.elements (key_ids d)))))
    (λ r _, ∀ ids, r = Ok ids → ids = take 65 (base.elements (key_ids d0))) (Txs d0 d0 (wo_env w i))) as Hw.
  { apply wp_pool_read; naive_solver. }
  unfold wp in Hw. destruct (pool_exec _ _ _) as [[ids|e] s]; [|done]. cbn in Hr, Hw. specialize (Hw ids eq_refl) as ->.
  assert (is_ok (Require (Some k) (take 65 (base.elements (key_ids d0)))) = true) as Eo by (unfold Require; by destruct (is_ok _)).
  apply Require_all in Eo.
  assert (key_ids d0 ⊆ dom (kr_keys k)) as Hsub.
  { apply (take_all _ _ 65); [rewrite size_dom; lia|]. eapply Forall_impl; [exact Eo|]. intros id. simpl. by rewrite elem_of_dom. }
  apply elem_of_dom, Hsub, key_ids_spec. eauto.
Qed.

(** ** Samples *)

#[local] Existing Instances rfc9562 sample_http sample_bodies sample_history_json sample_audit_json sample_resource_json.

(** The refresh of the sample: alice's, in the sample's workspace. *)
Lemma request_authorized_witness : ∃ cx j d' c,
  let_in sample_auth (Custody.quiet 400) 0 session_db "r1" sample_sync "viewer" cx j d' ∧
  apiRoutes sample_oidc cx sample_sync = Invoke c ∧
  validMutation sample_oidc sample_sync (cx_principal cx) = true.
Proof.
  destruct (request_authorized sample_time_json sample_auth sample_surroundings (Custody.quiet 400) 0 session_db "r1" sample_sync)
    as [(x & Hr & Hx & _)|(cx & j & d' & c & Hl & Hc & _ & _)].
  - exfalso. assert (x = Success 202 "" (SyncBody (sample_id 480))) as ->.
    { apply (f_equal (λ r, match r with Ok x => x | Err _ => Panicked end)) in Hr. rewrite <-Hr. vm_compute. reflexivity. }
    destruct Hx as [Hx|[p Hx]]; [vm_compute in Hx|]; discriminate Hx.
  - exists cx, j, d', c. split; [exact Hl|]. split; [exact Hc|].
    destruct Hl as (_ & _ & [H|H]); [vm_compute in H; discriminate H|exact H].
Defined.

(** A ring of one key. *)
Definition sample_file : KeyFile := MkKeyFile (Some (true, 384)) (Some (true, 384)) (Some [123%N]).
Lemma readiness_complete_witness : ∃ k,
  LoadKeyring (λ _, Some ("key", [("key", "x")])) (λ _, [Delim "{"; Delim "}"]) (λ _, Some (replicate 32 1%N)) sample_file = Ok k ∧
  is_Some (kr_keys k !! "key").
Proof.
  destruct (LoadKeyring _ _ _ sample_file) as [k|e] eqn:E; [|vm_compute in E; discriminate E].
  exists k. split; [reflexivity|].
  apply (readiness_complete _ _ _ _ _ (Custody.quiet 400) 0 session_db (sample_request "GET" "/readyz") E) with (key := (wid, cid, 1)) (v := CredentialVersion [1%N] [] [] [] 1 "key" None).
  - vm_compute in E. injection E as <-. vm_compute. reflexivity.
  - vm_compute. reflexivity.
Defined.
